(** * 2-3DReplayer: the log decoding pipeline

  A shallow embedding of the decoding core of the replayer: the line
  cursor ([DataIterator]), the symbol tree parser, the snapshot builder
  ([PartialWorldState]), the simulation log and the two decoders
  ([ReplayParser], [ULGParser]).

  Conventions of the embedding.
  - A JavaScript number is a [number]: an exact rational or [NaN].  The
    rounding of IEEE doubles (and of the [Float32Array] cells that hold
    object states) is not modelled, and there are no infinities: a division
    by zero is [NaN].
  - A JavaScript string is a [string]; only the one-byte characters occur.
  - A value that JavaScript compares by reference (GameState, GameScore,
    ParameterMap) carries the serial number of its allocation, and
    reference comparison compares serial numbers.
  - An exception is a result value; the mutations made before the throw
    stay in the state that is returned with it.
  - Event dispatch, console output and team colours do not feed back into
    decoding and are left out. *)

From Stdlib Require Import ZArith QArith Qround Lia List String Ascii Bool Arith.
Import ListNotations.

Set Warnings "-register-all".

Open Scope string_scope.
Open Scope list_scope.
Open Scope nat_scope.

(* ===================================================================== *)
(** ** JavaScript values and built-ins *)
(* ===================================================================== *)

Module JS.

(** *** Numbers *)

Inductive number : Type :=
| Num (q : Q)
| NaN.

Definition ofZ (z : Z) : number := Num (inject_Z z).
Definition ofNat (n : nat) : number := ofZ (Z.of_nat n).

Definition add (a b : number) : number :=
  match a, b with
  | Num x, Num y => Num (Qred (x + y))
  | _, _ => NaN
  end.

Definition sub (a b : number) : number :=
  match a, b with
  | Num x, Num y => Num (Qred (x - y))
  | _, _ => NaN
  end.

Definition mul (a b : number) : number :=
  match a, b with
  | Num x, Num y => Num (Qred (x * y))
  | _, _ => NaN
  end.

Definition div (a b : number) : number :=
  match a, b with
  | Num x, Num y => if Qeq_bool y 0 then NaN else Num (Qred (x / y))
  | _, _ => NaN
  end.

Definition neg (a : number) : number :=
  match a with
  | Num x => Num (Qred (- x))
  | NaN => NaN
  end.

(** [Math.round]: the nearest integer, ties towards plus infinity. *)
Definition Math_round (a : number) : number :=
  match a with
  | Num x => Num (inject_Z (Qfloor (x + (1 # 2))))
  | NaN => NaN
  end.

(** [Math.floor]. *)
Definition Math_floor (a : number) : number :=
  match a with
  | Num x => Num (inject_Z (Qfloor x))
  | NaN => NaN
  end.

(** [a === b] and [a !== b] on numbers: [NaN] equals nothing. *)
Definition eqb (a b : number) : bool :=
  match a, b with
  | Num x, Num y => Qeq_bool x y
  | _, _ => false
  end.

Definition neqb (a b : number) : bool := negb (eqb a b).

(** [a < b] and [a > b]: false as soon as one side is [NaN]. *)
Definition ltb (a b : number) : bool :=
  match a, b with
  | Num x, Num y => negb (Qle_bool y x)
  | _, _ => false
  end.

Definition gtb (a b : number) : bool := ltb b a.

(** [a >= b]. *)
Definition geb (a b : number) : bool :=
  match a, b with
  | Num x, Num y => Qle_bool y x
  | _, _ => false
  end.

Definition lt (a b : number) : Prop :=
  match a, b with
  | Num x, Num y => (x < y)%Q
  | _, _ => False
  end.

(** Truthiness of a number: zero and [NaN] are falsy. *)
Definition truthy (a : number) : bool :=
  match a with
  | Num x => negb (Qeq_bool x 0)
  | NaN => false
  end.

(** An array index: the natural number a number denotes, if any.  Writing
    an array at any other key sets a property and leaves the elements and
    the length alone. *)
Definition index (a : number) : option nat :=
  match a with
  | Num x => if Qeq_bool x (inject_Z (Qfloor x)) && (0 <=? Qfloor x)%Z
             then Some (Z.to_nat (Qfloor x)) else None
  | NaN => None
  end.

(** *** Strings *)

Fixpoint drop (n : nat) (s : string) : string :=
  match n, s with
  | O, _ => s
  | S _, EmptyString => EmptyString
  | S n', String _ s' => drop n' s'
  end.

Fixpoint take (n : nat) (s : string) : string :=
  match n, s with
  | O, _ => EmptyString
  | S _, EmptyString => EmptyString
  | S n', String c s' => String c (take n' s')
  end.

(** A relative index of [slice]: negative counts from the end, and the
    result is clamped to the string. *)
Definition rel_index (len : nat) (i : Z) : nat :=
  if (i <? 0)%Z then Z.to_nat (Z.max (Z.of_nat len + i) 0)
  else Nat.min (Z.to_nat i) len.

(** [s.slice(from, to)]. *)
Definition slice (s : string) (from to : Z) : string :=
  let a := rel_index (String.length s) from in
  let b := rel_index (String.length s) to in
  take (b - a) (drop a s).

(** [s.slice(from)]. *)
Definition slice_from (s : string) (from : Z) : string :=
  drop (rel_index (String.length s) from) s.

(** [s.charAt(i)]: the empty string out of range. *)
Definition charAt (s : string) (i : nat) : string :=
  match String.get i s with
  | Some c => String c EmptyString
  | None => EmptyString
  end.

(** [s.split(sep)] for a separator of one character. *)
Fixpoint split_acc (sep : ascii) (cur : string) (s : string) : list string :=
  match s with
  | EmptyString => [cur]
  | String c s' =>
      if Ascii.eqb c sep then cur :: split_acc sep EmptyString s'
      else split_acc sep (cur ++ String c EmptyString)%string s'
  end.

Definition split (sep : ascii) (s : string) : list string :=
  split_acc sep EmptyString s.

(** [parts.join(sep)]. *)
Definition join (sep : string) (parts : list string) : string :=
  String.concat sep parts.

(** [s.indexOf(c, from)] for one character: [None] stands for -1. *)
Fixpoint indexOf_from (c : ascii) (s : string) (pos : nat) : option nat :=
  match s with
  | EmptyString => None
  | String d s' => if Ascii.eqb d c then Some pos else indexOf_from c s' (S pos)
  end.

Definition indexOf (c : ascii) (s : string) (from : nat) : option nat :=
  indexOf_from c (drop from s) from.

(** [s.lastIndexOf(c)] for one character: [None] stands for -1. *)
Fixpoint lastIndexOf_from (c : ascii) (s : string) (pos : nat) : option nat :=
  match s with
  | EmptyString => None
  | String d s' =>
      match lastIndexOf_from c s' (S pos) with
      | Some i => Some i
      | None => if Ascii.eqb d c then Some pos else None
      end
  end.

Definition lastIndexOf (c : ascii) (s : string) : option nat :=
  lastIndexOf_from c s 0.

(** *** [parseInt] and [parseFloat] *)

(** The white space that [parseInt] and [parseFloat] skip, among the
    characters below 256: the controls 9 to 13, the blank and the
    no-break space. *)
Definition isWhiteSpace (c : ascii) : bool :=
  let n := nat_of_ascii c in
  ((9 <=? n) && (n <=? 13)) || (n =? 32) || (n =? 160).

Fixpoint trimStart (s : string) : string :=
  match s with
  | String c s' => if isWhiteSpace c then trimStart s' else s
  | EmptyString => EmptyString
  end.

(** The value of a digit in a radix of at most 36. *)
Definition digitValue (c : ascii) : option Z :=
  let n := nat_of_ascii c in
  if (48 <=? n) && (n <=? 57) then Some (Z.of_nat (n - 48))
  else if (97 <=? n) && (n <=? 122) then Some (Z.of_nat (n - 87))
  else if (65 <=? n) && (n <=? 90) then Some (Z.of_nat (n - 55))
  else None.

Definition digitIn (radix : Z) (c : ascii) : option Z :=
  match digitValue c with
  | Some d => if (d <? radix)%Z then Some d else None
  | None => None
  end.

(** The longest prefix of digits: its value, how many digits it has, and
    what follows it. *)
Fixpoint digits (radix : Z) (acc : Z) (count : nat) (s : string) : Z * nat * string :=
  match s with
  | String c s' =>
      match digitIn radix c with
      | Some d => digits radix (acc * radix + d)%Z (S count) s'
      | None => (acc, count, s)
      end
  | EmptyString => (acc, count, s)
  end.

(** An optional sign. *)
Definition sign (s : string) : bool * string :=
  match s with
  | String "-" s' => (true, s')
  | String "+" s' => (false, s')
  | _ => (false, s)
  end.

Definition signed (negative : bool) (z : Z) : Z := if negative then (- z)%Z else z.

(** The prefix [0x] or [0X] that [parseInt] drops in radix 16. *)
Definition stripHexPrefix (s : string) : string :=
  match s with
  | String "0" (String "x" s') => s'
  | String "0" (String "X" s') => s'
  | _ => s
  end.

(** [parseInt(s, radix)] for radix 10 or 16. *)
Definition parseInt (s : string) (radix : Z) : number :=
  let '(negative, s1) := sign (trimStart s) in
  let s2 := if (radix =? 16)%Z then stripHexPrefix s1 else s1 in
  let '(v, count, _) := digits radix 0 0 s2 in
  match count with
  | O => NaN
  | S _ => ofZ (signed negative v)
  end.

(** [parseInt(a[i], radix)] where [a[i]] may be [undefined]: the string
    [undefined] holds no digit in radix 10, and none at its start in
    radix 16. *)
Definition parseInt_opt (s : option string) (radix : Z) : number :=
  match s with
  | Some s => parseInt s radix
  | None => NaN
  end.

Definition pow10 (e : Z) : Q :=
  if (0 <=? e)%Z then inject_Z (10 ^ e) else / inject_Z (10 ^ (- e)).

(** The exponent part of a decimal literal, counted only when a digit
    follows the letter and the sign. *)
Definition exponent (s : string) : Z :=
  match s with
  | String c s' =>
      if Ascii.eqb c "e" || Ascii.eqb c "E" then
        let '(negative, s1) := sign s' in
        let '(v, count, _) := digits 10 0 0 s1 in
        match count with
        | O => 0%Z
        | S _ => signed negative v
        end
      else 0%Z
  | EmptyString => 0%Z
  end.

(** [parseFloat(s)]: the longest prefix that is a decimal literal.  The
    literal [Infinity] has no value in this model and reads as [NaN]. *)
Definition parseFloat (s : string) : number :=
  let '(negative, s1) := sign (trimStart s) in
  let '(ip, icount, s2) := digits 10 0 0 s1 in
  let '(fp, fcount, s3) :=
    match s2 with
    | String "." s' => digits 10 0 0 s'
    | _ => (0%Z, O, s2)
    end in
  match icount + fcount with
  | O => NaN
  | S _ =>
      let mantissa := (inject_Z ip + inject_Z fp * pow10 (- Z.of_nat fcount))%Q in
      let v := (mantissa * pow10 (exponent s3))%Q in
      Num (Qred (if negative then - v else v))
  end.

Definition parseFloat_opt (s : option string) : number :=
  match s with
  | Some s => parseFloat s
  | None => NaN
  end.

(** *** Arrays *)

(** [a[i] = v] on an array: the array grows, with holes, when [i] is past
    its end. *)
Fixpoint array_set {A : Type} (l : list (option A)) (i : nat) (v : A) : list (option A) :=
  match i, l with
  | O, [] => [Some v]
  | O, _ :: l' => Some v :: l'
  | S i', [] => None :: array_set [] i' v
  | S i', x :: l' => x :: array_set l' i' v
  end.

(** [a[i]]: [None] is [undefined], for a hole as for an index out of
    range. *)
Definition array_get {A : Type} (l : list (option A)) (i : nat) : option A :=
  match nth_error l i with
  | Some x => x
  | None => None
  end.

(** *** Objects read and written at a number

    An array that the code only reads and writes at [a[n]], for any number
    [n], is kept as the list of its properties, latest first.  Two numbers
    name the same property when they are equal, and [NaN] names one too. *)

Definition sameKey (a b : number) : bool :=
  match a, b with
  | Num x, Num y => Qeq_bool x y
  | NaN, NaN => true
  | _, _ => false
  end.

Definition props (A : Type) : Type := list (number * A).

Fixpoint prop_get {A : Type} (l : props A) (key : number) : option A :=
  match l with
  | [] => None
  | (k, v) :: rest => if sameKey k key then Some v else prop_get rest key
  end.

Definition prop_set {A : Type} (l : props A) (key : number) (v : A) : props A :=
  (key, v) :: l.

(** [a[n] = v] on an array whose elements and length matter: a number that
    is no index sets a property, which nothing reads. *)
Definition array_set_at {A : Type} (l : list (option A)) (key : number) (v : A)
  : list (option A) :=
  match index key with
  | Some i => array_set l i v
  | None => l
  end.

End JS.

(* ===================================================================== *)
(** ** The line cursor: [DataIterator] *)
(* ===================================================================== *)

Module DataIterator.

(** The characters the expression [[^\r\n]+] refuses. *)
Definition isLineTerminator (c : ascii) : bool :=
  Ascii.eqb c "010" || Ascii.eqb c "013".

Fixpoint skipTerminators (s : string) : string :=
  match s with
  | String c s' => if isLineTerminator c then skipTerminators s' else s
  | EmptyString => EmptyString
  end.

(** The longest prefix without a line terminator. *)
Fixpoint token (s : string) : string :=
  match s with
  | String c s' => if isLineTerminator c then EmptyString else String c (token s')
  | EmptyString => EmptyString
  end.

(** [regExp.exec(data)] for the global expression [[^\r\n]+], started at
    [lastIndex]: the first match at or after [lastIndex] and the index
    just past it, or [None] (in which case JavaScript resets [lastIndex]
    to zero). *)
Definition regExp_exec (data : string) (lastIndex : nat) : option (string * nat) :=
  match skipTerminators (JS.drop lastIndex data) with
  | EmptyString => None
  | String _ _ as r =>
      let start := String.length data - String.length r in
      Some (token r, start + String.length (token r))
  end.

Record t : Type := mk {
  data : string;
  lastIndex : nat;          (* regExp.lastIndex *)
  line : option string;
  partialData : bool
}.

Definition new (d : string) (partial : bool) : t :=
  mk d 0 None partial.

Definition dispose (it : t) : t :=
  mk EmptyString 0 None false.

(** Truthiness of [line]: [undefined] and the empty string are falsy. *)
Definition hasLine (it : t) : bool :=
  match line it with
  | Some (String _ _) => true
  | _ => false
  end.

(** [update]: the result flag is [!this.line]. *)
Definition update (it : t) (d : string) (partial incremental : bool) : t * bool :=
  let it1 :=
    if incremental
    then mk (JS.drop (lastIndex it) (data it) ++ d)%string 0 (line it) (partialData it)
    else mk d (lastIndex it) (line it) (partialData it) in
  let it2 := mk (data it1) (lastIndex it1) (line it1) partial in
  (it2, negb (hasLine it2)).

(** The outcome of [exec] (or [test]) followed by the check for the end
    of partial data: the tokens that survive and [regExp.lastIndex]. *)
Definition exec_checked (it : t) : option string * nat :=
  let '(tokens, li) :=
    match regExp_exec (data it) (lastIndex it) with
    | Some (tok, li) => (Some tok, li)
    | None => (None, 0)
    end in
  if partialData it && (li =? String.length (data it))
  then (None, li) else (tokens, li).

Definition hasNext (it : t) : bool :=
  match fst (exec_checked it) with
  | Some _ => true
  | None => false
  end.

Definition next (it : t) : t :=
  let idx := lastIndex it in
  match exec_checked it with
  | (None, _) => mk (data it) idx None (partialData it)
  | (Some tok, li) => mk (data it) li (Some tok) (partialData it)
  end.

(** *** The cursor as a function of the text that is left *)

(** What follows the first token of [s]. *)
Fixpoint afterToken (s : string) : string :=
  match s with
  | String c s' => if isLineTerminator c then s else afterToken s'
  | EmptyString => EmptyString
  end.

(** One step of the cursor on the text [r] that is left: the line it
    yields and the text left after it. *)
Definition scan (partial : bool) (r : string) : option (string * string) :=
  match skipTerminators r with
  | EmptyString => None
  | String _ _ as r' =>
      match afterToken r' with
      | EmptyString => if partial then None else Some (token r', EmptyString)
      | String _ _ as rest => Some (token r', rest)
      end
  end.

Definition remaining (it : t) : string := JS.drop (lastIndex it) (data it).

(** The lines the cursor yields on the text [r], one [scan] after the
    other, and the text it leaves.  Each line takes a character at least,
    so the length of [r] bounds their number. *)
Fixpoint linesUpTo (fuel : nat) (partial : bool) (r : string) : list string :=
  match fuel with
  | O => []
  | S fuel' =>
      match scan partial r with
      | Some (l, rest) => l :: linesUpTo fuel' partial rest
      | None => []
      end
  end.

Fixpoint restUpTo (fuel : nat) (partial : bool) (r : string) : string :=
  match fuel with
  | O => r
  | S fuel' =>
      match scan partial r with
      | Some (_, rest) => restUpTo fuel' partial rest
      | None => r
      end
  end.

Definition lines (partial : bool) (r : string) : list string :=
  linesUpTo (String.length r) partial r.

Definition rest (partial : bool) (r : string) : string :=
  restUpTo (String.length r) partial r.

End DataIterator.


(* ===================================================================== *)
(** ** Exceptions *)
(* ===================================================================== *)

(** How a call completes: normally, or by a throw.  Either way it carries
    the state as the call left it. *)
Inductive completion (A : Type) : Type :=
| Normal (a : A)
| Thrown (a : A).

Arguments Normal {A} a.
Arguments Thrown {A} a.

Definition completed {A : Type} (c : completion A) : A :=
  match c with
  | Normal a => a
  | Thrown a => a
  end.

Definition threw {A : Type} (c : completion A) : bool :=
  match c with
  | Normal _ => false
  | Thrown _ => true
  end.

(* ===================================================================== *)
(** ** JsMath *)
(* ===================================================================== *)

Module JsMath.

(** [Math.PI], the double nearest to pi, as the rational it is. *)
Definition Math_PI : Q := 884279719003555 # 281474976710656.

Definition PIby180 : JS.number := JS.div (JS.Num Math_PI) (JS.ofZ 180).
Definition NegPIby180 : JS.number := JS.div (JS.neg (JS.Num Math_PI)) (JS.ofZ 180).

Definition toRad (deg : JS.number) : JS.number := JS.mul deg PIby180.

End JsMath.

(* ===================================================================== *)
(** ** ParameterMap *)
(* ===================================================================== *)

Module ParameterMap.

(** What [JSON.parse] can return, which is also what a parameter object
    holds.  [paramObj] is typed as an object in the source, but the result
    of [JSON.parse] is stored in it unchecked. *)
Inductive value : Type :=
| VNum (n : JS.number)
| VBool (b : bool)
| VStr (s : string)
| VObj (fields : list (string * value))
| VArr (items : list value)
| VNull.

Definition ParameterObject : Type := value.

Definition empty : ParameterObject := VObj [].

(** [fields[key]] on the fields of an object. *)
Fixpoint lookup (key : string) (fields : list (string * value)) : option value :=
  match fields with
  | [] => None
  | (k, v) :: rest => if String.eqb k key then Some v else lookup key rest
  end.

(** [fields[key] = v]: an existing key keeps its place. *)
Fixpoint assign (key : string) (v : value) (fields : list (string * value))
  : list (string * value) :=
  match fields with
  | [] => [(key, v)]
  | (k, w) :: rest =>
      if String.eqb k key then (k, v) :: rest else (k, w) :: assign key v rest
  end.

(** [obj[key] = v]; a write to anything but an object is lost. *)
Definition set (key : string) (v : value) (obj : ParameterObject) : ParameterObject :=
  match obj with
  | VObj fields => VObj (assign key v fields)
  | other => other
  end.

(** [obj[key]] for a parameter name: [None] when the read throws (on
    [null]), [Some None] for [undefined]. *)
Definition get (obj : ParameterObject) (key : string) : option (option value) :=
  match obj with
  | VNull => None
  | VObj fields => Some (lookup key fields)
  | _ => Some None
  end.

(** A parameter map is compared by reference where it stands for a player
    type: [id] is the serial number of its allocation. *)
Record t : Type := mk {
  id : nat;
  paramObj : ParameterObject
}.

Definition clear (m : t) : t := mk (id m) empty.

(** [getNumber]: [None] when the read throws, [Some None] for
    [undefined]. *)
Definition getNumber (m : t) (key : string) : option (option JS.number) :=
  match get (paramObj m) key with
  | None => None
  | Some (Some (VNum n)) => Some (Some n)
  | Some _ => Some None
  end.

(** [a === b] on two references that may be [undefined]. *)
Definition same (a b : option t) : bool :=
  match a, b with
  | Some x, Some y => id x =? id y
  | None, None => true
  | _, _ => false
  end.

End ParameterMap.

(* ===================================================================== *)
(** ** GameState and GameScore *)
(* ===================================================================== *)

Module GameState.

(** [id] is the serial number of the allocation: two game states are the
    same object when their serial numbers agree. *)
Record t : Type := mk {
  id : nat;
  time : JS.number;
  playMode : string
}.

Definition same (a b : t) : bool := id a =? id b.

End GameState.

Module GameScore.

Record t : Type := mk {
  id : nat;
  time : JS.number;
  goalsLeft : JS.number;
  penaltyScoreLeft : JS.number;
  penaltyMissLeft : JS.number;
  goalsRight : JS.number;
  penaltyScoreRight : JS.number;
  penaltyMissRight : JS.number
}.

(** The constructor, with its argument order. *)
Definition new (id : nat) (time goalsLeft goalsRight
                penScoreLeft penMissLeft penScoreRight penMissRight : JS.number) : t :=
  mk id time goalsLeft penScoreLeft penMissLeft goalsRight penScoreRight penMissRight.

Definition same (a b : t) : bool := id a =? id b.

End GameScore.

(* ===================================================================== *)
(** ** ObjectState and AgentState *)
(* ===================================================================== *)

Module ObjectState.

(** Indices in the object state array. *)
Definition X_POS : nat := 0.
Definition Y_POS : nat := 1.
Definition Z_POS : nat := 2.
Definition X_QUAT : nat := 3.
Definition Y_QUAT : nat := 4.
Definition Z_QUAT : nat := 5.
Definition W_QUAT : nat := 6.

Record ObjectStateParams : Type := mkParams {
  p_x : JS.number; p_y : JS.number; p_z : JS.number;
  p_qx : JS.number; p_qy : JS.number; p_qz : JS.number; p_qw : JS.number
}.

(** The state array. *)
Record t : Type := mk { state : list JS.number }.

(** [encodeObjectState] into a fresh array of seven cells. *)
Definition encodeObjectState (x y z qx qy qz qw : JS.number) : list JS.number :=
  [x; y; z; qx; qy; qz; qw].

(** The three ways to construct an object state. *)
Definition new : t := mk (encodeObjectState (JS.ofZ 0) (JS.ofZ 0) (JS.ofZ 0)
                                            (JS.ofZ 0) (JS.ofZ 0) (JS.ofZ 0) (JS.ofZ 1)).

Definition ofArray (params : list JS.number) : t := mk params.

Definition ofParams (p : ObjectStateParams) : t :=
  mk (encodeObjectState (p_x p) (p_y p) (p_z p) (p_qx p) (p_qy p) (p_qz p) (p_qw p)).

(** [state[i] || 0]. *)
Definition cellOr0 (o : t) (i : nat) : JS.number :=
  match nth_error (state o) i with
  | Some n => if JS.truthy n then n else JS.ofZ 0
  | None => JS.ofZ 0
  end.

Definition x (o : t) : JS.number := cellOr0 o X_POS.
Definition y (o : t) : JS.number := cellOr0 o Y_POS.
Definition z (o : t) : JS.number := cellOr0 o Z_POS.
Definition qx (o : t) : JS.number := cellOr0 o X_QUAT.
Definition qy (o : t) : JS.number := cellOr0 o Y_QUAT.
Definition qz (o : t) : JS.number := cellOr0 o Z_QUAT.

(** [state[W_QUAT] !== undefined ? state[W_QUAT] : 1]. *)
Definition qw (o : t) : JS.number :=
  match nth_error (state o) W_QUAT with
  | Some n => n
  | None => JS.ofZ 1
  end.

Definition position (o : t) : JS.number * JS.number * JS.number := (x o, y o, z o).

Definition orientation (o : t) : JS.number * JS.number * JS.number * JS.number :=
  (qx o, qy o, qz o, qw o).

(** [state[i] !== 0], where a cell past the end is [undefined]. *)
Definition cellNot0 (o : t) (i : nat) : bool :=
  match nth_error (state o) i with
  | Some n => JS.neqb n (JS.ofZ 0)
  | None => true
  end.

Definition isValid (o : t) : bool :=
  cellNot0 o X_QUAT || cellNot0 o Y_QUAT || cellNot0 o Z_QUAT || cellNot0 o W_QUAT.

End ObjectState.

Module AgentState.

(** Indices in the agent state array. *)
Definition MODEL_IDX : nat := 7.
Definition FLAGS : nat := 8.
Definition DATA_IDX : nat := 9.
Definition JOINT_ANGLES : nat := 10.

Record AgentStateParams : Type := mkParams {
  modelIdx : JS.number;
  flags : JS.number;
  p_x : JS.number; p_y : JS.number; p_z : JS.number;
  p_qx : JS.number; p_qy : JS.number; p_qz : JS.number; p_qw : JS.number;
  jointAngles : list JS.number;
  data : list (option JS.number)        (* an array that may have holes *)
}.

(** An agent state is an object state over a longer array. *)
Definition t : Type := ObjectState.t.

(** A hole of [data] reads as [undefined], which a number cell stores as
    [NaN]. *)
Definition cellOfData (d : option JS.number) : JS.number :=
  match d with
  | Some n => n
  | None => JS.NaN
  end.

(** [encodeAgentState] into a fresh array. *)
Definition encodeAgentState (modelIdx flags x y z qx qy qz qw : JS.number)
    (jointAngles : list JS.number) (data : list (option JS.number)) : list JS.number :=
  let dataIdx := JOINT_ANGLES + List.length jointAngles in
  ObjectState.encodeObjectState x y z qx qy qz qw
    ++ [modelIdx; flags; JS.ofNat dataIdx]
    ++ jointAngles
    ++ map cellOfData data.

Definition ofParams (p : AgentStateParams) : t :=
  ObjectState.mk
    (encodeAgentState (modelIdx p) (flags p) (p_x p) (p_y p) (p_z p)
                      (p_qx p) (p_qy p) (p_qz p) (p_qw p) (jointAngles p) (data p)).

Definition isValid (a : t) : bool :=
  ObjectState.isValid a && (DATA_IDX <? List.length (ObjectState.state a)).

End AgentState.

(* ===================================================================== *)
(** ** WorldState and PartialWorldState *)
(* ===================================================================== *)

Module WorldState.

Record t : Type := mk {
  time : JS.number;
  gameTime : JS.number;
  gameState : GameState.t;
  score : GameScore.t;
  ballStateArr : list JS.number;
  leftAgentStateArrs : list (option (list JS.number));
  rightAgentStateArrs : list (option (list JS.number))
}.

Definition ballState (w : t) : ObjectState.t := ObjectState.ofArray (ballStateArr w).

(** [map] keeps the holes of the array. *)
Definition unwrapAgentStatesArray (agentStates : list (option AgentState.t))
  : list (option (list JS.number)) :=
  map (option_map ObjectState.state) agentStates.

Definition wrapAgentStatesArray (statesArr : list (option (list JS.number)))
  : list (option AgentState.t) :=
  map (option_map ObjectState.ofArray) statesArr.

End WorldState.

Module PartialWorldState.

(** [allocated] counts the GameState and GameScore objects the builder has
    created so far; it is the serial number of the next one. *)
Record t : Type := mk {
  time : JS.number;
  timeStep : JS.number;
  gameTime : JS.number;
  gameState : GameState.t;
  score : GameScore.t;
  ballState : ObjectState.t;
  leftAgentStates : list (option AgentState.t);
  rightAgentStates : list (option AgentState.t);
  allocated : nat
}.

Definition new (time timeStep gameTime : JS.number) : t :=
  mk time timeStep gameTime
     (GameState.mk 0 time "unknown")
     (GameScore.new 1 time (JS.ofZ 0) (JS.ofZ 0) (JS.ofZ 0) (JS.ofZ 0) (JS.ofZ 0) (JS.ofZ 0))
     ObjectState.new [] [] 2.

Definition set_timeStep (v : JS.number) (p : t) : t :=
  mk (time p) v (gameTime p) (gameState p) (score p) (ballState p)
     (leftAgentStates p) (rightAgentStates p) (allocated p).

Definition set_ballState (v : ObjectState.t) (p : t) : t :=
  mk (time p) (timeStep p) (gameTime p) (gameState p) (score p) v
     (leftAgentStates p) (rightAgentStates p) (allocated p).

Definition set_leftAgentStates (v : list (option AgentState.t)) (p : t) : t :=
  mk (time p) (timeStep p) (gameTime p) (gameState p) (score p) (ballState p)
     v (rightAgentStates p) (allocated p).

Definition set_rightAgentStates (v : list (option AgentState.t)) (p : t) : t :=
  mk (time p) (timeStep p) (gameTime p) (gameState p) (score p) (ballState p)
     (leftAgentStates p) v (allocated p).

(** Rounding to the millisecond: [Math.round(v * 1000) / 1000]. *)
Definition roundMillis (v : JS.number) : JS.number :=
  JS.div (JS.Math_round (JS.mul v (JS.ofZ 1000))) (JS.ofZ 1000).

Definition setGameTime (p : t) (g : JS.number) : t :=
  mk (time p) (timeStep p) (roundMillis g) (gameState p) (score p) (ballState p)
     (leftAgentStates p) (rightAgentStates p) (allocated p).

Definition setPlaymode (p : t) (playMode : string) : t :=
  if negb (String.eqb (GameState.playMode (gameState p)) playMode) then
    mk (time p) (timeStep p) (gameTime p)
       (GameState.mk (allocated p) (time p) playMode)
       (score p) (ballState p) (leftAgentStates p) (rightAgentStates p)
       (S (allocated p))
  else p.

Definition setScore (p : t) (goalsLeft goalsRight
                     penScoreLeft penMissLeft penScoreRight penMissRight : JS.number) : t :=
  let s := score p in
  if JS.neqb (GameScore.goalsLeft s) goalsLeft
     || JS.neqb (GameScore.goalsRight s) goalsRight
     || JS.neqb (GameScore.penaltyScoreLeft s) penScoreLeft
     || JS.neqb (GameScore.penaltyMissLeft s) penMissLeft
     || JS.neqb (GameScore.penaltyScoreRight s) penScoreRight
     || JS.neqb (GameScore.penaltyMissRight s) penMissRight
  then
    mk (time p) (timeStep p) (gameTime p) (gameState p)
       (GameScore.new (allocated p) (time p) goalsLeft goalsRight
                      penScoreLeft penMissLeft penScoreRight penMissRight)
       (ballState p) (leftAgentStates p) (rightAgentStates p)
       (S (allocated p))
  else p.

(** [setScore] with the four penalty arguments left to their default. *)
Definition setScore2 (p : t) (goalsLeft goalsRight : JS.number) : t :=
  setScore p goalsLeft goalsRight (JS.ofZ 0) (JS.ofZ 0) (JS.ofZ 0) (JS.ofZ 0).

(** [appendTo]: the builder after the call, the list after the call, and
    the result. *)
Definition appendTo (p : t) (states : list WorldState.t) : t * list WorldState.t * bool :=
  if 0 <? List.length (leftAgentStates p) + List.length (rightAgentStates p) then
    let w := WorldState.mk (time p) (gameTime p) (gameState p) (score p)
               (ObjectState.state (ballState p))
               (WorldState.unwrapAgentStatesArray (leftAgentStates p))
               (WorldState.unwrapAgentStatesArray (rightAgentStates p)) in
    let p' := mk (roundMillis (JS.add (time p) (timeStep p)))
                 (timeStep p) (gameTime p) (gameState p) (score p) (ballState p)
                 [] [] (allocated p) in
    (p', states ++ [w], true)
  else (p, states, false).

End PartialWorldState.

(* ===================================================================== *)
(** ** Teams and agents *)
(* ===================================================================== *)

Module GameUtil.

Inductive SimulationType : Type := TWOD | THREED.

Inductive TeamSide : Type := LEFT | NEUTRAL | RIGHT.

End GameUtil.

Module AgentDescription.

Record t : Type := mk {
  playerNo : JS.number;
  side : GameUtil.TeamSide;
  playerTypes : list (option ParameterMap.t);   (* references; [None] is undefined *)
  recentTypeIdx : nat
}.

Definition new (number : JS.number) (side : GameUtil.TeamSide)
    (playerType : option ParameterMap.t) : t :=
  mk number side [playerType] 0.

(** [playerTypes.indexOf(playerType)]. *)
Fixpoint indexOf (playerType : option ParameterMap.t) (l : list (option ParameterMap.t))
    (pos : nat) : option nat :=
  match l with
  | [] => None
  | x :: rest =>
      if ParameterMap.same x playerType then Some pos else indexOf playerType rest (S pos)
  end.

Definition addPlayerType (a : t) (playerType : option ParameterMap.t) : t * bool :=
  match indexOf playerType (playerTypes a) 0 with
  | None =>
      let types := playerTypes a ++ [playerType] in
      (mk (playerNo a) (side a) types (List.length types - 1), true)
  | Some idx => (mk (playerNo a) (side a) (playerTypes a) idx, false)
  end.

End AgentDescription.

Module TeamDescription.

Record t : Type := mk {
  side : GameUtil.TeamSide;
  name : string;
  agents : list AgentDescription.t
}.

Definition new (name : string) (side : GameUtil.TeamSide) : t := mk side name [].

(** The setter of [name]: underscores become spaces. *)
Definition set_name (newName : string) (team : t) : t :=
  mk (side team) (JS.join " " (JS.split "_" newName)) (agents team).

(** The search of [addAgent] over the agents from the last one down: the
    list given here is in array order, the result too. *)
Fixpoint addAgent_scan (l : list AgentDescription.t) (number : JS.number)
    (playerType : option ParameterMap.t) : option (list AgentDescription.t * bool) :=
  match l with
  | [] => None
  | a :: rest =>
      match addAgent_scan rest number playerType with
      | Some (rest', changed) => Some (a :: rest', changed)
      | None =>
          if JS.eqb (AgentDescription.playerNo a) number then
            let '(a', changed) := AgentDescription.addPlayerType a playerType in
            Some (a' :: rest, changed)
          else None
      end
  end.

Definition addAgent (team : t) (number : JS.number) (playerType : option ParameterMap.t)
  : t * bool :=
  match addAgent_scan (agents team) number playerType with
  | Some (agents', changed) => (mk (side team) (name team) agents', changed)
  | None =>
      (mk (side team) (name team)
          (agents team ++ [AgentDescription.new number (side team) playerType]), true)
  end.

(** The same search for [getRecentTypeIdx]. *)
Fixpoint recent_scan (l : list AgentDescription.t) (playerNo : JS.number) : option nat :=
  match l with
  | [] => None
  | a :: rest =>
      match recent_scan rest playerNo with
      | Some idx => Some idx
      | None =>
          if JS.eqb (AgentDescription.playerNo a) playerNo
          then Some (AgentDescription.recentTypeIdx a) else None
      end
  end.

Definition getRecentTypeIdx (team : t) (playerNo : JS.number) : nat :=
  match recent_scan (agents team) playerNo with
  | Some idx => idx
  | None => 0
  end.

End TeamDescription.

(* ===================================================================== *)
(** ** The symbol tree parser *)
(* ===================================================================== *)

Module SymbolTreeParser.

Inductive SymbolNode : Type :=
| Node (values : list string) (children : list SymbolNode).

Definition values (n : SymbolNode) : list string :=
  match n with Node v _ => v end.

Definition children (n : SymbolNode) : list SymbolNode :=
  match n with Node _ c => c end.

(** [node.values[i]] and [node.children[i]]; [None] is [undefined]. *)
Definition value (n : SymbolNode) (i : nat) : option string := nth_error (values n) i.
Definition child (n : SymbolNode) (i : nat) : option SymbolNode := nth_error (children n) i.

(** What [parseNode] comes to: the index after the node and the node, or
    the error it throws.  [OutOfFuel] is an artefact of the embedding: the
    loop and the recursion of [parseNode] run on a step budget. *)
Inductive result : Type :=
| Ok (pos : nat) (node : SymbolNode)
| Error (msg : string)
| OutOfFuel.

(** The pending raw token [input.slice(startIdx, idx)], pushed when it is
    not empty. *)
Definition flush (input : string) (startIdx idx : nat) (vals : list string) : list string :=
  if startIdx <? idx
  then vals ++ [JS.slice input (Z.of_nat startIdx) (Z.of_nat idx)]
  else vals.

(** [parseNode(input, startIdx, parentNode)] from the moment the new node
    exists: [vals] and [kids] are the values and children it has so far,
    [idx] is the scan position.  The caller pushes the node it gets back. *)
Fixpoint parseNode (fuel : nat) (input : string) (startIdx idx : nat)
    (vals : list string) (kids : list SymbolNode) : result :=
  match fuel with
  | O => OutOfFuel
  | S fuel' =>
      if idx <? String.length input then
        let c := JS.charAt input idx in
        if String.eqb c "(" then
          match parseNode fuel' input (idx + 1) (idx + 1) [] [] with
          | Ok pos sub =>
              parseNode fuel' input pos pos (flush input startIdx idx vals) (kids ++ [sub])
          | other => other
          end
        else if String.eqb c ")" then
          Ok (idx + 1) (Node (flush input startIdx idx vals) kids)
        else if String.eqb c " " then
          parseNode fuel' input (idx + 1) (idx + 1) (flush input startIdx idx vals) kids
        else
          parseNode fuel' input startIdx (idx + 1) vals kids
      else Error "Invalid tree structure in input"
  end.

(** [parse(input)]: [None] when it throws. *)
Definition parse (input : string) : option SymbolNode :=
  if negb (String.eqb (JS.charAt input 0) "(")
     || negb (String.eqb (JS.charAt input (String.length input - 1)) ")")
  then None
  else
    match parseNode (S (String.length input)) input 1 1 [] [] with
    | Ok pos node => if pos =? String.length input then Some node else None
    | _ => None
    end.

End SymbolTreeParser.

(* ===================================================================== *)
(** ** The host and the modules outside the sources *)
(* ===================================================================== *)

(** The built-ins of the host that the embedding leaves open: the sine and
    the cosine of a double, and [JSON.parse] ([None] when it throws). *)
Module Host.

Record t : Type := mk {
  Math_sin : JS.number -> JS.number;
  Math_cos : JS.number -> JS.number;
  JSON_parse : string -> option ParameterMap.value
}.

End Host.

(** [SServerUtil], the module of constants and defaults for 2D games, is
    imported by the decoders but its source is not at hand: its constants
    are parameters of the embedding. *)
Module SServerUtil.

Record t : Type := mk {
  (* Environment2DParams and PlayerType2DParams *)
  SIMULATOR_STEP : string;
  PLAYER_TYPE_ID : string;
  (* createDefaultEnvironmentParams, createDefaultPlayerParams,
     createDefaultPlayerTypeParams: the fields of the objects they build *)
  defaultEnvironmentParams : list (string * ParameterMap.value);
  defaultPlayerParams : list (string * ParameterMap.value);
  defaultPlayerTypeParams : list (list (string * ParameterMap.value));
  (* Agent2DFlags *)
  STAND : Z;
  GOALIE : Z;
  (* Agent2DData *)
  STAMINA : nat;
  STAMINA_EFFORT : nat;
  STAMINA_RECOVERY : nat;
  STAMINA_CAPACITY : nat;
  FOCUS_SIDE : nat;
  FOCUS_UNUM : nat;
  KICK_COUNT : nat;
  DASH_COUNT : nat;
  TURN_COUNT : nat;
  CATCH_COUNT : nat;
  MOVE_COUNT : nat;
  TURN_NECK_COUNT : nat;
  VIEW_COUNT : nat;
  SAY_COUNT : nat;
  TACKLE_COUNT : nat;
  POINT_TO_COUNT : nat;
  ATTENTION_COUNT : nat
}.

End SServerUtil.

(* ===================================================================== *)
(** ** SparkUtil *)
(* ===================================================================== *)

Module SparkUtil.
Import ParameterMap.

(** Environment3DParams and PlayerType3DParams. *)
Definition LOG_STEP : string := "log_step".
Definition FIELD_LENGTH : string := "FieldLength".
Definition FIELD_WIDTH : string := "FieldWidth".
Definition FIELD_HEIGHT : string := "FieldHeight".
Definition GOAL_WIDTH : string := "GoalWidth".
Definition GOAL_DEPTH : string := "GoalDepth".
Definition GOAL_HEIGHT : string := "GoalHeight".
Definition FREE_KICK_DISTANCE : string := "FreeKickDistance".
Definition AGENT_RADIUS : string := "AgentRadius".
Definition BALL_RADIUS : string := "BallRadius".
Definition RULE_HALF_TIME : string := "RuleHalfTime".
Definition MODEL_NAME : string := "model".
Definition MODEL_TYPE : string := "model_type".

Definition num (q : Q) : value := VNum (JS.Num q).

Definition createEnvironmentParamsV62 : ParameterObject :=
  set RULE_HALF_TIME (num 300)
  (set BALL_RADIUS (num (42 # 1000))
  (set AGENT_RADIUS (num (4 # 10))
  (set FREE_KICK_DISTANCE (num 1)
  (set GOAL_HEIGHT (num (8 # 10))
  (set GOAL_DEPTH (num (4 # 10))
  (set GOAL_WIDTH (num (14 # 10))
  (set FIELD_HEIGHT (num 40)
  (set FIELD_WIDTH (num 8)
  (set FIELD_LENGTH (num 12)
  (set LOG_STEP (num 200) empty)))))))))).

Definition createEnvironmentParamsV63 : ParameterObject :=
  set FREE_KICK_DISTANCE (num (18 # 10))
  (set GOAL_DEPTH (num (6 # 10))
  (set GOAL_WIDTH (num (21 # 10))
  (set FIELD_WIDTH (num 12)
  (set FIELD_LENGTH (num 18) createEnvironmentParamsV62)))).

Definition createEnvironmentParamsV64 : ParameterObject :=
  set FIELD_WIDTH (num 14)
  (set FIELD_LENGTH (num 21) createEnvironmentParamsV63).

Definition createEnvironmentParamsV66 : ParameterObject :=
  set FREE_KICK_DISTANCE (num 2)
  (set FIELD_WIDTH (num 20)
  (set FIELD_LENGTH (num 30) createEnvironmentParamsV63)).

Definition createDefaultEnvironmentParams : ParameterObject := createEnvironmentParamsV66.

Definition createDefaultPlayerParams : ParameterObject := empty.

(** The player types nao_hetero0 to nao_hetero4. *)
Definition createDefaultPlayerTypeParams : list ParameterObject :=
  map (fun i => set MODEL_TYPE (VNum (JS.ofNat i)) (set MODEL_NAME (VStr "nao_hetero") empty))
      (seq 0 5).

End SparkUtil.

(* ===================================================================== *)
(** ** SimulationLog (with its subclasses Replay and SServerLog) *)
(* ===================================================================== *)

Module SimulationLog.
Import GameUtil.

(** [version] is the field the subclasses Replay and SServerLog add.
    [allocated] counts the ParameterMap objects created for this log; it is
    the serial number of the next one. *)
Record t : Type := mk {
  type : SimulationType;
  frequency : JS.number;
  environmentParams : ParameterMap.t;
  playerParams : ParameterMap.t;
  playerTypes : JS.props ParameterMap.t;       (* read and written at [playerTypes[n]] only *)
  leftTeam : TeamDescription.t;
  rightTeam : TeamDescription.t;
  states : list WorldState.t;
  startTime : JS.number;
  endTime : JS.number;
  duration : JS.number;
  gameStateList : list GameState.t;
  gameScoreList : list GameScore.t;
  fullyLoaded : bool;
  version : JS.number;
  allocated : nat
}.

Definition set_frequency (v : JS.number) (l : t) : t :=
  mk (type l) v (environmentParams l) (playerParams l) (playerTypes l)
     (leftTeam l) (rightTeam l) (states l) (startTime l) (endTime l) (duration l)
     (gameStateList l) (gameScoreList l) (fullyLoaded l) (version l) (allocated l).

Definition set_environmentParams (v : ParameterMap.t) (l : t) : t :=
  mk (type l) (frequency l) v (playerParams l) (playerTypes l)
     (leftTeam l) (rightTeam l) (states l) (startTime l) (endTime l) (duration l)
     (gameStateList l) (gameScoreList l) (fullyLoaded l) (version l) (allocated l).

Definition set_playerParams (v : ParameterMap.t) (l : t) : t :=
  mk (type l) (frequency l) (environmentParams l) v (playerTypes l)
     (leftTeam l) (rightTeam l) (states l) (startTime l) (endTime l) (duration l)
     (gameStateList l) (gameScoreList l) (fullyLoaded l) (version l) (allocated l).

Definition set_playerTypes (v : JS.props ParameterMap.t) (l : t) : t :=
  mk (type l) (frequency l) (environmentParams l) (playerParams l) v
     (leftTeam l) (rightTeam l) (states l) (startTime l) (endTime l) (duration l)
     (gameStateList l) (gameScoreList l) (fullyLoaded l) (version l) (allocated l).

Definition set_leftTeam (v : TeamDescription.t) (l : t) : t :=
  mk (type l) (frequency l) (environmentParams l) (playerParams l) (playerTypes l)
     v (rightTeam l) (states l) (startTime l) (endTime l) (duration l)
     (gameStateList l) (gameScoreList l) (fullyLoaded l) (version l) (allocated l).

Definition set_rightTeam (v : TeamDescription.t) (l : t) : t :=
  mk (type l) (frequency l) (environmentParams l) (playerParams l) (playerTypes l)
     (leftTeam l) v (states l) (startTime l) (endTime l) (duration l)
     (gameStateList l) (gameScoreList l) (fullyLoaded l) (version l) (allocated l).

Definition set_states (v : list WorldState.t) (l : t) : t :=
  mk (type l) (frequency l) (environmentParams l) (playerParams l) (playerTypes l)
     (leftTeam l) (rightTeam l) v (startTime l) (endTime l) (duration l)
     (gameStateList l) (gameScoreList l) (fullyLoaded l) (version l) (allocated l).

Definition set_fullyLoaded (v : bool) (l : t) : t :=
  mk (type l) (frequency l) (environmentParams l) (playerParams l) (playerTypes l)
     (leftTeam l) (rightTeam l) (states l) (startTime l) (endTime l) (duration l)
     (gameStateList l) (gameScoreList l) v (version l) (allocated l).

Definition set_allocated (v : nat) (l : t) : t :=
  mk (type l) (frequency l) (environmentParams l) (playerParams l) (playerTypes l)
     (leftTeam l) (rightTeam l) (states l) (startTime l) (endTime l) (duration l)
     (gameStateList l) (gameScoreList l) (fullyLoaded l) (version l) v.

(** The fields [onStatesUpdated] derives from the states. *)
Definition set_derived (startTime endTime duration : JS.number)
    (gameStateList : list GameState.t) (gameScoreList : list GameScore.t) (l : t) : t :=
  mk (type l) (frequency l) (environmentParams l) (playerParams l) (playerTypes l)
     (leftTeam l) (rightTeam l) (states l) startTime endTime duration
     gameStateList gameScoreList (fullyLoaded l) (version l) (allocated l).

(** [new ParameterMap(params)] on behalf of the log. *)
Definition newParameterMap (params : ParameterMap.ParameterObject) (l : t)
  : ParameterMap.t * t :=
  (ParameterMap.mk (allocated l) params, set_allocated (S (allocated l)) l).

(** The array of the parameter maps for a list of parameter objects: the
    map at index [i] has the serial number [from + i]. *)
Fixpoint numbered (from i : nat) (objs : list ParameterMap.ParameterObject)
  : JS.props ParameterMap.t :=
  match objs with
  | [] => []
  | o :: rest => (JS.ofNat i, ParameterMap.mk (from + i) o) :: numbered from (S i) rest
  end.

(** The loop of [onStatesUpdated] from the second state on. *)
Fixpoint extract (previousGameState : GameState.t) (previousScore : GameScore.t)
    (rest : list WorldState.t)
    (gameStateList : list GameState.t) (gameScoreList : list GameScore.t)
  : list GameState.t * list GameScore.t :=
  match rest with
  | [] => (gameStateList, gameScoreList)
  | w :: rest' =>
      let changedState := negb (GameState.same previousGameState (WorldState.gameState w)) in
      let changedScore := negb (GameScore.same previousScore (WorldState.score w)) in
      extract
        (if changedState then WorldState.gameState w else previousGameState)
        (if changedScore then WorldState.score w else previousScore)
        rest'
        (if changedState then gameStateList ++ [WorldState.gameState w] else gameStateList)
        (if changedScore then gameScoreList ++ [WorldState.score w] else gameScoreList)
  end.

Definition onStatesUpdated (l : t) : t :=
  match states l with
  | [] => l
  | first :: rest =>
      let startTime := WorldState.time first in
      let endTime := WorldState.time (last (states l) first) in
      let '(gsl, gscl) :=
        extract (WorldState.gameState first) (WorldState.score first) rest
                [WorldState.gameState first] [WorldState.score first] in
      set_derived startTime endTime (JS.sub endTime startTime) gsl gscl l
  end.

Definition finalize (l : t) : t := onStatesUpdated (set_fullyLoaded true l).

(** [getIndexForTime]; the result is a number, which need not be an index
    of the array. *)
Definition getIndexForTime (l : t) (time : JS.number) : JS.number :=
  let idx := JS.Math_floor (JS.mul time (frequency l)) in
  if JS.ltb idx (JS.ofZ 0) then JS.ofZ 0
  else if JS.geb idx (JS.ofNat (List.length (states l)))
       then JS.sub (JS.ofNat (List.length (states l))) (JS.ofZ 1)
       else idx.

(** [getStateForTime]: [None] is [undefined], which reading the array at
    a number that is no index within it gives. *)
Definition getStateForTime (l : t) (time : JS.number) : option WorldState.t :=
  match JS.index (getIndexForTime l time) with
  | Some i => nth_error (states l) i
  | None => None
  end.

Section WithUtil.
Variable util : SServerUtil.t.

(** [updateFrequency]; it throws when the parameter object is [null]. *)
Definition updateFrequency (l : t) : completion t :=
  let key := match type l with
             | TWOD => SServerUtil.SIMULATOR_STEP util
             | THREED => SparkUtil.LOG_STEP
             end in
  match ParameterMap.getNumber (environmentParams l) key with
  | None => Thrown l
  | Some (Some step) =>
      if JS.truthy step
      then Normal (set_frequency (JS.div (JS.ofZ 1000) step) l)
      else Normal l
  | Some None => Normal l
  end.

(** The constructor, as the subclasses call it.  The default parameters
    are objects, so [updateFrequency] completes. *)
Definition new (type : SimulationType) (version : JS.number) : t :=
  let env := match type with
             | TWOD => ParameterMap.VObj (SServerUtil.defaultEnvironmentParams util)
             | THREED => SparkUtil.createDefaultEnvironmentParams
             end in
  let player := match type with
                | TWOD => ParameterMap.VObj (SServerUtil.defaultPlayerParams util)
                | THREED => SparkUtil.createDefaultPlayerParams
                end in
  let types := match type with
               | TWOD => map ParameterMap.VObj (SServerUtil.defaultPlayerTypeParams util)
               | THREED => SparkUtil.createDefaultPlayerTypeParams
               end in
  completed (updateFrequency
    (mk type (JS.ofZ 1) (ParameterMap.mk 0 env) (ParameterMap.mk 1 player)
        (numbered 2 0 types)
        (TeamDescription.new "Left Team" LEFT)
        (TeamDescription.new "Right Team" RIGHT)
        [] (JS.ofZ 0) (JS.ofZ 0) (JS.ofZ 0) [] [] false version
        (2 + List.length types))).

End WithUtil.

End SimulationLog.

(* ===================================================================== *)
(** ** LogParserStorage *)
(* ===================================================================== *)

Module LogParserStorage.

Record t : Type := mk {
  partialState : option PartialWorldState.t;
  maxStates : nat;
  leftIndexList : JS.props nat;       (* read and written at [indexList[playerNo]] only *)
  rightIndexList : JS.props nat
}.

Definition new : t := mk None 500 [] [].

Definition set_partialState (v : option PartialWorldState.t) (s : t) : t :=
  mk v (maxStates s) (leftIndexList s) (rightIndexList s).

Definition set_maxStates (v : nat) (s : t) : t :=
  mk (partialState s) v (leftIndexList s) (rightIndexList s).

Definition set_leftIndexList (v : JS.props nat) (s : t) : t :=
  mk (partialState s) (maxStates s) v (rightIndexList s).

Definition set_rightIndexList (v : JS.props nat) (s : t) : t :=
  mk (partialState s) (maxStates s) (leftIndexList s) v.

Definition hasPartialState (s : t) : bool :=
  match partialState s with
  | Some _ => true
  | None => false
  end.

End LogParserStorage.

(* ===================================================================== *)
(** ** three.js: the part the decoders use *)
(* ===================================================================== *)

Module Three.

Record Vector3 : Type := vec3 { vx : JS.number; vy : JS.number; vz : JS.number }.

Record Quaternion : Type :=
  quat { qx : JS.number; qy : JS.number; qz : JS.number; qw : JS.number }.

(** [Quaternion.setFromAxisAngle(axis, angle)]. *)
Definition setFromAxisAngle (host : Host.t) (axis : Vector3) (angle : JS.number)
  : Quaternion :=
  let halfAngle := JS.div angle (JS.ofZ 2) in
  let s := Host.Math_sin host halfAngle in
  quat (JS.mul (vx axis) s) (JS.mul (vy axis) s) (JS.mul (vz axis) s)
       (Host.Math_cos host halfAngle).

End Three.

(* ===================================================================== *)
(** ** The body pass the two decoders share

    [parseReplayBody] and [parseULGBody] are the same loop around a
    different decoding of one line: the loop is written once here, over
    [decodeLine], which decodes a line inside the try block and tells
    whether the line counts as a new state.  Its first argument is the log
    as it is when the pass starts, from which [parseReplayBody] selects its
    parsing functions. *)
(* ===================================================================== *)

Module Body.

Definition State : Type := SimulationLog.t * LogParserStorage.t.

(** What a pass leaves: its three arguments as they are afterwards, its
    counter of new states, and whether it scheduled its continuation with
    [setTimeout].  [turns] is no variable of the source: it is the number
    of turns the while loop took, that is the number of lines the pass
    decoded. *)
Record Pass : Type := mkPass {
  iterator : DataIterator.t;
  state : State;
  newStatesCnt : nat;
  turns : nat;
  scheduled : bool
}.

(** The end of a pass on complete data: the pending snapshot is pushed and
    the log is finalized. *)
Definition finish (st : State) : State :=
  let '(log, storage) := st in
  match LogParserStorage.partialState storage with
  | Some ps =>
      let '(ps', states', _) := PartialWorldState.appendTo ps (SimulationLog.states log) in
      (SimulationLog.finalize (SimulationLog.set_states states' log),
       LogParserStorage.set_partialState (Some ps') storage)
  | None => (SimulationLog.finalize log, storage)
  end.

Section Loop.
Variable decodeLine : SimulationLog.t -> string -> State -> State * bool.

(** The while loop, on a step budget.  It stops when the loop of the
    source stops; were the budget to run out first, it would stop there
    ([DecoderFacts.loop_spec] shows that the budget of [pass] never does). *)
Fixpoint loop (log0 : SimulationLog.t) (fuel : nat) (it : DataIterator.t) (st : State)
    (cnt n : nat) : DataIterator.t * State * nat * nat :=
  match fuel with
  | O => (it, st, cnt, n)
  | S fuel' =>
      match DataIterator.line it with
      | Some (String _ _ as dataLine) =>
          if cnt <? LogParserStorage.maxStates (snd st) then
            let '(st', counted) := decodeLine log0 dataLine st in
            loop log0 fuel' (DataIterator.next it) st' (if counted then S cnt else cnt) (S n)
          else (it, st, cnt, n)
      | _ => (it, st, cnt, n)
      end
  end.

(** What follows the loop. *)
Definition epilogue (it : DataIterator.t) (st : State) (cnt n : nat) : Pass :=
  let st1 := if 0 <? cnt then (SimulationLog.onStatesUpdated (fst st), snd st) else st in
  if DataIterator.hasLine it then mkPass it st1 cnt n true
  else if negb (DataIterator.partialData it)
       then mkPass (DataIterator.dispose it) (finish st1) cnt n false
       else mkPass it st1 cnt n false.

(** One pass.  The loop consumes a line at each turn, so a budget of two
    more than the length of the data is enough. *)
Definition pass (it : DataIterator.t) (st : State) : Pass :=
  let it1 := if DataIterator.hasLine it then it else DataIterator.next it in
  let '(it2, st2, cnt, n) :=
    loop (fst st) (2 + String.length (DataIterator.data it1)) it1 st 0 0 in
  epilogue it2 st2 cnt n.

(** *** The decoder object and the task queue

    The fields of a decoder, and the number of continuations of the body
    pass that wait in the task queue of the host.  A continuation works on
    the iterator, the log and the storage the decoder holds. *)
Record Parser : Type := mkParser {
  p_iterator : option DataIterator.t;
  p_log : option SimulationLog.t;
  p_storage : option LogParserStorage.t;
  queued : nat
}.

Definition newParser : Parser := mkParser None None None 0.

(** What a call of [parse] comes to. *)
Inductive ParseResult : Type :=
| Returned (b : bool)
| ParserError (message : string).

(** A body pass on behalf of the decoder. *)
Definition runPass (it : DataIterator.t) (st : State) (waiting : nat) : Parser :=
  let r := pass it st in
  mkParser (Some (iterator r)) (Some (fst (state r))) (Some (snd (state r)))
           (if scheduled r then S waiting else waiting).

(** The host runs one waiting continuation. *)
Definition runContinuation (p : Parser) : Parser :=
  match queued p, p_iterator p, p_log p, p_storage p with
  | S waiting, Some it, Some log, Some storage => runPass it (log, storage) waiting
  | _, _, _, _ => p
  end.

(** The host runs the waiting continuations, at most [fuel] of them. *)
Fixpoint runContinuations (fuel : nat) (p : Parser) : Parser :=
  match fuel with
  | O => p
  | S fuel' =>
      match queued p with
      | O => p
      | S _ => runContinuations fuel' (runContinuation p)
      end
  end.

(** The number of states of the log, zero when there is no log. *)
Definition statesLength (p : Parser) : nat :=
  match p_log p with
  | Some log => List.length (SimulationLog.states log)
  | None => 0
  end.

(** The end of [parse], common to both decoders and to both of its
    branches but for the message and the value returned. *)
Definition conclude (p : Parser) (partial : bool) (message : string) (result : bool)
  : Parser * ParseResult :=
  if negb partial && (statesLength p =? 0)
  then (p, ParserError message)
  else (p, Returned result).

(** The branch of [parse] that progresses the parsing. *)
Definition progress (it : DataIterator.t) (log : SimulationLog.t)
    (storage : LogParserStorage.t) (waiting : nat)
    (data : string) (partial incremental : bool) (message : string)
  : Parser * ParseResult :=
  let wasEmpty := List.length (SimulationLog.states log) =? 0 in
  let '(it1, restart) := DataIterator.update it data partial incremental in
  let p1 := if restart then runPass it1 (log, storage) waiting
            else mkParser (Some it1) (Some log) (Some storage) waiting in
  conclude p1 partial message (wasEmpty && (0 <? statesLength p1)).

End Loop.

End Body.

(* ===================================================================== *)
(** ** The ULG decoder *)
(* ===================================================================== *)

Module ULGParser.
Import SymbolTreeParser.

(** [copyString] returns a string equal to its argument. *)
Definition copyString (s : string) : string := s.

(** [a[i]] for an index within the array. *)
Definition at_ (l : list string) (i : nat) : string := nth i l EmptyString.

Definition State : Type := Body.State.

Section WithEnv.
Variable host : Host.t.
Variable util : SServerUtil.t.

Definition parsePlaymodeLine (line : string) (st : State) : completion State :=
  let '(sserverLog, storage) := st in
  match LogParserStorage.partialState storage with
  | None => Normal st
  | Some partialState =>
      match parse line with
      | None => Thrown st
      | Some rootNode =>
          if 2 <? List.length (values rootNode) then
            let gameTime := JS.div (JS.parseInt_opt (value rootNode 1) 10) (JS.ofZ 10) in
            let '(ps1, states1, _) :=
              PartialWorldState.appendTo partialState (SimulationLog.states sserverLog) in
            let ps2 := PartialWorldState.setGameTime ps1 gameTime in
            let ps3 := PartialWorldState.setPlaymode ps2 (copyString (at_ (values rootNode) 2)) in
            Normal (SimulationLog.set_states states1 sserverLog,
                    LogParserStorage.set_partialState (Some ps3) storage)
          else Normal st
      end
  end.

Definition parseTeamLine (line : string) (st : State) : completion State :=
  let '(sserverLog, storage) := st in
  match LogParserStorage.partialState storage with
  | None => Normal st
  | Some partialState =>
      match parse line with
      | None => Thrown st
      | Some rootNode =>
          let vals := values rootNode in
          if 5 <? List.length vals then
            let gameTime := JS.div (JS.parseInt_opt (value rootNode 1) 10) (JS.ofZ 10) in
            let goalsLeft := JS.parseInt_opt (value rootNode 4) 10 in
            let goalsRight := JS.parseInt_opt (value rootNode 5) 10 in
            let pen (i : nat) : JS.number :=
              if 9 <? List.length vals then JS.parseInt_opt (value rootNode i) 10
              else JS.ofZ 0 in
            let log1 :=
              SimulationLog.set_leftTeam
                (TeamDescription.set_name (copyString (at_ vals 2))
                                          (SimulationLog.leftTeam sserverLog))
                sserverLog in
            let log2 :=
              SimulationLog.set_rightTeam
                (TeamDescription.set_name (copyString (at_ vals 3))
                                          (SimulationLog.rightTeam log1))
                log1 in
            let '(ps1, states1, _) :=
              PartialWorldState.appendTo partialState (SimulationLog.states log2) in
            let ps2 := PartialWorldState.setGameTime ps1 gameTime in
            let ps3 := PartialWorldState.setScore ps2 goalsLeft goalsRight
                                                  (pen 6) (pen 7) (pen 8) (pen 9) in
            Normal (SimulationLog.set_states states1 log2,
                    LogParserStorage.set_partialState (Some ps3) storage)
          else Normal st
      end
  end.

Definition parseBallState (node : SymbolNode) (partialState : PartialWorldState.t)
  : PartialWorldState.t :=
  if List.length (values node) <? 2 then partialState
  else
    PartialWorldState.set_ballState
      (ObjectState.ofParams
         (ObjectState.mkParams (JS.parseFloat_opt (value node 0))
                               (JS.Num (1 # 5))
                               (JS.parseFloat_opt (value node 1))
                               (JS.ofZ 0) (JS.ofZ 0) (JS.ofZ 0) (JS.ofZ 1)))
      partialState.

(** [if (values.length > i) agentData[slot] = v]. *)
Definition putIf (vals : list string) (i : nat) (slot : nat) (v : JS.number)
    (agentData : list (option JS.number)) : list (option JS.number) :=
  if i <? List.length vals then JS.array_set agentData slot v else agentData.

(** One turn of the loop over the sub-nodes of an agent node. *)
Definition parseAgentSubNode (agentData : list (option JS.number)) (sub : SymbolNode)
  : list (option JS.number) :=
  let vals := values sub in
  let float (i : nat) := JS.parseFloat_opt (nth_error vals i) in
  let int (i : nat) := JS.parseInt_opt (nth_error vals i) 10 in
  match vals with
  | [] => agentData
  | tag :: _ =>
      if String.eqb tag "v" then agentData
      else if String.eqb tag "s" then
        putIf vals 4 (SServerUtil.STAMINA_CAPACITY util) (float 4)
        (putIf vals 3 (SServerUtil.STAMINA_RECOVERY util) (float 3)
        (putIf vals 2 (SServerUtil.STAMINA_EFFORT util) (float 2)
        (putIf vals 1 (SServerUtil.STAMINA util) (float 1) agentData)))
      else if String.eqb tag "f" then
        if 2 <? List.length vals then
          JS.array_set
            (JS.array_set agentData (SServerUtil.FOCUS_SIDE util)
               (if String.eqb (at_ vals 1) "l" then JS.ofZ (-1) else JS.ofZ 1))
            (SServerUtil.FOCUS_UNUM util) (int 2)
        else agentData
      else if String.eqb tag "c" then
        putIf vals 11 (SServerUtil.ATTENTION_COUNT util) (int 11)
        (putIf vals 10 (SServerUtil.POINT_TO_COUNT util) (int 10)
        (putIf vals 9 (SServerUtil.TACKLE_COUNT util) (int 9)
        (putIf vals 8 (SServerUtil.SAY_COUNT util) (int 8)
        (putIf vals 7 (SServerUtil.VIEW_COUNT util) (int 7)
        (putIf vals 6 (SServerUtil.TURN_NECK_COUNT util) (int 6)
        (putIf vals 5 (SServerUtil.MOVE_COUNT util) (int 5)
        (putIf vals 4 (SServerUtil.CATCH_COUNT util) (int 4)
        (putIf vals 3 (SServerUtil.TURN_COUNT util) (int 3)
        (putIf vals 2 (SServerUtil.DASH_COUNT util) (int 2)
        (putIf vals 1 (SServerUtil.KICK_COUNT util) (int 1) agentData))))))))))
      else agentData
  end.

(** [parseAgentState]: the team description and the team's states after
    the call.  It throws when the node has no child. *)
Definition parseAgentState (node : SymbolNode) (sserverLog : SimulationLog.t)
    (teamDescription : TeamDescription.t) (teamStates : list (option AgentState.t))
  : completion (TeamDescription.t * list (option AgentState.t)) :=
  if List.length (values node) <? 7 then Normal (teamDescription, teamStates)
  else
    match child node 0 with
    | None => Thrown (teamDescription, teamStates)
    | Some first =>
        let playerNo := JS.parseInt_opt (value first 1) 10 in
        let typeIdx := JS.parseInt_opt (value node 0) 10 in
        let flags := JS.parseInt_opt (value node 1) 16 in
        let team1 :=
          fst (TeamDescription.addAgent teamDescription playerNo
                 (JS.prop_get (SimulationLog.playerTypes sserverLog) typeIdx)) in
        let position :=
          Three.vec3 (JS.parseFloat_opt (value node 2)) (JS.ofZ 0)
                     (JS.parseFloat_opt (value node 3)) in
        let angle := JS.parseFloat_opt (value node 6) in
        let q := Three.setFromAxisAngle host
                   (Three.vec3 (JS.ofZ 0) (JS.ofZ 1) (JS.ofZ 0))
                   (JsMath.toRad (JS.neg angle)) in
        let jointData :=
          if 7 <? List.length (values node)
          then [JsMath.toRad (JS.neg (JS.parseFloat_opt (value node 7)))]
          else [] in
        let agentData := fold_left parseAgentSubNode (tl (children node)) [] in
        let newState :=
          AgentState.ofParams
            (AgentState.mkParams
               (JS.ofNat (TeamDescription.getRecentTypeIdx team1 playerNo))
               flags
               (Three.vx position) (Three.vy position) (Three.vz position)
               (Three.qx q) (Three.qy q) (Three.qz q) (Three.qw q)
               jointData agentData) in
        Normal (team1, JS.array_set_at teamStates playerNo newState)
    end.

(** One turn of the loop of [parseShowLine] over the children of the
    root. *)
Definition parseShowChild (acc : completion (SimulationLog.t * PartialWorldState.t))
    (childNode : SymbolNode) : completion (SimulationLog.t * PartialWorldState.t) :=
  match acc with
  | Thrown _ => acc
  | Normal (sserverLog, partialState) =>
      match children childNode with
      | first :: _ =>
          let tag := value first 0 in
          match tag with
          | Some "b" => Normal (sserverLog, parseBallState childNode partialState)
          | Some "l" =>
              match parseAgentState childNode sserverLog
                      (SimulationLog.leftTeam sserverLog)
                      (PartialWorldState.leftAgentStates partialState) with
              | Normal (team, teamStates) =>
                  Normal (SimulationLog.set_leftTeam team sserverLog,
                          PartialWorldState.set_leftAgentStates teamStates partialState)
              | Thrown (team, teamStates) =>
                  Thrown (SimulationLog.set_leftTeam team sserverLog,
                          PartialWorldState.set_leftAgentStates teamStates partialState)
              end
          | Some "r" =>
              match parseAgentState childNode sserverLog
                      (SimulationLog.rightTeam sserverLog)
                      (PartialWorldState.rightAgentStates partialState) with
              | Normal (team, teamStates) =>
                  Normal (SimulationLog.set_rightTeam team sserverLog,
                          PartialWorldState.set_rightAgentStates teamStates partialState)
              | Thrown (team, teamStates) =>
                  Thrown (SimulationLog.set_rightTeam team sserverLog,
                          PartialWorldState.set_rightAgentStates teamStates partialState)
              end
          | _ => acc
          end
      | [] => acc
      end
  end.

Definition parseShowLine (line : string) (st : State) : completion State :=
  let '(sserverLog, storage) := st in
  match LogParserStorage.partialState storage with
  | None => Normal st
  | Some partialState =>
      match parse line with
      | None => Thrown st
      | Some rootNode =>
          if 1 <? List.length (values rootNode) then
            let '(ps1, states1, _) :=
              PartialWorldState.appendTo partialState (SimulationLog.states sserverLog) in
            let ps2 :=
              PartialWorldState.setGameTime ps1
                (JS.div (JS.parseInt_opt (value rootNode 1) 10) (JS.ofZ 10)) in
            let log1 := SimulationLog.set_states states1 sserverLog in
            let wrap (r : SimulationLog.t * PartialWorldState.t) : State :=
              (fst r, LogParserStorage.set_partialState (Some (snd r)) storage) in
            match fold_left parseShowChild (children rootNode) (Normal (log1, ps2)) with
            | Normal r => Normal (wrap r)
            | Thrown r => Thrown (wrap r)
            end
          else Normal st
      end
  end.

(** One turn of the loop of [parseParameters] over the name-value pairs. *)
Definition parseParameter (params : ParameterMap.ParameterObject) (pair : SymbolNode)
  : ParameterMap.ParameterObject :=
  let vals := values pair in
  if List.length vals <? 2 then params
  else
    let name := at_ vals 0 in
    let v := at_ vals 1 in
    if String.eqb v "true" then ParameterMap.set name (ParameterMap.VBool true) params
    else if String.eqb v "false" then ParameterMap.set name (ParameterMap.VBool false) params
    else if String.eqb (JS.charAt v 0) (String "034" EmptyString) then
      ParameterMap.set name (ParameterMap.VStr (copyString (JS.slice v 1 (-1)))) params
    else ParameterMap.set name (ParameterMap.VNum (JS.parseFloat v)) params.

(** [parseParameters]: [None] when the tree parser throws, which it does
    before anything is written. *)
Definition parseParameters (line : string) (params : ParameterMap.ParameterObject)
  : option ParameterMap.ParameterObject :=
  match parse line with
  | None => None
  | Some rootNode => Some (fold_left parseParameter (children rootNode) params)
  end.

Definition parseServerParamLine (line : string) (st : State) : completion State :=
  let '(sserverLog, storage) := st in
  let env := ParameterMap.clear (SimulationLog.environmentParams sserverLog) in
  let log1 := SimulationLog.set_environmentParams env sserverLog in
  match parseParameters line (ParameterMap.paramObj env) with
  | None => Thrown (log1, storage)
  | Some params =>
      let log2 :=
        SimulationLog.set_environmentParams (ParameterMap.mk (ParameterMap.id env) params)
                                            log1 in
      match SimulationLog.updateFrequency util log2 with
      | Thrown log3 => Thrown (log3, storage)
      | Normal log3 =>
          match LogParserStorage.partialState storage with
          | Some partialState =>
              Normal (log3,
                      LogParserStorage.set_partialState
                        (Some (PartialWorldState.set_timeStep
                                 (JS.div (JS.ofZ 1) (SimulationLog.frequency log3))
                                 partialState))
                        storage)
          | None => Normal (log3, storage)
          end
      end
  end.

Definition parsePlayerParamLine (line : string) (sserverLog : SimulationLog.t)
  : completion SimulationLog.t :=
  let player := ParameterMap.clear (SimulationLog.playerParams sserverLog) in
  let log1 := SimulationLog.set_playerParams player sserverLog in
  match parseParameters line (ParameterMap.paramObj player) with
  | None => Thrown log1
  | Some params =>
      Normal (SimulationLog.set_playerParams
                (ParameterMap.mk (ParameterMap.id player) params) log1)
  end.

Definition parsePlayerTypeLine (line : string) (sserverLog : SimulationLog.t)
  : completion SimulationLog.t :=
  match parseParameters line ParameterMap.empty with
  | None => Thrown sserverLog
  | Some playerType =>
      match ParameterMap.get playerType (SServerUtil.PLAYER_TYPE_ID util) with
      | Some (Some (ParameterMap.VNum typeIdx)) =>
          let '(m, log1) := SimulationLog.newParameterMap playerType sserverLog in
          Normal (SimulationLog.set_playerTypes
                    (JS.prop_set (SimulationLog.playerTypes log1) typeIdx m) log1)
      | _ => Normal sserverLog
      end
  end.

Definition parseMessageLine (line : string) (sserverLog : SimulationLog.t)
  : SimulationLog.t := sserverLog.

Definition parseDrawLine (line : string) (sserverLog : SimulationLog.t)
  : SimulationLog.t := sserverLog.

(** The body of the while loop of [parseULGBody]: the try block, with the
    exception swallowed, and whether [newStatesCnt] is incremented. *)
Definition decodeLine (log0 : SimulationLog.t) (line : string) (st : State)
  : State * bool :=
  let onLog (c : completion SimulationLog.t) : State := (completed c, snd st) in
  if String.eqb (JS.slice line 0 14) "(server_param " then
    (completed (parseServerParamLine line st), false)
  else if String.eqb (JS.slice line 0 14) "(player_param " then
    (onLog (parsePlayerParamLine line (fst st)), false)
  else if String.eqb (JS.slice line 0 13) "(player_type " then
    (onLog (parsePlayerTypeLine line (fst st)), false)
  else if String.eqb (JS.slice line 0 6) "(team " then
    (completed (parseTeamLine line st), false)
  else if String.eqb (JS.slice line 0 10) "(playmode " then
    (completed (parsePlaymodeLine line st), false)
  else if String.eqb (JS.slice line 0 5) "(msg " then
    ((parseMessageLine line (fst st), snd st), false)
  else if String.eqb (JS.slice line 0 6) "(draw " then
    ((parseDrawLine line (fst st), snd st), false)
  else if String.eqb (JS.slice line 0 6) "(show " then
    let c := parseShowLine line st in
    (completed c, negb (threw c))
  else (st, false).

Definition parseULGBody (it : DataIterator.t) (st : State) : Body.Pass :=
  Body.pass decodeLine it st.

(** [parse]: the decoder after the call, and what the call comes to. *)
Definition parse (p : Body.Parser) (data : string) (partial incremental : bool)
  : Body.Parser * Body.ParseResult :=
  match Body.p_iterator p, Body.p_log p, Body.p_storage p with
  | Some it, Some sserverLog, Some storage =>
      Body.progress decodeLine it sserverLog storage (Body.queued p)
                    data partial incremental "Empty SServer log file!"
  | _, _, _ =>
      let it1 := DataIterator.next (DataIterator.new data partial) in
      let header :=
        match DataIterator.line it1 with
        | Some (String _ _ as line) =>
            if negb (String.eqb (JS.charAt line 0) "U")
               && negb (String.eqb (JS.charAt line 1) "L")
               && negb (String.eqb (JS.charAt line 2) "G")
            then None else Some line
        | _ => None
        end in
      match header with
      | None =>
          (Body.mkParser (Some it1) (Body.p_log p) (Body.p_storage p) (Body.queued p),
           Body.ParserError "Failed parsing ULG log file - no ULG header found!")
      | Some line =>
          let ulgVersion := JS.parseInt (JS.slice_from line 3) 10 in
          let sserverLog := SimulationLog.new util GameUtil.TWOD ulgVersion in
          let storage :=
            LogParserStorage.set_maxStates 100
              (LogParserStorage.set_partialState
                 (Some (PartialWorldState.new (JS.ofZ 0) (JS.Num (1 # 10)) (JS.ofZ 0)))
                 LogParserStorage.new) in
          let it2 := DataIterator.next it1 in
          let p1 := Body.runPass decodeLine it2 (sserverLog, storage) (Body.queued p) in
          Body.conclude p1 partial "Empty SServer log file!" (0 <? Body.statesLength p1)
      end
  end.

End WithEnv.

End ULGParser.

(* ===================================================================== *)
(** ** The Replay decoder *)
(* ===================================================================== *)

Module ReplayParser.
Import SymbolTreeParser.

Definition copyString (s : string) : string := s.

(** [a[i]] for an index within the array. *)
Definition at_ (l : list string) (i : nat) : string := nth i l EmptyString.

Definition State : Type := Body.State.

Section WithEnv.
Variable host : Host.t.
Variable util : SServerUtil.t.

(** *** General *)

Definition setTimeStep (replay : SimulationLog.t) (storage : LogParserStorage.t)
  : LogParserStorage.t :=
  match LogParserStorage.partialState storage with
  | Some partialState =>
      LogParserStorage.set_partialState
        (Some (PartialWorldState.set_timeStep
                 (JS.div (JS.ofZ 1) (SimulationLog.frequency replay)) partialState))
        storage
  | None => storage
  end.

Definition parseEnvironmentParams (dataLine : string) (st : State) : completion State :=
  let '(replay, storage) := st in
  let replay1 :=
    match Host.JSON_parse host (JS.slice_from dataLine 3) with
    | Some newParams =>
        SimulationLog.set_environmentParams
          (ParameterMap.mk (ParameterMap.id (SimulationLog.environmentParams replay))
                           newParams)
          replay
    | None => replay
    end in
  match SimulationLog.updateFrequency util replay1 with
  | Thrown replay2 => Thrown (replay2, storage)
  | Normal replay2 => Normal (replay2, setTimeStep replay2 storage)
  end.

Definition parsePlayerParams (dataLine : string) (replay : SimulationLog.t)
  : SimulationLog.t :=
  match Host.JSON_parse host (JS.slice_from dataLine 3) with
  | Some newParams =>
      SimulationLog.set_playerParams
        (ParameterMap.mk (ParameterMap.id (SimulationLog.playerParams replay)) newParams)
        replay
  | None => replay
  end.

Definition parsePlayerTypeParams (dataLine : string) (replay : SimulationLog.t)
  : SimulationLog.t :=
  match JS.indexOf " " dataLine 4 with
  | Some idx =>
      if (3 <? idx) && (idx <? 10) then
        let typeIdx := JS.parseInt (JS.slice dataLine 3 (Z.of_nat idx)) 10 in
        match Host.JSON_parse host (JS.slice_from dataLine (Z.of_nat (idx + 1))) with
        | Some params =>
            let '(m, replay1) := SimulationLog.newParameterMap params replay in
            SimulationLog.set_playerTypes
              (JS.prop_set (SimulationLog.playerTypes replay1) typeIdx m) replay1
        | None => replay
        end
      else replay
  | None => replay
  end.

Definition parseTeamLine (dataLine : string) (replay : SimulationLog.t) : SimulationLog.t :=
  let line := JS.split " " dataLine in
  if List.length line <? 3 then replay
  else
    let replay1 :=
      SimulationLog.set_leftTeam
        (TeamDescription.set_name (copyString (at_ line 1)) (SimulationLog.leftTeam replay))
        replay in
    SimulationLog.set_rightTeam
      (TeamDescription.set_name (copyString (at_ line 2)) (SimulationLog.rightTeam replay1))
      replay1.

(** [parseStateLine]: the state after the call and the value returned. *)
Definition parseStateLine (dataLine : string) (st : State) : State * bool :=
  let '(replay, storage) := st in
  let line := JS.split " " dataLine in
  if List.length line <? 5 then (st, false)
  else
    let '(ps1, states1, newStateCreated) :=
      match LogParserStorage.partialState storage with
      | Some partialState =>
          PartialWorldState.appendTo partialState (SimulationLog.states replay)
      | None =>
          (PartialWorldState.new (JS.ofZ 0)
             (JS.div (JS.ofZ 1) (SimulationLog.frequency replay)) (JS.ofZ 0),
           SimulationLog.states replay, false)
      end in
    let gameTime0 := JS.parseFloat (at_ line 1) in
    let gameTime :=
      if JS.eqb (SimulationLog.version replay) (JS.ofZ 0)
      then JS.div gameTime0 (JS.ofZ 10) else gameTime0 in
    let ps2 := PartialWorldState.setGameTime ps1 gameTime in
    let ps3 := PartialWorldState.setPlaymode ps2 (copyString (at_ line 2)) in
    let int (i : nat) := JS.parseInt (at_ line i) 10 in
    let ps4 :=
      if 8 <? List.length line
      then PartialWorldState.setScore ps3 (int 3) (int 4) (int 5) (int 6) (int 7) (int 8)
      else PartialWorldState.setScore2 ps3 (int 3) (int 4) in
    ((SimulationLog.set_states states1 replay,
      LogParserStorage.set_partialState (Some ps4) storage),
     newStateCreated).

Definition parseBallState_2D (dataLine : string) (partialState : option PartialWorldState.t)
  : option PartialWorldState.t :=
  let line := JS.split " " dataLine in
  match partialState with
  | None => None
  | Some ps =>
      if List.length line <? 3 then Some ps
      else
        Some (PartialWorldState.set_ballState
                (ObjectState.ofParams
                   (ObjectState.mkParams (JS.parseFloat (at_ line 1))
                                         (JS.Num (1 # 5))
                                         (JS.parseFloat (at_ line 2))
                                         (JS.ofZ 0) (JS.ofZ 0) (JS.ofZ 0) (JS.ofZ 1)))
                ps)
  end.

(** *** Version 0 *)

(** [parseInt(s, 10) / 1000] and [-parseInt(s, 10) / 1000]. *)
Definition milli (s : string) : JS.number := JS.div (JS.parseInt s 10) (JS.ofZ 1000).
Definition negMilli (s : string) : JS.number :=
  JS.div (JS.neg (JS.parseInt s 10)) (JS.ofZ 1000).

Definition parseBallState_V0_3D (dataLine : string)
    (partialState : option PartialWorldState.t) : option PartialWorldState.t :=
  let line := JS.split " " dataLine in
  match partialState with
  | None => None
  | Some ps =>
      if List.length line <? 8 then Some ps
      else
        Some (PartialWorldState.set_ballState
                (ObjectState.ofParams
                   (ObjectState.mkParams
                      (milli (at_ line 1)) (milli (at_ line 3)) (negMilli (at_ line 2))
                      (milli (at_ line 5)) (milli (at_ line 7)) (negMilli (at_ line 6))
                      (milli (at_ line 4))))
                ps)
  end.

(** The agent states of one side of the builder, and their update. *)
Definition agentStatesOf (leftSide : bool) (ps : PartialWorldState.t)
  : list (option AgentState.t) :=
  if leftSide then PartialWorldState.leftAgentStates ps
  else PartialWorldState.rightAgentStates ps.

Definition setAgentState (leftSide : bool) (playerNo : JS.number) (newState : AgentState.t)
    (ps : PartialWorldState.t) : PartialWorldState.t :=
  if leftSide
  then PartialWorldState.set_leftAgentStates
         (JS.array_set_at (PartialWorldState.leftAgentStates ps) playerNo newState) ps
  else PartialWorldState.set_rightAgentStates
         (JS.array_set_at (PartialWorldState.rightAgentStates ps) playerNo newState) ps.

Definition teamOf (leftSide : bool) (replay : SimulationLog.t) : TeamDescription.t :=
  if leftSide then SimulationLog.leftTeam replay else SimulationLog.rightTeam replay.

Definition setTeam (leftSide : bool) (team : TeamDescription.t) (replay : SimulationLog.t)
  : SimulationLog.t :=
  if leftSide then SimulationLog.set_leftTeam team replay
  else SimulationLog.set_rightTeam team replay.

Definition indexListOf (leftSide : bool) (storage : LogParserStorage.t) : JS.props nat :=
  if leftSide then LogParserStorage.leftIndexList storage
  else LogParserStorage.rightIndexList storage.

Definition setIndexList (leftSide : bool) (l : JS.props nat) (storage : LogParserStorage.t)
  : LogParserStorage.t :=
  if leftSide then LogParserStorage.set_leftIndexList l storage
  else LogParserStorage.set_rightIndexList l storage.

Definition parseAgentState_V0_2D (dataLine : string) (st : State) (leftSide : bool) : State :=
  let '(replay, storage) := st in
  let line := JS.split " " dataLine in
  match LogParserStorage.partialState storage with
  | None => st
  | Some partialState =>
      if List.length line <? 5 then st
      else
        let playerNo := JS.parseInt (at_ line 1) 10 in
        let flags :=
          if String.eqb (at_ line 0) "L" || String.eqb (at_ line 0) "R"
          then Z.lor (SServerUtil.STAND util) (SServerUtil.GOALIE util)
          else SServerUtil.STAND util in
        let position :=
          Three.vec3 (JS.parseFloat (at_ line 2)) (JS.ofZ 0) (JS.parseFloat (at_ line 3)) in
        let angle := JS.parseFloat (at_ line 4) in
        let q := Three.setFromAxisAngle host
                   (Three.vec3 (JS.ofZ 0) (JS.ofZ 1) (JS.ofZ 0))
                   (JsMath.toRad (JS.neg angle)) in
        let neck :=
          let delta := JS.sub (JS.parseFloat (at_ line 5)) angle in
          if JS.gtb delta (JS.ofZ 180) then JS.sub delta (JS.ofZ 360)
          else if JS.ltb delta (JS.ofZ (-180)) then JS.add delta (JS.ofZ 360)
          else delta in
        let jointData :=
          if 6 <? List.length line then [JsMath.toRad (JS.neg neck)] else [] in
        let agentData :=
          if 6 <? List.length line
          then JS.array_set [] (SServerUtil.STAMINA util)
                 (JS.parseFloat (JS.slice_from (at_ line 6) 1))
          else [] in
        let newState :=
          AgentState.ofParams
            (AgentState.mkParams (JS.ofZ 0) (JS.ofZ flags)
               (Three.vx position) (Three.vy position) (Three.vz position)
               (Three.qx q) (Three.qy q) (Three.qz q) (Three.qw q)
               jointData agentData) in
        (replay,
         LogParserStorage.set_partialState
           (Some (setAgentState leftSide playerNo newState partialState)) storage)
  end.

(** The joint angles of a version 0 3D agent line, from the fields after
    the pose: they arrive as head, left arm, left leg, right arm, right
    leg and are stored as head, right arm, left arm, right leg, left leg.
    Each loop of the source takes what is left, up to its count. *)
Definition shuffleJoints (fields : list string) : list JS.number :=
  let conv (s : string) := JsMath.toRad (JS.div (JS.parseFloat s) (JS.ofZ 100)) in
  let numLegJoints := if 22 <? List.length fields then 7 else 6 in
  let head := firstn 2 fields in
  let rest1 := skipn 2 fields in
  let lArm := firstn 4 rest1 in
  let rest2 := skipn 4 rest1 in
  let lLeg := firstn numLegJoints rest2 in
  let rest3 := skipn numLegJoints rest2 in
  let rArm := firstn 4 rest3 in
  let rest4 := skipn 4 rest3 in
  let rLeg := firstn numLegJoints rest4 in
  map conv (head ++ rArm ++ lArm ++ rLeg ++ lLeg).

Definition parseAgentState_V0_3D (dataLine : string) (st : State) (leftSide : bool) : State :=
  let '(replay, storage) := st in
  let line := JS.split " " dataLine in
  match LogParserStorage.partialState storage with
  | None => st
  | Some partialState =>
      if List.length line <? 9 then st
      else
        let playerNo := JS.parseInt (at_ line 1) 10 in
        let withModel := String.eqb (at_ line 0) "L" || String.eqb (at_ line 0) "R" in
        if withModel && (List.length line <? 10) then st
        else
          let dataIdx := if withModel then 3 else 2 in
          let '(replay1, storage1) :=
            if withModel then
              let modelType := JS.parseInt (JS.slice_from (at_ line 2) (-1)) 10 in
              let team :=
                fst (TeamDescription.addAgent (teamOf leftSide replay) playerNo
                       (JS.prop_get (SimulationLog.playerTypes replay) modelType)) in
              (setTeam leftSide team replay,
               setIndexList leftSide
                 (JS.prop_set (indexListOf leftSide storage) playerNo
                              (TeamDescription.getRecentTypeIdx team playerNo))
                 storage)
            else (replay, storage) in
          let modelIdx :=
            match JS.prop_get (indexListOf leftSide storage1) playerNo with
            | Some idx => idx
            | None => 0
            end in
          let position :=
            Three.vec3 (milli (at_ line dataIdx))
                       (milli (at_ line (dataIdx + 2)))
                       (negMilli (at_ line (dataIdx + 1))) in
          let q :=
            Three.quat (milli (at_ line (dataIdx + 4)))
                       (milli (at_ line (dataIdx + 6)))
                       (negMilli (at_ line (dataIdx + 5)))
                       (milli (at_ line (dataIdx + 3))) in
          let jointData := shuffleJoints (skipn (dataIdx + 7) line) in
          let newState :=
            AgentState.ofParams
              (AgentState.mkParams (JS.ofNat modelIdx) (JS.ofZ 0)
                 (Three.vx position) (Three.vy position) (Three.vz position)
                 (Three.qx q) (Three.qy q) (Three.qz q) (Three.qw q)
                 jointData []) in
          (replay1,
           LogParserStorage.set_partialState
             (Some (setAgentState leftSide playerNo newState partialState)) storage1)
  end.

(** *** Version 1 *)

Definition parseBallState_V1_3D (dataLine : string)
    (partialState : option PartialWorldState.t) : option PartialWorldState.t :=
  let line := JS.split " " dataLine in
  match partialState with
  | None => None
  | Some ps =>
      if List.length line <? 8 then Some ps
      else
        Some (PartialWorldState.set_ballState
                (ObjectState.ofParams
                   (ObjectState.mkParams
                      (JS.parseFloat (at_ line 1))
                      (JS.parseFloat (at_ line 3))
                      (JS.neg (JS.parseFloat (at_ line 2)))
                      (JS.parseFloat (at_ line 5))
                      (JS.parseFloat (at_ line 7))
                      (JS.neg (JS.parseFloat (at_ line 6)))
                      (JS.parseFloat (at_ line 4))))
                ps)
  end.

(** [parseJointNode]: the joint data after the call. *)
Definition parseJointNode (node : SymbolNode) (jointData : list JS.number) (convert : bool)
  : list JS.number :=
  let factor := if convert then JsMath.NegPIby180 else JsMath.PIby180 in
  jointData ++ map (fun v => JS.mul (JS.parseFloat v) factor) (tl (values node)).

(** One turn of the loop of [parseAgentState_V1] over the children. *)
Definition parseAgentChild (is2D : bool)
    (acc : list JS.number * list (option JS.number)) (sub : SymbolNode)
  : list JS.number * list (option JS.number) :=
  let '(jointData, agentData) := acc in
  match value sub 0 with
  | Some "j" => (parseJointNode sub jointData is2D, agentData)
  | Some "s" =>
      (jointData,
       JS.array_set agentData (SServerUtil.STAMINA util) (JS.parseFloat_opt (value sub 1)))
  | _ => acc
  end.

Definition parseAgentState_V1 (dataLine : string) (st : State) (leftSide : bool)
  : completion State :=
  let '(replay, storage) := st in
  match parse (String "(" dataLine ++ ")")%string with
  | None => Thrown st
  | Some rootNode =>
      match LogParserStorage.partialState storage with
      | None => Normal st
      | Some partialState =>
          if List.length (values rootNode) <? 6 then Normal st
          else
            let float (i : nat) := JS.parseFloat_opt (value rootNode i) in
            let playerNo := JS.parseInt_opt (value rootNode 1) 10 in
            let withModel :=
              String.eqb (at_ (values rootNode) 0) "L"
              || String.eqb (at_ (values rootNode) 0) "R" in
            let '(replay1, storage1) :=
              if withModel then
                let team :=
                  fst (TeamDescription.addAgent (teamOf leftSide replay) playerNo
                         (JS.prop_get (SimulationLog.playerTypes replay)
                                      (JS.parseInt_opt (value rootNode 2) 10))) in
                (setTeam leftSide team replay,
                 setIndexList leftSide
                   (JS.prop_set (indexListOf leftSide storage) playerNo
                                (TeamDescription.getRecentTypeIdx team playerNo))
                   storage)
              else (replay, storage) in
            let flagsIdx := if withModel then 3 else 2 in
            let modelIdx :=
              match JS.prop_get (indexListOf leftSide storage1) playerNo with
              | Some idx => idx
              | None => 0
              end in
            let flags := JS.parseInt_opt (value rootNode flagsIdx) 16 in
            let dataIdx := S flagsIdx in
            let is2D :=
              match SimulationLog.type replay with
              | GameUtil.TWOD => true
              | GameUtil.THREED => false
              end in
            let position :=
              if is2D
              then Three.vec3 (float dataIdx) (JS.ofZ 0) (float (dataIdx + 1))
              else Three.vec3 (float dataIdx) (float (dataIdx + 2))
                              (JS.neg (float (dataIdx + 1))) in
            let q :=
              if is2D
              then Three.setFromAxisAngle host
                     (Three.vec3 (JS.ofZ 0) (JS.ofZ 1) (JS.ofZ 0))
                     (JsMath.toRad (JS.mul (JS.ofZ (-1)) (float (dataIdx + 2))))
              else Three.quat (float (dataIdx + 4)) (float (dataIdx + 6))
                              (JS.neg (float (dataIdx + 5))) (float (dataIdx + 3)) in
            let '(jointData, agentData) :=
              fold_left (parseAgentChild is2D) (children rootNode) ([], []) in
            let newState :=
              AgentState.ofParams
                (AgentState.mkParams (JS.ofNat modelIdx) flags
                   (Three.vx position) (Three.vy position) (Three.vz position)
                   (Three.qx q) (Three.qy q) (Three.qz q) (Three.qw q)
                   jointData agentData) in
            Normal (replay1,
                    LogParserStorage.set_partialState
                      (Some (setAgentState leftSide playerNo newState partialState))
                      storage1)
      end
  end.

(** *** The body *)

(** The parsing functions [parseReplayBody] selects. *)
Definition parseBallFcn (replay : SimulationLog.t) (dataLine : string)
    (partialState : option PartialWorldState.t) : option PartialWorldState.t :=
  match SimulationLog.type replay with
  | GameUtil.THREED =>
      if JS.eqb (SimulationLog.version replay) (JS.ofZ 0)
      then parseBallState_V0_3D dataLine partialState
      else parseBallState_V1_3D dataLine partialState
  | GameUtil.TWOD => parseBallState_2D dataLine partialState
  end.

Definition parseAgentFcn (replay : SimulationLog.t) (dataLine : string) (st : State)
    (leftSide : bool) : completion State :=
  match SimulationLog.type replay with
  | GameUtil.THREED =>
      if JS.eqb (SimulationLog.version replay) (JS.ofZ 0)
      then Normal (parseAgentState_V0_3D dataLine st leftSide)
      else parseAgentState_V1 dataLine st leftSide
  | GameUtil.TWOD =>
      if JS.gtb (SimulationLog.version replay) (JS.ofZ 0)
      then parseAgentState_V1 dataLine st leftSide
      else Normal (parseAgentState_V0_2D dataLine st leftSide)
  end.

(** The body of the while loop of [parseReplayBody]: the try block, with
    the exception swallowed, and whether [newStatesCnt] is incremented.
    The parsing functions are selected from the replay as it is when the
    pass starts. *)
Definition decodeLine (replay0 : SimulationLog.t) (dataLine : string) (st : State)
  : State * bool :=
  let '(replay, storage) := st in
  let c0 := JS.charAt dataLine 0 in
  let c1 := JS.charAt dataLine 1 in
  if String.eqb c0 "E" then
    if String.eqb c1 "P" then (completed (parseEnvironmentParams dataLine st), false)
    else (st, false)
  else if String.eqb c0 "P" then
    if String.eqb c1 "P" then ((parsePlayerParams dataLine replay, storage), false)
    else if String.eqb c1 "T" then ((parsePlayerTypeParams dataLine replay, storage), false)
    else (st, false)
  else if String.eqb c0 "T" then ((parseTeamLine dataLine replay, storage), false)
  else if String.eqb c0 "S" then parseStateLine dataLine st
  else if String.eqb c0 "b" then
    ((replay,
      LogParserStorage.set_partialState
        (parseBallFcn replay0 dataLine (LogParserStorage.partialState storage)) storage),
     false)
  else if String.eqb c0 "l" || String.eqb c0 "L" then
    (completed (parseAgentFcn replay0 dataLine st true), false)
  else if String.eqb c0 "r" || String.eqb c0 "R" then
    (completed (parseAgentFcn replay0 dataLine st false), false)
  else (st, false).

Definition parseReplayBody (it : DataIterator.t) (st : State) : Body.Pass :=
  Body.pass decodeLine it st.

(** The decoder as a throw in the header leaves it. *)
Definition failed (p : Body.Parser) (it : DataIterator.t) (replay : option SimulationLog.t)
    (message : string) : Body.Parser * Body.ParseResult :=
  (Body.mkParser (Some it) replay (Body.p_storage p) (Body.queued p),
   Body.ParserError message).

(** The end of the first branch of [parse], once the header is read. *)
Definition start (p : Body.Parser) (it : DataIterator.t) (replay : SimulationLog.t)
    (partial : bool) : Body.Parser * Body.ParseResult :=
  let storage :=
    LogParserStorage.set_maxStates
      (match SimulationLog.type replay with
       | GameUtil.TWOD => 300
       | GameUtil.THREED => 50
       end)
      LogParserStorage.new in
  let p1 := Body.runPass decodeLine it (replay, storage) (Body.queued p) in
  Body.conclude p1 partial "Empty replay file!" (0 <? Body.statesLength p1).

(** A line as [next] returned it, when it is truthy. *)
Definition truthyLine (it : DataIterator.t) : option string :=
  match DataIterator.line it with
  | Some (String _ _ as line) => Some line
  | _ => None
  end.

(** The default agents 1 to 11 of both sides of the first 2D format. *)
Definition addDefaultAgents (replay : SimulationLog.t) : SimulationLog.t :=
  fold_left
    (fun r i =>
       let playerType := JS.prop_get (SimulationLog.playerTypes r) (JS.ofZ 0) in
       let r1 := SimulationLog.set_leftTeam
                   (fst (TeamDescription.addAgent (SimulationLog.leftTeam r)
                           (JS.ofNat i) playerType)) r in
       SimulationLog.set_rightTeam
         (fst (TeamDescription.addAgent (SimulationLog.rightTeam r1)
                 (JS.ofNat i) playerType)) r1)
    (seq 1 11) replay.

(** The field parameters of the first 3D format, by server version. *)
Definition fieldParams (code : JS.number) (replay : SimulationLog.t) : SimulationLog.t :=
  let use (params : ParameterMap.ParameterObject) :=
    let '(m, replay1) := SimulationLog.newParameterMap params replay in
    SimulationLog.set_environmentParams m replay1 in
  if JS.eqb code (JS.ofZ 62) then use SparkUtil.createEnvironmentParamsV62
  else if JS.eqb code (JS.ofZ 63) then use SparkUtil.createEnvironmentParamsV63
  else if JS.eqb code (JS.ofZ 64) then use SparkUtil.createEnvironmentParamsV64
  else if JS.eqb code (JS.ofZ 66) then use SparkUtil.createEnvironmentParamsV66
  else replay.

(** The header of the first 3D format, from its second line on. *)
Definition parseOld3DHeader (p : Body.Parser) (it1 : DataIterator.t)
    (replay : SimulationLog.t) (partial : bool) : Body.Parser * Body.ParseResult :=
  let it2 := DataIterator.next it1 in
  match truthyLine it2 with
  | None => failed p it2 (Some replay) "Replay corrupt!"
  | Some teamsLine =>
      let splitLine := JS.split " " teamsLine in
      if (List.length splitLine <? 5) || negb (String.eqb (at_ splitLine 0) "T") then
        failed p it2 (Some replay) "Invalid teams line!"
      else
        let replay1 :=
          SimulationLog.set_leftTeam
            (TeamDescription.set_name (copyString (JS.slice (at_ splitLine 1) 1 (-1)))
                                      (SimulationLog.leftTeam replay))
            replay in
        let replay2 :=
          SimulationLog.set_rightTeam
            (TeamDescription.set_name (copyString (JS.slice (at_ splitLine 3) 1 (-1)))
                                      (SimulationLog.rightTeam replay1))
            replay1 in
        let it3 := DataIterator.next it2 in
        match truthyLine it3 with
        | None => failed p it3 (Some replay2) "Replay corrupt!"
        | Some worldLine =>
            let splitWorld := JS.split " " worldLine in
            if (List.length splitWorld <? 2) || negb (String.eqb (at_ splitWorld 0) "F") then
              failed p it3 (Some replay2) "Invalid world line!"
            else
              let replay3 := fieldParams (JS.parseInt (at_ splitWorld 1) 10) replay2 in
              start p (DataIterator.next it3) replay3 partial
        end
  end.

(** [parse]: the decoder after the call, and what the call comes to. *)
Definition parse (p : Body.Parser) (data : string) (partial incremental : bool)
  : Body.Parser * Body.ParseResult :=
  match Body.p_iterator p, Body.p_log p, Body.p_storage p with
  | Some it, Some replay, Some storage =>
      Body.progress decodeLine it replay storage (Body.queued p)
                    data partial incremental "Empty replay file!"
  | _, _, _ =>
      let it1 := DataIterator.next (DataIterator.new data partial) in
      match truthyLine it1 with
      | None => failed p it1 (Body.p_log p) "Replay corrupt!"
      | Some line =>
          let splitLine := JS.split " " line in
          if String.eqb (JS.charAt line 0) "R"
             && String.eqb (JS.charAt line 1) "P"
             && String.eqb (JS.charAt line 2) "L" then
            if List.length splitLine <? 3 then
              failed p it1 (Body.p_log p) "Malformated Replay Header!"
            else
              let type := if String.eqb (at_ splitLine 1) "2D"
                          then GameUtil.TWOD else GameUtil.THREED in
              let replay := SimulationLog.new util type (JS.parseInt (at_ splitLine 2) 10) in
              start p (DataIterator.next it1) replay partial
          else if String.eqb (JS.charAt line 0) "T" then
            if List.length splitLine <? 3 then
              failed p it1 (Body.p_log p) "Invalid team line!"
            else
              let replay := SimulationLog.new util GameUtil.TWOD (JS.ofZ 0) in
              let replay1 :=
                SimulationLog.set_leftTeam
                  (TeamDescription.set_name (copyString (JS.slice (at_ splitLine 1) 1 (-1)))
                                            (SimulationLog.leftTeam replay))
                  replay in
              let replay2 :=
                SimulationLog.set_rightTeam
                  (TeamDescription.set_name (copyString (JS.slice (at_ splitLine 2) 1 (-1)))
                                            (SimulationLog.rightTeam replay1))
                  replay1 in
              start p (DataIterator.next it1) (addDefaultAgents replay2) partial
          else if String.eqb (JS.charAt line 0) "V" then
            if List.length splitLine <? 4 then
              failed p it1 (Body.p_log p) "Malformated Replay Header!"
            else
              let replay :=
                SimulationLog.set_frequency (JS.parseInt (at_ splitLine 3) 10)
                  (SimulationLog.new util GameUtil.THREED (JS.ofZ 0)) in
              parseOld3DHeader p it1 replay partial
          else
            failed p it1 (Body.p_log p)
              "Failed parsing replay file - no Replay header found (and none of the fallback options applies)!"
      end
  end.

End WithEnv.

End ReplayParser.

(* ===================================================================== *)
(** ** Whole decodings and sample inputs *)
(* ===================================================================== *)

Module Decoding.

(** The lines [ls] decoded one after the other. *)
Definition decodeAll (decodeLine : SimulationLog.t -> string -> Body.State -> Body.State * bool)
    (log0 : SimulationLog.t) (ls : list string) (st : Body.State) : Body.State :=
  fold_left (fun s l => fst (decodeLine log0 l s)) ls st.

(** A log without what [onStatesUpdated] derives from its states, and two
    decoding states that differ in that at most. *)
Definition core (log : SimulationLog.t) : SimulationLog.t :=
  SimulationLog.set_derived (JS.ofZ 0) (JS.ofZ 0) (JS.ofZ 0) [] [] log.

Definition sim (a b : Body.State) : Prop :=
  core (fst a) = core (fst b) /\ snd a = snd b.

(** What [parseReplayBody] selects its parsing functions from. *)
Definition kind (log : SimulationLog.t) : GameUtil.SimulationType * JS.number :=
  (SimulationLog.type log, SimulationLog.version log).

(** The log a decoder holds once every continuation that waits has run.
    A pass consumes a line, so as many runs as the data is long, and one
    more, empty the queue ([SessionFacts.settle_final] shows it). *)
Definition settle (decodeLine : SimulationLog.t -> string -> Body.State -> Body.State * bool)
    (p : Body.Parser) : Body.Parser :=
  match Body.p_iterator p with
  | Some it =>
      Body.runContinuations decodeLine
        (Body.queued p * (2 + String.length (DataIterator.data it))) p
  | None => p
  end.

(** The states of the log the decoder holds, if it holds one. *)
Definition states (p : Body.Parser) : option (list WorldState.t) :=
  option_map SimulationLog.states (Body.p_log p).

(** A text that arrives in chunks.  [parse] is called with each chunk as
    incremental, partial data, and after the call the host runs [turns] of
    the continuations that wait, or all of them if fewer wait; the call
    with the last chunk completes the data, and every continuation runs
    after it. *)
Fixpoint feed (parse : Body.Parser -> string -> bool -> bool -> Body.Parser * Body.ParseResult)
    (decodeLine : SimulationLog.t -> string -> Body.State -> Body.State * bool)
    (chunks : list (string * nat)) (last : string) (p : Body.Parser) : Body.Parser :=
  match chunks with
  | [] => settle decodeLine (fst (parse p last false true))
  | (chunk, turns) :: more =>
      feed parse decodeLine more last
        (Body.runContinuations decodeLine turns (fst (parse p chunk true true)))
  end.

(** The chunks put together again. *)
Definition text (chunks : list (string * nat)) (last : string) : string :=
  fold_right (fun c t => (fst c ++ t)%string) last chunks.

(** The first chunk, and whether it is partial data. *)
Definition firstCall (chunks : list (string * nat)) (last : string) : string * bool :=
  match chunks with
  | [] => (last, false)
  | (chunk, _) :: _ => (chunk, true)
  end.

End Decoding.

(** A whole text decoded in one call of [parse], and every continuation
    run. *)
Definition decodeReplay (host : Host.t) (util : SServerUtil.t) (text : string)
  : Body.Parser :=
  Decoding.settle (ReplayParser.decodeLine host util)
    (fst (ReplayParser.parse host util Body.newParser text false false)).

Definition decodeULG (host : Host.t) (util : SServerUtil.t) (text : string)
  : Body.Parser :=
  Decoding.settle (ULGParser.decodeLine host util)
    (fst (ULGParser.parse host util Body.newParser text false false)).

(* ===================================================================== *)
(** ** The clock of the builder *)
(* ===================================================================== *)

Module Clock.

(** A commit advances the clock: the time that [appendTo] gives the
    builder, [Math.round((time + timeStep) * 1000) / 1000], is later than
    the time it has. *)
Definition advances (time timeStep : JS.number) : bool :=
  JS.ltb time (PartialWorldState.roundMillis (JS.add time timeStep)).

(** The builder of a decoding state is one whose commit advances its
    clock.  There is nothing to ask before the Replay decoder has created
    the builder. *)
Definition stepOK (st : Body.State) : bool :=
  match LogParserStorage.partialState (snd st) with
  | Some partialState =>
      advances (PartialWorldState.time partialState)
               (PartialWorldState.timeStep partialState)
  | None => true
  end.

(** A commit would advance the clock before each of the lines [ls] is
    decoded, and after the last one. *)
Fixpoint steady (decodeLine : SimulationLog.t -> string -> Body.State -> Body.State * bool)
    (log0 : SimulationLog.t) (ls : list string) (st : Body.State) : bool :=
  stepOK st
  && match ls with
     | [] => true
     | l :: ls' => steady decodeLine log0 ls' (fst (decodeLine log0 l st))
     end.


End Clock.

(** [FileUtil]: the helpers on file names.  [getBasePath] and
    [getHostname] go through the [URL] class of the host and are left
    out. *)
Module FileUtil.

Definition getFileName (url : string) : string :=
  let endIdx := match JS.indexOf "?" url 0 with
                | Some i => i
                | None => String.length url
                end in
  let startIdx := match JS.lastIndexOf "/" (JS.slice url 0 (Z.of_nat endIdx)) with
                  | Some i => Z.of_nat i
                  | None => (-1)%Z
                  end in
  JS.slice url (startIdx + 1) (Z.of_nat endIdx).

(** [None] is [undefined]. *)
Definition getFileType (url : string) : option string :=
  match JS.lastIndexOf "." url with
  | Some lastDotIdx => Some (JS.slice_from url (Z.of_nat lastDotIdx + 1))
  | None => None
  end.

Definition isReplayFile (url : string) (gzipAllowed : bool) : bool :=
  let fileName := getFileName url in
  let suffix9 := JS.slice_from fileName (-9) in
  let suffix6 := JS.slice_from fileName (-6) in
  if String.eqb suffix6 ".rpl3d" || String.eqb suffix6 ".rpl2d"
     || String.eqb (JS.slice_from fileName (-7)) ".replay" then true
  else if gzipAllowed
          && (String.eqb suffix9 ".rpl3d.gz" || String.eqb suffix9 ".rpl2d.gz"
              || String.eqb (JS.slice_from fileName (-10)) ".replay.gz") then true
  else false.

(** [gzipAllowed !== undefined] holds for a boolean, and a parameter with
    a default is never [undefined]. *)
Definition isSServerLogFile (url : string) (gzipAllowed : bool) : bool :=
  let fileName := getFileName url in
  String.eqb (JS.slice_from fileName (-4)) ".rcg"
  || (true && String.eqb (JS.slice_from fileName (-7)) ".rcg.gz").

End FileUtil.

(** [SimulationLogLoader], for a request that succeeds.  The text arrives
    in chunks; at each progress event [parse] is called with the whole
    text received so far as partial data, and at the load event with the
    whole text as complete data, never as incremental data.  The host
    runs [turns] of the waiting continuations after a progress event, and
    all of them after the load event. *)
Module Loading.

(** The loader: whether its field [parser] holds the decoder; the decoder
    it created, that is what the waiting continuations of the body pass
    work on (they keep the iterator, the log and the storage they were
    scheduled with when the loader lets go of the decoder); whether a
    new-sim-log event was dispatched with the log of the decoder; and the
    message of the error event, if one was dispatched. *)
Record t : Type := mk {
  parser : bool;
  decoder : Body.Parser;
  announced : bool;
  error : option string
}.

(** The decoder that [createParserFor] makes for a name, if it makes
    one. *)
Inductive ParserClass : Type := ULGParserClass | ReplayParserClass.

Definition createParserFor (name : string) (gzipAllowed : bool) : option ParserClass :=
  if FileUtil.isSServerLogFile name gzipAllowed then Some ULGParserClass
  else if FileUtil.isReplayFile name gzipAllowed then Some ReplayParserClass
  else None.

(** The loader after [createParserFor] has made a decoder. *)
Definition created : t := mk true Body.newParser false None.

(** [dispose] of a decoder: the iterator, which the waiting continuations
    share, is disposed unless it is kept alive. *)
Definition dispose (keepIteratorAlive : bool) (p : Body.Parser) : Body.Parser :=
  Body.mkParser
    (if keepIteratorAlive then Body.p_iterator p
     else option_map DataIterator.dispose (Body.p_iterator p))
    (Body.p_log p) (Body.p_storage p) (Body.queued p).

(** [clear]: the loader lets go of the decoder.  It also aborts the
    request and removes its listeners, so that no event follows; an event
    that did would find no decoder. *)
Definition clear (keepIteratorAlive : bool) (l : t) : t :=
  if parser l
  then mk false (dispose keepIteratorAlive (decoder l)) (announced l) (error l)
  else l.

Section Loader.
Variable parserParse : Body.Parser -> string -> bool -> bool -> Body.Parser * Body.ParseResult.
Variable decodeLine : SimulationLog.t -> string -> Body.State -> Body.State * bool.

(** [parse] of the loader; the message of the error event is
    [ex.toString()] of a [ParserError]. *)
Definition parse (l : t) (data : string) (partial incremental : bool) : t :=
  match data with
  | EmptyString => l
  | String _ _ =>
      if parser l then
        match parserParse (decoder l) data partial incremental with
        | (p, Body.Returned isNew) =>
            let l1 := mk true p (announced l || isNew) (error l) in
            if partial then l1 else clear true l1
        | (p, Body.ParserError message) =>
            let l1 := clear false (mk true p (announced l) (error l)) in
            mk (parser l1) (decoder l1) (announced l1)
               (Some ("ParserError: " ++ message)%string)
        end
      else l
  end.

(** The host runs waiting continuations. *)
Definition runTurns (turns : nat) (l : t) : t :=
  mk (parser l) (Body.runContinuations decodeLine turns (decoder l)) (announced l) (error l).

Definition settle (l : t) : t :=
  mk (parser l) (Decoding.settle decodeLine (decoder l)) (announced l) (error l).

(** The progress events, then the load event. *)
Fixpoint xhr (received : string) (chunks : list (string * nat)) (last : string) (l : t) : t :=
  match chunks with
  | [] => settle (parse l (received ++ last)%string false false)
  | (chunk, turns) :: more =>
      xhr (received ++ chunk)%string more last
          (runTurns turns (parse l (received ++ chunk)%string true false))
  end.

End Loader.

Definition loadReplay (host : Host.t) (util : SServerUtil.t)
    (chunks : list (string * nat)) (last : string) : t :=
  xhr (ReplayParser.parse host util) (ReplayParser.decodeLine host util)
      EmptyString chunks last created.

Definition loadULG (host : Host.t) (util : SServerUtil.t)
    (chunks : list (string * nat)) (last : string) : t :=
  xhr (ULGParser.parse host util) (ULGParser.decodeLine host util)
      EmptyString chunks last created.

End Loading.

(** A text decoded in chunks by a decoder that starts afresh. *)
Definition feedReplay (host : Host.t) (util : SServerUtil.t)
    (chunks : list (string * nat)) (last : string) : Body.Parser :=
  Decoding.feed (ReplayParser.parse host util) (ReplayParser.decodeLine host util)
                chunks last Body.newParser.

Definition feedULG (host : Host.t) (util : SServerUtil.t)
    (chunks : list (string * nat)) (last : string) : Body.Parser :=
  Decoding.feed (ULGParser.parse host util) (ULGParser.decodeLine host util)
                chunks last Body.newParser.

Module Samples.

(** A line feed and a double quote. *)
Definition LF : string := String "010" EmptyString.
Definition DQ : string := String "034" EmptyString.

(** [lines l]: the lines of [l], each followed by a line feed. *)
Definition lines (l : list string) : string :=
  fold_right (fun line rest => (line ++ LF ++ rest)%string) EmptyString l.

(** A stand-in for the host, for the statements that need one to run a
    decoder on a concrete input: its sine and cosine are undefined and its
    [JSON.parse] always throws. *)
Definition host : Host.t :=
  Host.mk (fun _ => JS.NaN) (fun _ => JS.NaN) (fun _ => None).

(** A stand-in for the constants of [SServerUtil]. *)
Definition util : SServerUtil.t :=
  SServerUtil.mk "simulator_step" "id"
    [("simulator_step", ParameterMap.VNum (JS.ofZ 100))] [] [[]]
    0 1
    0 1 2 3 4 5 6 7 8 9 10 11 12 13 14 15 16.

(** A 3D replay of version 0 and a storage with a fresh builder. *)
Definition replay3D : SimulationLog.t :=
  SimulationLog.new util GameUtil.THREED (JS.ofZ 0).

Definition sserverLog : SimulationLog.t :=
  SimulationLog.new util GameUtil.TWOD (JS.ofZ 5).

Definition storage : LogParserStorage.t :=
  LogParserStorage.set_partialState
    (Some (PartialWorldState.new (JS.ofZ 0) (JS.Num (1 # 5)) (JS.ofZ 0)))
    LogParserStorage.new.

(** The ULG team line of the specification, with its quoted names, and the
    same line without the quotes. *)
Definition teamLineQuoted : string :=
  ("(team 100 " ++ DQ ++ "TeamA" ++ DQ ++ " " ++ DQ ++ "TeamB" ++ DQ ++ " 1 0)")%string.

Definition teamLine : string := "(team 100 TeamA TeamB 1 0)".

(** A 3D replay of version 0 whose play mode goes from A to B and back to
    A between its two snapshots. *)
Definition playModeFlipReplay : string :=
  lines ["RPL 3D 0";
         "S 0 A 0 0";
         "l 1 0 0 0 1000 0 0 0";
         "S 1 B 0 0";
         "S 1 A 0 0";
         "l 1 0 0 0 1000 0 0 0"].

(** A 3D replay of version 0 with five snapshots and the scores 0:0, 0:0,
    0:0, 1:0, 1:0. *)
Definition scoreReplay : string :=
  lines ["RPL 3D 0";
         "S 0 A 0 0"; "l 1 0 0 0 1000 0 0 0";
         "S 1 A 0 0"; "l 1 0 0 0 1000 0 0 0";
         "S 2 A 0 0"; "l 1 0 0 0 1000 0 0 0";
         "S 3 A 1 0"; "l 1 0 0 0 1000 0 0 0";
         "S 4 A 1 0"; "l 1 0 0 0 1000 0 0 0"].

(** A ULG server parameter line that lost its closing parenthesis. *)
Definition brokenServerParamLine : string := "(server_param (simulator_step 100".

(** A ULG log whose first line is UXX. *)
Definition badHeaderULG : string :=
  lines ["UXX"; "(show 1 ((l 1) 0 0x1 1.5 2 0 0 30 0))"].

(** A ULG log with two snapshots. *)
Definition twoShowsULG : string :=
  lines ["ULG5";
         "(show 1 ((l 1) 0 0x1 1.5 2 0 0 30 0))";
         "(show 2 ((l 1) 0 0x1 2.5 2 0 0 30 0))"].

(** A ULG log with 120 message lines and no snapshot. *)
Definition messagesULG : string :=
  lines ("ULG5" :: repeat "(msg 1 1 hello)" 120).

(** A replay in the first 3D format whose header gives a frequency of
    5000 states a second. *)
Definition fastReplay : string :=
  lines ["V 0 0 5000";
         "T 'A' 0 'B' 0";
         "F 66";
         "S 0 A 0 0"; "l 1 0 0 0 1000 0 0 0";
         "S 1 A 0 0"; "l 1 0 0 0 1000 0 0 0"].

(** A text cut after its first [n] characters: what is before the cut
    arrives first, and the host runs one continuation, if one waits,
    before the rest arrives. *)
Definition cut (n : nat) (text : string) : list (string * nat) * string :=
  ([(JS.take n text, 1)], JS.drop n text).

End Samples.

(* ===================================================================== *)
(** ** The change timeline, as the specification words it *)
(* ===================================================================== *)

Module Timeline.

(** The maximal runs of consecutive elements of [l] that [same] relates. *)
Fixpoint runs {A : Type} (same : A -> A -> bool) (l : list A) : list (list A) :=
  match l with
  | [] => []
  | x :: rest =>
      match runs same rest with
      | (y :: run) :: others =>
          if same x y then (x :: y :: run) :: others else [x] :: (y :: run) :: others
      | _ => [[x]]
      end
  end.

(** One entry per run: its first element. *)
Definition entries {A : Type} (same : A -> A -> bool) (l : list A) : list A :=
  flat_map (firstn 1) (runs same l).

(** Two game states, or two scores, have the same value. *)
Definition samePlayMode (a b : GameState.t) : bool :=
  String.eqb (GameState.playMode a) (GameState.playMode b).

Definition sameGoals (a b : GameScore.t) : bool :=
  JS.eqb (GameScore.goalsLeft a) (GameScore.goalsLeft b)
  && JS.eqb (GameScore.goalsRight a) (GameScore.goalsRight b)
  && JS.eqb (GameScore.penaltyScoreLeft a) (GameScore.penaltyScoreLeft b)
  && JS.eqb (GameScore.penaltyMissLeft a) (GameScore.penaltyMissLeft b)
  && JS.eqb (GameScore.penaltyScoreRight a) (GameScore.penaltyScoreRight b)
  && JS.eqb (GameScore.penaltyMissRight a) (GameScore.penaltyMissRight b).

End Timeline.

(* ===================================================================== *)
(** * Properties of the embedding *)
(* ===================================================================== *)

(* ===================================================================== *)
(** ** Facts about strings and the line cursor *)
(* ===================================================================== *)

Module StringFacts.

#[local] Open Scope string_scope.

Lemma app_nil_r (s : string) : s ++ EmptyString = s.
Proof. induction s as [|c s IH]; simpl; [reflexivity | now rewrite IH]. Qed.

Lemma app_assoc (a b c : string) : (a ++ b) ++ c = a ++ (b ++ c).
Proof. induction a as [|x a IH]; simpl; [reflexivity | now rewrite IH]. Qed.

Lemma length_app (a b : string) :
  String.length (a ++ b) = String.length a + String.length b.
Proof. induction a as [|x a IH]; simpl; [reflexivity | now rewrite IH]. Qed.

Lemma drop_app_length (p s : string) : JS.drop (String.length p) (p ++ s) = s.
Proof. induction p as [|x p IH]; simpl; [reflexivity | exact IH]. Qed.

Lemma drop_nil (n : nat) : JS.drop n EmptyString = EmptyString.
Proof. destruct n; reflexivity. Qed.

Lemma drop_0 (s : string) : JS.drop 0 s = s.
Proof. reflexivity. Qed.

Lemma take_drop (n : nat) (s : string) : JS.take n s ++ JS.drop n s = s.
Proof.
  revert s; induction n as [|n IH]; intros [|c s]; simpl; try reflexivity.
  now rewrite IH.
Qed.

(** [s] is what is left of [d] after some prefix. *)
Definition Suffix (s d : string) : Prop := exists p, d = p ++ s.

Lemma Suffix_refl (s : string) : Suffix s s.
Proof. now exists EmptyString. Qed.

Lemma Suffix_trans (a b c : string) : Suffix a b -> Suffix b c -> Suffix a c.
Proof.
  intros [p ->] [q ->]. exists (q ++ p). now rewrite app_assoc.
Qed.

Lemma Suffix_drop (n : nat) (d : string) : Suffix (JS.drop n d) d.
Proof. exists (JS.take n d). symmetry; apply take_drop. Qed.

Lemma Suffix_length (s d : string) :
  Suffix s d -> String.length s <= String.length d.
Proof. intros [p ->]. rewrite length_app. lia. Qed.

Lemma drop_Suffix (s d : string) :
  Suffix s d -> JS.drop (String.length d - String.length s) d = s.
Proof.
  intros [p ->]. rewrite length_app.
  replace (String.length p + String.length s - String.length s)
    with (String.length p) by lia.
  apply drop_app_length.
Qed.

Lemma Suffix_app (s d p : string) : Suffix s d -> Suffix s (p ++ d).
Proof. intros [q ->]. exists (p ++ q). now rewrite app_assoc. Qed.

End StringFacts.

Module DataIteratorFacts.
Import DataIterator StringFacts.

#[local] Open Scope string_scope.

(** A run of line terminators, and a line: a non-empty run of other
    characters. *)
Definition terminators (s : string) : Prop := skipTerminators s = EmptyString.
Definition segment (s : string) : Prop := s <> EmptyString /\ token s = s.

Lemma Suffix_skip (s : string) : Suffix (skipTerminators s) s.
Proof.
  induction s as [|c s IH]; simpl.
  - apply Suffix_refl.
  - destruct (isLineTerminator c).
    + destruct IH as [p Hp]. exists (String c p). simpl. now rewrite <- Hp.
    + apply Suffix_refl.
Qed.

Lemma token_afterToken (s : string) : token s ++ afterToken s = s.
Proof.
  induction s as [|c s IH]; simpl; [reflexivity|].
  destruct (isLineTerminator c); simpl; [reflexivity | now rewrite IH].
Qed.

Lemma Suffix_afterToken (s : string) : Suffix (afterToken s) s.
Proof. exists (token s). symmetry; apply token_afterToken. Qed.

Lemma afterToken_head (s : string) :
  match afterToken s with
  | EmptyString => True
  | String c _ => isLineTerminator c = true
  end.
Proof.
  induction s as [|c s IH]; simpl; [exact I|].
  destruct (isLineTerminator c) eqn:E; [exact E | exact IH].
Qed.

Lemma skip_head (s : string) :
  match skipTerminators s with
  | EmptyString => True
  | String c _ => isLineTerminator c = false
  end.
Proof.
  induction s as [|c s IH]; simpl; [exact I|].
  destruct (isLineTerminator c) eqn:E; [exact IH | exact E].
Qed.

Lemma token_nonempty (s : string) :
  match skipTerminators s with
  | EmptyString => True
  | String _ _ as r => token r <> EmptyString
  end.
Proof.
  pose proof (skip_head s) as H.
  destruct (skipTerminators s) as [|c r]; [exact I|].
  simpl. rewrite H. discriminate.
Qed.

Lemma skip_app_terminators (ts s : string) :
  terminators ts -> skipTerminators (ts ++ s) = skipTerminators s.
Proof.
  unfold terminators. induction ts as [|c ts IH]; simpl; [reflexivity|].
  destruct (isLineTerminator c); [exact IH | discriminate].
Qed.

Lemma skip_segment (seg s : string) :
  segment seg -> skipTerminators (seg ++ s) = seg ++ s.
Proof.
  intros [Hne Htok]. destruct seg as [|c seg]; [congruence|].
  simpl in *. destruct (isLineTerminator c); [discriminate | reflexivity].
Qed.

Lemma token_app_terminator (seg : string) (t : ascii) (s : string) :
  token seg = seg -> isLineTerminator t = true ->
  token (seg ++ String t s) = seg /\ afterToken (seg ++ String t s) = String t s.
Proof.
  intros Htok Ht. induction seg as [|c seg IH]; simpl in *.
  - now rewrite Ht.
  - destruct (isLineTerminator c); [discriminate|].
    injection Htok as Htok. destruct (IH Htok) as [-> ->]. now split.
Qed.

Lemma token_whole (seg : string) :
  token seg = seg -> afterToken seg = EmptyString.
Proof.
  induction seg as [|c seg IH]; simpl; [reflexivity|].
  destruct (isLineTerminator c); [discriminate|].
  intros H. injection H as H. now apply IH.
Qed.

(** The cursor relates to [scan] on the text that is left. *)
Lemma exec_checked_scan (it : t) :
  match scan (partialData it) (remaining it) with
  | None => fst (exec_checked it) = None
  | Some (l, rest) =>
      exec_checked it = (Some l, String.length (data it) - String.length rest)
      /\ Suffix rest (data it)
  end.
Proof.
  unfold scan, exec_checked, regExp_exec, remaining.
  pose proof (Suffix_drop (lastIndex it) (data it)) as Hd.
  pose proof (Suffix_skip (JS.drop (lastIndex it) (data it))) as Hs.
  destruct (skipTerminators (JS.drop (lastIndex it) (data it))) as [|c r] eqn:Er.
  - destruct (partialData it); destruct (String.length (data it)); reflexivity.
  - set (r' := String c r) in *.
    assert (Hr : Suffix r' (data it)) by (eapply Suffix_trans; eassumption).
    pose proof (Suffix_afterToken r') as Ha.
    assert (Hra : Suffix (afterToken r') (data it)) by (eapply Suffix_trans; eassumption).
    pose proof (Suffix_length _ _ Hr) as Lr.
    pose proof (Suffix_length _ _ Hra) as La.
    pose proof (token_afterToken r') as Hta.
    assert (Ll : String.length r' = String.length (token r') + String.length (afterToken r'))
      by (rewrite <- Hta at 1; apply length_app).
    assert (Hli : String.length (data it) - String.length r' + String.length (token r')
                  = String.length (data it) - String.length (afterToken r')) by lia.
    rewrite Hli.
    destruct (afterToken r') as [|a rest] eqn:Ea.
    + simpl String.length. rewrite Nat.sub_0_r, Nat.eqb_refl.
      destruct (partialData it); simpl; [reflexivity|].
      rewrite Nat.sub_0_r. split; [reflexivity | exact Hra].
    + assert (Hne : (String.length (data it) - String.length (String a rest)
                     =? String.length (data it))%nat = false).
      { apply Nat.eqb_neq. simpl String.length in *. lia. }
      rewrite Hne, andb_false_r. split; [reflexivity | exact Hra].
Qed.

Lemma next_scan (it : t) :
  match scan (partialData it) (remaining it) with
  | None => next it = mk (data it) (lastIndex it) None (partialData it)
  | Some (l, rest) =>
      next it = mk (data it) (String.length (data it) - String.length rest)
                   (Some l) (partialData it)
      /\ remaining (next it) = rest
  end.
Proof.
  pose proof (exec_checked_scan it) as H.
  unfold next. destruct (scan (partialData it) (remaining it)) as [[l rest]|].
  - destruct H as [-> Hs]. split; [reflexivity|].
    unfold remaining; simpl. now apply drop_Suffix.
  - destruct (exec_checked it) as [tok li]. simpl in H. now subst tok.
Qed.

Lemma hasNext_scan (it : t) :
  hasNext it = match scan (partialData it) (remaining it) with
               | Some _ => true
               | None => false
               end.
Proof.
  pose proof (exec_checked_scan it) as H.
  unfold hasNext. destruct (scan (partialData it) (remaining it)) as [[l rest]|].
  - now destruct H as [-> _].
  - now rewrite H.
Qed.

(** [scan] on a buffer that ends with a line without terminator, and on
    one that ends with its terminator. *)
Lemma scan_trailing (partial : bool) (ts seg : string) :
  terminators ts -> segment seg ->
  scan partial (ts ++ seg)
  = if partial then None else Some (seg, EmptyString).
Proof.
  intros Hts Hseg. unfold scan.
  rewrite (skip_app_terminators ts seg Hts).
  pose proof (skip_segment seg EmptyString Hseg) as Hsk.
  rewrite app_nil_r in Hsk. rewrite Hsk.
  destruct Hseg as [Hne Htok].
  destruct seg as [|c seg]; [congruence|].
  rewrite (token_whole _ Htok), Htok. reflexivity.
Qed.

Lemma scan_terminated (partial : bool) (ts seg : string) (t : ascii) (s : string) :
  terminators ts -> segment seg -> isLineTerminator t = true ->
  scan partial (ts ++ seg ++ String t s) = Some (seg, String t s).
Proof.
  intros Hts Hseg Ht. unfold scan.
  rewrite (skip_app_terminators ts _ Hts), (skip_segment seg _ Hseg).
  destruct Hseg as [Hne Htok].
  destruct (token_app_terminator seg t s Htok Ht) as [Ht1 Ht2].
  destruct seg as [|c seg]; [congruence|].
  change (String c seg ++ String t s) with (String c (seg ++ String t s)) in *.
  cbv beta iota. rewrite Ht2, Ht1. reflexivity.
Qed.

End DataIteratorFacts.

Example parseInt_1000 : JS.parseInt "1000" 10 = JS.ofZ 1000.
Proof. reflexivity. Qed.

Example parseInt_neg : JS.parseInt " -42abc" 10 = JS.ofZ (-42).
Proof. reflexivity. Qed.

Example parseInt_hex : JS.parseInt "0x1f" 16 = JS.ofZ 31.
Proof. reflexivity. Qed.

Example parseInt_none : JS.parseInt "abc" 10 = JS.NaN.
Proof. reflexivity. Qed.

Example parseFloat_1_5 : JS.parseFloat "1.5" = JS.Num (3 # 2).
Proof. reflexivity. Qed.

Example parseFloat_exp : JS.parseFloat "-2.5e-1x" = JS.Num (- 1 # 4).
Proof. reflexivity. Qed.

Example split_spaces : JS.split " " "l 1  x" = ["l"; "1"; EmptyString; "x"].
Proof. reflexivity. Qed.

Example slice_1_m1 : JS.slice "(abc)" 1 (-1) = "abc".
Proof. reflexivity. Qed.

Example iterator_lines :
let it1 := DataIterator.next (DataIterator.new ("ab" ++ String "010" "cd")%string true) in
let it2 := DataIterator.next it1 in
(DataIterator.line it1, DataIterator.lastIndex it1,
 DataIterator.line it2, DataIterator.lastIndex it2)
= (Some "ab", 2, None, 2).
Proof. reflexivity. Qed.


(* ===================================================================== *)
(** ** The line cursor and partial data *)
(* ===================================================================== *)

Module CursorClaims.
Import DataIterator StringFacts DataIteratorFacts.

#[local] Open Scope string_scope.

(** C9.  The buffer holds, from the cursor on, some line terminators [ts]
    and then a line [seg] with nothing after it.  While [partialData] is
    true, [next] yields no line and leaves the cursor where it is, and
    [hasNext] is false; with [partialData] false the same buffer yields
    [seg].  When the buffer ends with a line terminator right after [seg],
    [seg] is yielded even while [partialData] is true. *)
Theorem partial_data_keeps_unterminated_line :
  forall (pre ts seg : string) (ln : option string),
    terminators ts -> segment seg ->
    (next (mk (pre ++ ts ++ seg) (String.length pre) ln true)
       = mk (pre ++ ts ++ seg) (String.length pre) None true
     /\ hasNext (mk (pre ++ ts ++ seg) (String.length pre) ln true) = false)
    /\ (line (next (mk (pre ++ ts ++ seg) (String.length pre) ln false)) = Some seg
        /\ hasNext (mk (pre ++ ts ++ seg) (String.length pre) ln false) = true)
    /\ (forall term : ascii, isLineTerminator term = true ->
          line (next (mk (pre ++ ts ++ seg ++ String term EmptyString)
                         (String.length pre) ln true)) = Some seg
          /\ hasNext (mk (pre ++ ts ++ seg ++ String term EmptyString)
                         (String.length pre) ln true) = true).
Proof.
  intros pre ts seg ln Hts Hseg.
  assert (Hrem : forall rest b,
             remaining (mk (pre ++ rest) (String.length pre) ln b) = rest).
  { intros rest b. unfold remaining. simpl. apply drop_app_length. }
  split; [split | split; [split | intros term Hterm; split]].
  - pose proof (next_scan (mk (pre ++ ts ++ seg) (String.length pre) ln true)) as H.
    rewrite Hrem in H. simpl partialData in H.
    rewrite (scan_trailing true ts seg Hts Hseg) in H. exact H.
  - rewrite hasNext_scan, Hrem. simpl partialData.
    now rewrite (scan_trailing true ts seg Hts Hseg).
  - pose proof (next_scan (mk (pre ++ ts ++ seg) (String.length pre) ln false)) as H.
    rewrite Hrem in H. simpl partialData in H.
    rewrite (scan_trailing false ts seg Hts Hseg) in H.
    destruct H as [-> _]. reflexivity.
  - rewrite hasNext_scan, Hrem. simpl partialData.
    now rewrite (scan_trailing false ts seg Hts Hseg).
  - pose proof (next_scan (mk (pre ++ ts ++ seg ++ String term EmptyString) (String.length pre) ln true)) as H.
    rewrite Hrem in H. simpl partialData in H.
    rewrite (scan_terminated true ts seg term EmptyString Hts Hseg Hterm) in H.
    destruct H as [-> _]. reflexivity.
  - rewrite hasNext_scan, Hrem.
    simpl partialData.
    now rewrite (scan_terminated true ts seg term EmptyString Hts Hseg Hterm).
Qed.

(** The statement at the buffer [ab<LF>cd] with the cursor after [ab]. *)
Lemma partial_data_keeps_unterminated_line_witness :
  (next (mk ("ab" ++ String "010" EmptyString ++ "cd") 2 (Some "ab") true)
     = mk ("ab" ++ String "010" EmptyString ++ "cd") 2 None true
   /\ hasNext (mk ("ab" ++ String "010" EmptyString ++ "cd") 2 (Some "ab") true) = false)
  /\ (line (next (mk ("ab" ++ String "010" EmptyString ++ "cd") 2 (Some "ab") false))
        = Some "cd"
      /\ hasNext (mk ("ab" ++ String "010" EmptyString ++ "cd") 2 (Some "ab") false) = true)
  /\ (forall term : ascii, isLineTerminator term = true ->
        line (next (mk ("ab" ++ String "010" EmptyString ++ "cd" ++ String term EmptyString)
                       2 (Some "ab") true)) = Some "cd"
        /\ hasNext (mk ("ab" ++ String "010" EmptyString ++ "cd" ++ String term EmptyString)
                       2 (Some "ab") true) = true).
Proof.
  apply (partial_data_keeps_unterminated_line
           "ab" (String "010" EmptyString) "cd" (Some "ab")).
  - reflexivity.
  - split; [discriminate | reflexivity].
Defined.

End CursorClaims.

(* ===================================================================== *)
(** ** Arrays *)
(* ===================================================================== *)

Module ArrayFacts.

Lemma array_get_set {A : Type} (l : list (option A)) (i : nat) (v : A) :
  JS.array_get (JS.array_set l i v) i = Some v.
Proof.
  unfold JS.array_get. revert l; induction i as [|i IH]; intros [|x l]; simpl;
    try reflexivity; apply IH.
Qed.

Lemma array_set_length {A : Type} (l : list (option A)) (i : nat) (v : A) :
  0 < List.length (JS.array_set l i v).
Proof. destruct i, l; simpl; lia. Qed.

End ArrayFacts.

(* ===================================================================== *)
(** ** Object states and the snapshot builder *)
(* ===================================================================== *)

Module SnapshotClaims.
Import PartialWorldState.

(** The builders that the constructor and the operations other than a
    write of the ball state produce: the builders of a decoder that has
    decoded no ball line yet. *)
Inductive noBallYet : PartialWorldState.t -> Prop :=
| nb_new (time timeStep gameTime : JS.number) :
    noBallYet (PartialWorldState.new time timeStep gameTime)
| nb_setGameTime p g : noBallYet p -> noBallYet (setGameTime p g)
| nb_setPlaymode p m : noBallYet p -> noBallYet (setPlaymode p m)
| nb_setScore p a b c d e f : noBallYet p -> noBallYet (setScore p a b c d e f)
| nb_set_timeStep p v : noBallYet p -> noBallYet (set_timeStep v p)
| nb_set_left p v : noBallYet p -> noBallYet (set_leftAgentStates v p)
| nb_set_right p v : noBallYet p -> noBallYet (set_rightAgentStates v p)
| nb_appendTo p states : noBallYet p -> noBallYet (fst (fst (appendTo p states))).

Lemma noBallYet_ballState (p : PartialWorldState.t) :
  noBallYet p -> ballState p = ObjectState.new.
Proof.
  induction 1 as [| p g _ IH | p m _ IH | p a b c d e f _ IH | p v _ IH
                  | p v _ IH | p v _ IH | p states _ IH]; simpl; try assumption.
  - reflexivity.
  - unfold setPlaymode. now destruct (negb _).
  - unfold setScore. now destruct (_ || _).
  - unfold appendTo. now destruct (0 <? _).
Qed.

(** C10.  An object state constructed with no argument is at the origin
    with the orientation (0, 0, 0, 1) and is valid; and the world state
    that a builder commits before any ball state was written to it carries
    that state as its ball state. *)
Theorem default_ball_state_is_valid_origin :
  forall (p p' : PartialWorldState.t) (states states' : list WorldState.t),
    noBallYet p ->
    appendTo p states = (p', states', true) ->
    ObjectState.position ObjectState.new = (JS.ofZ 0, JS.ofZ 0, JS.ofZ 0)
    /\ ObjectState.orientation ObjectState.new = (JS.ofZ 0, JS.ofZ 0, JS.ofZ 0, JS.ofZ 1)
    /\ ObjectState.isValid ObjectState.new = true
    /\ exists w : WorldState.t,
         states' = states ++ [w]
         /\ WorldState.ballState w = ObjectState.new
         /\ ObjectState.isValid (WorldState.ballState w) = true.
Proof.
  intros p p' states states' Hp Happ.
  repeat split.
  pose proof (noBallYet_ballState p Hp) as Hb.
  unfold appendTo in Happ.
  destruct (0 <? _); [|discriminate].
  injection Happ as _ <-.
  eexists. split; [reflexivity|].
  unfold WorldState.ballState; simpl. rewrite Hb. split; reflexivity.
Qed.

(** The statement for a builder that received one agent state and nothing
    else. *)
Lemma default_ball_state_is_valid_origin_witness :
  ObjectState.position ObjectState.new = (JS.ofZ 0, JS.ofZ 0, JS.ofZ 0)
  /\ ObjectState.orientation ObjectState.new = (JS.ofZ 0, JS.ofZ 0, JS.ofZ 0, JS.ofZ 1)
  /\ ObjectState.isValid ObjectState.new = true
  /\ exists w : WorldState.t,
       [w] = [] ++ [w]
       /\ WorldState.ballState w = ObjectState.new
       /\ ObjectState.isValid (WorldState.ballState w) = true.
Proof.
  pose (p := set_leftAgentStates [Some ObjectState.new]
               (PartialWorldState.new (JS.ofZ 0) (JS.Num (1 # 10)) (JS.ofZ 0))).
  destruct (default_ball_state_is_valid_origin
              p (fst (fst (appendTo p []))) [] (snd (fst (appendTo p []))))
    as (H1 & H2 & H3 & w & Hw & H4 & H5).
  - apply nb_set_left, nb_new.
  - reflexivity.
  - repeat split; try assumption. exists w. repeat split; assumption.
Defined.

End SnapshotClaims.

(* ===================================================================== *)
(** ** Sample lines *)
(* ===================================================================== *)

Module SampleClaims.

(** The fields of a version 0 3D agent line that carries the pose of the
    sample: the tag, the player number, the model token if there is one,
    the seven numbers, and the joint angles, however many. *)
Definition sampleFields (tag unum : string) (model : option string) (angles : list string)
  : list string :=
  tag :: unum
  :: (match model with Some m => [m] | None => [] end)
  ++ ["1000"; "2000"; "500"; "1000"; "0"; "0"; "0"] ++ angles.

(** The tags after which the decoder reads a model token. *)
Definition withModel (tag : string) : bool := String.eqb tag "L" || String.eqb tag "R".

Definition isSome {A : Type} (o : option A) : bool :=
  match o with Some _ => true | None => false end.

(** A field: a text without a blank. *)
Fixpoint noBlank (s : string) : bool :=
  match s with
  | EmptyString => true
  | String c s' => negb (Ascii.eqb c " ") && noBlank s'
  end.

Lemma split_acc_field (cur t s : string) :
  noBlank t = true ->
  JS.split_acc " " cur (t ++ s)%string = JS.split_acc " " (cur ++ t)%string s.
Proof.
  revert cur. induction t as [|c t IH]; intros cur H; simpl in *.
  - now rewrite StringFacts.app_nil_r.
  - apply andb_prop in H as [Hc Ht]. apply negb_true_iff in Hc. rewrite Hc, (IH _ Ht).
    now rewrite StringFacts.app_assoc.
Qed.

(** A line written from fields without blanks, with a blank between two
    fields, splits into these fields: every agent line written from a tag,
    a player number, a model token, the seven numbers and joint angles has
    the fields that the statement below asks for. *)
Lemma split_join (fields : list string) :
  fields <> [] -> forallb noBlank fields = true ->
  JS.split " " (JS.join " " fields) = fields.
Proof.
  unfold JS.split, JS.join.
  assert (H : forall f rest cur,
             forallb noBlank (f :: rest) = true ->
             JS.split_acc " " cur (String.concat " " (f :: rest))
             = (cur ++ f)%string :: rest).
  { intros f rest. revert f. induction rest as [|g rest IH]; intros f cur Hf.
    - simpl in *. rewrite andb_true_r in Hf.
      rewrite <- (StringFacts.app_nil_r f) at 1. now rewrite split_acc_field.
    - change (String.concat " " (f :: g :: rest))
        with (f ++ String " " (String.concat " " (g :: rest)))%string.
      simpl in Hf. apply andb_prop in Hf as [Hf Hr].
      rewrite (split_acc_field _ _ _ Hf). simpl. f_equal. apply IH. exact Hr. }
  intros Hne Hall. destruct fields as [|f rest]; [congruence|].
  now rewrite H.
Qed.

Lemma partialState_set (v : option PartialWorldState.t) (storage : LogParserStorage.t) :
  LogParserStorage.partialState (LogParserStorage.set_partialState v storage) = v.
Proof. reflexivity. Qed.

(** The agent state that [setAgentState] stores is read back at the player
    number. *)
Lemma setAgentState_get (leftSide : bool) (playerNo : JS.number) (n : nat)
    (agent : AgentState.t) (ps : PartialWorldState.t) :
  JS.index playerNo = Some n ->
  JS.array_get (ReplayParser.agentStatesOf leftSide
                  (ReplayParser.setAgentState leftSide playerNo agent ps)) n
  = Some agent.
Proof.
  intros Hn. unfold ReplayParser.setAgentState, ReplayParser.agentStatesOf, JS.array_set_at.
  rewrite Hn. destruct leftSide; simpl; apply ArrayFacts.array_get_set.
Qed.

(** The pose of the sample, whatever the model index and the joint angles
    are. *)
Lemma sample_pose (modelIdx : JS.number) (jointData : list JS.number) :
  let agent :=
    AgentState.ofParams
      (AgentState.mkParams modelIdx (JS.ofZ 0)
         (ReplayParser.milli "1000") (ReplayParser.milli "500")
         (ReplayParser.negMilli "2000")
         (ReplayParser.milli "0") (ReplayParser.milli "0") (ReplayParser.negMilli "0")
         (ReplayParser.milli "1000") jointData []) in
  ObjectState.position agent = (JS.ofZ 1, JS.Num (1 # 2), JS.ofZ (-2))
  /\ ObjectState.orientation agent = (JS.ofZ 0, JS.ofZ 0, JS.ofZ 0, JS.ofZ 1).
Proof. split; reflexivity. Qed.

(** The line decoder of a 3D replay of version 0 hands a line that starts
    with l or L to [parseAgentState_V0_3D] for the left side, and one that
    starts with r or R for the right side, and does not count it as a new
    state. *)
Lemma decodeLine_agent_V0_3D (host : Host.t) (util : SServerUtil.t)
    (replay0 : SimulationLog.t) (dataLine : string) (st : Body.State) (leftSide : bool) :
  SimulationLog.type replay0 = GameUtil.THREED ->
  JS.eqb (SimulationLog.version replay0) (JS.ofZ 0) = true ->
  JS.charAt dataLine 0
  = (if leftSide then "l" else "r")
  \/ JS.charAt dataLine 0 = (if leftSide then "L" else "R") ->
  ReplayParser.decodeLine host util replay0 dataLine st
  = (ReplayParser.parseAgentState_V0_3D dataLine st leftSide, false).
Proof.
  intros Htype Hver Hc. unfold ReplayParser.decodeLine, ReplayParser.parseAgentFcn.
  rewrite Htype, Hver. destruct st as [replay storage].
  destruct leftSide, Hc as [-> | ->]; reflexivity.
Qed.

(** C7.  Every version 0 3D agent line whose seven numbers after the tag
    and the player number (and after the model token, which follows the
    player number when the tag is L or R) are 1000 2000 500 1000 0 0 0
    decodes to an agent state at (1, 1/2, -2) with the orientation
    (0, 0, 0, 1): whatever the tag, the player number, the model token and
    the joint angles that follow, for either side and whatever the replay
    and the storage hold, the state is stored at the player number.  The
    line decoder of a 3D replay of version 0 decodes a line that starts
    with l, L, r or R in this way. *)
Theorem replay_v0_3d_agent_line_sample :
  forall (replay : SimulationLog.t) (storage : LogParserStorage.t)
         (ps : PartialWorldState.t) (leftSide : bool)
         (dataLine tag unum : string) (model : option string) (angles : list string)
         (n : nat),
    LogParserStorage.partialState storage = Some ps ->
    JS.split " " dataLine = sampleFields tag unum model angles ->
    withModel tag = isSome model ->
    JS.index (JS.parseInt unum 10) = Some n ->
    (exists (ps' : PartialWorldState.t) (agent : AgentState.t),
        LogParserStorage.partialState
          (snd (ReplayParser.parseAgentState_V0_3D dataLine (replay, storage) leftSide))
        = Some ps'
        /\ JS.array_get (ReplayParser.agentStatesOf leftSide ps') n = Some agent
        /\ ObjectState.position agent = (JS.ofZ 1, JS.Num (1 # 2), JS.ofZ (-2))
        /\ ObjectState.orientation agent = (JS.ofZ 0, JS.ofZ 0, JS.ofZ 0, JS.ofZ 1))
    /\ (forall (host : Host.t) (util : SServerUtil.t) (replay0 : SimulationLog.t),
          SimulationLog.type replay0 = GameUtil.THREED ->
          JS.eqb (SimulationLog.version replay0) (JS.ofZ 0) = true ->
          JS.charAt dataLine 0 = (if leftSide then "l" else "r")
          \/ JS.charAt dataLine 0 = (if leftSide then "L" else "R") ->
          ReplayParser.decodeLine host util replay0 dataLine (replay, storage)
          = (ReplayParser.parseAgentState_V0_3D dataLine (replay, storage) leftSide,
             false)).
Proof.
  intros replay storage ps leftSide dataLine tag unum model angles n Hps Hsplit Hmodel Hn.
  split; [|intros host util replay0; apply decodeLine_agent_V0_3D].
  unfold ReplayParser.parseAgentState_V0_3D. rewrite Hps, Hsplit.
  change (ReplayParser.at_ (sampleFields tag unum model angles) 0) with tag.
  fold (withModel tag). rewrite Hmodel.
  destruct model as [m|]; unfold sampleFields, isSome;
    cbn [app List.length Nat.ltb Nat.leb andb ReplayParser.at_ nth Nat.add];
    eexists; eexists; cbn [snd]; rewrite partialState_set;
    (split; [reflexivity|]); (split; [now apply setAgentState_get|]);
    apply sample_pose.
Qed.

End SampleClaims.

Module SampleWitnesses.

(** The statement for the line of the specification as a left agent, and
    for a right agent with a model token, the player number 7 and three
    joint angles, in the sample replay with a fresh builder. *)
Lemma replay_v0_3d_agent_line_sample_witness :
  (exists (ps' : PartialWorldState.t) (agent : AgentState.t),
      LogParserStorage.partialState
        (snd (fst (ReplayParser.decodeLine Samples.host Samples.util Samples.replay3D
                     "l 1 1000 2000 500 1000 0 0 0"
                     (Samples.replay3D, Samples.storage)))) = Some ps'
      /\ JS.array_get (ReplayParser.agentStatesOf true ps') 1 = Some agent
      /\ ObjectState.position agent = (JS.ofZ 1, JS.Num (1 # 2), JS.ofZ (-2))
      /\ ObjectState.orientation agent = (JS.ofZ 0, JS.ofZ 0, JS.ofZ 0, JS.ofZ 1))
  /\ (exists (ps' : PartialWorldState.t) (agent : AgentState.t),
        LogParserStorage.partialState
          (snd (fst (ReplayParser.decodeLine Samples.host Samples.util Samples.replay3D
                       "R 7 nao3 1000 2000 500 1000 0 0 0 -150 3000 45"
                       (Samples.replay3D, Samples.storage)))) = Some ps'
        /\ JS.array_get (ReplayParser.agentStatesOf false ps') 7 = Some agent
        /\ ObjectState.position agent = (JS.ofZ 1, JS.Num (1 # 2), JS.ofZ (-2))
        /\ ObjectState.orientation agent = (JS.ofZ 0, JS.ofZ 0, JS.ofZ 0, JS.ofZ 1)).
Proof.
  pose (ps := PartialWorldState.new (JS.ofZ 0) (JS.Num (1 # 5)) (JS.ofZ 0)).
  split.
  - destruct (SampleClaims.replay_v0_3d_agent_line_sample
                Samples.replay3D Samples.storage ps true
                "l 1 1000 2000 500 1000 0 0 0" "l" "1" None [] 1
                eq_refl eq_refl eq_refl eq_refl) as [H HD].
    rewrite (HD Samples.host Samples.util Samples.replay3D eq_refl eq_refl
               (or_introl eq_refl)).
    exact H.
  - destruct (SampleClaims.replay_v0_3d_agent_line_sample
                Samples.replay3D Samples.storage ps false
                "R 7 nao3 1000 2000 500 1000 0 0 0 -150 3000 45" "R" "7" (Some "nao3")
                ["-150"; "3000"; "45"] 7
                eq_refl eq_refl eq_refl eq_refl) as [H HD].
    rewrite (HD Samples.host Samples.util Samples.replay3D eq_refl eq_refl
               (or_intror eq_refl)).
    exact H.
Defined.

End SampleWitnesses.


(* ===================================================================== *)
(** ** The operations of the snapshot builder *)
(* ===================================================================== *)

Module BuilderFacts.
Import PartialWorldState.

Lemma eqb_refl_Num (q : Q) : JS.eqb (JS.Num q) (JS.Num q) = true.
Proof. simpl. apply Qeq_bool_iff. reflexivity. Qed.

(** After [setScore] the goals are the ones given, when these are numbers
    and not [NaN]. *)
Lemma setScore_goals (p : t) (l r : Q) (c d e f : JS.number) :
  JS.eqb (GameScore.goalsLeft (score (setScore p (JS.Num l) (JS.Num r) c d e f)))
         (JS.Num l) = true
  /\ JS.eqb (GameScore.goalsRight (score (setScore p (JS.Num l) (JS.Num r) c d e f)))
            (JS.Num r) = true.
Proof.
  unfold setScore.
  destruct (JS.neqb (GameScore.goalsLeft (score p)) (JS.Num l)) eqn:E1;
    [simpl; split; apply eqb_refl_Num|].
  destruct (JS.neqb (GameScore.goalsRight (score p)) (JS.Num r)) eqn:E2;
    [simpl; split; apply eqb_refl_Num|].
  unfold JS.neqb in E1, E2.
  apply negb_false_iff in E1. apply negb_false_iff in E2.
  match goal with
  | |- context [if ?c then _ else _] => destruct c
  end; simpl; split; try apply eqb_refl_Num; assumption.
Qed.

Lemma setScore_gameTime (p : t) (a b c d e f : JS.number) :
  gameTime (setScore p a b c d e f) = gameTime p.
Proof. unfold setScore. now destruct (_ || _). Qed.

Lemma setPlaymode_gameTime (p : t) (m : string) :
  gameTime (setPlaymode p m) = gameTime p.
Proof. unfold setPlaymode. now destruct (negb _). Qed.

End BuilderFacts.

Module TeamLineClaims.
Import Samples.

Lemma team_line_quoted_values :
  SymbolTreeParser.parse teamLineQuoted
  = Some (SymbolTreeParser.Node
            ["team"; "100"; (DQ ++ "TeamA" ++ DQ)%string; (DQ ++ "TeamB" ++ DQ)%string;
             "1"; "0"] []).
Proof. reflexivity. Qed.

(** What decoding the quoted team line leaves, in any state with a
    builder. *)
Lemma team_line_quoted_run
    (sserverLog : SimulationLog.t) (storage : LogParserStorage.t)
    (ps : PartialWorldState.t) :
  LogParserStorage.partialState storage = Some ps ->
  exists (log' : SimulationLog.t) (storage' : LogParserStorage.t)
         (ps' : PartialWorldState.t),
    ULGParser.parseTeamLine teamLineQuoted (sserverLog, storage) = Normal (log', storage')
    /\ LogParserStorage.partialState storage' = Some ps'
    /\ TeamDescription.name (SimulationLog.leftTeam log') = (DQ ++ "TeamA" ++ DQ)%string
    /\ TeamDescription.name (SimulationLog.rightTeam log') = (DQ ++ "TeamB" ++ DQ)%string
    /\ JS.eqb (GameScore.goalsLeft (PartialWorldState.score ps')) (JS.ofZ 1) = true
    /\ JS.eqb (GameScore.goalsRight (PartialWorldState.score ps')) (JS.ofZ 0) = true
    /\ PartialWorldState.gameTime ps' = JS.ofZ 10.
Proof.
  intros Hps.
  unfold ULGParser.parseTeamLine. rewrite Hps, team_line_quoted_values.
  cbn -[PartialWorldState.appendTo PartialWorldState.setScore PartialWorldState.setGameTime
        JS.parseInt].
  destruct (PartialWorldState.appendTo ps (SimulationLog.states sserverLog))
    as [[ps1 states1] committed] eqn:Happ.
  eexists; eexists; eexists. split; [reflexivity|].
  split; [reflexivity|]. split; [reflexivity|]. split; [reflexivity|].
  change (JS.parseInt "1" 10) with (JS.Num 1).
  change (JS.parseInt "0" 10) with (JS.Num 0).
  change (JS.ofZ 1) with (JS.Num 1). change (JS.ofZ 0) with (JS.Num 0).
  destruct (BuilderFacts.setScore_goals
              (PartialWorldState.setGameTime ps1
                 (JS.div (JS.parseInt "100" 10) (JS.Num 10)))
              1 0 (JS.Num 0) (JS.Num 0) (JS.Num 0) (JS.Num 0)) as [Hl Hr].
  split; [exact Hl|]. split; [exact Hr|].
  rewrite BuilderFacts.setScore_gameTime. reflexivity.
Qed.

(** C8, as the code has it.  Decoding the line
    (team 100 "TeamA" "TeamB" 1 0) while a builder exists sets the score to
    1:0 and the game time to 10, and sets the team names to the two tokens
    as they are written, with their double quotes. *)
Theorem ulg_team_line_sample :
  forall (sserverLog : SimulationLog.t) (storage : LogParserStorage.t)
         (ps : PartialWorldState.t),
    LogParserStorage.partialState storage = Some ps ->
    exists (log' : SimulationLog.t) (storage' : LogParserStorage.t)
           (ps' : PartialWorldState.t),
      ULGParser.parseTeamLine teamLineQuoted (sserverLog, storage) = Normal (log', storage')
      /\ LogParserStorage.partialState storage' = Some ps'
      /\ TeamDescription.name (SimulationLog.leftTeam log') = (DQ ++ "TeamA" ++ DQ)%string
      /\ TeamDescription.name (SimulationLog.rightTeam log') = (DQ ++ "TeamB" ++ DQ)%string
      /\ JS.eqb (GameScore.goalsLeft (PartialWorldState.score ps')) (JS.ofZ 1) = true
      /\ JS.eqb (GameScore.goalsRight (PartialWorldState.score ps')) (JS.ofZ 0) = true
      /\ PartialWorldState.gameTime ps' = JS.ofZ 10.
Proof. intros sserverLog storage ps. apply team_line_quoted_run. Qed.

(** The statement for the sample log and a storage with a fresh
    builder. *)
Lemma ulg_team_line_sample_witness :
  exists (log' : SimulationLog.t) (storage' : LogParserStorage.t)
         (ps' : PartialWorldState.t),
    ULGParser.parseTeamLine teamLineQuoted (Samples.sserverLog, Samples.storage)
    = Normal (log', storage')
    /\ LogParserStorage.partialState storage' = Some ps'
    /\ TeamDescription.name (SimulationLog.leftTeam log') = (DQ ++ "TeamA" ++ DQ)%string
    /\ TeamDescription.name (SimulationLog.rightTeam log') = (DQ ++ "TeamB" ++ DQ)%string
    /\ JS.eqb (GameScore.goalsLeft (PartialWorldState.score ps')) (JS.ofZ 1) = true
    /\ JS.eqb (GameScore.goalsRight (PartialWorldState.score ps')) (JS.ofZ 0) = true
    /\ PartialWorldState.gameTime ps' = JS.ofZ 10.
Proof.
  exact (ulg_team_line_sample Samples.sserverLog Samples.storage
           (PartialWorldState.new (JS.ofZ 0) (JS.Num (1 # 5)) (JS.ofZ 0)) eq_refl).
Defined.

(** The left team name that C8 states, TeamA, is not what the decoder
    stores for the quoted line, in whatever state it decodes it. *)
Lemma ulg_team_line_name_keeps_quotes :
  ~ exists (sserverLog : SimulationLog.t) (storage : LogParserStorage.t)
           (ps : PartialWorldState.t),
      LogParserStorage.partialState storage = Some ps
      /\ TeamDescription.name
           (SimulationLog.leftTeam
              (fst (completed (ULGParser.parseTeamLine teamLineQuoted
                                 (sserverLog, storage))))) = "TeamA".
Proof.
  intros (sserverLog & storage & ps & Hps & Hname).
  destruct (team_line_quoted_run sserverLog storage ps Hps)
    as (log' & storage' & ps' & Hrun & _ & Hleft & _).
  rewrite Hrun in Hname. simpl in Hname. rewrite Hleft in Hname. discriminate.
Qed.

(** Written without quotes, the line gives the names TeamA and TeamB. *)
Lemma ulg_team_line_unquoted :
  TeamDescription.name
    (SimulationLog.leftTeam
       (fst (completed (ULGParser.parseTeamLine teamLine
                          (Samples.sserverLog, Samples.storage))))) = "TeamA"
  /\ TeamDescription.name
       (SimulationLog.rightTeam
          (fst (completed (ULGParser.parseTeamLine teamLine
                             (Samples.sserverLog, Samples.storage))))) = "TeamB".
Proof. split; reflexivity. Qed.

End TeamLineClaims.

(* ===================================================================== *)
(** ** The change timelines of the log *)
(* ===================================================================== *)

Module TimelineFacts.

Section Track.
Variable A : Type.
Variable same : A -> A -> bool.
Hypothesis same_sym : forall a b, same a b = same b a.
Hypothesis same_trans : forall a b c, same a b = true -> same b c = true -> same a c = true.

(** One track of the loop of [onStatesUpdated]: the entries pushed while
    walking [rest] with [previous] in hand. *)
Fixpoint track (previous : A) (rest : list A) (acc : list A) : list A :=
  match rest with
  | [] => acc
  | x :: rest' =>
      if negb (same previous x) then track x rest' (acc ++ [x])
      else track previous rest' acc
  end.

Lemma track_acc (previous : A) (rest acc : list A) :
  track previous rest acc = acc ++ track previous rest [].
Proof.
  revert previous acc. induction rest as [|x rest IH]; intros previous acc; simpl.
  - now rewrite app_nil_r.
  - destruct (negb (same previous x)).
    + rewrite (IH x (acc ++ [x])), (IH x [x]). now rewrite app_assoc.
    + apply IH.
Qed.

Lemma track_same (a b : A) (rest : list A) :
  same a b = true -> track a rest [] = track b rest [].
Proof.
  intros Hab. induction rest as [|x rest IH]; simpl; [reflexivity|].
  assert (Hx : same a x = same b x).
  { destruct (same a x) eqn:Ea, (same b x) eqn:Eb; try reflexivity.
    - rewrite same_sym in Hab. now rewrite (same_trans b a x Hab Ea) in Eb.
    - now rewrite (same_trans a b x Hab Eb) in Ea. }
  rewrite Hx. destruct (negb (same b x)); [reflexivity | exact IH].
Qed.

Lemma runs_cons (x : A) (rest : list A) :
  exists run others, Timeline.runs same (x :: rest) = (x :: run) :: others.
Proof.
  simpl. destruct (Timeline.runs same rest) as [|[|y run] others].
  - now exists [], [].
  - now exists [], [].
  - destruct (same x y); eexists; eexists; reflexivity.
Qed.

(** The loop pushes, after the first entry, the first element of every
    further run. *)
Lemma track_entries (previous : A) (rest : list A) :
  previous :: track previous rest [] = Timeline.entries same (previous :: rest).
Proof.
  revert previous. induction rest as [|x rest IH]; intros previous; [reflexivity|].
  unfold Timeline.entries in *.
  change (Timeline.runs same (previous :: x :: rest))
    with (match Timeline.runs same (x :: rest) with
          | (y :: run) :: others =>
              if same previous y then (previous :: y :: run) :: others
              else [previous] :: (y :: run) :: others
          | _ => [[previous]]
          end).
  specialize (IH x).
  destruct (runs_cons x rest) as (run & others & Hr). rewrite Hr in *.
  simpl track. simpl in IH. injection IH as IH.
  destruct (same previous x) eqn:E; simpl.
  - f_equal. rewrite (track_same previous x rest E). exact IH.
  - f_equal. rewrite track_acc. simpl. f_equal. exact IH.
Qed.

End Track.

Lemma GameState_same_sym (a b : GameState.t) : GameState.same a b = GameState.same b a.
Proof. apply Nat.eqb_sym. Qed.

Lemma GameState_same_trans (a b c : GameState.t) :
  GameState.same a b = true -> GameState.same b c = true -> GameState.same a c = true.
Proof.
  unfold GameState.same. rewrite !Nat.eqb_eq. congruence.
Qed.

Lemma GameScore_same_sym (a b : GameScore.t) : GameScore.same a b = GameScore.same b a.
Proof. apply Nat.eqb_sym. Qed.

Lemma GameScore_same_trans (a b c : GameScore.t) :
  GameScore.same a b = true -> GameScore.same b c = true -> GameScore.same a c = true.
Proof.
  unfold GameScore.same. rewrite !Nat.eqb_eq. congruence.
Qed.

(** The loop of [onStatesUpdated] runs its two tracks side by side. *)
Lemma extract_tracks (pg : GameState.t) (ps : GameScore.t) (rest : list WorldState.t)
    (accG : list GameState.t) (accS : list GameScore.t) :
  SimulationLog.extract pg ps rest accG accS
  = (track GameState.t GameState.same pg (map WorldState.gameState rest) accG,
     track GameScore.t GameScore.same ps (map WorldState.score rest) accS).
Proof.
  revert pg ps accG accS. induction rest as [|w rest IH]; intros; simpl; [reflexivity|].
  rewrite IH.
  destruct (negb (GameState.same pg (WorldState.gameState w)));
    destruct (negb (GameScore.same ps (WorldState.score w))); reflexivity.
Qed.

(** What [onStatesUpdated] leaves in the two lists of a log with states. *)
Lemma onStatesUpdated_lists (log : SimulationLog.t) :
  SimulationLog.states log <> [] ->
  SimulationLog.gameStateList (SimulationLog.onStatesUpdated log)
  = Timeline.entries GameState.same (map WorldState.gameState (SimulationLog.states log))
  /\ SimulationLog.gameScoreList (SimulationLog.onStatesUpdated log)
     = Timeline.entries GameScore.same (map WorldState.score (SimulationLog.states log)).
Proof.
  intros Hne. unfold SimulationLog.onStatesUpdated.
  destruct (SimulationLog.states log) as [|first rest]; [congruence|].
  rewrite extract_tracks. simpl SimulationLog.gameStateList. simpl SimulationLog.gameScoreList.
  rewrite (track_acc _ _ _ _ [WorldState.gameState first]).
  rewrite (track_acc _ _ _ _ [WorldState.score first]).
  split.
  - apply (track_entries _ _ GameState_same_sym GameState_same_trans).
  - apply (track_entries _ _ GameScore_same_sym GameScore_same_trans).
Qed.

Lemma onStatesUpdated_states (log : SimulationLog.t) :
  SimulationLog.states (SimulationLog.onStatesUpdated log) = SimulationLog.states log.
Proof.
  unfold SimulationLog.onStatesUpdated.
  destruct (SimulationLog.states log) eqn:E; [exact E|].
  destruct (SimulationLog.extract _ _ _ _ _). simpl. exact E.
Qed.

Lemma finalize_states (log : SimulationLog.t) :
  SimulationLog.states (SimulationLog.finalize log) = SimulationLog.states log.
Proof. unfold SimulationLog.finalize. now rewrite onStatesUpdated_states. Qed.

End TimelineFacts.

Module TimelineClaims.
Import TimelineFacts.

(** The per-tick values of a log. *)
Definition playModes (log : SimulationLog.t) : list string :=
  map (fun w => GameState.playMode (WorldState.gameState w)) (SimulationLog.states log).

Definition goals (log : SimulationLog.t) : list (JS.number * JS.number) :=
  map (fun w => (GameScore.goalsLeft (WorldState.score w),
                 GameScore.goalsRight (WorldState.score w)))
      (SimulationLog.states log).

(** C3, as the code has it.  After the states of a log with states are
    updated or finalized, [gameStateList] and [gameScoreList] hold one
    entry per maximal run of consecutive world states that carry the same
    GameState, respectively GameScore, instance: the instance of the run.
    [setPlaymode] and [setScore] keep the instance when the value given is
    the current one. *)
Theorem change_timelines_follow_instances :
  forall log : SimulationLog.t,
    SimulationLog.states log <> [] ->
    (forall log' : SimulationLog.t,
        log' = SimulationLog.onStatesUpdated log \/ log' = SimulationLog.finalize log ->
        SimulationLog.gameStateList log'
        = Timeline.entries GameState.same
            (map WorldState.gameState (SimulationLog.states log'))
        /\ SimulationLog.gameScoreList log'
           = Timeline.entries GameScore.same
               (map WorldState.score (SimulationLog.states log')))
    /\ (forall (p : PartialWorldState.t),
          PartialWorldState.setPlaymode p (GameState.playMode (PartialWorldState.gameState p))
          = p)
    /\ (forall (p : PartialWorldState.t) (l r a b c d : Q),
          PartialWorldState.score p
          = GameScore.new (GameScore.id (PartialWorldState.score p))
                          (GameScore.time (PartialWorldState.score p))
                          (JS.Num l) (JS.Num r) (JS.Num a) (JS.Num b) (JS.Num c) (JS.Num d) ->
          PartialWorldState.setScore p (JS.Num l) (JS.Num r)
                                     (JS.Num a) (JS.Num b) (JS.Num c) (JS.Num d) = p).
Proof.
  intros log Hne. split; [|split].
  - intros log' [-> | ->].
    + rewrite onStatesUpdated_states. now apply onStatesUpdated_lists.
    + rewrite finalize_states. unfold SimulationLog.finalize.
      now apply (onStatesUpdated_lists (SimulationLog.set_fullyLoaded true log)).
  - intros p. unfold PartialWorldState.setPlaymode. now rewrite String.eqb_refl.
  - intros p l r a b c d Hs. unfold PartialWorldState.setScore. rewrite Hs.
    unfold GameScore.new, JS.neqb; cbn [GameScore.goalsLeft GameScore.goalsRight
      GameScore.penaltyScoreLeft GameScore.penaltyMissLeft
      GameScore.penaltyScoreRight GameScore.penaltyMissRight].
    rewrite !BuilderFacts.eqb_refl_Num. reflexivity.
Qed.

(** What decoding the two sample replays gives, on any host. *)
Lemma playModeFlipReplay_run (host : Host.t) (util : SServerUtil.t) :
  exists log : SimulationLog.t,
    Body.p_log (decodeReplay host util Samples.playModeFlipReplay) = Some log
    /\ playModes log = ["A"; "A"]
    /\ map GameState.id (SimulationLog.gameStateList log) = [2; 4]
    /\ SimulationLog.fullyLoaded log = true.
Proof. eexists. split; [vm_compute; reflexivity|]. repeat split. Qed.

Lemma scoreReplay_run (host : Host.t) (util : SServerUtil.t) :
  exists log : SimulationLog.t,
    Body.p_log (decodeReplay host util Samples.scoreReplay) = Some log
    /\ goals log = [(JS.Num 0, JS.Num 0); (JS.Num 0, JS.Num 0); (JS.Num 0, JS.Num 0);
                    (JS.Num 1, JS.Num 0); (JS.Num 1, JS.Num 0)]
    /\ List.length (SimulationLog.gameScoreList log) = 2.
Proof. eexists. split; [vm_compute; reflexivity|]. repeat split. Qed.

(** The statement for the log of the sample replay with five snapshots. *)
Lemma change_timelines_follow_instances_witness :
  exists log : SimulationLog.t,
    Body.p_log (decodeReplay Samples.host Samples.util Samples.scoreReplay) = Some log
    /\ List.length (SimulationLog.states log) = 5
    /\ SimulationLog.gameScoreList (SimulationLog.finalize log)
       = Timeline.entries GameScore.same
           (map WorldState.score (SimulationLog.states (SimulationLog.finalize log)))
    /\ List.length (SimulationLog.gameScoreList (SimulationLog.finalize log)) = 2.
Proof.
  eexists. split; [vm_compute; reflexivity|]. split; [reflexivity|].
  split; [|reflexivity].
  refine (proj2 (proj1 (change_timelines_follow_instances _ _) _ (or_intror eq_refl))).
  discriminate.
Defined.

(** C3 as it is stated fails on the sample replay whose play mode changes
    and changes back between two snapshots: the per-tick play modes are A,
    A, a single run of equal values, and [gameStateList] has two
    entries. *)
Lemma timeline_counts_a_change_and_back :
  exists log : SimulationLog.t,
    Body.p_log (decodeReplay Samples.host Samples.util Samples.playModeFlipReplay)
    = Some log
    /\ playModes log = ["A"; "A"]
    /\ List.length (Timeline.runs Timeline.samePlayMode
                      (map WorldState.gameState (SimulationLog.states log))) = 1
    /\ List.length (SimulationLog.gameStateList log) = 2.
Proof. eexists. split; [vm_compute; reflexivity|]. repeat split. Qed.

End TimelineClaims.

(* ===================================================================== *)
(** ** Parameter blocks that fail to decode *)
(* ===================================================================== *)

Module ParameterClaims.

(** The Replay decoder parses before it replaces: a parameter line whose
    JSON does not parse leaves the parameter maps as they were. *)
Lemma replay_environment_params_kept (host : Host.t) (util : SServerUtil.t)
    (dataLine : string) (replay : SimulationLog.t) (storage : LogParserStorage.t) :
  Host.JSON_parse host (JS.slice_from dataLine 3) = None ->
  SimulationLog.environmentParams
    (fst (completed (ReplayParser.parseEnvironmentParams host util dataLine
                       (replay, storage))))
  = SimulationLog.environmentParams replay.
Proof.
  intros Hjson. unfold ReplayParser.parseEnvironmentParams. rewrite Hjson.
  unfold SimulationLog.updateFrequency.
  destruct (ParameterMap.getNumber _ _) as [[step|]|]; simpl; try reflexivity.
  destruct (JS.truthy step); reflexivity.
Qed.

Lemma replay_player_params_kept (host : Host.t) (dataLine : string)
    (replay : SimulationLog.t) :
  Host.JSON_parse host (JS.slice_from dataLine 3) = None ->
  ReplayParser.parsePlayerParams host dataLine replay = replay.
Proof. intros Hjson. unfold ReplayParser.parsePlayerParams. now rewrite Hjson. Qed.

Lemma replay_player_type_params_kept (host : Host.t) (dataLine : string)
    (replay : SimulationLog.t) :
  (forall s, Host.JSON_parse host s = None) ->
  ReplayParser.parsePlayerTypeParams host dataLine replay = replay.
Proof.
  intros Hjson. unfold ReplayParser.parsePlayerTypeParams.
  destruct (JS.indexOf _ _ _) as [idx|]; [|reflexivity].
  destruct (_ && _); [|reflexivity]. now rewrite Hjson.
Qed.

(** So does the ULG decoder for a player type. *)
Lemma ulg_player_type_kept (util : SServerUtil.t) (line : string)
    (sserverLog : SimulationLog.t) :
  SymbolTreeParser.parse line = None ->
  ULGParser.parsePlayerTypeLine util line sserverLog = Thrown sserverLog.
Proof.
  intros Hparse. unfold ULGParser.parsePlayerTypeLine, ULGParser.parseParameters.
  now rewrite Hparse.
Qed.

(** For the server and the player parameters the ULG decoder clears the
    map before the tree parser runs: when the parser throws, the map is
    left empty. *)
Lemma ulg_server_param_cleared (util : SServerUtil.t) (line : string)
    (sserverLog : SimulationLog.t) (storage : LogParserStorage.t) :
  SymbolTreeParser.parse line = None ->
  ULGParser.parseServerParamLine util line (sserverLog, storage)
  = Thrown (SimulationLog.set_environmentParams
              (ParameterMap.clear (SimulationLog.environmentParams sserverLog))
              sserverLog,
            storage).
Proof.
  intros Hparse. unfold ULGParser.parseServerParamLine, ULGParser.parseParameters.
  now rewrite Hparse.
Qed.

Lemma ulg_player_param_cleared (line : string) (sserverLog : SimulationLog.t) :
  SymbolTreeParser.parse line = None ->
  ULGParser.parsePlayerParamLine line sserverLog
  = Thrown (SimulationLog.set_playerParams
              (ParameterMap.clear (SimulationLog.playerParams sserverLog)) sserverLog).
Proof.
  intros Hparse. unfold ULGParser.parsePlayerParamLine, ULGParser.parseParameters.
  now rewrite Hparse.
Qed.

(** C5: the code at the failing input.  The body pass of the ULG decoder
    decodes a server parameter line without its closing parenthesis: the
    tree parser throws, and the environment parameters, whatever they
    were, are left empty.  On the sample log the simulator step, 100
    before the line, is undefined after it. *)
Theorem ulg_server_param_failure_clears_the_map :
  (forall (host : Host.t) (util : SServerUtil.t) (log0 sserverLog : SimulationLog.t)
          (storage : LogParserStorage.t),
      ParameterMap.paramObj
        (SimulationLog.environmentParams
           (fst (fst (ULGParser.decodeLine host util log0 Samples.brokenServerParamLine
                        (sserverLog, storage)))))
      = ParameterMap.empty)
  /\ ParameterMap.getNumber (SimulationLog.environmentParams Samples.sserverLog)
                            "simulator_step" = Some (Some (JS.ofZ 100))
  /\ ParameterMap.getNumber
       (SimulationLog.environmentParams
          (fst (fst (ULGParser.decodeLine Samples.host Samples.util Samples.sserverLog
                       Samples.brokenServerParamLine
                       (Samples.sserverLog, Samples.storage)))))
       "simulator_step" = Some None.
Proof.
  split; [|split; reflexivity].
  intros host util log0 sserverLog storage.
  unfold ULGParser.decodeLine.
  change (String.eqb (JS.slice Samples.brokenServerParamLine 0 14) "(server_param ")
    with true.
  cbv iota. rewrite ulg_server_param_cleared by reflexivity. reflexivity.
Qed.

End ParameterClaims.

(* ===================================================================== *)
(** ** The ULG header *)
(* ===================================================================== *)

Module HeaderClaims.

(** C6: the code at the failing input.  The first line of the sample log
    is UXX.  Whatever the host and the constants of SServerUtil are, the
    first call of [parse] on it does not raise the error of a missing
    header; with the sample constants it decodes the body and returns
    true, with one state in the log. *)
Theorem ulg_header_check_accepts_UXX :
  (forall (host : Host.t) (util : SServerUtil.t),
      snd (ULGParser.parse host util Body.newParser Samples.badHeaderULG false false)
      <> Body.ParserError "Failed parsing ULG log file - no ULG header found!")
  /\ snd (ULGParser.parse Samples.host Samples.util Body.newParser
            Samples.badHeaderULG false false)
     = Body.Returned true
  /\ Body.statesLength
       (fst (ULGParser.parse Samples.host Samples.util Body.newParser
               Samples.badHeaderULG false false))
     = 1.
Proof.
  split; [|split; vm_compute; reflexivity].
  intros host util.
  unfold ULGParser.parse. cbn [Body.p_iterator Body.newParser].
  change (DataIterator.line (DataIterator.next (DataIterator.new Samples.badHeaderULG false)))
    with (Some "UXX").
  cbv iota. change (negb (String.eqb (JS.charAt "UXX" 0) "U")) with false.
  cbn [andb]. cbv iota. cbv zeta.
  unfold Body.conclude. destruct (negb false && _); discriminate.
Qed.

(** The check lets a first line through as soon as one of its first three
    characters is the expected one. *)
Lemma ulg_header_check_one_character (first : string) :
  In first ["Uxx"; "xLx"; "xxG"] ->
  snd (ULGParser.parse Samples.host Samples.util Body.newParser
         (first ++ Samples.LF)%string true false)
  = Body.Returned false.
Proof.
  intros [<- | [<- | [<- | []]]]; vm_compute; reflexivity.
Qed.

End HeaderClaims.

(* ===================================================================== *)
(** ** The cursor as a stream of lines *)
(* ===================================================================== *)

Module StreamFacts.
Import DataIterator StringFacts DataIteratorFacts.

#[local] Open Scope string_scope.

Lemma skip_split (r : string) :
  exists ts, terminators ts /\ r = ts ++ skipTerminators r.
Proof.
  induction r as [|c r IH]; simpl.
  - now exists EmptyString.
  - destruct (isLineTerminator c) eqn:E.
    + destruct IH as (ts & Hts & Hr). exists (String c ts). split.
      * unfold terminators in *. simpl. now rewrite E.
      * simpl. now rewrite <- Hr.
    + now exists EmptyString.
Qed.

Lemma token_idem (r : string) : token (token r) = token r.
Proof.
  induction r as [|c r IH]; simpl; [reflexivity|].
  destruct (isLineTerminator c) eqn:E; simpl; [reflexivity|].
  now rewrite E, IH.
Qed.

(** What a successful [scan] tells about the text. *)
Lemma scan_Some_inv (p : bool) (r l rest : string) :
  scan p r = Some (l, rest) ->
  exists ts,
    terminators ts /\ segment l /\ r = ts ++ l ++ rest
    /\ ((rest = EmptyString /\ p = false)
        \/ exists t s, rest = String t s /\ isLineTerminator t = true).
Proof.
  unfold scan. intros H.
  destruct (skip_split r) as (ts & Hts & Hr).
  pose proof (skip_head r) as Hhead.
  destruct (skipTerminators r) as [|c r'] eqn:Er; [discriminate|].
  pose proof (token_afterToken (String c r')) as Hta.
  pose proof (afterToken_head (String c r')) as Hah.
  assert (Hseg : segment (token (String c r'))).
  { split; [|apply token_idem]. simpl. rewrite Hhead. discriminate. }
  destruct (afterToken (String c r')) as [|a rest'] eqn:Ea.
  - destruct p; [discriminate|]. injection H as <- <-.
    exists ts. repeat split; try assumption; try apply Hseg.
    + change (r = ts ++ token (String c r') ++ EmptyString). now rewrite Hta.
    + now left.
  - injection H as <- <-.
    exists ts. repeat split; try assumption; try apply Hseg.
    + change (r = ts ++ token (String c r') ++ String a rest'). now rewrite Hta.
    + right. now exists a, rest'.
Qed.

Lemma scan_shorter (p : bool) (r l rest : string) :
  scan p r = Some (l, rest) -> String.length rest < String.length r /\ l <> EmptyString.
Proof.
  intros H. destruct (scan_Some_inv p r l rest H) as (ts & _ & [Hne _] & -> & _).
  split; [|exact Hne]. rewrite !length_app.
  destruct l; [congruence|]. simpl. lia.
Qed.

(** A line that the cursor yields on partial data is the line it yields
    when more text follows, whatever the mode then. *)
Lemma scan_stable (r l rest s : string) (p : bool) :
  scan true r = Some (l, rest) -> scan p (r ++ s) = Some (l, rest ++ s).
Proof.
  intros H. destruct (scan_Some_inv true r l rest H)
    as (ts & Hts & Hseg & -> & [[_ Hp] | (t & s' & -> & Ht)]); [discriminate|].
  rewrite !app_assoc. simpl.
  now apply scan_terminated.
Qed.

Lemma scan_nil (p : bool) : scan p EmptyString = None.
Proof. reflexivity. Qed.

Lemma length_0 (r : string) : String.length r = 0 -> r = EmptyString.
Proof. destruct r; [reflexivity | discriminate]. Qed.

Lemma linesUpTo_more (fuel fuel' : nat) (p : bool) (r : string) :
  String.length r <= fuel -> String.length r <= fuel' ->
  linesUpTo fuel p r = linesUpTo fuel' p r.
Proof.
  revert fuel' r. induction fuel as [|fuel IH]; intros fuel' r H1 H2.
  - rewrite (length_0 r) by lia. destruct fuel'; reflexivity.
  - destruct fuel' as [|fuel'].
    + rewrite (length_0 r) by lia. reflexivity.
    + simpl. destruct (scan p r) as [[l rest]|] eqn:E; [|reflexivity].
      apply scan_shorter in E as [Hlt _]. f_equal. apply IH; lia.
Qed.

Lemma restUpTo_more (fuel fuel' : nat) (p : bool) (r : string) :
  String.length r <= fuel -> String.length r <= fuel' ->
  restUpTo fuel p r = restUpTo fuel' p r.
Proof.
  revert fuel' r. induction fuel as [|fuel IH]; intros fuel' r H1 H2.
  - rewrite (length_0 r) by lia. destruct fuel'; reflexivity.
  - destruct fuel' as [|fuel'].
    + rewrite (length_0 r) by lia. reflexivity.
    + simpl. destruct (scan p r) as [[l rest]|] eqn:E; [|reflexivity].
      apply scan_shorter in E as [Hlt _]. apply IH; lia.
Qed.

(** The stream, one line at a time. *)
Lemma lines_unfold (p : bool) (r : string) :
  lines p r = match scan p r with
              | Some (l, rest) => l :: lines p rest
              | None => []
              end.
Proof.
  unfold lines. destruct (String.length r) as [|n] eqn:En.
  - rewrite (length_0 r En). reflexivity.
  - simpl. destruct (scan p r) as [[l rest]|] eqn:E; [|reflexivity].
    apply scan_shorter in E as [Hlt _]. f_equal. apply linesUpTo_more; lia.
Qed.

Lemma rest_unfold (p : bool) (r : string) :
  rest p r = match scan p r with
             | Some (_, rest') => rest p rest'
             | None => r
             end.
Proof.
  unfold rest. destruct (String.length r) as [|n] eqn:En.
  - rewrite (length_0 r En). reflexivity.
  - simpl. destruct (scan p r) as [[l rest']|] eqn:E; [|reflexivity].
    apply scan_shorter in E as [Hlt _]. apply restUpTo_more; lia.
Qed.

(** Induction on the length of the text. *)
Lemma text_ind (P : string -> Prop) :
  (forall r, (forall r', String.length r' < String.length r -> P r') -> P r) ->
  forall r, P r.
Proof.
  intros Hstep r.
  assert (H : forall n r, String.length r < n -> P r).
  { induction n as [|n IH]; intros r' Hlt; [lia|].
    apply Hstep. intros r'' Hlt'. apply IH. lia. }
  apply (H (S (String.length r))). lia.
Qed.

(** The text left holds no line that is complete. *)
Lemma scan_rest (p : bool) (r : string) : scan p (rest p r) = None.
Proof.
  induction r as [r IH] using text_ind.
  rewrite rest_unfold. destruct (scan p r) as [[l rest']|] eqn:E; [|exact E].
  apply IH. now apply scan_shorter in E.
Qed.

Lemma lines_rest (p : bool) (r : string) : lines p (rest p r) = [].
Proof. rewrite lines_unfold. now rewrite scan_rest. Qed.

Lemma rest_rest (p : bool) (r : string) : rest p (rest p r) = rest p r.
Proof. rewrite (rest_unfold p (rest p r)). now rewrite scan_rest. Qed.

(** Chunking: the lines of a text that continues are the lines that were
    complete before it continued, then the lines of what was left with the
    continuation. *)
Lemma lines_app (p : bool) (r s : string) :
  lines p (r ++ s) = (lines true r ++ lines p (rest true r ++ s))%list.
Proof.
  induction r as [r IH] using text_ind.
  rewrite (lines_unfold true r), (rest_unfold true r).
  destruct (scan true r) as [[l rest']|] eqn:E; [|reflexivity].
  rewrite (lines_unfold p (r ++ s)), (scan_stable r l rest' s p E).
  simpl. f_equal. apply IH. now apply scan_shorter in E.
Qed.

Lemma rest_app (p : bool) (r s : string) :
  rest p (r ++ s) = rest p (rest true r ++ s).
Proof.
  induction r as [r IH] using text_ind.
  rewrite (rest_unfold true r).
  destruct (scan true r) as [[l rest']|] eqn:E; [|reflexivity].
  rewrite (rest_unfold p (r ++ s)), (scan_stable r l rest' s p E).
  apply IH. now apply scan_shorter in E.
Qed.

(** Every line is a character long at least. *)
Lemma lines_nonempty (p : bool) (r : string) : Forall (fun l => l <> EmptyString) (lines p r).
Proof.
  induction r as [r IH] using text_ind.
  rewrite lines_unfold. destruct (scan p r) as [[l rest']|] eqn:E; [|constructor].
  apply scan_shorter in E as [Hlt Hne]. constructor; [exact Hne | now apply IH].
Qed.

(** [next] in terms of the stream. *)
Lemma next_stream (it : t) :
  data (next it) = data it
  /\ partialData (next it) = partialData it
  /\ match scan (partialData it) (remaining it) with
     | Some (l, rest') =>
         line (next it) = Some l /\ hasLine (next it) = true
         /\ remaining (next it) = rest'
     | None =>
         line (next it) = None /\ hasLine (next it) = false
         /\ remaining (next it) = remaining it
     end.
Proof.
  pose proof (next_scan it) as H.
  destruct (scan (partialData it) (remaining it)) as [[l rest']|] eqn:E.
  - destruct H as [Hn Hr]. rewrite Hn in *. simpl. repeat split; try assumption.
    apply scan_shorter in E as [_ Hne]. unfold hasLine. simpl.
    destruct l; [congruence | reflexivity].
  - rewrite H. simpl. repeat split.
Qed.

End StreamFacts.

(* ===================================================================== *)
(** ** The body pass *)
(* ===================================================================== *)

Module DecoderFacts.
Import DataIterator StringFacts DataIteratorFacts StreamFacts.

(** The lines a pass has before it: the line the cursor is at, then the
    lines of the text after the cursor. *)
Definition queueOf (it : DataIterator.t) : list string :=
  match line it with
  | Some (String _ _ as l) => l :: lines (partialData it) (remaining it)
  | _ => []
  end.

Lemma queueOf_next (it : DataIterator.t) :
  queueOf (next it) = lines (partialData it) (remaining it).
Proof.
  destruct (next_stream it) as (_ & Hp & H).
  rewrite (lines_unfold (partialData it) (remaining it)).
  unfold queueOf. rewrite Hp.
  destruct (scan (partialData it) (remaining it)) as [[l rest']|] eqn:E.
  - destruct H as (Hl & _ & Hr). rewrite Hl, Hr.
    apply scan_shorter in E as [_ Hne]. destruct l; [congruence | reflexivity].
  - destruct H as (Hl & _ & _). now rewrite Hl.
Qed.

Lemma queueOf_hasLine (it : DataIterator.t) :
  hasLine it = false -> queueOf it = [].
Proof.
  unfold hasLine, queueOf. destruct (line it) as [[|c l]|]; congruence.
Qed.

Lemma remaining_length (it : DataIterator.t) :
  String.length (remaining it) <= String.length (data it).
Proof. apply Suffix_length, Suffix_drop. Qed.

Lemma lines_length (p : bool) (r : string) :
  List.length (lines p r) <= String.length r.
Proof.
  induction r as [r IH] using text_ind.
  rewrite lines_unfold. destruct (scan p r) as [[l rest']|] eqn:E; simpl; [|lia].
  apply scan_shorter in E as [Hlt _]. specialize (IH rest' Hlt). lia.
Qed.

Lemma queueOf_length (it : DataIterator.t) :
  List.length (queueOf it) <= 1 + String.length (data it).
Proof.
  unfold queueOf. pose proof (remaining_length it).
  pose proof (lines_length (partialData it) (remaining it)).
  destruct (line it) as [[|c l]|]; simpl; lia.
Qed.

Lemma next_exhausted (it : DataIterator.t) :
  hasLine (next it) = false -> lines (partialData it) (remaining (next it)) = [].
Proof.
  intros Hno. destruct (next_stream it) as (_ & _ & H).
  destruct (scan (partialData it) (remaining it)) as [[l rest']|] eqn:E.
  - destruct H as (_ & Hl & _). congruence.
  - destruct H as (_ & _ & ->). rewrite lines_unfold. now rewrite E.
Qed.

(** The lines the cursor has before it, the line it is at included, and
    the text it leaves once they are consumed. *)
Definition pending (it : DataIterator.t) : list string :=
  match line it with
  | Some (String _ _ as l) => l :: lines (partialData it) (remaining it)
  | _ => lines (partialData it) (remaining it)
  end.

Definition leftover (it : DataIterator.t) : string :=
  rest (partialData it) (remaining it).

Lemma pending_next (it : DataIterator.t) :
  pending (next it) = lines (partialData it) (remaining it).
Proof.
  destruct (next_stream it) as (_ & Hp & H).
  unfold pending. rewrite Hp, (lines_unfold (partialData it) (remaining it)).
  destruct (scan (partialData it) (remaining it)) as [[l rest']|] eqn:E.
  - destruct H as (Hl & _ & Hr). rewrite Hl, Hr.
    apply scan_shorter in E as [_ Hne]. destruct l; [congruence | reflexivity].
  - destruct H as (Hl & _ & Hr). rewrite Hl, Hr, lines_unfold. now rewrite E.
Qed.

Lemma leftover_next (it : DataIterator.t) : leftover (next it) = leftover it.
Proof.
  unfold leftover. destruct (next_stream it) as (_ & -> & H).
  rewrite (rest_unfold (partialData it) (remaining it)).
  destruct (scan (partialData it) (remaining it)) as [[l rest']|] eqn:E.
  - destruct H as (_ & _ & ->). reflexivity.
  - destruct H as (_ & _ & ->). rewrite rest_unfold. now rewrite E.
Qed.

Lemma pending_queue (it : DataIterator.t) : hasLine it = true -> queueOf it = pending it.
Proof.
  unfold hasLine, queueOf, pending. destruct (line it) as [[|c l]|]; congruence.
Qed.

Lemma pending_start (it : DataIterator.t) :
  queueOf (if hasLine it then it else next it) = pending it.
Proof.
  destruct (hasLine it) eqn:E; [now apply pending_queue|].
  rewrite queueOf_next. unfold hasLine in E. unfold pending.
  destruct (line it) as [[|c l]|]; congruence.
Qed.

Lemma pending_length (it : DataIterator.t) :
  List.length (pending it) <= 1 + String.length (data it).
Proof.
  unfold pending. pose proof (remaining_length it).
  pose proof (lines_length (partialData it) (remaining it)).
  destruct (line it) as [[|c l]|]; simpl; lia.
Qed.

(** The text grows: the lines that were pending are pending still, and
    what was left over continues with the new text. *)
Lemma pending_update (it : DataIterator.t) (chunk : string) (partial : bool) :
  partialData it = true ->
  let it' := fst (update it chunk partial true) in
  pending it' = pending it ++ lines partial (leftover it ++ chunk)%string
  /\ leftover it' = rest partial (leftover it ++ chunk)%string
  /\ line it' = line it
  /\ partialData it' = partial
  /\ snd (update it chunk partial true) = negb (hasLine it).
Proof.
  intros Hp. unfold update, pending, leftover, remaining, hasLine. simpl.
  rewrite Hp. fold (remaining it).
  rewrite (lines_app partial (remaining it) chunk), (rest_app partial (remaining it) chunk).
  repeat split. destruct (line it) as [[|c l]|]; reflexivity.
Qed.


Section Pass.
Variable d : SimulationLog.t -> string -> Body.State -> Body.State * bool.

(** The line decoders leave the bound of the storage alone. *)
Hypothesis d_maxStates : forall log0 l st,
  LogParserStorage.maxStates (snd (fst (d log0 l st))) = LogParserStorage.maxStates (snd st).

Lemma decodeAll_maxStates (log0 : SimulationLog.t) (ls : list string) (st : Body.State) :
  LogParserStorage.maxStates (snd (Decoding.decodeAll d log0 ls st))
  = LogParserStorage.maxStates (snd st).
Proof.
  unfold Decoding.decodeAll.
  revert st. induction ls as [|l ls IH]; intros st; simpl; [reflexivity|].
  rewrite IH. apply d_maxStates.
Qed.

Lemma decodeAll_app (log0 : SimulationLog.t) (ls ls' : list string) (st : Body.State) :
  Decoding.decodeAll d log0 (ls ++ ls') st
  = Decoding.decodeAll d log0 ls' (Decoding.decodeAll d log0 ls st).
Proof. unfold Decoding.decodeAll. apply fold_left_app. Qed.

(** The loop decodes a prefix of the lines before it and stops either
    without a line or with the counter at the bound. *)
Lemma loop_spec (log0 : SimulationLog.t) (fuel : nat) :
  forall (it : DataIterator.t) (st : Body.State) (cnt n : nat),
    List.length (queueOf it) < fuel ->
    exists (consumed : list string) (it' : DataIterator.t) (cnt' : nat),
      Body.loop d log0 fuel it st cnt n
      = (it', Decoding.decodeAll d log0 consumed st, cnt', n + List.length consumed)
      /\ queueOf it = consumed ++ queueOf it'
      /\ data it' = data it
      /\ partialData it' = partialData it
      /\ cnt <= cnt' <= cnt + List.length consumed
      /\ (cnt <= LogParserStorage.maxStates (snd st) ->
          cnt' <= LogParserStorage.maxStates (snd st))
      /\ (hasLine it' = true -> LogParserStorage.maxStates (snd st) <= cnt')
      /\ (hasLine it' = false ->
          it' = it \/ lines (partialData it') (remaining it') = [])
      /\ (hasLine it = true -> cnt < LogParserStorage.maxStates (snd st) ->
          consumed <> []).
Proof.
  induction fuel as [|fuel IH]; intros it st cnt n Hfuel; [lia|].
  simpl. unfold queueOf in Hfuel |- *. unfold hasLine at 3.
  destruct (line it) as [[|c l]|] eqn:El.
  - exists [], it, cnt. simpl. rewrite El, Nat.add_0_r.
    repeat split; try lia; try (unfold hasLine; rewrite El; discriminate); auto.
  - destruct (cnt <? LogParserStorage.maxStates (snd st)) eqn:Elt.
    + destruct (d log0 (String c l) st) as [st1 counted] eqn:Ed.
      assert (Hq : List.length (queueOf (next it)) < fuel).
      { rewrite queueOf_next. simpl in Hfuel. lia. }
      destruct (IH (next it) st1 (if counted then S cnt else cnt) (S n) Hq)
        as (consumed & it' & cnt' & Hloop & Hqueue & Hdata & Hpart & Hcnt & Hmax
            & Hline & Hnone & _).
      destruct (next_stream it) as (Hd & Hp & _).
      assert (Hm1 : LogParserStorage.maxStates (snd st1)
                    = LogParserStorage.maxStates (snd st)).
      { replace st1 with (fst (d log0 (String c l) st)) by now rewrite Ed.
        apply d_maxStates. }
      exists (String c l :: consumed), it', cnt'.
      apply Nat.ltb_lt in Elt.
      rewrite Hloop. simpl. rewrite Ed. simpl. rewrite Hm1 in *.
      split; [f_equal; lia|].
      split; [fold (queueOf it'); rewrite <- Hqueue, queueOf_next; reflexivity|].
      split; [congruence|]. split; [congruence|].
      split; [destruct counted; lia|].
      split; [intros Hle; apply Hmax; destruct counted; lia|].
      split; [exact Hline|].
      split; [|intros _ _; discriminate].
      intros Hno. right. destruct (Hnone Hno) as [-> | H]; [|exact H].
      rewrite Hp. now apply next_exhausted.
    + exists [], it, cnt. simpl. rewrite El, Nat.add_0_r.
      apply Nat.ltb_ge in Elt.
      repeat split; try lia; auto.
  - exists [], it, cnt. simpl. rewrite El, Nat.add_0_r.
    repeat split; try lia; try (unfold hasLine; rewrite El; discriminate); auto.
Qed.

Lemma rest_next (it : DataIterator.t) :
  rest (partialData it) (remaining (next it)) = rest (partialData it) (remaining it).
Proof.
  destruct (next_stream it) as (_ & _ & H).
  rewrite (rest_unfold (partialData it) (remaining it)).
  destruct (scan (partialData it) (remaining it)) as [[l rest']|] eqn:E.
  - destruct H as (_ & _ & ->). reflexivity.
  - destruct H as (_ & _ & ->). rewrite rest_unfold. now rewrite E.
Qed.

Lemma loop_rest (log0 : SimulationLog.t) (fuel : nat) :
  forall (it : DataIterator.t) (st : Body.State) (cnt n : nat),
    rest (partialData it) (remaining (fst (fst (fst (Body.loop d log0 fuel it st cnt n)))))
    = rest (partialData it) (remaining it).
Proof.
  induction fuel as [|fuel IH]; intros it st cnt n; [reflexivity|].
  simpl. destruct (line it) as [[|c l]|]; try reflexivity.
  destruct (cnt <? _); [|reflexivity].
  destruct (d log0 (String c l) st) as [st1 counted].
  destruct (next_stream it) as (_ & Hp & _).
  rewrite <- rest_next. rewrite <- Hp. apply IH.
Qed.

Lemma lines_nil_rest (p : bool) (r : string) : lines p r = [] -> rest p r = r.
Proof.
  rewrite lines_unfold, rest_unfold.
  destruct (scan p r) as [[l rest']|]; [discriminate | reflexivity].
Qed.

(** What follows the loop, by cases on how the loop stopped. *)
Definition refreshed (st : Body.State) (cnt : nat) : Body.State :=
  if 0 <? cnt then (SimulationLog.onStatesUpdated (fst st), snd st) else st.

(** A pass decodes a prefix of the lines it has before it.  It stops with
    a line at hand only when the counter has reached the bound, and then
    schedules its continuation; it stops without one only when no line is
    left, and then finishes the log if the data is complete. *)
Lemma pass_spec (it : DataIterator.t) (st : Body.State) :
  exists (consumed : list string) (it' : DataIterator.t) (cnt' : nat),
    queueOf (if hasLine it then it else next it) = consumed ++ queueOf it'
    /\ data it' = data it
    /\ partialData it' = partialData it
    /\ rest (partialData it) (remaining it') = rest (partialData it) (remaining it)
    /\ cnt' <= List.length consumed
    /\ cnt' <= LogParserStorage.maxStates (snd st)
    /\ Body.pass d it st
       = (let st2 := refreshed (Decoding.decodeAll d (fst st) consumed st) cnt' in
          if hasLine it' then Body.mkPass it' st2 cnt' (List.length consumed) true
          else if negb (partialData it)
               then Body.mkPass (dispose it') (Body.finish st2) cnt'
                                (List.length consumed) false
               else Body.mkPass it' st2 cnt' (List.length consumed) false)
    /\ (hasLine it' = true ->
        cnt' = LogParserStorage.maxStates (snd st)
        /\ (0 < LogParserStorage.maxStates (snd st) -> consumed <> []))
    /\ (hasLine it' = false -> remaining it' = rest (partialData it) (remaining it)).
Proof.
  set (it1 := if hasLine it then it else next it).
  assert (Hd1 : data it1 = data it /\ partialData it1 = partialData it
                /\ rest (partialData it) (remaining it1)
                   = rest (partialData it) (remaining it)).
  { subst it1. destruct (hasLine it); [now repeat split|].
    destruct (next_stream it) as (Hd & Hp & _). repeat split; try assumption.
    apply rest_next. }
  destruct Hd1 as (Hd1 & Hp1 & Hr1).
  assert (Hfuel : List.length (queueOf it1) < 2 + String.length (data it1)).
  { pose proof (queueOf_length it1). lia. }
  destruct (loop_spec (fst st) _ it1 st 0 0 Hfuel)
    as (consumed & it' & cnt' & Hloop & Hqueue & Hdata & Hpart & Hcnt & Hmax
        & Hline & Hnone & Hprog).
  pose proof (loop_rest (fst st) (2 + String.length (data it1)) it1 st 0 0) as Hrest.
  rewrite Hloop in Hrest. simpl fst in Hrest.
  exists consumed, it', cnt'.
  split; [exact Hqueue|]. split; [congruence|]. split; [congruence|].
  split; [rewrite <- Hp1; congruence|]. split; [lia|]. split; [apply Hmax; lia|].
  split; [|split].
  - unfold Body.pass. fold it1. rewrite Hloop. unfold Body.epilogue, refreshed.
    rewrite Hpart, Hp1. simpl. reflexivity.
  - intros Hl. specialize (Hline Hl). split; [specialize (Hmax ltac:(lia)); lia|].
    intros Hpos. destruct (hasLine it1) eqn:E1.
    + apply Hprog; [reflexivity | lia].
    + rewrite (queueOf_hasLine it1 E1) in Hqueue.
      unfold queueOf, hasLine in Hqueue, Hl.
      destruct (line it') as [[|c l]|]; try discriminate.
      destruct consumed; discriminate.
  - intros Hno. rewrite <- Hr1, <- Hp1, <- Hrest. symmetry. apply lines_nil_rest.
    destruct (Hnone Hno) as [-> | Hnil]; [|now rewrite <- Hpart].
    subst it1. destruct (hasLine it) eqn:E; [congruence|].
    destruct (next_stream it) as (_ & -> & _). now apply next_exhausted.
Qed.

End Pass.

End DecoderFacts.

(* ===================================================================== *)
(** ** A decoding session *)
(* ===================================================================== *)

Module SessionFacts.
Import DataIterator StringFacts DataIteratorFacts StreamFacts DecoderFacts.
Import Decoding.

(** *** Logs up to the fields derived from the states *)

Lemma core_set_derived (a b c : JS.number) (g : list GameState.t) (h : list GameScore.t)
    (log : SimulationLog.t) :
  core (SimulationLog.set_derived a b c g h log) = core log.
Proof. reflexivity. Qed.

Lemma core_onStatesUpdated (log : SimulationLog.t) :
  core (SimulationLog.onStatesUpdated log) = core log.
Proof.
  unfold SimulationLog.onStatesUpdated.
  destruct (SimulationLog.states log) as [|first rest']; [reflexivity|].
  destruct (SimulationLog.extract _ _ _ _ _) as [gsl gscl]. reflexivity.
Qed.

Lemma core_set_fullyLoaded (v : bool) (log : SimulationLog.t) :
  core (SimulationLog.set_fullyLoaded v log) = SimulationLog.set_fullyLoaded v (core log).
Proof. reflexivity. Qed.

Lemma core_set_states (v : list WorldState.t) (log : SimulationLog.t) :
  core (SimulationLog.set_states v log) = SimulationLog.set_states v (core log).
Proof. reflexivity. Qed.

Lemma core_finalize (log : SimulationLog.t) :
  core (SimulationLog.finalize log) = SimulationLog.set_fullyLoaded true (core log).
Proof.
  unfold SimulationLog.finalize. now rewrite core_onStatesUpdated, core_set_fullyLoaded.
Qed.

Lemma states_core (log : SimulationLog.t) :
  SimulationLog.states (core log) = SimulationLog.states log.
Proof. reflexivity. Qed.

Lemma kind_core (log : SimulationLog.t) : kind (core log) = kind log.
Proof. reflexivity. Qed.

Lemma sim_refl (a : Body.State) : sim a a.
Proof. now split. Qed.

Lemma sim_sym (a b : Body.State) : sim a b -> sim b a.
Proof. intros [H1 H2]. now split. Qed.

Lemma sim_trans (a b c : Body.State) : sim a b -> sim b c -> sim a c.
Proof. intros [H1 H2] [H3 H4]. split; congruence. Qed.

Lemma sim_states (a b : Body.State) :
  sim a b -> SimulationLog.states (fst a) = SimulationLog.states (fst b).
Proof. intros [H _]. rewrite <- (states_core (fst a)), H. apply states_core. Qed.

Lemma sim_kind (a b : Body.State) : sim a b -> kind (fst a) = kind (fst b).
Proof. intros [H _]. rewrite <- (kind_core (fst a)), H. apply kind_core. Qed.

Lemma sim_refreshed (st : Body.State) (cnt : nat) : sim (refreshed st cnt) st.
Proof.
  unfold refreshed. destruct (0 <? cnt); [|apply sim_refl].
  split; [apply core_onStatesUpdated | reflexivity].
Qed.

Lemma sim_finish (a b : Body.State) : sim a b -> sim (Body.finish a) (Body.finish b).
Proof.
  intros H. pose proof (sim_states a b H) as Hs. destruct H as [Hc Hsnd].
  destruct a as [la sa], b as [lb sb]. simpl in *. subst sb.
  unfold Body.finish. rewrite Hs.
  destruct (LogParserStorage.partialState sa) as [ps|].
  - destruct (PartialWorldState.appendTo ps (SimulationLog.states lb)) as [[ps' states'] ok].
    split; [|reflexivity]. simpl.
    now rewrite !core_finalize, !core_set_states, Hc.
  - split; [|reflexivity]. simpl. now rewrite !core_finalize, Hc.
Qed.

Lemma finish_maxStates (st : Body.State) :
  LogParserStorage.maxStates (snd (Body.finish st)) = LogParserStorage.maxStates (snd st).
Proof.
  destruct st as [log storage]. unfold Body.finish.
  destruct (LogParserStorage.partialState storage) as [ps|]; [|reflexivity].
  destruct (PartialWorldState.appendTo ps (SimulationLog.states log)) as [[ps' states'] ok].
  reflexivity.
Qed.

Section Session.
Variable d : SimulationLog.t -> string -> Body.State -> Body.State * bool.

(** What the sessions need of a line decoder: it leaves the bound of the
    storage and the kind of the log alone, and neither reads nor writes
    the derived fields of the log. *)
Hypothesis d_maxStates : forall log0 l st,
  LogParserStorage.maxStates (snd (fst (d log0 l st))) = LogParserStorage.maxStates (snd st).
Hypothesis d_kind : forall log0 l st, kind (fst (fst (d log0 l st))) = kind (fst st).
Hypothesis d_sim : forall log0 log0' l a b,
  kind log0 = kind log0' -> sim a b -> sim (fst (d log0 l a)) (fst (d log0' l b)).

Lemma decodeAll_kind (log0 : SimulationLog.t) (ls : list string) (st : Body.State) :
  kind (fst (decodeAll d log0 ls st)) = kind (fst st).
Proof.
  unfold decodeAll.
  revert st. induction ls as [|l ls IH]; intros st; simpl; [reflexivity|].
  rewrite IH. apply d_kind.
Qed.

Lemma decodeAll_sim (log0 log0' : SimulationLog.t) (ls : list string) (a b : Body.State) :
  kind log0 = kind log0' -> sim a b -> sim (decodeAll d log0 ls a) (decodeAll d log0' ls b).
Proof.
  intros Hk. unfold decodeAll.
  revert a b. induction ls as [|l ls IH]; intros a b H; simpl; [exact H|].
  apply IH. now apply d_sim.
Qed.

(** The pass in terms of the lines that are pending. *)
Lemma pass_pending (it : DataIterator.t) (st : Body.State) :
  exists (consumed : list string) (it' : DataIterator.t) (cnt' : nat),
    pending it = consumed ++ pending it'
    /\ partialData it' = partialData it
    /\ leftover it' = leftover it
    /\ cnt' <= List.length consumed
    /\ cnt' <= LogParserStorage.maxStates (snd st)
    /\ Body.pass d it st
       = (let st2 := refreshed (decodeAll d (fst st) consumed st) cnt' in
          if hasLine it' then Body.mkPass it' st2 cnt' (List.length consumed) true
          else if negb (partialData it)
               then Body.mkPass (dispose it') (Body.finish st2) cnt'
                                (List.length consumed) false
               else Body.mkPass it' st2 cnt' (List.length consumed) false)
    /\ (hasLine it' = true ->
        cnt' = LogParserStorage.maxStates (snd st)
        /\ (0 < LogParserStorage.maxStates (snd st) -> consumed <> []))
    /\ (hasLine it' = false -> pending it' = []).
Proof.
  destruct (pass_spec d d_maxStates it st)
    as (consumed & it' & cnt' & Hq & _ & Hp & Hr & Hc1 & Hc2 & Hpass & Hline & Hnone).
  exists consumed, it', cnt'.
  assert (Hpend : queueOf it' = pending it').
  { destruct (hasLine it') eqn:E; [now apply pending_queue|].
    rewrite (queueOf_hasLine it' E). pose proof (Hnone eq_refl) as Hrem.
    unfold pending. rewrite Hrem, Hp, lines_rest. unfold hasLine in E.
    destruct (line it') as [[|c l]|]; congruence. }
  rewrite pending_start, Hpend in Hq.
  split; [exact Hq|]. split; [exact Hp|].
  split; [unfold leftover; now rewrite Hp|].
  split; [exact Hc1|]. split; [exact Hc2|]. split; [exact Hpass|].
  split; [exact Hline|].
  intros Hno. rewrite <- Hpend. now apply queueOf_hasLine.
Qed.

(** *** The invariant of a session

    A session starts from the state [st0] with the lines [all] before it:
    they are the lines already decoded, the lines pending, and the lines
    of the text still to come ([more]) after what the cursor leaves. *)
Variable st0 : Body.State.
Variable all : list string.
Hypothesis maxStates_pos : 0 < LogParserStorage.maxStates (snd st0).

Definition running (it : DataIterator.t) (st : Body.State) (more : string) : Prop :=
  exists decoded : list string,
    sim st (decodeAll d (fst st0) decoded st0)
    /\ decoded ++ pending it ++ lines false (leftover it ++ more)%string = all
    /\ (partialData it = true \/ more = EmptyString).

Definition holding (p : Body.Parser) (it : DataIterator.t) (st : Body.State) : Prop :=
  p = Body.mkParser (Some it) (Some (fst st)) (Some (snd st)) (if hasLine it then 1 else 0).

(** The decoder between two events, while data is partial or lines are
    pending. *)
Definition Running (p : Body.Parser) (more : string) (partial : bool) : Prop :=
  exists it st,
    holding p it st /\ running it st more /\ partialData it = partial
    /\ (partial = true \/ hasLine it = true).

(** The decoder once a pass has reached the end of complete data. *)
Definition Finished (p : Body.Parser) : Prop :=
  exists it st,
    p = Body.mkParser (Some it) (Some (fst st)) (Some (snd st)) 0
    /\ sim st (Body.finish (decodeAll d (fst st0) all st0)).

Lemma running_maxStates (it : DataIterator.t) (st : Body.State) (more : string) :
  running it st more -> 0 < LogParserStorage.maxStates (snd st).
Proof.
  intros (decoded & [_ Hs] & _). rewrite Hs, (decodeAll_maxStates d d_maxStates).
  exact maxStates_pos.
Qed.

(** A pass on behalf of a decoder that has nothing scheduled. *)
Lemma runPass_step (it : DataIterator.t) (st : Body.State) (more : string) :
  running it st more ->
  (Running (Body.runPass d it st 0) more (partialData it)
   /\ (hasLine it = true ->
       exists it', Body.p_iterator (Body.runPass d it st 0) = Some it'
                   /\ List.length (pending it') < List.length (pending it)))
  \/ (partialData it = false /\ Finished (Body.runPass d it st 0)).
Proof.
  intros Hrun. pose proof (running_maxStates it st more Hrun) as Hpos.
  destruct Hrun as (decoded & Hsim & Hall & Hmode).
  destruct (pass_pending it st)
    as (consumed & it' & cnt' & Hq & Hp & Hl & _ & _ & Hpass & Hline & Hnone).
  unfold Body.runPass. rewrite Hpass. clear Hpass.
  assert (Hsim' : sim (refreshed (decodeAll d (fst st) consumed st) cnt')
                      (decodeAll d (fst st0) (decoded ++ consumed) st0)).
  { eapply sim_trans; [apply sim_refreshed|].
    rewrite (decodeAll_app d). apply decodeAll_sim; [|exact Hsim].
    rewrite (sim_kind _ _ Hsim). apply decodeAll_kind. }
  set (st2 := refreshed (decodeAll d (fst st) consumed st) cnt') in *.
  assert (Hall' : (decoded ++ consumed) ++ pending it'
                  ++ lines false (leftover it' ++ more)%string = all).
  { rewrite Hl, <- Hall, Hq, <- !List.app_assoc. reflexivity. }
  assert (Hhold : forall st', holding (Body.mkParser (Some it') (Some (fst st')) (Some (snd st'))
                                        (if hasLine it' then 1 else 0)) it' st')
    by reflexivity.
  destruct (hasLine it') eqn:Eline.
  - left. cbv zeta. split.
    + exists it', st2.
      split; [apply Hhold|]. split; [|split; [exact Hp | now right]].
      exists (decoded ++ consumed).
      split; [exact Hsim'|]. split; [exact Hall'|]. now rewrite Hp.
    + intros _. exists it'. split; [reflexivity|].
      destruct (Hline eq_refl) as [_ Hne]. specialize (Hne Hpos).
      rewrite Hq, List.length_app. destruct consumed; [congruence | simpl; lia].
  - destruct (partialData it) eqn:Epart; simpl.
    + left. split.
      * exists it', st2.
        split; [apply Hhold|]. split; [|split; [exact Hp | now left]].
        exists (decoded ++ consumed).
        split; [exact Hsim'|]. split; [exact Hall'|]. now left.
      * intros Hhas. exists it'. split; [reflexivity|].
        rewrite (Hnone eq_refl), List.app_nil_r in Hq. rewrite (Hnone eq_refl), Hq.
        rewrite <- Hq. unfold pending, hasLine in Hhas, Hq |- *.
        destruct (line it) as [[|c l]|]; try discriminate.
        destruct consumed; [discriminate | simpl; lia].
    + right. split; [reflexivity|].
      exists (dispose it'), (Body.finish st2). split; [reflexivity|].
      apply sim_finish.
      destruct Hmode as [Hm | ->]; [congruence|].
      rewrite (Hnone eq_refl), StringFacts.app_nil_r in Hall'.
      unfold leftover in Hall'. rewrite Hp, lines_rest in Hall'.
      rewrite !List.app_nil_r in Hall'. now rewrite Hall' in Hsim'.
Qed.

(** The lines pending in a decoder. *)
Definition weight (p : Body.Parser) : nat :=
  match Body.p_iterator p with
  | Some it => List.length (pending it)
  | None => 0
  end.

Lemma Finished_queued (p : Body.Parser) : Finished p -> Body.queued p = 0.
Proof. intros (it & st & -> & _). reflexivity. Qed.

Lemma Finished_turns (p : Body.Parser) (k : nat) :
  Finished p -> Body.runContinuations d k p = p.
Proof.
  intros H. apply Finished_queued in H. destruct k; simpl; [reflexivity|].
  now rewrite H.
Qed.

Lemma Finished_settle (p : Body.Parser) : Finished p -> settle d p = p.
Proof.
  intros H. pose proof (Finished_queued p H) as Hq. unfold settle.
  destruct (Body.p_iterator p); [|reflexivity]. rewrite Hq. reflexivity.
Qed.

(** The host runs a continuation. *)
Lemma turn_step (p : Body.Parser) (more : string) (partial : bool) :
  Running p more partial ->
  (Running (Body.runContinuation d p) more partial
   /\ (Body.queued p <> 0 -> weight (Body.runContinuation d p) < weight p))
  \/ (partial = false /\ Finished (Body.runContinuation d p)).
Proof.
  intros (it & st & Hhold & Hrun & Hpart & Hmode).
  destruct (hasLine it) eqn:Eline.
  - assert (Hstep : Body.runContinuation d p = Body.runPass d it st 0).
    { rewrite Hhold. unfold Body.runContinuation. simpl. rewrite Eline.
      now destruct st. }
    rewrite Hstep.
    destruct (runPass_step it st more Hrun) as [[HR Hless] | [Hp HF]].
    + left. rewrite Hpart in HR. split; [exact HR|]. intros _.
      destruct (Hless Eline) as (it' & Hit' & Hlt).
      unfold weight. rewrite Hit', Hhold. exact Hlt.
    + right. split; [congruence | exact HF].
  - left. assert (Hstep : Body.runContinuation d p = p).
    { rewrite Hhold. unfold Body.runContinuation. simpl. now rewrite Eline. }
    rewrite Hstep. split.
    + exists it, st.
      split; [exact Hhold|]. split; [exact Hrun|]. split; [exact Hpart|].
      destruct Hmode as [Hm | Hm]; [now left | discriminate].
    + intros Hq. exfalso. apply Hq. rewrite Hhold. simpl. now rewrite Eline.
Qed.

Lemma turns_partial (k : nat) (p : Body.Parser) (more : string) :
  Running p more true -> Running (Body.runContinuations d k p) more true.
Proof.
  revert p. induction k as [|k IH]; intros p H; simpl; [exact H|].
  destruct (Body.queued p); [exact H|].
  apply IH. destruct (turn_step p more true H) as [[HR _] | [Hp _]];
    [exact HR | discriminate].
Qed.

Lemma turns_final (fuel : nat) (p : Body.Parser) :
  Running p EmptyString false -> weight p <= fuel ->
  Finished (Body.runContinuations d fuel p).
Proof.
  revert p. induction fuel as [|fuel IH]; intros p H Hw.
  - exfalso. destruct H as (it & st & Hhold & _ & _ & [Hm | Hm]); [discriminate|].
    rewrite Hhold in Hw. unfold weight, pending, hasLine in Hw, Hm. simpl in Hw.
    destruct (line it) as [[|c l]|]; try discriminate. simpl in Hw. lia.
  - simpl. assert (Hq : Body.queued p = 1).
    { destruct H as (it & st & Hhold & _ & _ & [Hm | Hm]); [discriminate|].
      rewrite Hhold. simpl. now rewrite Hm. }
    rewrite Hq.
    destruct (turn_step p EmptyString false H) as [[HR Hlt] | [_ HF]].
    + apply IH; [exact HR|]. specialize (Hlt ltac:(lia)). lia.
    + now rewrite Finished_turns.
Qed.

Lemma settle_final (p : Body.Parser) :
  Running p EmptyString false \/ Finished p -> Finished (settle d p).
Proof.
  intros [H | H]; [|now rewrite Finished_settle].
  pose proof H as (it & st & Hhold & _ & _ & Hm).
  destruct Hm as [Hm | Hm]; [discriminate|].
  assert (Hit : Body.p_iterator p = Some it) by (rewrite Hhold; reflexivity).
  assert (Hq : Body.queued p = 1) by (rewrite Hhold; simpl; now rewrite Hm).
  unfold settle. rewrite Hit, Hq.
  apply turns_final; [exact H|].
  unfold weight. rewrite Hit. pose proof (pending_length it). simpl. lia.
Qed.

(** A call of [parse] that brings the next chunk. *)
Lemma progress_step (p : Body.Parser) (chunk more : string) (partial : bool)
    (message : string) :
  Running p (chunk ++ more)%string true ->
  (partial = true \/ more = EmptyString) ->
  exists it log storage,
    p = Body.mkParser (Some it) (Some log) (Some storage) (Body.queued p)
    /\ (let p' := fst (Body.progress d it log storage (Body.queued p)
                         chunk partial true message) in
        Running p' more partial \/ (partial = false /\ Finished p')).
Proof.
  intros (it & st & Hhold & Hrun & Hpart & _) Hmode.
  exists it, (fst st), (snd st). split; [rewrite Hhold at 1; now rewrite Hhold|].
  destruct (pending_update it chunk partial Hpart) as (Hpend & Hleft & Hline & Hp1 & Hrestart).
  unfold Body.progress.
  destruct (update it chunk partial true) as [it1 restart]. simpl in *.
  assert (Hrun1 : running it1 st more).
  { destruct Hrun as (decoded & Hsim & Hall & _).
    exists decoded. split; [exact Hsim|]. split; [|now rewrite Hp1].
    rewrite <- Hall, Hpend, Hleft, <- StringFacts.app_assoc, <- List.app_assoc.
    do 2 f_equal.
    destruct partial.
    - symmetry. apply lines_app.
    - destruct Hmode as [Hm | ->]; [discriminate|].
      now rewrite StringFacts.app_nil_r, lines_rest, StringFacts.app_nil_r, List.app_nil_r. }
  assert (Hhas : hasLine it1 = hasLine it) by (unfold hasLine; now rewrite Hline).
  subst restart. unfold Body.conclude.
  destruct (hasLine it) eqn:Eline; simpl.
  - assert (HR : Running (Body.mkParser (Some it1) (Some (fst st)) (Some (snd st))
                                        (Body.queued p)) more partial).
    { exists it1, st. split; [|split; [exact Hrun1 | split; [exact Hp1 | now right]]].
      unfold holding. rewrite Hhas, Hhold. simpl. now rewrite Eline. }
    destruct (negb partial && _); left; exact HR.
  - assert (Hq : Body.queued p = 0) by (rewrite Hhold; simpl; now rewrite Eline).
    rewrite Hq. replace (fst st, snd st) with st by now destruct st.
    destruct (runPass_step it1 st more Hrun1) as [[HR _] | [Hp HF]].
    + rewrite Hp1 in HR. destruct (negb partial && _); left; exact HR.
    + destruct (negb partial && _); right; (split; [congruence | exact HF]).
Qed.

(** *** Sessions with a decoder *)

Variable parse : Body.Parser -> string -> bool -> bool -> Body.Parser * Body.ParseResult.
Variable message : string.
Hypothesis parse_progress : forall it log storage waiting data partial incremental,
  parse (Body.mkParser (Some it) (Some log) (Some storage) waiting) data partial incremental
  = Body.progress d it log storage waiting data partial incremental message.

Lemma feed_Finished (chunks : list (string * nat)) (last : string) :
  forall p : Body.Parser,
    Running p (text chunks last) true -> Finished (feed parse d chunks last p).
Proof.
  induction chunks as [|[chunk k] chunks IH]; intros p H; simpl in *.
  - rewrite <- (StringFacts.app_nil_r last) in H.
    destruct (progress_step p last EmptyString false message H (or_intror eq_refl))
      as (it & log & storage & Hp & Hstep).
    rewrite Hp, parse_progress. apply settle_final.
    destruct Hstep as [HR | [_ HF]]; [now left | now right].
  - destruct (progress_step p chunk (text chunks last) true message H (or_introl eq_refl))
      as (it & log & storage & Hp & Hstep).
    rewrite Hp, parse_progress. apply IH, turns_partial.
    destruct Hstep as [HR | [Hf _]]; [exact HR | discriminate].
Qed.

(** The session from the first pass on: the body pass that the first call
    of [parse] starts, the continuations, and the calls that follow. *)
Lemma session_Finished (it0 : DataIterator.t) (chunks : list (string * nat))
    (last : string) (k : nat) :
  partialData it0 = true ->
  all = pending it0 ++ lines false (leftover it0 ++ text chunks last)%string ->
  Finished (feed parse d chunks last
              (Body.runContinuations d k (Body.runPass d it0 st0 0))).
Proof.
  intros Hp Hall. apply feed_Finished, turns_partial.
  assert (Hrun : running it0 st0 (text chunks last)).
  { exists []. split; [apply sim_refl|]. split; [now rewrite Hall | now left]. }
  destruct (runPass_step it0 st0 _ Hrun) as [[HR _] | [Hf _]]; [|congruence].
  now rewrite Hp in HR.
Qed.

Lemma whole_Finished (it0 : DataIterator.t) :
  partialData it0 = false ->
  all = pending it0 ->
  Finished (settle d (Body.runPass d it0 st0 0)).
Proof.
  intros Hp Hall. apply settle_final.
  assert (Hrun : running it0 st0 EmptyString).
  { exists []. split; [apply sim_refl|]. split; [|now right].
    unfold leftover. now rewrite Hp, StringFacts.app_nil_r, lines_rest, List.app_nil_r, Hall. }
  destruct (runPass_step it0 st0 _ Hrun) as [[HR _] | [_ HF]]; [|now right].
  left. now rewrite Hp in HR.
Qed.

Lemma Finished_states (p : Body.Parser) :
  Finished p ->
  states p = Some (SimulationLog.states (fst (Body.finish (decodeAll d (fst st0) all st0)))).
Proof.
  intros (it & st & -> & Hsim). unfold states. simpl. f_equal. now apply sim_states.
Qed.

End Session.

End SessionFacts.

(* ===================================================================== *)
(** ** The line decoders and the fields of the log *)
(* ===================================================================== *)

Module HandlerFacts.
Import Decoding.

(** A state with other values in the derived fields of its log. *)
Definition reframe (a b c : JS.number) (g : list GameState.t) (h : list GameScore.t)
    (st : Body.State) : Body.State :=
  (SimulationLog.set_derived a b c g h (fst st), snd st).

Definition reframeC (a b c : JS.number) (g : list GameState.t) (h : list GameScore.t)
    (r : completion Body.State) : completion Body.State :=
  match r with
  | Normal st => Normal (reframe a b c g h st)
  | Thrown st => Thrown (reframe a b c g h st)
  end.

(** What a line decoder keeps: the kind of the log and the bound of the
    storage. *)
Definition kept (st st' : Body.State) : Prop :=
  kind (fst st') = kind (fst st)
  /\ LogParserStorage.maxStates (snd st') = LogParserStorage.maxStates (snd st).

Lemma kept_refl (st : Body.State) : kept st st.
Proof. now split. Qed.

Lemma kept_trans (a b c : Body.State) : kept a b -> kept b c -> kept a c.
Proof. intros [H1 H2] [H3 H4]. split; congruence. Qed.

Ltac split_match :=
  match goal with
  | |- context [match ?x with _ => _ end] =>
      lazymatch x with
      | context [match _ with _ => _ end] => fail
      | _ => destruct x eqn:?
      end
  end.

Ltac log_fields :=
  cbv [SimulationLog.set_derived SimulationLog.set_states SimulationLog.set_leftTeam
       SimulationLog.set_rightTeam SimulationLog.set_environmentParams
       SimulationLog.set_playerParams SimulationLog.set_playerTypes
       SimulationLog.set_frequency SimulationLog.set_allocated
       SimulationLog.newParameterMap SimulationLog.updateFrequency
       SimulationLog.type SimulationLog.frequency SimulationLog.environmentParams
       SimulationLog.playerParams SimulationLog.playerTypes SimulationLog.leftTeam
       SimulationLog.rightTeam SimulationLog.states SimulationLog.startTime
       SimulationLog.endTime SimulationLog.duration SimulationLog.gameStateList
       SimulationLog.gameScoreList SimulationLog.fullyLoaded SimulationLog.version
       SimulationLog.allocated
       LogParserStorage.set_partialState LogParserStorage.set_leftIndexList
       LogParserStorage.set_rightIndexList LogParserStorage.maxStates
       LogParserStorage.partialState LogParserStorage.leftIndexList
       LogParserStorage.rightIndexList
       reframe reframeC kept kind fst snd completed threw].

Ltac by_cases := repeat split_match; try reflexivity; try congruence; try (split; reflexivity).

(** A log is its core with its derived fields. *)
Lemma log_split (log : SimulationLog.t) :
  log = SimulationLog.set_derived (SimulationLog.startTime log) (SimulationLog.endTime log)
          (SimulationLog.duration log) (SimulationLog.gameStateList log)
          (SimulationLog.gameScoreList log) (core log).
Proof. destruct log. reflexivity. Qed.

(** A line decoder that commutes with [reframe] takes similar states to
    similar states. *)
Lemma frame_sim (d : SimulationLog.t -> string -> Body.State -> Body.State * bool) :
  (forall a b c g h log0 l st,
      fst (d log0 l (reframe a b c g h st)) = reframe a b c g h (fst (d log0 l st))) ->
  (forall log0 log0' l st, kind log0 = kind log0' -> d log0 l st = d log0' l st) ->
  forall log0 log0' l a b,
    kind log0 = kind log0' -> sim a b -> sim (fst (d log0 l a)) (fst (d log0' l b)).
Proof.
  intros Hframe Hkind log0 log0' l [la sa] [lb sb] Hk [Hc Hs]. simpl in Hc, Hs. subst sb.
  rewrite <- (Hkind log0 log0' l _ Hk).
  rewrite (log_split la), (log_split lb), <- Hc.
  change (sim (fst (d log0 l (reframe (SimulationLog.startTime la) (SimulationLog.endTime la)
                                (SimulationLog.duration la) (SimulationLog.gameStateList la)
                                (SimulationLog.gameScoreList la) (core la, sa))))
              (fst (d log0 l (reframe (SimulationLog.startTime lb) (SimulationLog.endTime lb)
                                (SimulationLog.duration lb) (SimulationLog.gameStateList lb)
                                (SimulationLog.gameScoreList lb) (core la, sa))))).
  rewrite !Hframe. split; reflexivity.
Qed.

(** *** The ULG decoder *)

Section ULG.
Variable host : Host.t.
Variable util : SServerUtil.t.

Lemma ulg_parsePlaymodeLine_frame a b c g h line st :
  ULGParser.parsePlaymodeLine line (reframe a b c g h st)
  = reframeC a b c g h (ULGParser.parsePlaymodeLine line st).
Proof.
  destruct st as [[] storage]. unfold ULGParser.parsePlaymodeLine. log_fields. by_cases.
Qed.

Lemma ulg_parsePlaymodeLine_kept line st :
  kept st (completed (ULGParser.parsePlaymodeLine line st)).
Proof.
  destruct st as [[] []]. unfold ULGParser.parsePlaymodeLine. log_fields. by_cases.
Qed.

Lemma ulg_parseTeamLine_frame a b c g h line st :
  ULGParser.parseTeamLine line (reframe a b c g h st)
  = reframeC a b c g h (ULGParser.parseTeamLine line st).
Proof.
  destruct st as [[] storage]. unfold ULGParser.parseTeamLine. log_fields. by_cases.
Qed.

Lemma ulg_parseTeamLine_kept line st :
  kept st (completed (ULGParser.parseTeamLine line st)).
Proof.
  destruct st as [[] []]. unfold ULGParser.parseTeamLine. log_fields. by_cases.
Qed.

Lemma ulg_parseServerParamLine_frame a b c g h line st :
  ULGParser.parseServerParamLine util line (reframe a b c g h st)
  = reframeC a b c g h (ULGParser.parseServerParamLine util line st).
Proof.
  destruct st as [[] storage]. unfold ULGParser.parseServerParamLine. log_fields. by_cases.
Qed.

Lemma ulg_parseServerParamLine_kept line st :
  kept st (completed (ULGParser.parseServerParamLine util line st)).
Proof.
  destruct st as [[] []]. unfold ULGParser.parseServerParamLine. log_fields. by_cases.
Qed.

Definition mapC {A B : Type} (f : A -> B) (r : completion A) : completion B :=
  match r with
  | Normal a => Normal (f a)
  | Thrown a => Thrown (f a)
  end.

Definition reframeL (a b c : JS.number) (g : list GameState.t) (h : list GameScore.t)
    (P : Type) (r : SimulationLog.t * P) : SimulationLog.t * P :=
  (SimulationLog.set_derived a b c g h (fst r), snd r).

Lemma ulg_parseAgentState_frame a b c g h node log team states :
  ULGParser.parseAgentState host util node (SimulationLog.set_derived a b c g h log) team states
  = ULGParser.parseAgentState host util node log team states.
Proof. destruct log. reflexivity. Qed.

Lemma ulg_parseShowChild_frame a b c g h acc child :
  ULGParser.parseShowChild host util (mapC (reframeL a b c g h _) acc) child
  = mapC (reframeL a b c g h _) (ULGParser.parseShowChild host util acc child).
Proof.
  destruct acc as [[log ps] | [log ps]]; [|reflexivity].
  unfold ULGParser.parseShowChild, mapC, reframeL. cbn [fst snd].
  rewrite !ulg_parseAgentState_frame. destruct log. log_fields. by_cases.
Qed.

Lemma ulg_parseShowChildren_frame a b c g h children acc :
  fold_left (ULGParser.parseShowChild host util) children (mapC (reframeL a b c g h _) acc)
  = mapC (reframeL a b c g h _)
         (fold_left (ULGParser.parseShowChild host util) children acc).
Proof.
  revert acc. induction children as [|child children IH]; intros acc; simpl; [reflexivity|].
  now rewrite ulg_parseShowChild_frame, IH.
Qed.

Lemma ulg_parseShowLine_frame a b c g h line st :
  ULGParser.parseShowLine host util line (reframe a b c g h st)
  = reframeC a b c g h (ULGParser.parseShowLine host util line st).
Proof.
  destruct st as [log storage]. unfold ULGParser.parseShowLine, reframe. cbn [fst snd].
  destruct (LogParserStorage.partialState storage) as [ps|]; [|reflexivity].
  destruct (SymbolTreeParser.parse line) as [rootNode|]; [|reflexivity].
  destruct (1 <? _); [|reflexivity].
  replace (SimulationLog.states (SimulationLog.set_derived a b c g h log))
    with (SimulationLog.states log) by now destruct log.
  destruct (PartialWorldState.appendTo ps (SimulationLog.states log)) as [[ps1 states1] ok].
  match goal with
  | |- context [fold_left _ ?cs (Normal (?l, ?p))] =>
      replace (Normal (l, p))
        with (mapC (reframeL a b c g h _) (Normal (SimulationLog.set_states states1 log, p)))
        by now destruct log
  end.
  rewrite ulg_parseShowChildren_frame.
  destruct (fold_left _ _ _) as [[log' ps'] | [log' ps']]; reflexivity.
Qed.

Lemma ulg_parseShowChildren_kind children acc :
  kind (fst (completed (fold_left (ULGParser.parseShowChild host util) children acc)))
  = kind (fst (completed acc)).
Proof.
  revert acc. induction children as [|child children IH]; intros acc; simpl; [reflexivity|].
  rewrite IH. destruct acc as [[log ps] | [log ps]]; [|reflexivity].
  unfold ULGParser.parseShowChild. destruct log. log_fields. by_cases.
Qed.

Lemma ulg_parseShowLine_kept line st :
  kept st (completed (ULGParser.parseShowLine host util line st)).
Proof.
  destruct st as [log storage]. unfold ULGParser.parseShowLine.
  destruct (LogParserStorage.partialState storage) as [ps|]; [|apply kept_refl].
  destruct (SymbolTreeParser.parse line) as [rootNode|]; [|apply kept_refl].
  destruct (1 <? _); [|apply kept_refl].
  destruct (PartialWorldState.appendTo ps (SimulationLog.states log)) as [[ps1 states1] ok].
  pose proof (ulg_parseShowChildren_kind (SymbolTreeParser.children rootNode)
                (Normal (SimulationLog.set_states states1 log, PartialWorldState.setGameTime ps1
                   (JS.div (JS.parseInt_opt (SymbolTreeParser.value rootNode 1) 10) (JS.ofZ 10)))))
    as Hk.
  destruct (fold_left _ _ _) as [[log' ps'] | [log' ps']];
    unfold kept; cbn [fst snd completed] in *;
    (split; [rewrite Hk; now destruct log | now destruct storage]).
Qed.

Lemma ulg_parsePlayerParamLine_frame a b c g h line log :
  ULGParser.parsePlayerParamLine line (SimulationLog.set_derived a b c g h log)
  = mapC (SimulationLog.set_derived a b c g h) (ULGParser.parsePlayerParamLine line log).
Proof. destruct log. unfold ULGParser.parsePlayerParamLine, mapC. log_fields. by_cases. Qed.

Lemma ulg_parsePlayerParamLine_kind line log :
  kind (completed (ULGParser.parsePlayerParamLine line log)) = kind log.
Proof. destruct log. unfold ULGParser.parsePlayerParamLine. log_fields. by_cases. Qed.

Lemma ulg_parsePlayerTypeLine_frame a b c g h line log :
  ULGParser.parsePlayerTypeLine util line (SimulationLog.set_derived a b c g h log)
  = mapC (SimulationLog.set_derived a b c g h) (ULGParser.parsePlayerTypeLine util line log).
Proof. destruct log. unfold ULGParser.parsePlayerTypeLine, mapC. log_fields. by_cases. Qed.

Lemma ulg_parsePlayerTypeLine_kind line log :
  kind (completed (ULGParser.parsePlayerTypeLine util line log)) = kind log.
Proof. destruct log. unfold ULGParser.parsePlayerTypeLine. log_fields. by_cases. Qed.

Lemma ulg_decodeLine_frame a b c g h log0 line st :
  fst (ULGParser.decodeLine host util log0 line (reframe a b c g h st))
  = reframe a b c g h (fst (ULGParser.decodeLine host util log0 line st)).
Proof.
  unfold ULGParser.decodeLine.
  repeat match goal with
         | |- context [if String.eqb ?x ?y then _ else _] => destruct (String.eqb x y)
         end; cbn [fst snd];
    rewrite ?ulg_parseServerParamLine_frame, ?ulg_parseTeamLine_frame,
            ?ulg_parsePlaymodeLine_frame, ?ulg_parseShowLine_frame;
    try (unfold reframe at 1; cbn [fst snd];
         rewrite ?ulg_parsePlayerParamLine_frame, ?ulg_parsePlayerTypeLine_frame);
    try match goal with
        | |- context [completed (reframeC _ _ _ _ _ ?x)] => now destruct x
        | |- context [completed (mapC _ ?x)] => now destruct x
        end;
    reflexivity.
Qed.

Lemma ulg_decodeLine_kept log0 line st :
  kept st (fst (ULGParser.decodeLine host util log0 line st)).
Proof.
  unfold ULGParser.decodeLine.
  repeat match goal with
         | |- context [if String.eqb ?x ?y then _ else _] => destruct (String.eqb x y)
         end; cbn [fst snd];
    auto using ulg_parseServerParamLine_kept, ulg_parseTeamLine_kept,
               ulg_parsePlaymodeLine_kept, ulg_parseShowLine_kept, kept_refl;
    split; cbn [fst snd];
    rewrite ?ulg_parsePlayerParamLine_kind, ?ulg_parsePlayerTypeLine_kind; reflexivity.
Qed.

End ULG.

(** *** The Replay decoder *)

Section Replay.
Variable host : Host.t.
Variable util : SServerUtil.t.

Ltac replay_fields :=
  cbv [ReplayParser.setTimeStep ReplayParser.teamOf ReplayParser.setTeam
       ReplayParser.indexListOf ReplayParser.setIndexList].

Lemma replay_parseEnvironmentParams_frame a b c g h line st :
  ReplayParser.parseEnvironmentParams host util line (reframe a b c g h st)
  = reframeC a b c g h (ReplayParser.parseEnvironmentParams host util line st).
Proof.
  destruct st as [[] storage]. unfold ReplayParser.parseEnvironmentParams.
  replay_fields. log_fields. by_cases.
Qed.

Lemma replay_parseEnvironmentParams_kept line st :
  kept st (completed (ReplayParser.parseEnvironmentParams host util line st)).
Proof.
  destruct st as [[] []]. unfold ReplayParser.parseEnvironmentParams.
  replay_fields. log_fields. by_cases.
Qed.

Lemma replay_parseStateLine_frame a b c g h line st :
  fst (ReplayParser.parseStateLine line (reframe a b c g h st))
  = reframe a b c g h (fst (ReplayParser.parseStateLine line st)).
Proof.
  destruct st as [[] storage]. unfold ReplayParser.parseStateLine.
  replay_fields. log_fields. by_cases.
Qed.

Lemma replay_parseStateLine_kept line st :
  kept st (fst (ReplayParser.parseStateLine line st)).
Proof.
  destruct st as [[] []]. unfold ReplayParser.parseStateLine.
  replay_fields. log_fields. by_cases.
Qed.

Lemma replay_parseAgentFcn_frame a b c g h log0 line st side :
  ReplayParser.parseAgentFcn host util log0 line (reframe a b c g h st) side
  = reframeC a b c g h (ReplayParser.parseAgentFcn host util log0 line st side).
Proof.
  destruct st as [[] storage].
  unfold ReplayParser.parseAgentFcn, ReplayParser.parseAgentState_V0_3D,
    ReplayParser.parseAgentState_V1, ReplayParser.parseAgentState_V0_2D.
  replay_fields. log_fields. by_cases.
Qed.

Lemma replay_parseAgentFcn_kept log0 line st side :
  kept st (completed (ReplayParser.parseAgentFcn host util log0 line st side)).
Proof.
  destruct st as [[] []].
  unfold ReplayParser.parseAgentFcn, ReplayParser.parseAgentState_V0_3D,
    ReplayParser.parseAgentState_V1, ReplayParser.parseAgentState_V0_2D.
  replay_fields. log_fields. by_cases.
Qed.

Lemma replay_decodeLine_frame a b c g h log0 line st :
  fst (ReplayParser.decodeLine host util log0 line (reframe a b c g h st))
  = reframe a b c g h (fst (ReplayParser.decodeLine host util log0 line st)).
Proof.
  unfold ReplayParser.decodeLine.
  pose proof (replay_parseEnvironmentParams_frame a b c g h line st) as HE.
  pose proof (replay_parseStateLine_frame a b c g h line st) as HS.
  pose proof (replay_parseAgentFcn_frame a b c g h log0 line st true) as HL.
  pose proof (replay_parseAgentFcn_frame a b c g h log0 line st false) as HR.
  destruct st as [log storage]. unfold reframe in *. cbn [fst snd] in *.
  repeat match goal with
         | |- context [if ?x then _ else _] => destruct x
         end; cbn [fst snd];
    rewrite ?HE, ?HS, ?HL, ?HR;
    try match goal with
        | |- context [completed (reframeC _ _ _ _ _ ?x)] => now destruct x
        end;
    try reflexivity;
    unfold ReplayParser.parsePlayerParams, ReplayParser.parsePlayerTypeParams,
      ReplayParser.parseTeamLine; destruct log; log_fields; by_cases.
Qed.

Lemma replay_decodeLine_kept log0 line st :
  kept st (fst (ReplayParser.decodeLine host util log0 line st)).
Proof.
  unfold ReplayParser.decodeLine.
  pose proof (replay_parseEnvironmentParams_kept line st) as HE.
  pose proof (replay_parseStateLine_kept line st) as HS.
  pose proof (replay_parseAgentFcn_kept log0 line st true) as HL.
  pose proof (replay_parseAgentFcn_kept log0 line st false) as HR.
  destruct st as [log storage].
  repeat match goal with
         | |- context [if ?x then _ else _] => destruct x
         end; cbn [fst snd]; try assumption; try apply kept_refl;
    unfold ReplayParser.parsePlayerParams, ReplayParser.parsePlayerTypeParams,
      ReplayParser.parseTeamLine; destruct log, storage; log_fields; by_cases.
Qed.

Lemma replay_decodeLine_kind log0 log0' line st :
  kind log0 = kind log0' ->
  ReplayParser.decodeLine host util log0 line st
  = ReplayParser.decodeLine host util log0' line st.
Proof.
  intros Hk. unfold kind in Hk. injection Hk as Ht Hv.
  unfold ReplayParser.decodeLine, ReplayParser.parseBallFcn, ReplayParser.parseAgentFcn.
  now rewrite Ht, Hv.
Qed.

End Replay.

(** *** What the sessions need of the two line decoders *)

Lemma ulg_maxStates host util log0 l st :
  LogParserStorage.maxStates (snd (fst (ULGParser.decodeLine host util log0 l st)))
  = LogParserStorage.maxStates (snd st).
Proof. apply ulg_decodeLine_kept. Qed.

Lemma ulg_kind host util log0 l st :
  kind (fst (fst (ULGParser.decodeLine host util log0 l st))) = kind (fst st).
Proof. apply ulg_decodeLine_kept. Qed.

Lemma ulg_sim host util log0 log0' l a b :
  kind log0 = kind log0' -> sim a b ->
  sim (fst (ULGParser.decodeLine host util log0 l a))
      (fst (ULGParser.decodeLine host util log0' l b)).
Proof.
  apply (frame_sim (ULGParser.decodeLine host util)).
  - intros. apply ulg_decodeLine_frame.
  - reflexivity.
Qed.

Lemma replay_maxStates host util log0 l st :
  LogParserStorage.maxStates (snd (fst (ReplayParser.decodeLine host util log0 l st)))
  = LogParserStorage.maxStates (snd st).
Proof. apply replay_decodeLine_kept. Qed.

Lemma replay_kind host util log0 l st :
  kind (fst (fst (ReplayParser.decodeLine host util log0 l st))) = kind (fst st).
Proof. apply replay_decodeLine_kept. Qed.

Lemma replay_sim host util log0 log0' l a b :
  kind log0 = kind log0' -> sim a b ->
  sim (fst (ReplayParser.decodeLine host util log0 l a))
      (fst (ReplayParser.decodeLine host util log0' l b)).
Proof.
  apply (frame_sim (ReplayParser.decodeLine host util)).
  - intros. apply replay_decodeLine_frame.
  - intros. now apply replay_decodeLine_kind.
Qed.

End HandlerFacts.

(* ===================================================================== *)
(** ** The first call of [parse] *)
(* ===================================================================== *)

Module FirstCall.
Import DataIterator StringFacts DataIteratorFacts StreamFacts DecoderFacts.
Import Decoding SessionFacts HandlerFacts.

(** The state the ULG decoder starts its body pass from, given the
    header line. *)
Definition ulgInitial (util : SServerUtil.t) (line : string) : Body.State :=
  (SimulationLog.new util GameUtil.TWOD (JS.parseInt (JS.slice_from line 3) 10),
   LogParserStorage.set_maxStates 100
     (LogParserStorage.set_partialState
        (Some (PartialWorldState.new (JS.ofZ 0) (JS.Num (1 # 10)) (JS.ofZ 0)))
        LogParserStorage.new)).

(** The header line the ULG decoder accepts, the cursor being at it. *)
Definition ulgHeader (it1 : DataIterator.t) : option string :=
  match line it1 with
  | Some (String _ _ as line) =>
      if negb (String.eqb (JS.charAt line 0) "U")
         && negb (String.eqb (JS.charAt line 1) "L")
         && negb (String.eqb (JS.charAt line 2) "G")
      then None else Some line
  | _ => None
  end.

Lemma ulg_parse_first (host : Host.t) (util : SServerUtil.t) (data : string)
    (partial incremental : bool) :
  let it1 := next (new data partial) in
  let r := ULGParser.parse host util Body.newParser data partial incremental in
  match ulgHeader it1 with
  | None => Body.p_storage (fst r) = None /\ Body.p_log (fst r) = None
  | Some line =>
      fst r = Body.runPass (ULGParser.decodeLine host util) (next it1) (ulgInitial util line) 0
  end.
Proof.
  cbv zeta. unfold ULGParser.parse, ulgHeader. cbn [Body.p_iterator Body.newParser].
  destruct (line (next (new data partial))) as [[|c l]|]; try (split; reflexivity).
  destruct (negb _ && _ && _); [split; reflexivity|].
  unfold Body.conclude. destruct (negb partial && _); reflexivity.
Qed.

(** The state the Replay decoder starts its body pass from, given the
    replay that the header describes. *)
Definition replayInitial (replay : SimulationLog.t) : Body.State :=
  (replay,
   LogParserStorage.set_maxStates
     (match SimulationLog.type replay with
      | GameUtil.TWOD => 300
      | GameUtil.THREED => 50
      end)
     LogParserStorage.new).

Lemma replay_start_first (host : Host.t) (util : SServerUtil.t) (it : DataIterator.t)
    (replay : SimulationLog.t) (partial : bool) :
  fst (ReplayParser.start host util Body.newParser it replay partial)
  = Body.runPass (ReplayParser.decodeLine host util) it (replayInitial replay) 0.
Proof.
  unfold ReplayParser.start, Body.conclude. destruct (negb partial && _); reflexivity.
Qed.

(** The header of the Replay decoder: the cursor at its last line and the
    replay it describes, the cursor being at the first line. *)
Definition replayOld3DHeader (it1 : DataIterator.t) (replay : SimulationLog.t)
  : option (DataIterator.t * SimulationLog.t) :=
  let it2 := next it1 in
  match ReplayParser.truthyLine it2 with
  | None => None
  | Some teamsLine =>
      let splitLine := JS.split " " teamsLine in
      if (List.length splitLine <? 5)
         || negb (String.eqb (ReplayParser.at_ splitLine 0) "T") then None
      else
        let replay1 :=
          SimulationLog.set_leftTeam
            (TeamDescription.set_name
               (ReplayParser.copyString (JS.slice (ReplayParser.at_ splitLine 1) 1 (-1)))
               (SimulationLog.leftTeam replay))
            replay in
        let replay2 :=
          SimulationLog.set_rightTeam
            (TeamDescription.set_name
               (ReplayParser.copyString (JS.slice (ReplayParser.at_ splitLine 3) 1 (-1)))
               (SimulationLog.rightTeam replay1))
            replay1 in
        let it3 := next it2 in
        match ReplayParser.truthyLine it3 with
        | None => None
        | Some worldLine =>
            let splitWorld := JS.split " " worldLine in
            if (List.length splitWorld <? 2)
               || negb (String.eqb (ReplayParser.at_ splitWorld 0) "F") then None
            else
              Some (it3,
                    ReplayParser.fieldParams
                      (JS.parseInt (ReplayParser.at_ splitWorld 1) 10) replay2)
        end
  end.

Definition replayHeader (util : SServerUtil.t) (it1 : DataIterator.t)
  : option (DataIterator.t * SimulationLog.t) :=
  match ReplayParser.truthyLine it1 with
  | None => None
  | Some line =>
      let splitLine := JS.split " " line in
      if String.eqb (JS.charAt line 0) "R"
         && String.eqb (JS.charAt line 1) "P"
         && String.eqb (JS.charAt line 2) "L" then
        if List.length splitLine <? 3 then None
        else
          let type := if String.eqb (ReplayParser.at_ splitLine 1) "2D"
                      then GameUtil.TWOD else GameUtil.THREED in
          Some (it1,
                SimulationLog.new util type
                  (JS.parseInt (ReplayParser.at_ splitLine 2) 10))
      else if String.eqb (JS.charAt line 0) "T" then
        if List.length splitLine <? 3 then None
        else
          let replay := SimulationLog.new util GameUtil.TWOD (JS.ofZ 0) in
          let replay1 :=
            SimulationLog.set_leftTeam
              (TeamDescription.set_name
                 (ReplayParser.copyString (JS.slice (ReplayParser.at_ splitLine 1) 1 (-1)))
                 (SimulationLog.leftTeam replay))
              replay in
          let replay2 :=
            SimulationLog.set_rightTeam
              (TeamDescription.set_name
                 (ReplayParser.copyString (JS.slice (ReplayParser.at_ splitLine 2) 1 (-1)))
                 (SimulationLog.rightTeam replay1))
              replay1 in
          Some (it1, ReplayParser.addDefaultAgents replay2)
      else if String.eqb (JS.charAt line 0) "V" then
        if List.length splitLine <? 4 then None
        else
          replayOld3DHeader it1
            (SimulationLog.set_frequency (JS.parseInt (ReplayParser.at_ splitLine 3) 10)
               (SimulationLog.new util GameUtil.THREED (JS.ofZ 0)))
      else None
  end.

Lemma replay_parse_first (host : Host.t) (util : SServerUtil.t) (data : string)
    (partial incremental : bool) :
  let it1 := next (new data partial) in
  let r := ReplayParser.parse host util Body.newParser data partial incremental in
  match replayHeader util it1 with
  | None => Body.p_storage (fst r) = None
  | Some (it, replay) =>
      fst r = Body.runPass (ReplayParser.decodeLine host util) (next it)
                (replayInitial replay) 0
  end.
Proof.
  cbv zeta. unfold ReplayParser.parse, replayHeader. cbn [Body.p_iterator Body.newParser].
  destruct (ReplayParser.truthyLine (next (new data partial))) as [line|]; [|reflexivity].
  destruct (String.eqb (JS.charAt line 0) "R" && _ && _).
  { destruct (_ <? 3); [reflexivity | apply replay_start_first]. }
  destruct (String.eqb (JS.charAt line 0) "T").
  { destruct (_ <? 3); [reflexivity | apply replay_start_first]. }
  destruct (String.eqb (JS.charAt line 0) "V"); [|reflexivity].
  destruct (_ <? 4); [reflexivity|].
  unfold ReplayParser.parseOld3DHeader, replayOld3DHeader.
  destruct (ReplayParser.truthyLine (next (next (new data partial)))) as [teams|];
    [|reflexivity].
  destruct ((_ <? 5) || _); [reflexivity|].
  destruct (ReplayParser.truthyLine (next (next (next (new data partial))))) as [world|];
    [|reflexivity].
  destruct ((_ <? 2) || _); [reflexivity | apply replay_start_first].
Qed.

(** *** The same header in a chunk and in the whole text

    [it'] is the cursor [it] on partial data, at the same line, with the
    text [more] added to the data. *)
Definition extends (it it' : DataIterator.t) (more : string) : Prop :=
  line it' = line it
  /\ partialData it = true
  /\ remaining it' = (remaining it ++ more)%string.

Lemma extends_new (chunk more : string) (partial : bool) :
  extends (new chunk true) (new (chunk ++ more) partial) more.
Proof. repeat split. Qed.

Lemma extends_next (it it' : DataIterator.t) (more : string) :
  extends it it' more -> hasLine (next it) = true -> extends (next it) (next it') more.
Proof.
  intros (Hl & Hp & Hr) Hhas.
  destruct (next_stream it) as (_ & Hp1 & H), (next_stream it') as (_ & _ & H').
  rewrite Hp in H. rewrite Hr in H'.
  destruct (scan true (remaining it)) as [[l rest']|] eqn:E.
  - rewrite (scan_stable _ _ _ more (partialData it') E) in H'.
    destruct H as (Hl1 & _ & Hr1), H' as (Hl1' & _ & Hr1').
    split; [congruence|]. split; [congruence|]. congruence.
  - destruct H as (_ & Hno & _). congruence.
Qed.

Lemma extends_truthyLine (it it' : DataIterator.t) (more : string) :
  extends it it' more -> ReplayParser.truthyLine it' = ReplayParser.truthyLine it.
Proof. intros (Hl & _). unfold ReplayParser.truthyLine. now rewrite Hl. Qed.

Lemma truthyLine_hasLine (it : DataIterator.t) (l : string) :
  ReplayParser.truthyLine it = Some l -> hasLine it = true.
Proof.
  unfold ReplayParser.truthyLine, hasLine. destruct (line it) as [[|c s]|]; congruence.
Qed.

(** The lines before the body pass that starts after the cursor. *)
Lemma extends_pending (it it' : DataIterator.t) (more : string) :
  extends it it' more ->
  pending (next it')
  = pending (next it) ++ lines (partialData it') (leftover (next it) ++ more)%string.
Proof.
  intros (Hl & Hp & Hr).
  rewrite !pending_next, leftover_next, Hr, Hp. unfold leftover. rewrite Hp.
  apply lines_app.
Qed.

Lemma ulgHeader_extends (it it' : DataIterator.t) (more : string) (l : string) :
  extends it it' more -> ulgHeader it = Some l -> ulgHeader it' = Some l.
Proof. intros (Hl & _). unfold ulgHeader. now rewrite Hl. Qed.

Lemma ulgHeader_hasLine (it : DataIterator.t) (l : string) :
  ulgHeader it = Some l -> hasLine it = true.
Proof.
  unfold ulgHeader, hasLine. destruct (line it) as [[|c s]|]; congruence.
Qed.

Lemma replayHeader_extends (util : SServerUtil.t) (it it' : DataIterator.t) (more : string)
    (itk : DataIterator.t) (replay : SimulationLog.t) :
  extends it it' more ->
  replayHeader util it = Some (itk, replay) ->
  exists itk', replayHeader util it' = Some (itk', replay) /\ extends itk itk' more.
Proof.
  intros Hext. unfold replayHeader. rewrite (extends_truthyLine _ _ _ Hext).
  destruct (ReplayParser.truthyLine it) as [l|] eqn:El; [|discriminate].
  destruct (String.eqb (JS.charAt l 0) "R" && _ && _).
  { destruct (_ <? 3); [discriminate|]. intros [= <- <-]. now exists it'. }
  destruct (String.eqb (JS.charAt l 0) "T").
  { destruct (_ <? 3); [discriminate|]. intros [= <- <-]. now exists it'. }
  destruct (String.eqb (JS.charAt l 0) "V"); [|discriminate].
  destruct (_ <? 4); [discriminate|].
  unfold replayOld3DHeader.
  destruct (ReplayParser.truthyLine (next it)) as [teams|] eqn:E2; [|discriminate].
  pose proof (extends_next _ _ _ Hext (truthyLine_hasLine _ _ E2)) as Hext2.
  rewrite (extends_truthyLine _ _ _ Hext2), E2.
  destruct ((_ <? 5) || _); [discriminate|].
  destruct (ReplayParser.truthyLine (next (next it))) as [world|] eqn:E3; [|discriminate].
  pose proof (extends_next _ _ _ Hext2 (truthyLine_hasLine _ _ E3)) as Hext3.
  rewrite (extends_truthyLine _ _ _ Hext3), E3.
  destruct ((_ <? 2) || _); [discriminate|].
  intros [= <- <-]. now exists (next (next it')).
Qed.

End FirstCall.

(* ===================================================================== *)
(** ** Decoding in chunks *)
(* ===================================================================== *)

Module ChunkClaims.
Import DataIterator StringFacts DataIteratorFacts StreamFacts DecoderFacts.
Import Decoding SessionFacts HandlerFacts FirstCall.

Lemma partialData_next (it : DataIterator.t) : partialData (next it) = partialData it.
Proof. now destruct (next_stream it) as (_ & H & _). Qed.

Lemma ulgInitial_maxStates (util : SServerUtil.t) (l : string) :
  0 < LogParserStorage.maxStates (snd (ulgInitial util l)).
Proof. simpl. lia. Qed.

Lemma replayInitial_maxStates (replay : SimulationLog.t) :
  0 < LogParserStorage.maxStates (snd (replayInitial replay)).
Proof. simpl. destruct (SimulationLog.type replay); lia. Qed.

(** The ULG decoder on a text whose first chunk holds the header line. *)
Lemma ulg_chunks (host : Host.t) (util : SServerUtil.t) (chunk : string) (k : nat)
    (chunks : list (string * nat)) (last : string) :
  Body.p_storage (fst (ULGParser.parse host util Body.newParser chunk true true)) <> None ->
  states (feedULG host util ((chunk, k) :: chunks) last)
  = states (decodeULG host util (text ((chunk, k) :: chunks) last)).
Proof.
  intros Hfirst. unfold feedULG, decodeULG. simpl feed. simpl text.
  set (d := ULGParser.decodeLine host util).
  set (more := text chunks last).
  pose proof (ulg_parse_first host util chunk true true) as H1.
  pose proof (ulg_parse_first host util (chunk ++ more) false false) as H2.
  cbv zeta in H1, H2.
  destruct (ulgHeader (next (new chunk true))) as [l|] eqn:Eh; [|now destruct H1].
  assert (Hext : extends (next (new chunk true)) (next (new (chunk ++ more) false)) more).
  { apply extends_next; [apply extends_new|]. now apply ulgHeader_hasLine in Eh. }
  rewrite (ulgHeader_extends _ _ _ _ Hext Eh) in H2.
  rewrite H1, H2. fold d.
  set (it0 := next (next (new chunk true))).
  set (it0' := next (next (new (chunk ++ more) false))).
  set (all := pending it0 ++ lines false (leftover it0 ++ more)%string).
  assert (HF1 : Finished d (ulgInitial util l) all
                  (feed (ULGParser.parse host util) d chunks last
                     (Body.runContinuations d k (Body.runPass d it0 (ulgInitial util l) 0)))).
  { apply (session_Finished d (ulg_maxStates host util) (ulg_kind host util)
             (ulg_sim host util) (ulgInitial util l) all (ulgInitial_maxStates util l)
             (ULGParser.parse host util) "Empty SServer log file!").
    - reflexivity.
    - unfold it0. now rewrite !partialData_next.
    - reflexivity. }
  assert (HF2 : Finished d (ulgInitial util l) all
                  (settle d (Body.runPass d it0' (ulgInitial util l) 0))).
  { apply (whole_Finished d (ulg_maxStates host util) (ulg_kind host util)
             (ulg_sim host util) (ulgInitial util l) all (ulgInitial_maxStates util l)).
    - unfold it0'. now rewrite !partialData_next.
    - unfold all, it0, it0'. rewrite (extends_pending _ _ _ Hext).
      now rewrite partialData_next. }
  rewrite (Finished_states d _ _ _ HF1), (Finished_states d _ _ _ HF2). reflexivity.
Qed.

(** The Replay decoder on a text whose first chunk holds the header. *)
Lemma replay_chunks (host : Host.t) (util : SServerUtil.t) (chunk : string) (k : nat)
    (chunks : list (string * nat)) (last : string) :
  Body.p_storage (fst (ReplayParser.parse host util Body.newParser chunk true true)) <> None ->
  states (feedReplay host util ((chunk, k) :: chunks) last)
  = states (decodeReplay host util (text ((chunk, k) :: chunks) last)).
Proof.
  intros Hfirst. unfold feedReplay, decodeReplay. simpl feed. simpl text.
  set (d := ReplayParser.decodeLine host util).
  set (more := text chunks last).
  pose proof (replay_parse_first host util chunk true true) as H1.
  pose proof (replay_parse_first host util (chunk ++ more) false false) as H2.
  cbv zeta in H1, H2.
  destruct (replayHeader util (next (new chunk true))) as [[itk replay]|] eqn:Eh;
    [|contradiction].
  assert (Hline : hasLine (next (new chunk true)) = true).
  { unfold replayHeader in Eh.
    destruct (ReplayParser.truthyLine (next (new chunk true))) eqn:E; [|discriminate].
    now apply truthyLine_hasLine in E. }
  assert (Hext : extends (next (new chunk true)) (next (new (chunk ++ more) false)) more).
  { apply extends_next; [apply extends_new | exact Hline]. }
  destruct (replayHeader_extends util _ _ _ _ _ Hext Eh) as (itk' & Eh' & Hextk).
  rewrite Eh' in H2. rewrite H1, H2. fold d.
  set (it0 := next itk).
  set (it0' := next itk').
  set (all := pending it0 ++ lines false (leftover it0 ++ more)%string).
  assert (Hpk : partialData itk = true) by apply Hextk.
  assert (Hpk' : partialData itk' = false).
  { clear - Eh'. unfold replayHeader, replayOld3DHeader in Eh'.
    repeat match type of Eh' with
           | context [match ?x with _ => _ end] => destruct x; try discriminate
           end;
      injection Eh' as <- _; now rewrite ?partialData_next. }
  assert (HF1 : Finished d (replayInitial replay) all
                  (feed (ReplayParser.parse host util) d chunks last
                     (Body.runContinuations d k (Body.runPass d it0 (replayInitial replay) 0)))).
  { apply (session_Finished d (replay_maxStates host util) (replay_kind host util)
             (replay_sim host util) (replayInitial replay) all
             (replayInitial_maxStates replay)
             (ReplayParser.parse host util) "Empty replay file!").
    - reflexivity.
    - unfold it0. now rewrite partialData_next.
    - reflexivity. }
  assert (HF2 : Finished d (replayInitial replay) all
                  (settle d (Body.runPass d it0' (replayInitial replay) 0))).
  { apply (whole_Finished d (replay_maxStates host util) (replay_kind host util)
             (replay_sim host util) (replayInitial replay) all
             (replayInitial_maxStates replay)).
    - unfold it0'. now rewrite partialData_next.
    - unfold all, it0, it0'. rewrite (extends_pending _ _ _ Hextk). now rewrite Hpk'. }
  rewrite (Finished_states d _ _ _ HF1), (Finished_states d _ _ _ HF2). reflexivity.
Qed.

(** C2, with the condition it needs.  A text that arrives in chunks under
    the incremental protocol, the host running any number of the waiting
    continuations between two calls, gives the states that the text gives
    in one call, provided the first call gets past the header, that is,
    the first chunk holds the header lines complete. *)
Theorem chunked_decoding_gives_the_same_states :
  forall (host : Host.t) (util : SServerUtil.t) (chunks : list (string * nat))
         (last : string),
    let first := firstCall chunks last in
    (Body.p_storage
       (fst (ULGParser.parse host util Body.newParser (fst first) (snd first) true))
     <> None ->
     states (feedULG host util chunks last)
     = states (decodeULG host util (text chunks last)))
    /\ (Body.p_storage
          (fst (ReplayParser.parse host util Body.newParser (fst first) (snd first) true))
        <> None ->
        states (feedReplay host util chunks last)
        = states (decodeReplay host util (text chunks last))).
Proof.
  intros host util [|[chunk k] chunks] last; cbv zeta.
  - split; intros _; reflexivity.
  - split; intros H; [now apply ulg_chunks | now apply replay_chunks].
Qed.

(** The statement for the sample ULG log cut inside its first show line,
    and for the sample replay cut inside its second line. *)
Lemma chunked_decoding_gives_the_same_states_witness :
  states (feedULG Samples.host Samples.util
            (fst (Samples.cut 30 Samples.twoShowsULG))
            (snd (Samples.cut 30 Samples.twoShowsULG)))
  = states (decodeULG Samples.host Samples.util
              (text (fst (Samples.cut 30 Samples.twoShowsULG))
                    (snd (Samples.cut 30 Samples.twoShowsULG))))
  /\ states (feedReplay Samples.host Samples.util
               (fst (Samples.cut 12 Samples.scoreReplay))
               (snd (Samples.cut 12 Samples.scoreReplay)))
     = states (decodeReplay Samples.host Samples.util
                 (text (fst (Samples.cut 12 Samples.scoreReplay))
                       (snd (Samples.cut 12 Samples.scoreReplay)))).
Proof.
  split.
  - apply (proj1 (chunked_decoding_gives_the_same_states Samples.host Samples.util
                    (fst (Samples.cut 30 Samples.twoShowsULG))
                    (snd (Samples.cut 30 Samples.twoShowsULG)))).
    vm_compute. discriminate.
  - apply (proj2 (chunked_decoding_gives_the_same_states Samples.host Samples.util
                    (fst (Samples.cut 12 Samples.scoreReplay))
                    (snd (Samples.cut 12 Samples.scoreReplay)))).
    vm_compute. discriminate.
Defined.

(** C2 as it is stated fails on the sample ULG log cut inside its header
    line: the first call finds no header and raises an error, the second
    call starts anew on the rest of the text, and no log comes of it,
    while the text in one call gives a log with two states. *)
Lemma chunk_boundary_inside_the_header :
  text (fst (Samples.cut 2 Samples.twoShowsULG)) (snd (Samples.cut 2 Samples.twoShowsULG))
  = Samples.twoShowsULG
  /\ states (feedULG Samples.host Samples.util
               (fst (Samples.cut 2 Samples.twoShowsULG))
               (snd (Samples.cut 2 Samples.twoShowsULG)))
     = None
  /\ option_map (@List.length _)
       (states (decodeULG Samples.host Samples.util Samples.twoShowsULG))
     = Some 2
  /\ states (feedULG Samples.host Samples.util
               (fst (Samples.cut 2 Samples.twoShowsULG))
               (snd (Samples.cut 2 Samples.twoShowsULG)))
     <> states (decodeULG Samples.host Samples.util Samples.twoShowsULG).
Proof.
  split; [reflexivity|]. split; [vm_compute; reflexivity|].
  split; [vm_compute; reflexivity|]. vm_compute. discriminate.
Qed.

End ChunkClaims.

(* ===================================================================== *)
(** ** The bound of a body pass *)
(* ===================================================================== *)

Module PassClaims.
Import DataIterator StringFacts DataIteratorFacts StreamFacts DecoderFacts.
Import Decoding SessionFacts HandlerFacts FirstCall.

(** What a pass that started from [st] observes of its bound: the counter
    of new states stays within the bound of the storage and within the
    number of lines decoded; the continuation is scheduled exactly when the
    pass leaves the cursor at a line, and then the counter has reached the
    bound; otherwise no complete line is left. *)
Definition bounded (r : Body.Pass) (st : Body.State) : Prop :=
  Body.newStatesCnt r <= LogParserStorage.maxStates (snd st)
  /\ Body.newStatesCnt r <= Body.turns r
  /\ Body.scheduled r = hasLine (Body.iterator r)
  /\ (Body.scheduled r = true ->
      Body.newStatesCnt r = LogParserStorage.maxStates (snd st))
  /\ (Body.scheduled r = false -> pending (Body.iterator r) = []).

Section Generic.
Variable d : SimulationLog.t -> string -> Body.State -> Body.State * bool.
Hypothesis d_kept : forall log0 l st, kept st (fst (d log0 l st)).

Lemma decodeAll_kept (log0 : SimulationLog.t) (ls : list string) (st : Body.State) :
  kept st (decodeAll d log0 ls st).
Proof.
  unfold decodeAll.
  revert st. induction ls as [|l ls IH]; intros st; simpl; [apply kept_refl|].
  eapply kept_trans; [apply d_kept | apply IH].
Qed.

Lemma refreshed_kept (st : Body.State) (cnt : nat) : kept st (refreshed st cnt).
Proof.
  split; [apply sim_kind, sim_refreshed|].
  unfold refreshed. now destruct (0 <? cnt).
Qed.

Lemma finish_kept (st : Body.State) : kept st (Body.finish st).
Proof.
  split; [|apply finish_maxStates].
  destruct st as [log storage]. unfold Body.finish.
  destruct (LogParserStorage.partialState storage) as [ps|].
  - destruct (PartialWorldState.appendTo ps (SimulationLog.states log)) as [[ps' states'] ok].
    simpl. rewrite <- kind_core, core_finalize. now destruct log.
  - simpl. rewrite <- kind_core, core_finalize. now destruct log.
Qed.

Lemma pass_bounded (it : DataIterator.t) (st : Body.State) :
  bounded (Body.pass d it st) st /\ kept st (Body.state (Body.pass d it st)).
Proof.
  destruct (pass_pending d (fun log0 l st => proj2 (d_kept log0 l st)) it st)
    as (consumed & it' & cnt' & _ & _ & _ & Hc1 & Hc2 & -> & Hline & Hnone).
  cbv zeta.
  assert (Hk : kept st (refreshed (decodeAll d (fst st) consumed st) cnt')).
  { eapply kept_trans; [apply decodeAll_kept | apply refreshed_kept]. }
  destruct (hasLine it') eqn:E.
  - split; [|exact Hk]. unfold bounded. simpl. rewrite E.
    repeat split; try assumption; try discriminate. intros _. now apply Hline.
  - destruct (negb (partialData it)).
    + split; [|eapply kept_trans; [exact Hk | apply finish_kept]].
      unfold bounded. simpl. repeat split; try assumption; discriminate.
    + split; [|exact Hk]. unfold bounded. simpl. rewrite E.
      repeat split; try assumption; discriminate.
Qed.

End Generic.

(** C4, as the code has it.  A body pass counts the new states, not the
    lines: for either decoder the counter of a pass stays within the bound
    of the storage, the pass schedules its continuation exactly when it
    stops at a line, the counter at the bound, and otherwise leaves no
    complete line undecoded.  The first call of [parse] sets the bound: 100
    for the ULG decoder, 300 for a 2D replay and 50 for a 3D replay.  Only
    a show line makes the ULG decoder count, and only an S line the Replay
    decoder. *)
Theorem body_pass_bounds_new_states :
  forall (host : Host.t) (util : SServerUtil.t),
    (forall it st, bounded (ULGParser.parseULGBody host util it st) st)
    /\ (forall it st, bounded (ReplayParser.parseReplayBody host util it st) st)
    /\ (forall data partial incremental storage,
          Body.p_storage
            (fst (ULGParser.parse host util Body.newParser data partial incremental))
          = Some storage ->
          LogParserStorage.maxStates storage = 100)
    /\ (forall data partial incremental replay storage,
          Body.p_log
            (fst (ReplayParser.parse host util Body.newParser data partial incremental))
          = Some replay ->
          Body.p_storage
            (fst (ReplayParser.parse host util Body.newParser data partial incremental))
          = Some storage ->
          LogParserStorage.maxStates storage
          = match SimulationLog.type replay with
            | GameUtil.TWOD => 300
            | GameUtil.THREED => 50
            end)
    /\ (forall log0 line st,
          snd (ULGParser.decodeLine host util log0 line st) = true ->
          JS.slice line 0 6 = "(show ")
    /\ (forall log0 line st,
          snd (ReplayParser.decodeLine host util log0 line st) = true ->
          JS.charAt line 0 = "S").
Proof.
  intros host util. split; [|split; [|split; [|split; [|split]]]].
  - intros it st. apply (pass_bounded _ (ulg_decodeLine_kept host util)).
  - intros it st. apply (pass_bounded _ (replay_decodeLine_kept host util)).
  - intros data partial incremental storage.
    pose proof (ulg_parse_first host util data partial incremental) as H. cbv zeta in H.
    destruct (ulgHeader _) as [l|]; [|destruct H as [-> _]; discriminate].
    rewrite H. unfold Body.runPass. simpl. intros [= <-].
    now destruct (pass_bounded _ (ulg_decodeLine_kept host util)
                    (next (next (new data partial))) (ulgInitial util l)) as [_ [_ ->]].
  - intros data partial incremental replay storage.
    pose proof (replay_parse_first host util data partial incremental) as H. cbv zeta in H.
    destruct (replayHeader _ _) as [[itk replay0]|]; [|rewrite H; discriminate].
    rewrite H. unfold Body.runPass. simpl. intros [= <-] [= <-].
    destruct (pass_bounded _ (replay_decodeLine_kept host util)
                (next itk) (replayInitial replay0)) as [_ [Hk ->]].
    unfold kind in Hk. injection Hk as -> _. reflexivity.
  - intros log0 line st. unfold ULGParser.decodeLine.
    repeat match goal with
           | |- context [if String.eqb ?x ?y then _ else _] =>
               destruct (String.eqb x y) eqn:?
           end; cbn [snd]; try discriminate.
    intros _. now apply String.eqb_eq.
  - intros log0 line [replay storage]. unfold ReplayParser.decodeLine.
    repeat match goal with
           | |- context [if ?x then _ else _] => destruct x eqn:?
           end; cbn [snd]; try discriminate.
    intros _. now apply String.eqb_eq.
Qed.

(** The statement for the first calls on the sample ULG log and on the
    sample replay, and for a pass over the two show lines of the sample
    ULG log with a bound of one state. *)
Lemma body_pass_bounds_new_states_witness :
  (exists storage,
      Body.p_storage
        (fst (ULGParser.parse Samples.host Samples.util Body.newParser
                Samples.twoShowsULG false false))
      = Some storage
      /\ LogParserStorage.maxStates storage = 100)
  /\ (exists replay storage,
        Body.p_log
          (fst (ReplayParser.parse Samples.host Samples.util Body.newParser
                  Samples.scoreReplay false false))
        = Some replay
        /\ Body.p_storage
             (fst (ReplayParser.parse Samples.host Samples.util Body.newParser
                     Samples.scoreReplay false false))
           = Some storage
        /\ SimulationLog.type replay = GameUtil.THREED
        /\ LogParserStorage.maxStates storage = 50)
  /\ (let st := (Samples.sserverLog, LogParserStorage.set_maxStates 1 Samples.storage) in
      let r := ULGParser.parseULGBody Samples.host Samples.util
                 (next (next (new Samples.twoShowsULG false))) st in
      Body.scheduled r = true /\ Body.newStatesCnt r = 1).
Proof.
  pose proof (body_pass_bounds_new_states Samples.host Samples.util)
    as (HU & _ & HP & HR & _).
  split; [|split].
  - eexists. split; [vm_compute; reflexivity|].
    apply (HP Samples.twoShowsULG false false). vm_compute. reflexivity.
  - destruct (Body.p_log (fst (ReplayParser.parse Samples.host Samples.util Body.newParser
                                 Samples.scoreReplay false false)))
      as [replay|] eqn:El; [|vm_compute in El; discriminate].
    destruct (Body.p_storage (fst (ReplayParser.parse Samples.host Samples.util
                                     Body.newParser Samples.scoreReplay false false)))
      as [storage|] eqn:Es; [|vm_compute in Es; discriminate].
    exists replay, storage. split; [reflexivity|]. split; [reflexivity|].
    rewrite (HR _ _ _ _ _ El Es).
    vm_compute in El. injection El as <-. split; reflexivity.
  - cbv zeta. split; [vm_compute; reflexivity|].
    refine (proj1 (proj2 (proj2 (proj2 (HU _ _)))) _). vm_compute. reflexivity.
Defined.

(** C4 as it is stated fails on the sample ULG log with 120 message
    lines: the body pass that the first call of [parse] starts has a bound
    of 100, decodes the 120 lines and schedules no continuation. *)
Lemma one_pass_decodes_120_lines :
  let it := next (next (new Samples.messagesULG false)) in
  let st := ulgInitial Samples.util "ULG5" in
  fst (ULGParser.parse Samples.host Samples.util Body.newParser
         Samples.messagesULG false false)
  = Body.runPass (ULGParser.decodeLine Samples.host Samples.util) it st 0
  /\ LogParserStorage.maxStates (snd st) = 100
  /\ Body.turns (ULGParser.parseULGBody Samples.host Samples.util it st) = 120
  /\ Body.scheduled (ULGParser.parseULGBody Samples.host Samples.util it st) = false.
Proof. cbv zeta. repeat split; vm_compute; reflexivity. Qed.

End PassClaims.

(* ===================================================================== *)
(** ** The clock of the builder *)
(* ===================================================================== *)

Module ClockFacts.
Import Decoding Clock HandlerFacts.


Lemma ltb_lt (a b : JS.number) : JS.ltb a b = true -> JS.lt a b.
Proof.
  destruct a as [x|], b as [y|]; simpl; try discriminate.
  intros H. apply negb_true_iff in H. apply Qnot_le_lt. intros Hle.
  apply Qle_bool_iff in Hle. congruence.
Qed.

(** *** Sorted states *)





(** *** The clock of a decoding state: the states committed and the time
    of the builder *)

Definition clock (st : Body.State) : list WorldState.t * option JS.number :=
  (SimulationLog.states (fst st),
   option_map PartialWorldState.time (LogParserStorage.partialState (snd st))).


(** What [appendTo] does to the clock. *)
Definition appended (ps : PartialWorldState.t) (ws : list WorldState.t)
  : list WorldState.t * option JS.number :=
  let r := PartialWorldState.appendTo ps ws in
  (snd (fst r), Some (PartialWorldState.time (fst (fst r)))).

Lemma appendTo_timeStep (ps : PartialWorldState.t) (ws : list WorldState.t) :
  PartialWorldState.timeStep (fst (fst (PartialWorldState.appendTo ps ws)))
  = PartialWorldState.timeStep ps.
Proof. unfold PartialWorldState.appendTo. now destruct (0 <? _). Qed.


(** A line leaves the clock alone, or commits the pending snapshot, or
    creates the builder at time zero. *)
Definition tick (st st' : Body.State) : Prop :=
  clock st' = clock st
  \/ (exists ps, LogParserStorage.partialState (snd st) = Some ps
                 /\ clock st' = appended ps (SimulationLog.states (fst st)))
  \/ (LogParserStorage.partialState (snd st) = None
      /\ clock st' = (SimulationLog.states (fst st), Some (JS.ofZ 0))).


(** *** The setters of the builder leave its time alone *)

Lemma time_setGameTime p g :
  PartialWorldState.time (PartialWorldState.setGameTime p g) = PartialWorldState.time p.
Proof. reflexivity. Qed.

Lemma time_setPlaymode p m :
  PartialWorldState.time (PartialWorldState.setPlaymode p m) = PartialWorldState.time p.
Proof. unfold PartialWorldState.setPlaymode. now destruct (negb _). Qed.

Lemma time_setScore p a b c d e f :
  PartialWorldState.time (PartialWorldState.setScore p a b c d e f) = PartialWorldState.time p.
Proof. unfold PartialWorldState.setScore. now destruct (_ || _). Qed.

Lemma time_setScore2 p a b :
  PartialWorldState.time (PartialWorldState.setScore2 p a b) = PartialWorldState.time p.
Proof. apply time_setScore. Qed.

Lemma time_parseBallState node p :
  PartialWorldState.time (ULGParser.parseBallState node p) = PartialWorldState.time p.
Proof. unfold ULGParser.parseBallState. now destruct (_ <? 2). Qed.

Lemma time_setAgentState side n s p :
  PartialWorldState.time (ReplayParser.setAgentState side n s p) = PartialWorldState.time p.
Proof. unfold ReplayParser.setAgentState. now destruct side. Qed.

Ltac clock_fields :=
  unfold tick, clock, appended;
  cbn [fst snd option_map SimulationLog.states LogParserStorage.partialState
       PartialWorldState.time PartialWorldState.set_timeStep
       PartialWorldState.set_ballState PartialWorldState.set_leftAgentStates
       PartialWorldState.set_rightAgentStates];
  rewrite ?time_setScore, ?time_setScore2, ?time_setPlaymode, ?time_setGameTime,
    ?time_setAgentState, ?time_parseBallState;
  cbn [PartialWorldState.time PartialWorldState.set_timeStep
       PartialWorldState.set_ballState PartialWorldState.set_leftAgentStates
       PartialWorldState.set_rightAgentStates].

Ltac tick_leaf :=
  clock_fields;
  first [ left; reflexivity
        | right; left; eexists; split; [reflexivity|];
          match goal with
          | H : PartialWorldState.appendTo _ _ = _ |- _ => rewrite H
          end; reflexivity
        | right; right; split; reflexivity ].

Ltac by_ticks := repeat split_match; tick_leaf.

Section ULG.
Variable host : Host.t.
Variable util : SServerUtil.t.

Lemma ulg_parsePlaymodeLine_tick line st :
  tick st (completed (ULGParser.parsePlaymodeLine line st)).
Proof.
  destruct st as [[] []]. unfold ULGParser.parsePlaymodeLine. log_fields. by_ticks.
Qed.

Lemma ulg_parseTeamLine_tick line st :
  tick st (completed (ULGParser.parseTeamLine line st)).
Proof.
  destruct st as [[] []]. unfold ULGParser.parseTeamLine. log_fields. by_ticks.
Qed.

Lemma ulg_parseServerParamLine_tick line st :
  tick st (completed (ULGParser.parseServerParamLine util line st)).
Proof.
  destruct st as [[] []]. unfold ULGParser.parseServerParamLine. log_fields. by_ticks.
Qed.

Lemma ulg_parseShowChildren_clock children acc :
  let r := completed (fold_left (ULGParser.parseShowChild host util) children acc) in
  SimulationLog.states (fst r) = SimulationLog.states (fst (completed acc))
  /\ PartialWorldState.time (snd r) = PartialWorldState.time (snd (completed acc)).
Proof.
  cbv zeta. revert acc.
  induction children as [|child children IH]; intros acc; simpl; [now split|].
  destruct (IH (ULGParser.parseShowChild host util acc child)) as [-> ->].
  destruct acc as [[log ps] | [log ps]]; [|now split].
  unfold ULGParser.parseShowChild. destruct log. log_fields.
  repeat split_match; clock_fields; now split.
Qed.

Lemma ulg_parseShowLine_tick line st :
  tick st (completed (ULGParser.parseShowLine host util line st)).
Proof.
  destruct st as [log storage]. unfold ULGParser.parseShowLine.
  destruct (LogParserStorage.partialState storage) as [ps|] eqn:Eps; [|now left].
  destruct (SymbolTreeParser.parse line) as [rootNode|]; [|now left].
  destruct (1 <? _); [|now left].
  destruct (PartialWorldState.appendTo ps (SimulationLog.states log))
    as [[ps1 states1] ok] eqn:Ea.
  pose proof (ulg_parseShowChildren_clock (SymbolTreeParser.children rootNode)
                (Normal (SimulationLog.set_states states1 log, PartialWorldState.setGameTime ps1
                   (JS.div (JS.parseInt_opt (SymbolTreeParser.value rootNode 1) 10) (JS.ofZ 10)))))
    as [Hs Ht].
  cbv zeta in Hs, Ht. right. left. exists ps. split; [exact Eps|].
  unfold clock, appended. cbn [fst snd]. rewrite Ea. cbn [fst snd].
  destruct (fold_left _ _ _) as [[log' ps'] | [log' ps']];
    cbn [fst snd completed option_map LogParserStorage.partialState
         LogParserStorage.set_partialState] in *;
    rewrite Hs, Ht; now destruct log.
Qed.

Lemma ulg_decodeLine_tick log0 line st :
  tick st (fst (ULGParser.decodeLine host util log0 line st)).
Proof.
  unfold ULGParser.decodeLine.
  repeat match goal with
         | |- context [if String.eqb ?x ?y then _ else _] => destruct (String.eqb x y)
         end; cbn [fst snd];
    auto using ulg_parseServerParamLine_tick, ulg_parseTeamLine_tick,
               ulg_parsePlaymodeLine_tick, ulg_parseShowLine_tick;
    try (now left);
    left; unfold clock; cbn [fst snd]; f_equal;
    destruct st as [[] storage];
    unfold ULGParser.parsePlayerParamLine, ULGParser.parsePlayerTypeLine;
    log_fields; by_cases.
Qed.

End ULG.

Section Replay.
Variable host : Host.t.
Variable util : SServerUtil.t.

Ltac replay_fields :=
  cbv [ReplayParser.setTimeStep ReplayParser.teamOf ReplayParser.setTeam
       ReplayParser.indexListOf ReplayParser.setIndexList].

Lemma replay_parseEnvironmentParams_tick line st :
  tick st (completed (ReplayParser.parseEnvironmentParams host util line st)).
Proof.
  destruct st as [[] []]. unfold ReplayParser.parseEnvironmentParams.
  replay_fields. log_fields. by_ticks.
Qed.

Lemma replay_parseStateLine_tick line st :
  tick st (fst (ReplayParser.parseStateLine line st)).
Proof.
  destruct st as [[] []]. unfold ReplayParser.parseStateLine.
  replay_fields. log_fields. by_ticks.
Qed.

Lemma replay_parseAgentFcn_tick log0 line st side :
  tick st (completed (ReplayParser.parseAgentFcn host util log0 line st side)).
Proof.
  destruct st as [[] []].
  unfold ReplayParser.parseAgentFcn, ReplayParser.parseAgentState_V0_3D,
    ReplayParser.parseAgentState_V1, ReplayParser.parseAgentState_V0_2D.
  replay_fields. log_fields. by_ticks.
Qed.

Lemma replay_parseBallFcn_time log0 line ps :
  option_map PartialWorldState.time (ReplayParser.parseBallFcn log0 line ps)
  = option_map PartialWorldState.time ps.
Proof.
  unfold ReplayParser.parseBallFcn, ReplayParser.parseBallState_2D,
    ReplayParser.parseBallState_V0_3D, ReplayParser.parseBallState_V1_3D.
  repeat split_match; reflexivity.
Qed.

Lemma replay_decodeLine_tick log0 line st :
  tick st (fst (ReplayParser.decodeLine host util log0 line st)).
Proof.
  unfold ReplayParser.decodeLine.
  pose proof (replay_parseEnvironmentParams_tick line st) as HE.
  pose proof (replay_parseStateLine_tick line st) as HS.
  pose proof (replay_parseAgentFcn_tick log0 line st true) as HL.
  pose proof (replay_parseAgentFcn_tick log0 line st false) as HR.
  destruct st as [log storage].
  repeat match goal with
         | |- context [if ?x then _ else _] => destruct x
         end; cbn [fst snd]; try assumption; try (now left);
    left; unfold clock; cbn [fst snd LogParserStorage.partialState
                             LogParserStorage.set_partialState];
    rewrite ?replay_parseBallFcn_time; try reflexivity;
    f_equal; destruct log;
    unfold ReplayParser.parsePlayerParams, ReplayParser.parsePlayerTypeParams,
      ReplayParser.parseTeamLine; log_fields; by_cases.
Qed.

End Replay.

(** *** The clock along the lines of a body *)

Section Lines.
Variable d : SimulationLog.t -> string -> Body.State -> Body.State * bool.
Hypothesis d_tick : forall log0 l st, tick st (fst (d log0 l st)).


End Lines.


(** *** The states the decoders start from *)







End ClockFacts.

(* ===================================================================== *)
(** ** The times of the committed states *)
(* ===================================================================== *)

Module TimeClaims.
Import DataIterator DecoderFacts.
Import Decoding Clock SessionFacts HandlerFacts FirstCall ClockFacts.


Lemma replayHeader_partialData (util : SServerUtil.t) (it itk : DataIterator.t)
    (replay : SimulationLog.t) :
  replayHeader util it = Some (itk, replay) -> partialData itk = partialData it.
Proof.
  unfold replayHeader, replayOld3DHeader. intros H.
  repeat match type of H with
         | context [match ?x with _ => _ end] => destruct x; try discriminate
         end;
    injection H as <- _; now rewrite ?ChunkClaims.partialData_next.
Qed.





(** On that replay the condition of the statement fails: a commit would
    not advance the clock of the builder. *)
Lemma fast_replay_clock_stalls :
  match replayHeader Samples.util (next (new Samples.fastReplay false)) with
  | Some (it, replay) =>
      steady (ReplayParser.decodeLine Samples.host Samples.util)
             (fst (replayInitial replay)) (pending (next it)) (replayInitial replay)
      = false
  | None => False
  end.
Proof. vm_compute. reflexivity. Qed.

End TimeClaims.

(* ===================================================================== *)
(** * Further properties *)
(* ===================================================================== *)

(* ===================================================================== *)
(** ** The line cursor *)
(* ===================================================================== *)

Module CursorProperties.
Import DataIterator StringFacts DataIteratorFacts StreamFacts DecoderFacts.

#[local] Open Scope string_scope.

(** A text without a line terminator, and a text of line terminators. *)
Fixpoint plain (s : string) : bool :=
  match s with
  | EmptyString => true
  | String c s' => negb (isLineTerminator c) && plain s'
  end.

Fixpoint breaks (s : string) : bool :=
  match s with
  | EmptyString => true
  | String c s' => isLineTerminator c && breaks s'
  end.

Lemma plain_token (s : string) : plain s = true <-> token s = s.
Proof.
  induction s as [|c s IH]; simpl; [tauto|].
  destruct (isLineTerminator c); simpl.
  - split; discriminate.
  - rewrite IH. split; [now intros -> | now intros [= ->]].
Qed.

Lemma breaks_terminators (s : string) : breaks s = true <-> terminators s.
Proof.
  unfold terminators. induction s as [|c s IH]; simpl; [tauto|].
  destruct (isLineTerminator c); simpl; [exact IH|]. split; discriminate.
Qed.

Lemma plain_segment (s : string) : s <> EmptyString -> plain s = true -> segment s.
Proof. intros Hne Hp. split; [exact Hne | now apply plain_token]. Qed.

(** X1.  [hasNext] tells what [next] will do: a line is yielded exactly when
    [hasNext] is true, and otherwise [next] clears the line and leaves the
    data and the position as they are. *)
Theorem hasNext_tells_next :
  forall it : DataIterator.t,
    hasNext it = hasLine (next it)
    /\ (if hasNext it
        then exists l, line (next it) = Some l /\ l <> EmptyString
        else next it = mk (data it) (lastIndex it) None (partialData it)).
Proof.
  intros it. pose proof (hasNext_scan it) as Hh. pose proof (next_scan it) as Hn.
  destruct (scan (partialData it) (remaining it)) as [[l rest']|] eqn:E.
  - destruct Hn as [Hn _]. apply scan_shorter in E as [_ Hne].
    rewrite Hh, Hn. unfold hasLine. simpl. split.
    + destruct l; [congruence | reflexivity].
    + now exists l.
  - rewrite Hh, Hn. split; reflexivity.
Qed.

(** X2.  A line that [next] yields is not empty and holds no line
    terminator. *)
Theorem next_yields_plain_lines :
  forall (it : DataIterator.t) (l : string),
    line (next it) = Some l -> l <> EmptyString /\ plain l = true.
Proof.
  intros it l Hl. pose proof (next_scan it) as Hn.
  destruct (scan (partialData it) (remaining it)) as [[l' rest']|] eqn:E.
  - destruct Hn as [Hn _]. rewrite Hn in Hl. simpl in Hl. injection Hl as ->.
    destruct (scan_Some_inv _ _ _ _ E) as (ts & _ & [Hne Htok] & _).
    split; [exact Hne | now apply plain_token].
  - rewrite Hn in Hl. discriminate.
Qed.

Lemma next_yields_plain_lines_witness :
  line (next (new ("ab" ++ Samples.LF ++ "cd") true)) = Some "ab"
  /\ "ab" <> EmptyString /\ plain "ab" = true.
Proof.
  split; [reflexivity|].
  apply (next_yields_plain_lines (new ("ab" ++ Samples.LF ++ "cd") true) "ab").
  reflexivity.
Defined.

(** The text of the lines [ls], each followed by the end of line [eol]. *)
Fixpoint written (eol : string) (ls : list string) : string :=
  match ls with
  | [] => EmptyString
  | l :: ls' => l ++ eol ++ written eol ls'
  end.

Fixpoint allLines (ls : list string) : bool :=
  match ls with
  | [] => true
  | l :: ls' => negb (String.eqb l EmptyString) && plain l && allLines ls'
  end.

Lemma scan_breaks (p : bool) (ts : string) : terminators ts -> scan p ts = None.
Proof. intros H. unfold scan. unfold terminators in H. now rewrite H. Qed.

Lemma lines_written (p : bool) (eol ts : string) (ls : list string) :
  eol <> EmptyString -> terminators eol -> terminators ts -> allLines ls = true ->
  lines p (ts ++ written eol ls) = ls
  /\ (forall last, last <> EmptyString -> plain last = true ->
      lines p (ts ++ written eol ls ++ last) = if p then ls else (ls ++ [last])%list).
Proof.
  intros Hne Heol. revert ts.
  induction ls as [|l ls IH]; intros ts Hts Hall; simpl in *.
  - rewrite app_nil_r. split.
    + rewrite lines_unfold. now rewrite scan_breaks.
    + intros last Hl Hp. rewrite lines_unfold.
      rewrite (scan_trailing p ts last Hts (plain_segment _ Hl Hp)).
      destruct p; [reflexivity|]. rewrite lines_unfold. reflexivity.
  - apply andb_prop in Hall as [Hl Hall]. apply andb_prop in Hl as [Hl Hp].
    assert (Hseg : segment l).
    { apply plain_segment; [|exact Hp]. intros ->. discriminate. }
    destruct eol as [|t e]; [congruence|].
    assert (Ht : isLineTerminator t = true).
    { unfold terminators in Heol. simpl in Heol.
      destruct (isLineTerminator t); [reflexivity | discriminate]. }
    destruct (IH (String t e) Heol Hall) as [IH1 IH2].
    split.
    + rewrite lines_unfold.
      change (ts ++ l ++ String t e ++ written (String t e) ls)
        with (ts ++ l ++ String t (e ++ written (String t e) ls)).
      rewrite (scan_terminated p ts l t _ Hts Hseg Ht). f_equal. exact IH1.
    + intros last Hlast Hplast. rewrite lines_unfold.
      rewrite !app_assoc.
      change (ts ++ l ++ String t e ++ written (String t e) ls ++ last)
        with (ts ++ l ++ String t (e ++ written (String t e) ls ++ last)).
      rewrite (scan_terminated p ts l t _ Hts Hseg Ht).
      change (String t (e ++ written (String t e) ls ++ last))
        with (String t e ++ written (String t e) ls ++ last).
      rewrite (IH2 last Hlast Hplast). now destruct p.
Qed.

(** The lines that repeated calls of [next] yield, until one yields
    none, in at most [fuel] calls. *)
Fixpoint drain (fuel : nat) (it : DataIterator.t) : list string :=
  match fuel with
  | O => []
  | S fuel' =>
      match line (next it) with
      | Some l => l :: drain fuel' (next it)
      | None => []
      end
  end.

Lemma drain_lines (fuel : nat) :
  forall it : DataIterator.t,
    String.length (remaining it) <= fuel ->
    drain fuel it = lines (partialData it) (remaining it).
Proof.
  induction fuel as [|fuel IH]; intros it Hlen.
  - rewrite (length_0 (remaining it)) by lia. reflexivity.
  - simpl. destruct (next_stream it) as (_ & Hp & H).
    rewrite (lines_unfold (partialData it) (remaining it)).
    destruct (scan (partialData it) (remaining it)) as [[l rest']|] eqn:E.
    + destruct H as (Hl & _ & Hr). rewrite Hl. f_equal.
      rewrite IH, Hp, Hr; [reflexivity|]. rewrite Hr.
      apply scan_shorter in E as [Hlt _]. lia.
    + destruct H as (Hl & _ & _). now rewrite Hl.
Qed.

Lemma drain_new (text : string) (p : bool) :
  drain (String.length text) (new text p) = lines p text.
Proof. now rewrite drain_lines. Qed.

(** X3.  Reading back what was written line by line: the cursor yields the
    lines of a text in which each line is followed by an end of line, in
    either mode; a last line with no end of line after it is yielded on
    complete data only. *)
Theorem cursor_reads_back_the_lines :
  forall (eol : string) (ls : list string) (last : string),
    eol <> EmptyString -> breaks eol = true -> allLines ls = true ->
    last <> EmptyString -> plain last = true ->
    let text := written eol ls in
    (forall p, drain (String.length text) (new text p) = ls)
    /\ drain (String.length (text ++ last)) (new (text ++ last) false) = (ls ++ [last])%list
    /\ drain (String.length (text ++ last)) (new (text ++ last) true) = ls.
Proof.
  intros eol ls last Hne Heol Hall Hlast Hplast. cbv zeta.
  apply breaks_terminators in Heol. rewrite !drain_new.
  split; [|split].
  - intros p. rewrite drain_new.
    apply (lines_written p eol EmptyString ls Hne Heol eq_refl Hall).
  - apply (proj2 (lines_written false eol EmptyString ls Hne Heol eq_refl Hall) last Hlast Hplast).
  - apply (proj2 (lines_written true eol EmptyString ls Hne Heol eq_refl Hall) last Hlast Hplast).
Qed.

Lemma cursor_reads_back_the_lines_witness :
  let text := written (String "013" Samples.LF) ["RPL 3D 0"; "S 0 A 0 0"] in
  (forall p, drain (String.length text) (new text p) = ["RPL 3D 0"; "S 0 A 0 0"])
  /\ drain (String.length (text ++ "l 1")) (new (text ++ "l 1") false)
     = (["RPL 3D 0"; "S 0 A 0 0"] ++ ["l 1"])%list
  /\ drain (String.length (text ++ "l 1")) (new (text ++ "l 1") true)
     = ["RPL 3D 0"; "S 0 A 0 0"].
Proof.
  apply (cursor_reads_back_the_lines (String "013" Samples.LF)
           ["RPL 3D 0"; "S 0 A 0 0"] "l 1"); try reflexivity; discriminate.
Defined.

(** X4.  An incremental update adds the new lines to the lines the cursor
    yields: the lines it yielded on the old data, then the lines of the
    text that was left unterminated followed by the chunk.  The line the
    cursor is at stays, and the flag returned is whether there is none. *)
Theorem incremental_update_adds_the_new_lines :
  forall (it : DataIterator.t) (chunk : string) (partial : bool),
    partialData it = true ->
    let it' := fst (update it chunk partial true) in
    line it' = line it
    /\ snd (update it chunk partial true) = negb (hasLine it)
    /\ drain (String.length (data it')) it'
       = (drain (String.length (data it)) it
          ++ lines partial (rest true (remaining it) ++ chunk))%list.
Proof.
  intros it chunk partial Hp. cbv zeta.
  destruct (pending_update it chunk partial Hp) as (_ & _ & Hl & Hp' & Hr).
  split; [exact Hl|]. split; [exact Hr|].
  rewrite !drain_lines; [|apply remaining_length|apply remaining_length].
  rewrite Hp', Hp. unfold update, remaining. simpl.
  apply lines_app.
Qed.

Lemma incremental_update_adds_the_new_lines_witness :
  let it := next (new ("ab" ++ Samples.LF ++ "cd") true) in
  let it' := fst (update it ("ef" ++ Samples.LF ++ "g") false true) in
  line it' = Some "ab"
  /\ drain (String.length (data it')) it' = ["cdef"; "g"].
Proof.
  cbv zeta.
  destruct (incremental_update_adds_the_new_lines
              (next (new ("ab" ++ Samples.LF ++ "cd") true))
              ("ef" ++ Samples.LF ++ "g") false eq_refl) as (Hl & _ & Hd).
  split; [exact Hl | exact Hd].
Defined.

(** The position of a cursor is within its data. *)
Definition wellPlaced (it : DataIterator.t) : Prop :=
  lastIndex it <= String.length (data it).

Lemma drop_app_le (n : nat) (a b : string) :
  n <= String.length a -> JS.drop n (a ++ b) = JS.drop n a ++ b.
Proof.
  revert a. induction n as [|n IH]; intros a Hle; [reflexivity|].
  destruct a as [|c a]; simpl in *; [lia|]. apply IH. lia.
Qed.

Lemma drain_same (fuel : nat) :
  forall a b : DataIterator.t,
    partialData a = partialData b -> remaining a = remaining b ->
    drain fuel a = drain fuel b.
Proof.
  induction fuel as [|fuel IH]; intros a b Hp Hr; [reflexivity|]. simpl.
  destruct (next_stream a) as (_ & Hpa & Ha), (next_stream b) as (_ & Hpb & Hb).
  rewrite <- Hp, <- Hr in Hb.
  assert (Hp' : partialData (next a) = partialData (next b)) by congruence.
  destruct (scan (partialData a) (remaining a)) as [[l rest']|].
  - destruct Ha as (Hla & _ & Hra), Hb as (Hlb & _ & Hrb).
    rewrite Hla, Hlb. f_equal. apply IH; congruence.
  - destruct Ha as (Hla & _), Hb as (Hlb & _). now rewrite Hla, Hlb.
Qed.

(** X5.  The two ways to bring more data.  A cursor that receives the whole
    text so far (a plain update) and a cursor that receives the new part
    only (an incremental update) are at the same line and yield the same
    lines from there on.  The position of a cursor stays within its data
    under [next] and under both updates. *)
Theorem whole_and_incremental_updates_agree :
  forall (it : DataIterator.t) (chunk : string) (partial : bool),
    wellPlaced it ->
    let a := fst (update it chunk partial true) in
    let b := fst (update it (data it ++ chunk) partial false) in
    line a = line b
    /\ snd (update it chunk partial true) = snd (update it (data it ++ chunk) partial false)
    /\ (forall fuel, drain fuel a = drain fuel b)
    /\ wellPlaced a /\ wellPlaced b /\ wellPlaced (next it).
Proof.
  intros it chunk partial Hw. cbv zeta. unfold wellPlaced in *.
  split; [reflexivity|]. split; [reflexivity|]. split; [|split; [|split]].
  - intros fuel. apply drain_same; [reflexivity|].
    unfold update, remaining. simpl. symmetry. now apply drop_app_le.
  - simpl. lia.
  - simpl. rewrite length_app. lia.
  - pose proof (next_scan it) as H.
    destruct (scan (partialData it) (remaining it)) as [[l rest']|].
    + destruct H as [-> _]. simpl. lia.
    + rewrite H. simpl. exact Hw.
Qed.

Lemma whole_and_incremental_updates_agree_witness :
  let it := next (new ("ab" ++ Samples.LF ++ "cd") true) in
  let a := fst (update it ("ef" ++ Samples.LF) true true) in
  let b := fst (update it (data it ++ "ef" ++ Samples.LF) true false) in
  drain 9 a = ["cdef"] /\ drain 9 b = ["cdef"].
Proof.
  cbv zeta.
  destruct (whole_and_incremental_updates_agree
              (next (new ("ab" ++ Samples.LF ++ "cd") true)) ("ef" ++ Samples.LF) true)
    as (_ & _ & Hd & _).
  - unfold wellPlaced. vm_compute. lia.
  - split; [reflexivity|]. rewrite <- Hd. reflexivity.
Defined.

End CursorProperties.

(* ===================================================================== *)
(** ** The decoders, from the first call to the last pass *)
(* ===================================================================== *)

Module DecoderProperties.
Import DataIterator StringFacts DataIteratorFacts StreamFacts DecoderFacts.
Import Decoding SessionFacts HandlerFacts FirstCall ClockFacts.

Lemma fullyLoaded_core (log : SimulationLog.t) :
  SimulationLog.fullyLoaded (core log) = SimulationLog.fullyLoaded log.
Proof. reflexivity. Qed.

Lemma sim_fullyLoaded (a b : Body.State) :
  sim a b -> SimulationLog.fullyLoaded (fst a) = SimulationLog.fullyLoaded (fst b).
Proof. intros [H _]. rewrite <- (fullyLoaded_core (fst a)), H. apply fullyLoaded_core. Qed.

Lemma finish_fullyLoaded (st : Body.State) :
  SimulationLog.fullyLoaded (fst (Body.finish st)) = true.
Proof.
  destruct st as [log storage]. unfold Body.finish.
  destruct (LogParserStorage.partialState storage) as [ps|].
  - destruct (PartialWorldState.appendTo ps (SimulationLog.states log)) as [[ps' states'] ok].
    simpl. rewrite <- fullyLoaded_core, core_finalize. reflexivity.
  - simpl. rewrite <- fullyLoaded_core, core_finalize. reflexivity.
Qed.

Lemma Finished_loaded d st0 all (p : Body.Parser) :
  Finished d st0 all p ->
  Body.queued p = 0
  /\ exists log, Body.p_log p = Some log /\ SimulationLog.fullyLoaded log = true.
Proof.
  intros (it & st & -> & Hsim). split; [reflexivity|].
  exists (fst st). split; [reflexivity|].
  rewrite (sim_fullyLoaded _ _ Hsim). apply finish_fullyLoaded.
Qed.

(** What a decoder comes to once the data is complete and every
    continuation has run. *)
Definition loaded (p : Body.Parser) : Prop :=
  Body.queued p = 0
  /\ exists log, Body.p_log p = Some log /\ SimulationLog.fullyLoaded log = true.

Lemma ulg_session (host : Host.t) (util : SServerUtil.t)
    (chunks : list (string * nat)) (last : string) :
  Body.p_storage
    (fst (ULGParser.parse host util Body.newParser (fst (firstCall chunks last))
            (snd (firstCall chunks last)) true)) <> None ->
  exists st0 all,
    Finished (ULGParser.decodeLine host util) st0 all (feedULG host util chunks last).
Proof.
  unfold feedULG. destruct chunks as [|[chunk k] chunks]; simpl; intros Hfirst.
  - pose proof (ulg_parse_first host util last false true) as H. cbv zeta in H.
    destruct (ulgHeader _) as [l|]; [|now destruct H].
    rewrite H. eexists. eexists.
    apply (whole_Finished _ (ulg_maxStates host util) (ulg_kind host util)
             (ulg_sim host util) _ _ (ChunkClaims.ulgInitial_maxStates util l)).
    + now rewrite !ChunkClaims.partialData_next.
    + reflexivity.
  - pose proof (ulg_parse_first host util chunk true true) as H. cbv zeta in H.
    destruct (ulgHeader _) as [l|]; [|now destruct H].
    rewrite H. eexists. eexists.
    apply (session_Finished _ (ulg_maxStates host util) (ulg_kind host util)
             (ulg_sim host util) _ _ (ChunkClaims.ulgInitial_maxStates util l)
             (ULGParser.parse host util) "Empty SServer log file!").
    + reflexivity.
    + now rewrite !ChunkClaims.partialData_next.
    + reflexivity.
Qed.

Lemma replay_session (host : Host.t) (util : SServerUtil.t)
    (chunks : list (string * nat)) (last : string) :
  Body.p_storage
    (fst (ReplayParser.parse host util Body.newParser (fst (firstCall chunks last))
            (snd (firstCall chunks last)) true)) <> None ->
  exists st0 all,
    Finished (ReplayParser.decodeLine host util) st0 all (feedReplay host util chunks last).
Proof.
  unfold feedReplay. destruct chunks as [|[chunk k] chunks]; simpl; intros Hfirst.
  - pose proof (replay_parse_first host util last false true) as H. cbv zeta in H.
    destruct (replayHeader _ _) as [[itk replay]|] eqn:Eh; [|contradiction].
    rewrite H. eexists. eexists.
    apply (whole_Finished _ (replay_maxStates host util) (replay_kind host util)
             (replay_sim host util) _ _ (ChunkClaims.replayInitial_maxStates replay)).
    + rewrite ChunkClaims.partialData_next, (TimeClaims.replayHeader_partialData _ _ _ _ Eh).
      now rewrite ChunkClaims.partialData_next.
    + reflexivity.
  - pose proof (replay_parse_first host util chunk true true) as H. cbv zeta in H.
    destruct (replayHeader _ _) as [[itk replay]|] eqn:Eh; [|contradiction].
    rewrite H. eexists. eexists.
    apply (session_Finished _ (replay_maxStates host util) (replay_kind host util)
             (replay_sim host util) _ _ (ChunkClaims.replayInitial_maxStates replay)
             (ReplayParser.parse host util) "Empty replay file!").
    + reflexivity.
    + rewrite ChunkClaims.partialData_next, (TimeClaims.replayHeader_partialData _ _ _ _ Eh).
      now rewrite ChunkClaims.partialData_next.
    + reflexivity.
Qed.

(** X6.  A text whose header the first call reads is loaded to the end: however
    it is cut into chunks and however many continuations the host runs
    between the calls, once the last call has completed the data and the
    continuations have run, none waits and the log is marked as fully
    loaded. *)
Theorem decoding_ends_with_a_loaded_log :
  forall (host : Host.t) (util : SServerUtil.t) (chunks : list (string * nat))
         (last : string),
    let first := firstCall chunks last in
    (Body.p_storage
       (fst (ULGParser.parse host util Body.newParser (fst first) (snd first) true))
     <> None ->
     loaded (feedULG host util chunks last))
    /\ (Body.p_storage
          (fst (ReplayParser.parse host util Body.newParser (fst first) (snd first) true))
        <> None ->
        loaded (feedReplay host util chunks last)).
Proof.
  intros host util chunks last. cbv zeta. split; intros H.
  - destruct (ulg_session host util chunks last H) as (st0 & all & HF).
    exact (Finished_loaded _ _ _ _ HF).
  - destruct (replay_session host util chunks last H) as (st0 & all & HF).
    exact (Finished_loaded _ _ _ _ HF).
Qed.

Lemma decoding_ends_with_a_loaded_log_witness :
  loaded (feedULG Samples.host Samples.util
            (fst (Samples.cut 30 Samples.twoShowsULG))
            (snd (Samples.cut 30 Samples.twoShowsULG)))
  /\ loaded (feedReplay Samples.host Samples.util [] Samples.scoreReplay).
Proof.
  split.
  - apply (proj1 (decoding_ends_with_a_loaded_log Samples.host Samples.util
                    (fst (Samples.cut 30 Samples.twoShowsULG))
                    (snd (Samples.cut 30 Samples.twoShowsULG)))).
    vm_compute. discriminate.
  - apply (proj2 (decoding_ends_with_a_loaded_log Samples.host Samples.util
                    [] Samples.scoreReplay)).
    vm_compute. discriminate.
Defined.

(** *** Committed states stay *)

(** [ws'] is [ws] with at most one state more at its end. *)
Definition extends1 (ws ws' : list WorldState.t) : Prop :=
  ws' = ws \/ exists w, ws' = ws ++ [w].

Definition prefix (ws ws' : list WorldState.t) : Prop :=
  exists more, ws' = ws ++ more.

Lemma prefix_refl ws : prefix ws ws.
Proof. exists []. now rewrite List.app_nil_r. Qed.

Lemma prefix_trans a b c : prefix a b -> prefix b c -> prefix a c.
Proof. intros [x ->] [y ->]. exists (x ++ y). now rewrite List.app_assoc. Qed.

Lemma extends1_prefix ws ws' : extends1 ws ws' -> prefix ws ws'.
Proof. intros [-> | [w ->]]; [apply prefix_refl | now exists [w]]. Qed.

Lemma appendTo_extends1 (ps : PartialWorldState.t) (ws : list WorldState.t) :
  extends1 ws (snd (fst (PartialWorldState.appendTo ps ws))).
Proof.
  unfold PartialWorldState.appendTo. destruct (0 <? _); simpl; [right; eauto | now left].
Qed.

Lemma tick_extends1 (st st' : Body.State) :
  tick st st' -> extends1 (SimulationLog.states (fst st)) (SimulationLog.states (fst st')).
Proof.
  unfold tick, clock, appended.
  intros [H | [(ps & _ & H) | [_ H]]]; injection H as -> _.
  - now left.
  - apply appendTo_extends1.
  - now left.
Qed.

Lemma finish_extends1 (st : Body.State) :
  extends1 (SimulationLog.states (fst st)) (SimulationLog.states (fst (Body.finish st))).
Proof.
  destruct st as [log storage]. unfold Body.finish.
  destruct (LogParserStorage.partialState storage) as [ps|].
  - pose proof (appendTo_extends1 ps (SimulationLog.states log)) as H.
    destruct (PartialWorldState.appendTo ps (SimulationLog.states log)) as [[ps' states'] ok].
    simpl in *. rewrite TimelineFacts.finalize_states. now destruct log.
  - simpl. rewrite TimelineFacts.finalize_states. now left.
Qed.

Section Passes.
Variable d : SimulationLog.t -> string -> Body.State -> Body.State * bool.
Hypothesis d_kept : forall log0 l st, kept st (fst (d log0 l st)).
Hypothesis d_tick : forall log0 l st, tick st (fst (d log0 l st)).

Lemma decodeAll_prefix (log0 : SimulationLog.t) (ls : list string) (st : Body.State) :
  prefix (SimulationLog.states (fst st)) (SimulationLog.states (fst (decodeAll d log0 ls st))).
Proof.
  unfold decodeAll. revert st.
  induction ls as [|l ls IH]; intros st; simpl; [apply prefix_refl|].
  eapply prefix_trans; [|apply IH]. apply extends1_prefix, tick_extends1, d_tick.
Qed.

Lemma pass_prefix (it : DataIterator.t) (st : Body.State) :
  prefix (SimulationLog.states (fst st))
         (SimulationLog.states (fst (Body.state (Body.pass d it st)))).
Proof.
  destruct (pass_pending d (fun log0 l st => proj2 (d_kept log0 l st)) it st)
    as (consumed & it' & cnt' & _ & _ & _ & _ & _ & -> & _).
  cbv zeta.
  assert (H : prefix (SimulationLog.states (fst st))
                (SimulationLog.states
                   (fst (refreshed (decodeAll d (fst st) consumed st) cnt')))).
  { rewrite (sim_states _ _ (sim_refreshed _ _)). apply decodeAll_prefix. }
  destruct (hasLine it'); [exact H|].
  destruct (negb (partialData it)); [|exact H]. simpl.
  eapply prefix_trans; [exact H | apply extends1_prefix, finish_extends1].
Qed.

End Passes.

(** X7.  The committed states stay.  A line adds at most one state at the end
    of the list and leaves the states before it as they are; so does the
    end of a pass on complete data; whatever a body pass does, the states
    it found are the first states of the list it leaves. *)
Theorem committed_states_are_never_rewritten :
  forall (host : Host.t) (util : SServerUtil.t),
    (forall log0 line st,
        extends1 (SimulationLog.states (fst st))
          (SimulationLog.states (fst (fst (ULGParser.decodeLine host util log0 line st)))))
    /\ (forall log0 line st,
          extends1 (SimulationLog.states (fst st))
            (SimulationLog.states
               (fst (fst (ReplayParser.decodeLine host util log0 line st)))))
    /\ (forall st,
          extends1 (SimulationLog.states (fst st))
                   (SimulationLog.states (fst (Body.finish st))))
    /\ (forall it st,
          prefix (SimulationLog.states (fst st))
            (SimulationLog.states
               (fst (Body.state (ULGParser.parseULGBody host util it st)))))
    /\ (forall it st,
          prefix (SimulationLog.states (fst st))
            (SimulationLog.states
               (fst (Body.state (ReplayParser.parseReplayBody host util it st))))).
Proof.
  intros host util. repeat split.
  - intros. apply tick_extends1, ulg_decodeLine_tick.
  - intros. apply tick_extends1, replay_decodeLine_tick.
  - apply finish_extends1.
  - intros. apply pass_prefix; [apply ulg_decodeLine_kept | apply ulg_decodeLine_tick].
  - intros. apply pass_prefix; [apply replay_decodeLine_kept | apply replay_decodeLine_tick].
Qed.

(** *** A first call without a line *)

Lemma scan_plain (s : string) : CursorProperties.plain s = true -> scan true s = None.
Proof.
  intros Hp. destruct s as [|c s]; [reflexivity|].
  unfold scan.
  assert (Hseg : segment (String c s)).
  { apply CursorProperties.plain_segment; [discriminate | exact Hp]. }
  pose proof (skip_segment _ EmptyString Hseg) as Hs.
  rewrite StringFacts.app_nil_r in Hs. rewrite Hs.
  now rewrite (token_whole _ (proj2 Hseg)).
Qed.

Lemma no_line (data : string) (partial : bool) :
  (partial = true /\ CursorProperties.plain data = true)
  \/ CursorProperties.breaks data = true ->
  line (next (new data partial)) = None.
Proof.
  intros H. pose proof (next_scan (new data partial)) as Hn.
  assert (Hs : scan partial data = None).
  { destruct H as [[-> Hp] | Hb]; [now apply scan_plain|].
    apply CursorProperties.scan_breaks. now apply CursorProperties.breaks_terminators. }
  change (remaining (new data partial)) with data in Hn.
  change (partialData (new data partial)) with partial in Hn.
  rewrite Hs in Hn. now rewrite Hn.
Qed.

(** X8.  The first call of [parse] needs a line.  On partial data that holds no
    line terminator yet, and on data that holds nothing but line
    terminators, it raises the error of a missing header and leaves the
    decoder without a log and without a storage, so that the next call
    starts anew. *)
Theorem first_call_without_a_line_fails :
  forall (host : Host.t) (util : SServerUtil.t) (data : string)
         (partial incremental : bool),
    (partial = true /\ CursorProperties.plain data = true)
    \/ CursorProperties.breaks data = true ->
    let u := ULGParser.parse host util Body.newParser data partial incremental in
    let r := ReplayParser.parse host util Body.newParser data partial incremental in
    snd u = Body.ParserError "Failed parsing ULG log file - no ULG header found!"
    /\ Body.p_log (fst u) = None /\ Body.p_storage (fst u) = None
    /\ snd r = Body.ParserError "Replay corrupt!"
    /\ Body.p_log (fst r) = None /\ Body.p_storage (fst r) = None.
Proof.
  intros host util data partial incremental H. cbv zeta.
  pose proof (no_line data partial H) as Hl.
  unfold ULGParser.parse, ReplayParser.parse, ReplayParser.truthyLine.
  cbn [Body.p_iterator Body.newParser]. rewrite Hl. repeat split.
Qed.

Lemma first_call_without_a_line_fails_witness :
  snd (ULGParser.parse Samples.host Samples.util Body.newParser "ULG" true false)
  = Body.ParserError "Failed parsing ULG log file - no ULG header found!"
  /\ snd (ReplayParser.parse Samples.host Samples.util Body.newParser Samples.LF false false)
     = Body.ParserError "Replay corrupt!".
Proof.
  split.
  - apply (first_call_without_a_line_fails Samples.host Samples.util "ULG" true false).
    left. split; reflexivity.
  - apply (first_call_without_a_line_fails Samples.host Samples.util Samples.LF false false).
    right. reflexivity.
Defined.

End DecoderProperties.

(* ===================================================================== *)
(** ** The calls of the loader *)
(* ===================================================================== *)

Module LoadingProperties.
Import DataIterator StringFacts DataIteratorFacts StreamFacts DecoderFacts.
Import Decoding SessionFacts HandlerFacts FirstCall ChunkClaims CursorProperties.

Lemma wellPlaced_next (it : DataIterator.t) : wellPlaced it -> wellPlaced (next it).
Proof.
  unfold wellPlaced. intros Hw. pose proof (next_scan it) as H.
  destruct (scan (partialData it) (remaining it)) as [[l rest']|].
  - destruct H as [-> _]. simpl. lia.
  - rewrite H. simpl. exact Hw.
Qed.

Lemma data_next (it : DataIterator.t) : data (next it) = data it.
Proof. now destruct (next_stream it) as (H & _). Qed.

(** A plain update with the whole text so far does to the lines what the
    incremental update with the new part does. *)
Lemma pending_update_whole (it : DataIterator.t) (chunk : string) (partial : bool) :
  partialData it = true -> wellPlaced it ->
  let it' := fst (update it (data it ++ chunk)%string partial false) in
  pending it' = pending it ++ lines partial (leftover it ++ chunk)%string
  /\ leftover it' = rest partial (leftover it ++ chunk)%string
  /\ line it' = line it
  /\ partialData it' = partial
  /\ snd (update it (data it ++ chunk)%string partial false) = negb (hasLine it)
  /\ data it' = (data it ++ chunk)%string
  /\ wellPlaced it'.
Proof.
  intros Hp Hw. unfold update, pending, leftover, remaining, hasLine, wellPlaced. simpl.
  unfold wellPlaced in Hw. rewrite (drop_app_le _ _ _ Hw), Hp. fold (remaining it).
  rewrite (lines_app partial (remaining it) chunk), (rest_app partial (remaining it) chunk).
  repeat split.
  - destruct (line it) as [[|c l]|]; reflexivity.
  - rewrite length_app. lia.
Qed.

Section Passes.
Variable d : SimulationLog.t -> string -> Body.State -> Body.State * bool.

Lemma loop_placed (log0 : SimulationLog.t) (fuel : nat) :
  forall (it : DataIterator.t) (st : Body.State) (cnt n : nat),
    let it' := fst (fst (fst (Body.loop d log0 fuel it st cnt n))) in
    data it' = data it /\ partialData it' = partialData it
    /\ (wellPlaced it -> wellPlaced it').
Proof.
  induction fuel as [|fuel IH]; intros it st cnt n; cbv zeta; [now repeat split|].
  simpl. destruct (line it) as [[|c l]|]; try now repeat split.
  destruct (cnt <? _); [|now repeat split].
  destruct (d log0 (String c l) st) as [st1 counted].
  destruct (IH (next it) st1 (if counted then S cnt else cnt) (S n)) as (Hd & Hp & Hw).
  rewrite Hd, Hp, data_next, partialData_next.
  split; [reflexivity|]. split; [reflexivity|].
  intros H. apply Hw. now apply wellPlaced_next.
Qed.

(** On partial data a pass leaves the data of the cursor alone and its
    position within it. *)
Lemma pass_placed (it : DataIterator.t) (st : Body.State) :
  partialData it = true -> wellPlaced it ->
  data (Body.iterator (Body.pass d it st)) = data it
  /\ wellPlaced (Body.iterator (Body.pass d it st)).
Proof.
  intros Hp Hw. unfold Body.pass.
  set (it1 := if hasLine it then it else next it).
  assert (H1 : data it1 = data it /\ partialData it1 = true /\ wellPlaced it1).
  { subst it1. destruct (hasLine it); [now repeat split|].
    rewrite data_next, partialData_next.
    repeat split; [exact Hp | now apply wellPlaced_next]. }
  destruct H1 as (Hd1 & Hp1 & Hw1).
  pose proof (loop_placed (fst st) (2 + String.length (data it1)) it1 st 0 0) as H.
  cbv zeta in H.
  destruct (Body.loop d (fst st) (2 + String.length (data it1)) it1 st 0 0)
    as [[[it2 st2] cnt] n].
  simpl in H. destruct H as (Hd & Hp2 & Hw2).
  unfold Body.epilogue. rewrite Hp2, Hp1. simpl.
  destruct (hasLine it2); simpl; (split; [congruence | now apply Hw2]).
Qed.

End Passes.

Lemma app_nonempty (received chunk : string) :
  received <> EmptyString -> exists c s, (received ++ chunk)%string = String c s.
Proof. destruct received as [|c r]; [congruence|]. intros _. now exists c, (r ++ chunk)%string. Qed.

(** A call of [parse] with partial data does not fail once the header is
    read, and the only failure of a later call is the one for a log
    without states. *)
Lemma progress_error (d : SimulationLog.t -> string -> Body.State -> Body.State * bool)
    (it : DataIterator.t) (log : SimulationLog.t) (storage : LogParserStorage.t)
    (waiting : nat) (data : string) (partial incremental : bool) (message : string) :
  (exists b, snd (Body.progress d it log storage waiting data partial incremental message)
             = Body.Returned b)
  \/ snd (Body.progress d it log storage waiting data partial incremental message)
     = Body.ParserError message.
Proof.
  unfold Body.progress, Body.conclude.
  destruct (update it data partial incremental) as [it1 restart].
  destruct (negb partial && _); [now right | left; eexists; reflexivity].
Qed.

Lemma progress_returns (d : SimulationLog.t -> string -> Body.State -> Body.State * bool)
    (it : DataIterator.t) (log : SimulationLog.t) (storage : LogParserStorage.t)
    (waiting : nat) (data : string) (incremental : bool) (message : string) :
  exists b, snd (Body.progress d it log storage waiting data true incremental message)
            = Body.Returned b.
Proof.
  unfold Body.progress, Body.conclude.
  destruct (update it data true incremental) as [it1 restart].
  simpl. eexists; reflexivity.
Qed.

(** *** The session of a loader *)

Section Session.
Variable d : SimulationLog.t -> string -> Body.State -> Body.State * bool.
Hypothesis d_maxStates : forall log0 l st,
  LogParserStorage.maxStates (snd (fst (d log0 l st))) = LogParserStorage.maxStates (snd st).
Hypothesis d_kind : forall log0 l st, kind (fst (fst (d log0 l st))) = kind (fst st).
Hypothesis d_sim : forall log0 log0' l a b,
  kind log0 = kind log0' -> sim a b -> sim (fst (d log0 l a)) (fst (d log0' l b)).
Variable st0 : Body.State.
Variable all : list string.
Hypothesis maxStates_pos : 0 < LogParserStorage.maxStates (snd st0).

(** The decoder holds a cursor on the text [received], at a position
    within it. *)
Definition placed (p : Body.Parser) (received : string) : Prop :=
  exists it, Body.p_iterator p = Some it /\ data it = received /\ wellPlaced it.

Lemma runPass_placed (it : DataIterator.t) (st : Body.State) :
  partialData it = true -> wellPlaced it -> placed (Body.runPass d it st 0) (data it).
Proof.
  intros Hp Hw. destruct (pass_placed d it st Hp Hw) as [Hd Hw'].
  eexists. split; [reflexivity|]. now split.
Qed.

Lemma turn_placed (p : Body.Parser) (more received : string) :
  Running d st0 all p more true -> placed p received ->
  placed (Body.runContinuation d p) received.
Proof.
  intros (it & st & Hhold & _ & Hp & _) (it' & Hit & Hd & Hw).
  rewrite Hhold in Hit. simpl in Hit. injection Hit as <-.
  destruct (hasLine it) eqn:Eline.
  - assert (Hstep : Body.runContinuation d p = Body.runPass d it st 0).
    { rewrite Hhold. unfold Body.runContinuation. simpl. rewrite Eline. now destruct st. }
    rewrite Hstep, <- Hd. now apply runPass_placed.
  - assert (Hstep : Body.runContinuation d p = p).
    { rewrite Hhold. unfold Body.runContinuation. simpl. now rewrite Eline. }
    rewrite Hstep. exists it. rewrite Hhold. now repeat split.
Qed.

Lemma turns_placed (k : nat) (p : Body.Parser) (more received : string) :
  Running d st0 all p more true -> placed p received ->
  Running d st0 all (Body.runContinuations d k p) more true
  /\ placed (Body.runContinuations d k p) received.
Proof.
  revert p. induction k as [|k IH]; intros p HR HP; simpl; [now split|].
  destruct (Body.queued p); [now split|].
  apply IH.
  - destruct (turn_step d d_maxStates d_kind d_sim st0 all maxStates_pos p more true HR)
      as [[H _] | [Hf _]]; [exact H | discriminate].
  - now apply (turn_placed p more).
Qed.

Lemma progress_whole (p : Body.Parser) (chunk more received : string) (partial : bool)
    (message : string) :
  Running d st0 all p (chunk ++ more)%string true -> placed p received ->
  (partial = true \/ more = EmptyString) ->
  exists it log storage,
    p = Body.mkParser (Some it) (Some log) (Some storage) (Body.queued p)
    /\ (let p' := fst (Body.progress d it log storage (Body.queued p)
                         (received ++ chunk)%string partial false message) in
        (Running d st0 all p' more partial
         /\ (partial = true -> placed p' (received ++ chunk)%string))
        \/ (partial = false /\ Finished d st0 all p')).
Proof.
  intros (it & st & Hhold & Hrun & Hpart & _) (it' & Hit & Hd & Hw) Hmode.
  rewrite Hhold in Hit. simpl in Hit. injection Hit as <-. subst received.
  exists it, (fst st), (snd st). split; [rewrite Hhold at 1; now rewrite Hhold|].
  destruct (pending_update_whole it chunk partial Hpart Hw)
    as (Hpend & Hleft & Hline & Hp1 & Hrestart & Hd1 & Hw1).
  unfold Body.progress.
  destruct (update it (data it ++ chunk)%string partial false) as [it1 restart].
  simpl in *.
  assert (Hrun1 : running d st0 all it1 st more).
  { destruct Hrun as (decoded & Hsim & Hall & _).
    exists decoded. split; [exact Hsim|]. split; [|now rewrite Hp1].
    rewrite <- Hall, Hpend, Hleft, <- StringFacts.app_assoc, <- List.app_assoc.
    do 2 f_equal.
    destruct partial.
    - symmetry. apply lines_app.
    - destruct Hmode as [Hm | ->]; [discriminate|].
      now rewrite StringFacts.app_nil_r, lines_rest, StringFacts.app_nil_r, List.app_nil_r. }
  assert (Hhas : hasLine it1 = hasLine it) by (unfold hasLine; now rewrite Hline).
  subst restart. unfold Body.conclude.
  destruct (hasLine it) eqn:Eline; simpl.
  - assert (HR : Running d st0 all
                   (Body.mkParser (Some it1) (Some (fst st)) (Some (snd st)) (Body.queued p))
                   more partial).
    { exists it1, st. split; [|split; [exact Hrun1 | split; [exact Hp1 | now right]]].
      unfold holding. rewrite Hhas, Hhold. simpl. now rewrite Eline. }
    assert (HP : placed (Body.mkParser (Some it1) (Some (fst st)) (Some (snd st))
                                       (Body.queued p)) (data it ++ chunk)%string).
    { exists it1. now repeat split. }
    destruct (negb partial && _); left; (split; [exact HR | intros _; exact HP]).
  - assert (Hq : Body.queued p = 0) by (rewrite Hhold; simpl; now rewrite Eline).
    rewrite Hq. replace (fst st, snd st) with st by now destruct st.
    destruct (runPass_step d d_maxStates d_kind d_sim st0 all maxStates_pos it1 st more Hrun1)
      as [[HR _] | [Hp HF]].
    + rewrite Hp1 in HR.
      assert (HP : partial = true -> placed (Body.runPass d it1 st 0) (data it ++ chunk)%string).
      { intros ->. rewrite <- Hd1. now apply runPass_placed. }
      destruct (negb partial && _); left; (split; [exact HR | exact HP]).
    + destruct (negb partial && _); right; (split; [congruence | exact HF]).
Qed.

Variable parse : Body.Parser -> string -> bool -> bool -> Body.Parser * Body.ParseResult.
Variable message : string.
Hypothesis parse_progress : forall it log storage waiting data partial incremental,
  parse (Body.mkParser (Some it) (Some log) (Some storage) waiting) data partial incremental
  = Body.progress d it log storage waiting data partial incremental message.

(** A progress event of the loader. *)
Lemma call_partial (l : Loading.t) (chunk more received : string) :
  Loading.parser l = true -> Loading.error l = None ->
  Running d st0 all (Loading.decoder l) (chunk ++ more)%string true ->
  placed (Loading.decoder l) received -> received <> EmptyString ->
  let l' := Loading.parse parse l (received ++ chunk)%string true false in
  Loading.parser l' = true /\ Loading.error l' = None
  /\ Running d st0 all (Loading.decoder l') more true
  /\ placed (Loading.decoder l') (received ++ chunk)%string.
Proof.
  intros Hp He HR HP Hne.
  destruct (progress_whole _ chunk more received true message HR HP (or_introl eq_refl))
    as (it & log & storage & Hdec & Hstep).
  cbv zeta in *. unfold Loading.parse. rewrite Hp.
  destruct (app_nonempty received chunk Hne) as (c & s & Happ). rewrite Happ in *.
  rewrite Hdec, parse_progress.
  destruct (progress_returns d it log storage (Body.queued (Loading.decoder l))
              (String c s) false message) as [b Hb].
  destruct (Body.progress d it log storage _ (String c s) true false message) as [p' r].
  simpl in Hb, Hstep. subst r. simpl.
  destruct Hstep as [[H1 H2] | [Hf _]]; [|discriminate].
  split; [reflexivity|]. split; [exact He|]. split; [exact H1 | now apply H2].
Qed.

(** The load event of the loader. *)
Lemma call_last (l : Loading.t) (last received : string) :
  Loading.parser l = true -> Loading.error l = None ->
  Running d st0 all (Loading.decoder l) last true ->
  placed (Loading.decoder l) received -> received <> EmptyString ->
  let l' := Loading.settle d (Loading.parse parse l (received ++ last)%string false false) in
  Loading.parser l' = false
  /\ (Loading.error l' = None \/ Loading.error l' = Some ("ParserError: " ++ message)%string)
  /\ (Loading.error l' = None -> Finished d st0 all (Loading.decoder l')).
Proof.
  intros Hp He HR HP Hne.
  rewrite <- (StringFacts.app_nil_r last) in HR.
  destruct (progress_whole _ last EmptyString received false message HR HP (or_intror eq_refl))
    as (it & log & storage & Hdec & Hstep).
  cbv zeta in *. unfold Loading.parse. rewrite Hp.
  destruct (app_nonempty received last Hne) as (c & s & Happ). rewrite Happ in *.
  rewrite Hdec, parse_progress.
  destruct (progress_error d it log storage (Body.queued (Loading.decoder l))
              (String c s) false false message) as [[b Hb] | Hb];
    destruct (Body.progress d it log storage _ (String c s) false false message)
      as [[pi pl ps pq] r];
    simpl in Hb, Hstep; subst r; simpl.
  - split; [reflexivity|]. split; [now left|]. intros _.
    apply (settle_final d d_maxStates d_kind d_sim st0 all maxStates_pos).
    destruct Hstep as [[H _] | [_ HF]]; [now left | now right].
  - split; [reflexivity|]. split; [now right | discriminate].
Qed.

Lemma xhr_Finished (chunks : list (string * nat)) (last : string) :
  forall (received : string) (l : Loading.t),
    Loading.parser l = true -> Loading.error l = None ->
    Running d st0 all (Loading.decoder l) (text chunks last) true ->
    placed (Loading.decoder l) received -> received <> EmptyString ->
    let l' := Loading.xhr parse d received chunks last l in
    Loading.parser l' = false
    /\ (Loading.error l' = None
        \/ Loading.error l' = Some ("ParserError: " ++ message)%string)
    /\ (Loading.error l' = None -> Finished d st0 all (Loading.decoder l')).
Proof.
  induction chunks as [|[chunk k] chunks IH]; intros received l Hp He HR HP Hne.
  - now apply call_last.
  - simpl in HR |- *.
    destruct (call_partial l chunk (text chunks last) received Hp He HR HP Hne)
      as (Hp1 & He1 & HR1 & HP1).
    destruct (turns_placed k _ _ _ HR1 HP1) as [HR2 HP2].
    apply IH; try assumption.
    now destruct received.
Qed.

(** The events of a request whose first progress event gets the decoder
    past the header. *)
Lemma xhr_first (it0 : DataIterator.t) (chunk : string) (k : nat)
    (chunks : list (string * nat)) (last : string) (b : bool) :
  partialData it0 = true -> wellPlaced it0 -> data it0 = chunk -> chunk <> EmptyString ->
  all = pending it0 ++ lines false (leftover it0 ++ text chunks last)%string ->
  parse Body.newParser chunk true false = (Body.runPass d it0 st0 0, Body.Returned b) ->
  let l' := Loading.xhr parse d EmptyString ((chunk, k) :: chunks) last Loading.created in
  Loading.parser l' = false
  /\ (Loading.error l' = None
      \/ Loading.error l' = Some ("ParserError: " ++ message)%string)
  /\ (Loading.error l' = None -> Finished d st0 all (Loading.decoder l')).
Proof.
  intros Hp Hw Hd Hne Hall Hfirst. simpl.
  assert (Hrun : running d st0 all it0 st0 (text chunks last)).
  { exists []. split; [apply sim_refl|]. split; [now rewrite Hall | now left]. }
  destruct (runPass_step d d_maxStates d_kind d_sim st0 all maxStates_pos it0 st0 _ Hrun)
    as [[HR _] | [Hf _]]; [|congruence].
  rewrite Hp in HR.
  pose proof (runPass_placed it0 st0 Hp Hw) as HP. rewrite Hd in HP.
  destruct (turns_placed k _ _ _ HR HP) as [H1 H2].
  apply xhr_Finished; try assumption.
  - unfold Loading.parse. destruct chunk; [congruence|]. simpl. now rewrite Hfirst.
  - unfold Loading.parse. destruct chunk; [congruence|]. simpl. now rewrite Hfirst.
  - unfold Loading.parse. destruct chunk; [congruence|]. simpl. now rewrite Hfirst.
  - unfold Loading.parse. destruct chunk; [congruence|]. simpl. now rewrite Hfirst.
Qed.

(** The load event alone, the text being at hand at once. *)
Lemma xhr_whole (text : string) :
  text <> EmptyString ->
  ((exists b, snd (parse Body.newParser text false false) = Body.Returned b)
   \/ snd (parse Body.newParser text false false) = Body.ParserError message) ->
  let l' := Loading.xhr parse d EmptyString [] text Loading.created in
  Loading.parser l' = false
  /\ (Loading.error l' = None
      \/ Loading.error l' = Some ("ParserError: " ++ message)%string)
  /\ (Loading.error l' = None ->
      Loading.decoder l' = settle d (fst (parse Body.newParser text false false))).
Proof.
  intros Hne Hres. simpl. unfold Loading.parse. destruct text as [|c s]; [congruence|].
  simpl.
  destruct (parse Body.newParser (String c s) false false) as [[pi pl ps pq] r].
  simpl in Hres. destruct Hres as [[b ->] | ->]; simpl.
  - split; [reflexivity|]. split; [now left | reflexivity].
  - split; [reflexivity|]. split; [now right | discriminate].
Qed.

End Session.

(** *** The two decoders *)

Lemma ulg_first_result (host : Host.t) (util : SServerUtil.t) (data : string)
    (partial incremental : bool) :
  let r := ULGParser.parse host util Body.newParser data partial incremental in
  Body.p_storage (fst r) <> None ->
  (exists b, snd r = Body.Returned b)
  \/ (partial = false /\ snd r = Body.ParserError "Empty SServer log file!").
Proof.
  cbv zeta. unfold ULGParser.parse. cbn [Body.p_iterator Body.newParser].
  destruct (line (next (new data partial))) as [[|c l]|]; try (simpl; congruence).
  destruct (negb _ && _ && _); [simpl; congruence|].
  intros _. unfold Body.conclude. destruct partial; simpl.
  - left. eexists; reflexivity.
  - destruct (_ =? 0); [now right | left; eexists; reflexivity].
Qed.

Lemma replay_start_result (host : Host.t) (util : SServerUtil.t) (it : DataIterator.t)
    (replay : SimulationLog.t) (partial : bool) :
  let r := ReplayParser.start host util Body.newParser it replay partial in
  (exists b, snd r = Body.Returned b)
  \/ (partial = false /\ snd r = Body.ParserError "Empty replay file!").
Proof.
  cbv zeta. unfold ReplayParser.start, Body.conclude. destruct partial; simpl.
  - left. eexists; reflexivity.
  - destruct (_ =? 0); [now right | left; eexists; reflexivity].
Qed.

Lemma replay_first_result (host : Host.t) (util : SServerUtil.t) (data : string)
    (partial incremental : bool) :
  let r := ReplayParser.parse host util Body.newParser data partial incremental in
  Body.p_storage (fst r) <> None ->
  (exists b, snd r = Body.Returned b)
  \/ (partial = false /\ snd r = Body.ParserError "Empty replay file!").
Proof.
  cbv zeta. unfold ReplayParser.parse. cbn [Body.p_iterator Body.newParser].
  destruct (ReplayParser.truthyLine (next (new data partial))) as [line|];
    [|simpl; congruence].
  destruct (String.eqb (JS.charAt line 0) "R" && _ && _).
  { destruct (_ <? 3); [simpl; congruence | intros _; apply replay_start_result]. }
  destruct (String.eqb (JS.charAt line 0) "T").
  { destruct (_ <? 3); [simpl; congruence | intros _; apply replay_start_result]. }
  destruct (String.eqb (JS.charAt line 0) "V"); [|simpl; congruence].
  destruct (_ <? 4); [simpl; congruence|].
  unfold ReplayParser.parseOld3DHeader.
  destruct (ReplayParser.truthyLine (next (next (new data partial)))) as [teams|];
    [|simpl; congruence].
  destruct ((_ <? 5) || _); [simpl; congruence|].
  destruct (ReplayParser.truthyLine (next (next (next (new data partial))))) as [world|];
    [|simpl; congruence].
  destruct ((_ <? 2) || _); [simpl; congruence | intros _; apply replay_start_result].
Qed.

Lemma ulg_first_nonempty (host : Host.t) (util : SServerUtil.t) (data : string)
    (partial incremental : bool) :
  Body.p_storage (fst (ULGParser.parse host util Body.newParser data partial incremental))
  <> None ->
  data <> EmptyString.
Proof. intros H ->. apply H. now destruct partial. Qed.

Lemma replay_first_nonempty (host : Host.t) (util : SServerUtil.t) (data : string)
    (partial incremental : bool) :
  Body.p_storage (fst (ReplayParser.parse host util Body.newParser data partial incremental))
  <> None ->
  data <> EmptyString.
Proof. intros H ->. apply H. now destruct partial. Qed.

Lemma wellPlaced_new (data : string) (partial : bool) : wellPlaced (new data partial).
Proof. unfold wellPlaced. simpl. lia. Qed.

Lemma replayHeader_placed (util : SServerUtil.t) (it itk : DataIterator.t)
    (replay : SimulationLog.t) :
  replayHeader util it = Some (itk, replay) ->
  data itk = data it /\ (wellPlaced it -> wellPlaced itk).
Proof.
  unfold replayHeader, replayOld3DHeader. intros Eh.
  repeat match type of Eh with
         | context [match ?x with _ => _ end] => destruct x; try discriminate
         end;
    injection Eh as <- _; rewrite ?data_next; (split; [reflexivity|]);
    intros Hw; repeat apply wellPlaced_next; exact Hw.
Qed.

Lemma ulg_load (host : Host.t) (util : SServerUtil.t) (chunks : list (string * nat))
    (last : string) :
  let first := firstCall chunks last in
  Body.p_storage
    (fst (ULGParser.parse host util Body.newParser (fst first) (snd first) false)) <> None ->
  let l := Loading.loadULG host util chunks last in
  Loading.parser l = false
  /\ (Loading.error l = None
      \/ Loading.error l = Some "ParserError: Empty SServer log file!"%string)
  /\ (Loading.error l = None ->
      states (Loading.decoder l) = states (decodeULG host util (text chunks last))).
Proof.
  cbv zeta. unfold Loading.loadULG, decodeULG.
  set (d := ULGParser.decodeLine host util).
  destruct chunks as [|[chunk k] chunks]; simpl firstCall; simpl text; cbn [fst snd];
    intros Hfirst.
  - pose proof (ulg_first_nonempty _ _ _ _ _ Hfirst) as Hne.
    destruct (xhr_whole d (ULGParser.parse host util) "Empty SServer log file!" last Hne)
      as (H1 & H2 & H3).
    { destruct (ulg_first_result host util last false false Hfirst) as [H | [_ H]];
        [now left | now right]. }
    split; [exact H1|]. split; [exact H2|]. intros He. now rewrite (H3 He).
  - set (more := text chunks last).
    pose proof (ulg_first_nonempty _ _ _ _ _ Hfirst) as Hne.
    pose proof (ulg_parse_first host util chunk true false) as H1.
    pose proof (ulg_parse_first host util (chunk ++ more) false false) as H2.
    destruct (ulg_first_result host util chunk true false Hfirst) as [[b Hb] | [Hf _]];
      [|discriminate].
    cbv zeta in H1, H2.
    destruct (ulgHeader (next (new chunk true))) as [l|] eqn:Eh; [|now destruct H1].
    assert (Hext : extends (next (new chunk true)) (next (new (chunk ++ more) false)) more).
    { apply extends_next; [apply extends_new|]. now apply ulgHeader_hasLine in Eh. }
    rewrite (ulgHeader_extends _ _ _ _ Hext Eh) in H2.
    rewrite H2. fold d in H1 |- *.
    set (it0 := next (next (new chunk true))) in *.
    set (it0' := next (next (new (chunk ++ more) false))).
    set (all := pending it0 ++ lines false (leftover it0 ++ more)%string).
    destruct (xhr_first d (ulg_maxStates host util) (ulg_kind host util) (ulg_sim host util)
                (ulgInitial util l) all (ulgInitial_maxStates util l)
                (ULGParser.parse host util) "Empty SServer log file!" (fun _ _ _ _ _ _ _ => eq_refl)
                it0 chunk k chunks last b) as (R1 & R2 & R3).
    { unfold it0. now rewrite !partialData_next. }
    { unfold it0. do 2 apply wellPlaced_next. apply wellPlaced_new. }
    { unfold it0. now rewrite !data_next. }
    { exact Hne. }
    { reflexivity. }
    { rewrite <- H1, <- Hb. now destruct (ULGParser.parse host util Body.newParser chunk true false). }
    split; [exact R1|]. split; [exact R2|]. intros He.
    assert (HF2 : Finished d (ulgInitial util l) all
                    (settle d (Body.runPass d it0' (ulgInitial util l) 0))).
    { apply (whole_Finished d (ulg_maxStates host util) (ulg_kind host util)
               (ulg_sim host util) (ulgInitial util l) all (ulgInitial_maxStates util l)).
      - unfold it0'. now rewrite !partialData_next.
      - unfold all, it0, it0'. rewrite (extends_pending _ _ _ Hext).
        now rewrite partialData_next. }
    rewrite (Finished_states d _ _ _ (R3 He)), (Finished_states d _ _ _ HF2). reflexivity.
Qed.

Lemma replay_load (host : Host.t) (util : SServerUtil.t) (chunks : list (string * nat))
    (last : string) :
  let first := firstCall chunks last in
  Body.p_storage
    (fst (ReplayParser.parse host util Body.newParser (fst first) (snd first) false))
  <> None ->
  let l := Loading.loadReplay host util chunks last in
  Loading.parser l = false
  /\ (Loading.error l = None
      \/ Loading.error l = Some "ParserError: Empty replay file!"%string)
  /\ (Loading.error l = None ->
      states (Loading.decoder l) = states (decodeReplay host util (text chunks last))).
Proof.
  cbv zeta. unfold Loading.loadReplay, decodeReplay.
  set (d := ReplayParser.decodeLine host util).
  destruct chunks as [|[chunk k] chunks]; simpl firstCall; simpl text; cbn [fst snd];
    intros Hfirst.
  - pose proof (replay_first_nonempty _ _ _ _ _ Hfirst) as Hne.
    destruct (xhr_whole d (ReplayParser.parse host util) "Empty replay file!" last Hne)
      as (H1 & H2 & H3).
    { destruct (replay_first_result host util last false false Hfirst) as [H | [_ H]];
        [now left | now right]. }
    split; [exact H1|]. split; [exact H2|]. intros He. now rewrite (H3 He).
  - set (more := text chunks last).
    pose proof (replay_first_nonempty _ _ _ _ _ Hfirst) as Hne.
    pose proof (replay_parse_first host util chunk true false) as H1.
    pose proof (replay_parse_first host util (chunk ++ more) false false) as H2.
    destruct (replay_first_result host util chunk true false Hfirst) as [[b Hb] | [Hf _]];
      [|discriminate].
    cbv zeta in H1, H2.
    destruct (replayHeader util (next (new chunk true))) as [[itk replay]|] eqn:Eh;
      [|contradiction].
    assert (Hline : hasLine (next (new chunk true)) = true).
    { unfold replayHeader in Eh.
      destruct (ReplayParser.truthyLine (next (new chunk true))) eqn:E; [|discriminate].
      now apply truthyLine_hasLine in E. }
    assert (Hext : extends (next (new chunk true)) (next (new (chunk ++ more) false)) more).
    { apply extends_next; [apply extends_new | exact Hline]. }
    destruct (replayHeader_extends util _ _ _ _ _ Hext Eh) as (itk' & Eh' & Hextk).
    rewrite Eh' in H2. rewrite H2. fold d in H1 |- *.
    set (it0 := next itk) in *.
    set (it0' := next itk').
    set (all := pending it0 ++ lines false (leftover it0 ++ more)%string).
    assert (Hpk : partialData itk = true) by apply Hextk.
    assert (Hpk' : partialData itk' = false).
    { clear - Eh'. unfold replayHeader, replayOld3DHeader in Eh'.
      repeat match type of Eh' with
             | context [match ?x with _ => _ end] => destruct x; try discriminate
             end;
        injection Eh' as <- _; now rewrite ?partialData_next. }
    destruct (replayHeader_placed util _ _ _ Eh) as [Hdk Hwk].
    destruct (xhr_first d (replay_maxStates host util) (replay_kind host util)
                (replay_sim host util) (replayInitial replay) all
                (replayInitial_maxStates replay)
                (ReplayParser.parse host util) "Empty replay file!"
                (fun _ _ _ _ _ _ _ => eq_refl)
                it0 chunk k chunks last b) as (R1 & R2 & R3).
    { unfold it0. now rewrite partialData_next. }
    { unfold it0. apply wellPlaced_next, Hwk, wellPlaced_next, wellPlaced_new. }
    { unfold it0. now rewrite data_next, Hdk, data_next. }
    { exact Hne. }
    { reflexivity. }
    { rewrite <- H1, <- Hb.
      now destruct (ReplayParser.parse host util Body.newParser chunk true false). }
    split; [exact R1|]. split; [exact R2|]. intros He.
    assert (HF2 : Finished d (replayInitial replay) all
                    (settle d (Body.runPass d it0' (replayInitial replay) 0))).
    { apply (whole_Finished d (replay_maxStates host util) (replay_kind host util)
               (replay_sim host util) (replayInitial replay) all
               (replayInitial_maxStates replay)).
      - unfold it0'. now rewrite partialData_next.
      - unfold all, it0, it0'. rewrite (extends_pending _ _ _ Hextk). now rewrite Hpk'. }
    rewrite (Finished_states d _ _ _ (R3 He)), (Finished_states d _ _ _ HF2). reflexivity.
Qed.

(** X9.  The loader calls [parse] with the whole text received so far at each
    progress event, and with the whole text at the load event.  When the
    first call gets the decoder past the header, the loader ends without
    its decoder, the only error it can report is the one for a log without
    states, and if it reports none the log has the states that the whole
    text gives in one call on a fresh decoder, however the text is cut and
    however many continuations the host runs between the events. *)
Theorem loader_gives_the_states_of_the_whole_text :
  forall (host : Host.t) (util : SServerUtil.t) (chunks : list (string * nat))
         (last : string),
    let first := firstCall chunks last in
    (Body.p_storage
       (fst (ULGParser.parse host util Body.newParser (fst first) (snd first) false))
     <> None ->
     let l := Loading.loadULG host util chunks last in
     Loading.parser l = false
     /\ (Loading.error l = None
         \/ Loading.error l = Some "ParserError: Empty SServer log file!"%string)
     /\ (Loading.error l = None ->
         states (Loading.decoder l) = states (decodeULG host util (text chunks last))))
    /\ (Body.p_storage
          (fst (ReplayParser.parse host util Body.newParser (fst first) (snd first) false))
        <> None ->
        let l := Loading.loadReplay host util chunks last in
        Loading.parser l = false
        /\ (Loading.error l = None
            \/ Loading.error l = Some "ParserError: Empty replay file!"%string)
        /\ (Loading.error l = None ->
            states (Loading.decoder l)
            = states (decodeReplay host util (text chunks last)))).
Proof.
  intros host util chunks last first. split.
  - apply ulg_load.
  - apply replay_load.
Qed.

(** The statement for the sample ULG log cut inside its first show line,
    and for the sample replay cut inside its second line. *)
Lemma loader_gives_the_states_of_the_whole_text_witness :
  states (Loading.decoder
            (Loading.loadULG Samples.host Samples.util
               (fst (Samples.cut 30 Samples.twoShowsULG))
               (snd (Samples.cut 30 Samples.twoShowsULG))))
  = states (decodeULG Samples.host Samples.util
              (text (fst (Samples.cut 30 Samples.twoShowsULG))
                    (snd (Samples.cut 30 Samples.twoShowsULG))))
  /\ states (Loading.decoder
               (Loading.loadReplay Samples.host Samples.util
                  (fst (Samples.cut 12 Samples.scoreReplay))
                  (snd (Samples.cut 12 Samples.scoreReplay))))
     = states (decodeReplay Samples.host Samples.util
                 (text (fst (Samples.cut 12 Samples.scoreReplay))
                       (snd (Samples.cut 12 Samples.scoreReplay)))).
Proof.
  split.
  - refine (proj2 (proj2 (proj1 (loader_gives_the_states_of_the_whole_text
                                   Samples.host Samples.util
                                   (fst (Samples.cut 30 Samples.twoShowsULG))
                                   (snd (Samples.cut 30 Samples.twoShowsULG))) _)) _).
    + vm_compute. discriminate.
    + vm_compute. reflexivity.
  - refine (proj2 (proj2 (proj2 (loader_gives_the_states_of_the_whole_text
                                   Samples.host Samples.util
                                   (fst (Samples.cut 12 Samples.scoreReplay))
                                   (snd (Samples.cut 12 Samples.scoreReplay))) _)) _).
    + vm_compute. discriminate.
    + vm_compute. reflexivity.
Defined.

End LoadingProperties.

(* ===================================================================== *)
(** ** The agents of a team *)
(* ===================================================================== *)

Module TeamProperties.
Import AgentDescription TeamDescription.

(** The agent that [addAgent] and [getRecentTypeIdx] find for a number:
    the last one of the array that has it. *)
Fixpoint agentFor (l : list AgentDescription.t) (number : JS.number)
  : option AgentDescription.t :=
  match l with
  | [] => None
  | a :: rest =>
      match agentFor rest number with
      | Some b => Some b
      | None => if JS.eqb (playerNo a) number then Some a else None
      end
  end.

(** The player types of all the agents, counted. *)
Definition typesCount (l : list AgentDescription.t) : nat :=
  list_sum (map (fun a => List.length (playerTypes a)) l).

(** No two agents have the same number. *)
Fixpoint distinct (l : list AgentDescription.t) : bool :=
  match l with
  | [] => true
  | a :: rest =>
      forallb (fun b => negb (JS.eqb (playerNo a) (playerNo b))) rest && distinct rest
  end.

Lemma same_refl (ty : option ParameterMap.t) : ParameterMap.same ty ty = true.
Proof. destruct ty as [m|]; simpl; [apply Nat.eqb_refl | reflexivity]. Qed.

Lemma indexOf_found (ty : option ParameterMap.t) (l : list (option ParameterMap.t)) :
  forall pos idx,
    indexOf ty l pos = Some idx ->
    pos <= idx
    /\ exists ty', nth_error l (idx - pos) = Some ty' /\ ParameterMap.same ty' ty = true.
Proof.
  induction l as [|x l IH]; intros pos idx H; simpl in H; [discriminate|].
  destruct (ParameterMap.same x ty) eqn:E.
  - injection H as <-. split; [lia|]. rewrite Nat.sub_diag. now exists x.
  - destruct (IH _ _ H) as (Hle & ty' & Hn & Hs). split; [lia|].
    exists ty'. split; [|exact Hs].
    replace (idx - pos) with (S (idx - S pos)) by lia. exact Hn.
Qed.

(** [addPlayerType]: the number and the side stay, the types it had stay
    where they are, and the recent index names the type given. *)
Lemma addPlayerType_spec (a : AgentDescription.t) (ty : option ParameterMap.t) :
  let a' := fst (addPlayerType a ty) in
  let changed := snd (addPlayerType a ty) in
  playerNo a' = playerNo a /\ AgentDescription.side a' = AgentDescription.side a
  /\ playerTypes a' = playerTypes a ++ (if changed then [ty] else [])
  /\ exists ty', nth_error (playerTypes a') (recentTypeIdx a') = Some ty'
                 /\ ParameterMap.same ty' ty = true.
Proof.
  cbv zeta. unfold addPlayerType.
  destruct (indexOf ty (playerTypes a) 0) as [idx|] eqn:E; simpl.
  - split; [reflexivity|]. split; [reflexivity|]. split; [now rewrite app_nil_r|].
    destruct (indexOf_found _ _ _ _ E) as (_ & ty' & Hn & Hs).
    rewrite Nat.sub_0_r in Hn. now exists ty'.
  - split; [reflexivity|]. split; [reflexivity|]. split; [reflexivity|].
    exists ty. split; [|apply same_refl].
    rewrite length_app. simpl.
    replace (List.length (playerTypes a) + 1 - 1) with (List.length (playerTypes a) + 0)
      by lia.
    now rewrite nth_error_app2, Nat.add_0_r, Nat.sub_diag by lia.
Qed.

Lemma recent_agentFor (l : list AgentDescription.t) (n : JS.number) :
  recent_scan l n = option_map recentTypeIdx (agentFor l n).
Proof.
  induction l as [|a l IH]; simpl; [reflexivity|].
  rewrite IH. destruct (agentFor l n); simpl; [reflexivity|].
  now destruct (JS.eqb (playerNo a) n).
Qed.

Lemma scan_agentFor (l : list AgentDescription.t) (n : JS.number)
    (ty : option ParameterMap.t) :
  match addAgent_scan l n ty with
  | None => agentFor l n = None
  | Some (l', changed) =>
      exists front a back,
        l = front ++ a :: back
        /\ l' = front ++ fst (addPlayerType a ty) :: back
        /\ changed = snd (addPlayerType a ty)
        /\ JS.eqb (playerNo a) n = true
        /\ agentFor back n = None
        /\ agentFor l' n = Some (fst (addPlayerType a ty))
  end.
Proof.
  induction l as [|a l IH]; simpl; [reflexivity|].
  destruct (addAgent_scan l n ty) as [[l' changed]|].
  - destruct IH as (front & b & back & -> & -> & Hc & Hb & Hnone & Hfor).
    exists (a :: front), b, back. simpl. rewrite Hfor. now repeat split.
  - rewrite IH. destruct (JS.eqb (playerNo a) n) eqn:E; [|reflexivity].
    destruct (addPlayerType a ty) as [a' changed] eqn:Ea.
    exists [], a, l. rewrite Ea. simpl. rewrite IH.
    pose proof (addPlayerType_spec a ty) as H. rewrite Ea in H. simpl in H.
    destruct H as (-> & _). rewrite E. now repeat split.
Qed.

Lemma eqb_sym (a b : JS.number) : JS.eqb a b = JS.eqb b a.
Proof.
  destruct a as [x|], b as [y|]; simpl; try reflexivity.
  destruct (Qeq_bool x y) eqn:E1, (Qeq_bool y x) eqn:E2; try reflexivity.
  - apply Qeq_bool_iff in E1. symmetry in E1. apply Qeq_bool_iff in E1. congruence.
  - apply Qeq_bool_iff in E2. symmetry in E2. apply Qeq_bool_iff in E2. congruence.
Qed.

Lemma agentFor_none (l : list AgentDescription.t) (n : JS.number) :
  agentFor l n = None ->
  forallb (fun b => negb (JS.eqb (playerNo b) n)) l = true.
Proof.
  induction l as [|a l IH]; simpl; [reflexivity|].
  destruct (agentFor l n); [discriminate|].
  destruct (JS.eqb (playerNo a) n); [discriminate|]. intros _. now rewrite IH.
Qed.

Lemma distinct_numbers (l l' : list AgentDescription.t) :
  map playerNo l' = map playerNo l -> distinct l' = distinct l.
Proof.
  revert l'. induction l as [|a l IH]; intros [|a' l'] H; try discriminate; [reflexivity|].
  simpl in H. injection H as Ha Hl. simpl. rewrite (IH _ Hl), Ha. f_equal.
  clear IH. revert l' Hl. induction l as [|b l IH]; intros [|b' l'] Hl; try discriminate;
    [reflexivity|].
  simpl in Hl. injection Hl as Hb Hl. simpl. now rewrite Hb, (IH _ Hl).
Qed.

Lemma distinct_app (l : list AgentDescription.t) (a : AgentDescription.t) :
  distinct (l ++ [a])
  = distinct l && forallb (fun b => negb (JS.eqb (playerNo b) (playerNo a))) l.
Proof.
  induction l as [|b l IH]; simpl; [reflexivity|].
  rewrite IH, forallb_app. simpl.
  destruct (forallb _ l), (JS.eqb (playerNo b) (playerNo a)), (distinct l), (forallb _ l);
    reflexivity.
Qed.

(** X11.  After [addAgent] for a number, the index that [getRecentTypeIdx] gives
    for the number names the player type added, in the list of the agent
    that has the number.  The number is one that equals itself: [NaN]
    does not, [addAgent] makes a new agent at each call with it and
    [getRecentTypeIdx] finds none. *)
Theorem recent_type_index_names_the_added_type :
  forall (team : TeamDescription.t) (number : JS.number) (playerType : option ParameterMap.t),
    JS.eqb number number = true ->
    let team' := fst (addAgent team number playerType) in
    exists a ty',
      agentFor (agents team') number = Some a
      /\ nth_error (playerTypes a) (getRecentTypeIdx team' number) = Some ty'
      /\ ParameterMap.same ty' playerType = true.
Proof.
  intros team n ty Hn. cbv zeta. unfold addAgent, getRecentTypeIdx.
  pose proof (scan_agentFor (agents team) n ty) as H.
  destruct (addAgent_scan (agents team) n ty) as [[l' changed]|]; simpl.
  - destruct H as (front & a & back & _ & _ & _ & _ & _ & Hfor).
    destruct (addPlayerType_spec a ty) as (_ & _ & _ & ty' & Hnth & Hs).
    exists (fst (addPlayerType a ty)), ty'.
    rewrite recent_agentFor, Hfor. now repeat split.
  - assert (Hfor : agentFor (agents team ++ [AgentDescription.new n (side team) ty]) n
                   = Some (AgentDescription.new n (side team) ty)).
    { clear H. induction (agents team) as [|a l IH]; simpl; [now rewrite Hn|].
      now rewrite IH. }
    exists (AgentDescription.new n (side team) ty), ty.
    rewrite recent_agentFor, Hfor. simpl. split; [reflexivity|].
    split; [reflexivity | apply same_refl].
Qed.

Lemma recent_type_index_names_the_added_type_witness :
  let team := fst (addAgent (TeamDescription.new "Left Team" GameUtil.LEFT) (JS.ofZ 7)
                            (Some (ParameterMap.mk 3 ParameterMap.empty))) in
  let team' := fst (addAgent team (JS.ofZ 7) (Some (ParameterMap.mk 5 ParameterMap.empty))) in
  exists a ty',
    agentFor (agents team') (JS.ofZ 7) = Some a
    /\ nth_error (playerTypes a) (getRecentTypeIdx team' (JS.ofZ 7)) = Some ty'
    /\ ParameterMap.same ty' (Some (ParameterMap.mk 5 ParameterMap.empty)) = true.
Proof.
  exact (recent_type_index_names_the_added_type
           (fst (addAgent (TeamDescription.new "Left Team" GameUtil.LEFT) (JS.ofZ 7)
                          (Some (ParameterMap.mk 3 ParameterMap.empty))))
           (JS.ofZ 7) (Some (ParameterMap.mk 5 ParameterMap.empty)) eq_refl).
Defined.

(** X12.  [addAgent] never takes anything away: the name and the side of the
    team stay, every agent keeps its place, its number and its side, and
    the player types it had at the indices they had, so an index handed
    out before still names the same type.  The result tells whether a
    player type was added: the count of player types grows by one when it
    is true and stays when it is false. *)
Theorem addAgent_keeps_agents_and_types :
  forall (team : TeamDescription.t) (number : JS.number) (playerType : option ParameterMap.t),
    let team' := fst (addAgent team number playerType) in
    let changed := snd (addAgent team number playerType) in
    TeamDescription.name team' = TeamDescription.name team
    /\ TeamDescription.side team' = TeamDescription.side team
    /\ (forall i a,
          nth_error (agents team) i = Some a ->
          exists a', nth_error (agents team') i = Some a'
                     /\ playerNo a' = playerNo a /\ AgentDescription.side a' = AgentDescription.side a
                     /\ exists more, playerTypes a' = playerTypes a ++ more)
    /\ List.length (agents team) <= List.length (agents team') <= S (List.length (agents team))
    /\ typesCount (agents team')
       = typesCount (agents team) + (if changed then 1 else 0).
Proof.
  intros team n ty. cbv zeta. unfold addAgent.
  pose proof (scan_agentFor (agents team) n ty) as H.
  destruct (addAgent_scan (agents team) n ty) as [[l' changed]|]; simpl.
  - destruct H as (front & a & back & Hl & -> & -> & _).
    destruct (addPlayerType_spec a ty) as (Hno & Hside & Htypes & _).
    rewrite Hl. split; [reflexivity|]. split; [reflexivity|]. split; [|split].
    + intros i b Hi.
      destruct (Nat.lt_total i (List.length front)) as [Hlt | [Heq | Hgt]].
      * rewrite nth_error_app1 in Hi |- * by assumption.
        exists b. repeat split; try assumption. exists []. now rewrite app_nil_r.
      * subst i. rewrite nth_error_app2, Nat.sub_diag in Hi |- * by lia.
        simpl in Hi |- *. injection Hi as <-.
        eexists. split; [reflexivity|]. split; [exact Hno|]. split; [exact Hside|].
        eexists. exact Htypes.
      * rewrite nth_error_app2 in Hi |- * by lia.
        destruct (i - List.length front) as [|j] eqn:Ej; [lia|]. simpl in Hi |- *.
        exists b. repeat split; try assumption. exists []. now rewrite app_nil_r.
    + rewrite !length_app. simpl. lia.
    + unfold typesCount. rewrite !map_app, !list_sum_app. simpl. rewrite Htypes, length_app.
      destruct (snd (addPlayerType a ty)); simpl; lia.
  - split; [reflexivity|]. split; [reflexivity|]. split; [|split].
    + intros i b Hi. exists b.
      rewrite nth_error_app1 by (apply nth_error_Some; congruence).
      repeat split; try assumption. exists []. now rewrite app_nil_r.
    + rewrite length_app. simpl. lia.
    + unfold typesCount. rewrite map_app, list_sum_app. simpl. lia.
Qed.

(** X13.  [addAgent] keeps the numbers of a team distinct: it makes a new agent
    only for a number that no agent has. *)
Theorem addAgent_keeps_numbers_distinct :
  forall (team : TeamDescription.t) (number : JS.number) (playerType : option ParameterMap.t),
    distinct (agents team) = true ->
    distinct (agents (fst (addAgent team number playerType))) = true.
Proof.
  intros team n ty Hd. unfold addAgent.
  pose proof (scan_agentFor (agents team) n ty) as H.
  destruct (addAgent_scan (agents team) n ty) as [[l' changed]|]; simpl.
  - destruct H as (front & a & back & Hl & -> & _).
    destruct (addPlayerType_spec a ty) as (Hno & _).
    rewrite <- Hd, Hl. apply distinct_numbers.
    rewrite !map_app. simpl. now rewrite Hno.
  - rewrite distinct_app, Hd. simpl. now apply agentFor_none.
Qed.

Lemma addAgent_keeps_numbers_distinct_witness :
  distinct (agents (fst (addAgent
                           (fst (addAgent (TeamDescription.new "Left Team" GameUtil.LEFT)
                                          (JS.ofZ 7) None))
                           (JS.ofZ 7) (Some (ParameterMap.mk 5 ParameterMap.empty)))))
  = true.
Proof.
  exact (addAgent_keeps_numbers_distinct
           (fst (addAgent (TeamDescription.new "Left Team" GameUtil.LEFT) (JS.ofZ 7) None))
           (JS.ofZ 7) (Some (ParameterMap.mk 5 ParameterMap.empty)) eq_refl).
Defined.

End TeamProperties.

(* ===================================================================== *)
(** ** The state for a time *)
(* ===================================================================== *)

Module LookupProperties.

Lemma index_integer (x : Q) (k : Z) :
  (x == inject_Z k)%Q -> (0 <= k)%Z -> JS.index (JS.Num x) = Some (Z.to_nat k).
Proof.
  intros Hx Hk. unfold JS.index.
  assert (Hf : Qfloor x = k) by (rewrite Hx; apply Qfloor_Z).
  rewrite Hf.
  assert (He : Qeq_bool x (inject_Z k) = true) by now apply Qeq_bool_iff.
  rewrite He. simpl. now rewrite (proj2 (Z.leb_le 0 k) Hk).
Qed.

Lemma index_negative (x : Q) (k : Z) :
  (x == inject_Z k)%Q -> (k < 0)%Z -> JS.index (JS.Num x) = None.
Proof.
  intros Hx Hk. unfold JS.index.
  assert (Hf : Qfloor x = k) by (rewrite Hx; apply Qfloor_Z).
  rewrite Hf, (proj2 (Z.leb_gt 0 k) Hk). now rewrite andb_false_r.
Qed.

Lemma Qle_bool_Z (a b : Z) : Qle_bool (inject_Z a) (inject_Z b) = (a <=? b)%Z.
Proof.
  destruct (a <=? b)%Z eqn:E.
  - apply Qle_bool_iff. rewrite <- Zle_Qle. now apply Z.leb_le.
  - destruct (Qle_bool (inject_Z a) (inject_Z b)) eqn:E'; [|reflexivity].
    apply Qle_bool_iff in E'. rewrite <- Zle_Qle in E'. apply Z.leb_gt in E. lia.
Qed.

Lemma sub_ofZ_one (n : Z) : (Qred (inject_Z n - inject_Z 1) == inject_Z (n - 1))%Q.
Proof.
  etransitivity; [apply Qred_correct|].
  unfold Qminus. rewrite <- inject_Z_opp, <- inject_Z_plus. reflexivity.
Qed.

(** X14.  [getStateForTime] gives no state exactly when the log has none or the
    time times the frequency is no number.  Otherwise the index is the
    floor of the time times the frequency, brought into the range of the
    states, and the state is the one there. *)
Theorem state_for_time_is_within_the_log :
  forall (l : SimulationLog.t) (time : JS.number),
    (SimulationLog.getStateForTime l time = None
     <-> (SimulationLog.states l = []
          \/ JS.mul time (SimulationLog.frequency l) = JS.NaN))
    /\ (forall q,
          SimulationLog.states l <> [] ->
          JS.mul time (SimulationLog.frequency l) = JS.Num q ->
          let last := (Z.of_nat (List.length (SimulationLog.states l)) - 1)%Z in
          let i := Z.to_nat (Z.max 0 (Z.min (Qfloor q) last)) in
          JS.index (SimulationLog.getIndexForTime l time) = Some i
          /\ i < List.length (SimulationLog.states l)
          /\ SimulationLog.getStateForTime l time = nth_error (SimulationLog.states l) i).
Proof.
  intros l time.
  assert (Hnum : forall q,
            JS.mul time (SimulationLog.frequency l) = JS.Num q ->
            let last := (Z.of_nat (List.length (SimulationLog.states l)) - 1)%Z in
            JS.index (SimulationLog.getIndexForTime l time)
            = if (last <? 0)%Z
              then (if (Qfloor q <? 0)%Z then Some 0 else None)
              else Some (Z.to_nat (Z.max 0 (Z.min (Qfloor q) last)))).
  { intros q Hq. cbv zeta. unfold SimulationLog.getIndexForTime. rewrite Hq.
    unfold JS.Math_floor, JS.ltb, JS.geb, JS.ofNat, JS.ofZ.
    rewrite !Qle_bool_Z.
    set (n := Z.of_nat (List.length (SimulationLog.states l))).
    destruct (0 <=? Qfloor q)%Z eqn:E0; simpl.
    - apply Z.leb_le in E0.
      destruct (n <=? Qfloor q)%Z eqn:E1.
      + apply Z.leb_le in E1. unfold JS.sub.
        destruct (n - 1 <? 0)%Z eqn:E2.
        * apply Z.ltb_lt in E2.
          rewrite (proj2 (Z.ltb_ge (Qfloor q) 0) E0).
          apply (index_negative _ (n - 1)); [|exact E2].
          apply sub_ofZ_one.
        * apply Z.ltb_ge in E2.
          rewrite (index_integer _ (n - 1)); [f_equal; lia | | exact E2].
          apply sub_ofZ_one.
      + apply Z.leb_gt in E1.
        destruct (n - 1 <? 0)%Z eqn:E2; [apply Z.ltb_lt in E2; lia|].
        rewrite (index_integer _ (Qfloor q)); [f_equal; lia | reflexivity | exact E0].
    - apply Z.leb_gt in E0.
      rewrite (proj2 (Z.ltb_lt (Qfloor q) 0) E0).
      destruct (n - 1 <? 0)%Z; [reflexivity | f_equal; lia]. }
  assert (Hlen : SimulationLog.states l <> [] ->
                 (Z.of_nat (List.length (SimulationLog.states l)) - 1 <? 0)%Z = false).
  { intros Hne. apply Z.ltb_ge. destruct (SimulationLog.states l); [congruence | cbn [List.length]; lia]. }
  split.
  - unfold SimulationLog.getStateForTime.
    destruct (JS.mul time (SimulationLog.frequency l)) as [q|] eqn:Hq.
    + rewrite (Hnum q eq_refl). cbv zeta.
      destruct (SimulationLog.states l) as [|w ws] eqn:Es.
      * simpl. split; [now left|]. intros _. now destruct (Qfloor q <? 0)%Z.
      * rewrite Hlen by congruence.
        split; [|intros [H | H]; discriminate].
        intros H. apply nth_error_None in H. cbn [List.length] in H. lia.
    + split; [now right|]. intros _.
      unfold SimulationLog.getIndexForTime. now rewrite Hq.
  - intros q Hne Hq. cbv zeta.
    unfold SimulationLog.getStateForTime. rewrite (Hnum q Hq). cbv zeta.
    rewrite (Hlen Hne). split; [reflexivity|]. split; [|reflexivity].
    destruct (SimulationLog.states l); [congruence | cbn [List.length]; lia].
Qed.

End LookupProperties.

(* ===================================================================== *)
(** ** File names *)
(* ===================================================================== *)

Module FileProperties.
Import StringFacts.
#[local] Open Scope string_scope.

(** The character [c] occurs in [s]. *)
Fixpoint contains (c : ascii) (s : string) : bool :=
  match s with
  | EmptyString => false
  | String d s' => Ascii.eqb d c || contains c s'
  end.

Lemma contains_app (c : ascii) (a b : string) :
  contains c (a ++ b) = contains c a || contains c b.
Proof. induction a as [|d a IH]; simpl; [reflexivity|]. now rewrite IH, orb_assoc. Qed.

Lemma contains_drop (c : ascii) (n : nat) (s : string) :
  contains c s = false -> contains c (JS.drop n s) = false.
Proof.
  intros H. rewrite <- (take_drop n s), contains_app in H.
  now apply orb_false_iff in H.
Qed.

Lemma length_take (n : nat) (s : string) :
  String.length (JS.take n s) = Nat.min n (String.length s).
Proof.
  revert s. induction n as [|n IH]; intros [|c s]; simpl; try reflexivity.
  now rewrite IH.
Qed.

Lemma length_drop (n : nat) (s : string) :
  String.length (JS.drop n s) = String.length s - n.
Proof.
  revert s. induction n as [|n IH]; intros [|c s]; simpl; try reflexivity; try lia.
  apply IH.
Qed.

Lemma drop_drop (n m : nat) (s : string) : JS.drop n (JS.drop m s) = JS.drop (m + n) s.
Proof.
  revert s. induction m as [|m IH]; intros s; simpl; [reflexivity|].
  destruct s as [|c s]; [now rewrite drop_nil | apply IH].
Qed.

Lemma take_all (n : nat) (s : string) : String.length s <= n -> JS.take n s = s.
Proof.
  revert s. induction n as [|n IH]; intros [|c s] H; simpl in *; try reflexivity; try lia.
  f_equal. apply IH. lia.
Qed.

Lemma take_nil (n : nat) : JS.take n EmptyString = EmptyString.
Proof. destruct n; reflexivity. Qed.

Lemma take_of_drop (a e : nat) (s : string) :
  JS.take (e - a) (JS.drop a s) = JS.drop a (JS.take e s).
Proof.
  revert e s. induction a as [|a IH]; intros e s.
  - now rewrite Nat.sub_0_r.
  - destruct s as [|c s].
    + rewrite !take_nil. reflexivity.
    + destruct e as [|e]; simpl; [reflexivity | apply IH].
Qed.

Lemma take_app_length (a b : string) : JS.take (String.length a) (a ++ b) = a.
Proof. induction a as [|c a IH]; simpl; [now destruct b | now rewrite IH]. Qed.

(** [slice] between two indices within the string. *)
Lemma slice_within (s : string) (a e : nat) :
  a <= e -> e <= String.length s ->
  JS.slice s (Z.of_nat a) (Z.of_nat e) = JS.drop a (JS.take e s).
Proof.
  intros Ha He. unfold JS.slice, JS.rel_index.
  rewrite (proj2 (Z.ltb_ge (Z.of_nat a) 0)), (proj2 (Z.ltb_ge (Z.of_nat e) 0)) by lia.
  rewrite !Nat2Z.id, !Nat.min_l by lia. apply take_of_drop.
Qed.

(** [slice(-k)]: the last [k] characters. *)
Lemma slice_last (s : string) (k : nat) :
  0 < k -> JS.slice_from s (- Z.of_nat k) = JS.drop (String.length s - k) s.
Proof.
  intros Hk. unfold JS.slice_from, JS.rel_index.
  rewrite (proj2 (Z.ltb_lt (- Z.of_nat k) 0)) by lia. f_equal. lia.
Qed.

Lemma indexOf_from_spec (c : ascii) (s : string) :
  forall pos,
    match JS.indexOf_from c s pos with
    | Some i => pos <= i /\ i - pos < String.length s
                /\ contains c (JS.take (i - pos) s) = false
    | None => contains c s = false
    end.
Proof.
  induction s as [|d s IH]; intros pos; simpl; [reflexivity|].
  destruct (Ascii.eqb d c) eqn:E; simpl.
  - rewrite Nat.sub_diag. simpl. repeat split; lia.
  - specialize (IH (S pos)). destruct (JS.indexOf_from c s (S pos)) as [i|]; [|exact IH].
    destruct IH as (H1 & H2 & H3). split; [lia|]. split; [lia|].
    replace (i - pos) with (S (i - S pos)) by lia. simpl. now rewrite E.
Qed.

Lemma lastIndexOf_from_spec (c : ascii) (s : string) :
  forall pos,
    match JS.lastIndexOf_from c s pos with
    | Some i => pos <= i /\ i - pos < String.length s
                /\ contains c (JS.drop (S (i - pos)) s) = false
    | None => contains c s = false
    end.
Proof.
  induction s as [|d s IH]; intros pos; simpl; [reflexivity|].
  specialize (IH (S pos)). destruct (JS.lastIndexOf_from c s (S pos)) as [i|].
  - destruct IH as (H1 & H2 & H3). split; [lia|]. split; [lia|].
    replace (i - pos) with (S (i - S pos)) by lia. exact H3.
  - destruct (Ascii.eqb d c) eqn:E; simpl.
    + rewrite Nat.sub_diag. simpl. repeat split; try lia. exact IH.
    + exact IH.
Qed.

Lemma indexOf_from_none (c : ascii) (s : string) (pos : nat) :
  contains c s = false -> JS.indexOf_from c s pos = None.
Proof.
  revert pos. induction s as [|d s IH]; intros pos H; simpl in *; [reflexivity|].
  apply orb_false_iff in H. destruct H as [-> H]. now apply IH.
Qed.

Lemma indexOf_from_app (c : ascii) (a b : string) (pos : nat) :
  contains c a = false ->
  JS.indexOf_from c (a ++ String c b) pos = Some (pos + String.length a).
Proof.
  revert pos. induction a as [|d a IH]; intros pos H; simpl in *.
  - rewrite Ascii.eqb_refl. f_equal. lia.
  - apply orb_false_iff in H. destruct H as [-> H]. rewrite (IH _ H). f_equal. lia.
Qed.

Lemma lastIndexOf_from_none (c : ascii) (s : string) (pos : nat) :
  contains c s = false -> JS.lastIndexOf_from c s pos = None.
Proof.
  revert pos. induction s as [|d s IH]; intros pos H; simpl in *; [reflexivity|].
  apply orb_false_iff in H. destruct H as [-> H]. now rewrite (IH _ H).
Qed.

Lemma lastIndexOf_from_app (c : ascii) (a b : string) (pos : nat) :
  contains c b = false ->
  JS.lastIndexOf_from c (a ++ String c b) pos = Some (pos + String.length a).
Proof.
  intros H. revert pos. induction a as [|d a IH]; intros pos; simpl.
  - rewrite (lastIndexOf_from_none _ _ _ H), Ascii.eqb_refl. f_equal. lia.
  - rewrite IH. f_equal. lia.
Qed.

(** The name of the file in a text without a query: what follows the last
    slash, or the whole text. *)
Definition baseName (path : string) : string :=
  match JS.lastIndexOf "/" path with
  | Some i => JS.drop (S i) path
  | None => path
  end.

(** [getFileName] on a path and a query. *)
Lemma getFileName_path (path rest : string) :
  contains "?" path = false ->
  (rest = EmptyString \/ exists query, rest = String "?" query) ->
  FileUtil.getFileName (path ++ rest) = baseName path.
Proof.
  intros Hq Hrest. unfold FileUtil.getFileName, JS.indexOf. simpl JS.drop.
  assert (Hend : match JS.indexOf_from "?" (path ++ rest) 0 with
                 | Some i => i
                 | None => String.length (path ++ rest)
                 end = String.length path).
  { destruct Hrest as [-> | [query ->]].
    - rewrite app_nil_r. now rewrite (indexOf_from_none _ _ _ Hq).
    - now rewrite (indexOf_from_app _ _ _ _ Hq). }
  rewrite Hend.
  assert (Hpre : JS.slice (path ++ rest) 0 (Z.of_nat (String.length path)) = path).
  { rewrite (slice_within _ 0) by (rewrite ?length_app; lia).
    rewrite drop_0. apply take_app_length. }
  rewrite Hpre. unfold baseName, JS.lastIndexOf.
  pose proof (lastIndexOf_from_spec "/" path 0) as Hs.
  destruct (JS.lastIndexOf_from "/" path 0) as [i|].
  - destruct Hs as (_ & Hi & _). rewrite Nat.sub_0_r in Hi.
    replace (Z.of_nat i + 1)%Z with (Z.of_nat (S i)) by lia.
    rewrite slice_within by (rewrite ?length_app; lia).
    now rewrite take_app_length.
  - change (-1 + 1)%Z with (Z.of_nat 0).
    rewrite slice_within by (rewrite ?length_app; lia).
    rewrite drop_0. apply take_app_length.
Qed.

(** A text is a path without a question mark, and what follows it. *)
Lemma path_and_query (url : string) :
  exists path rest,
    url = path ++ rest /\ contains "?" path = false
    /\ (rest = EmptyString \/ exists query, rest = String "?" query).
Proof.
  induction url as [|c url (path & rest & Hu & Hp & Hr)].
  - exists EmptyString, EmptyString. repeat split. now left.
  - destruct (Ascii.eqb c "?") eqn:E.
    + apply Ascii.eqb_eq in E. subst c.
      exists EmptyString, (String "?" url). repeat split. right. now exists url.
    + exists (String c path), rest. simpl. rewrite E, Hp, Hu. now repeat split.
Qed.

Lemma baseName_plain (path : string) :
  contains "?" path = false ->
  contains "/" (baseName path) = false /\ contains "?" (baseName path) = false.
Proof.
  intros Hq. unfold baseName, JS.lastIndexOf.
  pose proof (lastIndexOf_from_spec "/" path 0) as Hs.
  destruct (JS.lastIndexOf_from "/" path 0) as [i|].
  - destruct Hs as (_ & _ & Hs). rewrite Nat.sub_0_r in Hs.
    split; [exact Hs | now apply contains_drop].
  - now split.
Qed.

(** X15.  [getFileName] gives a name without a slash and without a question
    mark, whatever the text.  It gives what stands between the last slash
    and the query: the name of [dir/name] and of [dir/name?query], where
    the name has neither a slash nor a question mark and the directory no
    question mark, is [name], and a name on its own is returned as it
    is. *)
Theorem file_name_is_what_follows_the_last_slash :
  forall url : string,
    contains "/" (FileUtil.getFileName url) = false
    /\ contains "?" (FileUtil.getFileName url) = false
    /\ FileUtil.getFileName (FileUtil.getFileName url) = FileUtil.getFileName url
    /\ (forall dir name query : string,
          contains "/" name = false -> contains "?" name = false ->
          contains "?" dir = false ->
          FileUtil.getFileName name = name
          /\ FileUtil.getFileName (name ++ "?" ++ query) = name
          /\ FileUtil.getFileName (dir ++ "/" ++ name) = name
          /\ FileUtil.getFileName (dir ++ "/" ++ name ++ "?" ++ query) = name).
Proof.
  intros url.
  assert (Hname : forall name rest,
            contains "/" name = false -> contains "?" name = false ->
            (rest = EmptyString \/ exists query, rest = String "?" query) ->
            FileUtil.getFileName (name ++ rest) = name).
  { intros name rest Hs Hq Hr. rewrite (getFileName_path _ _ Hq Hr).
    unfold baseName, JS.lastIndexOf. now rewrite (lastIndexOf_from_none _ _ _ Hs). }
  assert (Hdir : forall dir name rest,
            contains "/" name = false -> contains "?" name = false ->
            contains "?" dir = false ->
            (rest = EmptyString \/ exists query, rest = String "?" query) ->
            FileUtil.getFileName ((dir ++ String "/" name) ++ rest) = name).
  { intros dir name rest Hs Hq Hd Hr. rewrite getFileName_path; [|now rewrite contains_app, Hd|exact Hr].
    unfold baseName, JS.lastIndexOf. rewrite (lastIndexOf_from_app _ _ _ _ Hs), Nat.add_0_l.
    replace (dir ++ String "/" name) with ((dir ++ String "/" EmptyString) ++ name)
      by (rewrite app_assoc; reflexivity).
    replace (S (String.length dir)) with (String.length (dir ++ String "/" EmptyString))
      by (rewrite length_app; simpl; lia).
    apply drop_app_length. }
  destruct (path_and_query url) as (path & rest & -> & Hp & Hr).
  rewrite (getFileName_path _ _ Hp Hr).
  destruct (baseName_plain path Hp) as [Hs Hq].
  split; [exact Hs|]. split; [exact Hq|]. split.
  { rewrite <- (app_nil_r (baseName path)) at 1.
    apply Hname; [assumption | assumption | now left]. }
  intros dir name query Hs' Hq' Hd. split; [|split; [|split]].
  - rewrite <- (app_nil_r name) at 1. apply Hname; [assumption | assumption | now left].
  - apply Hname; [assumption | assumption | right; now exists query].
  - rewrite <- (app_nil_r (dir ++ "/" ++ name)).
    apply (Hdir dir name EmptyString); [assumption | assumption | assumption | now left].
  - change (dir ++ "/" ++ name ++ "?" ++ query)
      with (dir ++ String "/" (name ++ String "?" query)).
    replace (dir ++ String "/" (name ++ String "?" query))
      with ((dir ++ String "/" name) ++ String "?" query)
      by (rewrite app_assoc; reflexivity).
    apply Hdir; [assumption | assumption | assumption | right; now exists query].
Qed.

(** *** The endings of a name *)

Lemma two_endings (f s t : string) (a b : nat) :
  a = String.length s -> b = String.length t -> b <= a ->
  JS.drop (String.length f - a) f = s ->
  JS.drop (String.length f - b) f = t ->
  JS.drop (a - b) s = t.
Proof.
  intros -> -> Hle Hs Ht.
  assert (Hlen : String.length s <= String.length f).
  { pose proof (f_equal String.length Hs) as H. rewrite length_drop in H. lia. }
  transitivity (JS.drop (String.length s - String.length t)
                  (JS.drop (String.length f - String.length s) f)); [now rewrite Hs|].
  rewrite drop_drop. etransitivity; [|exact Ht]. f_equal. lia.
Qed.

Ltac endings :=
  repeat match goal with
         | H : String.eqb _ _ = true |- _ => apply String.eqb_eq in H
         end;
  match goal with
  | H1 : JS.drop (String.length ?f - ?a) ?f = ?s,
    H2 : JS.drop (String.length ?f - ?b) ?f = ?t |- _ =>
      first [ discriminate (two_endings f s t a b eq_refl eq_refl ltac:(simpl; lia) H1 H2)
            | discriminate (two_endings f t s b a eq_refl eq_refl ltac:(simpl; lia) H2 H1) ]
  end.

(** X16.  The two checks of [createParserFor] exclude each other, so their order
    does not matter: a name gets the ULG decoder exactly when
    [isSServerLogFile] accepts it and the Replay decoder exactly when
    [isReplayFile] does.  [isSServerLogFile] does not look at its flag:
    the ending [.rcg.gz] is accepted also when gzipped files are not
    allowed, while [isReplayFile] refuses [.rpl3d.gz] then. *)
Theorem decoder_choice_follows_the_ending :
  forall (url : string) (a b : bool),
    FileUtil.isSServerLogFile url a = FileUtil.isSServerLogFile url b
    /\ FileUtil.isSServerLogFile url a && FileUtil.isReplayFile url b = false
    /\ (Loading.createParserFor url a = Some Loading.ULGParserClass
        <-> FileUtil.isSServerLogFile url a = true)
    /\ (Loading.createParserFor url a = Some Loading.ReplayParserClass
        <-> FileUtil.isReplayFile url a = true)
    /\ (Loading.createParserFor url a = None
        <-> FileUtil.isSServerLogFile url a = false /\ FileUtil.isReplayFile url a = false)
    /\ FileUtil.isSServerLogFile "game.rcg.gz" false = true
    /\ FileUtil.isReplayFile "game.rpl3d.gz" false = false.
Proof.
  intros url a b.
  assert (Hex : forall a b,
            FileUtil.isSServerLogFile url a && FileUtil.isReplayFile url b = false).
  { clear a b. intros a b.
    destruct (FileUtil.isSServerLogFile url a) eqn:Es; [|reflexivity].
    destruct (FileUtil.isReplayFile url b) eqn:Er; [|reflexivity].
    exfalso. unfold FileUtil.isSServerLogFile, FileUtil.isReplayFile in Es, Er.
    set (f := FileUtil.getFileName url) in *.
    cbv zeta in Es, Er.
    rewrite (slice_last f 4 ltac:(lia) : JS.slice_from f (-4) = _),
            (slice_last f 7 ltac:(lia) : JS.slice_from f (-7) = _) in Es.
    rewrite (slice_last f 6 ltac:(lia) : JS.slice_from f (-6) = _),
            (slice_last f 7 ltac:(lia) : JS.slice_from f (-7) = _),
            (slice_last f 9 ltac:(lia) : JS.slice_from f (-9) = _),
            (slice_last f 10 ltac:(lia) : JS.slice_from f (-10) = _) in Er.
    destruct (String.eqb (JS.drop (String.length f - 4) f) ".rcg") eqn:E4;
      destruct (String.eqb (JS.drop (String.length f - 7) f) ".rcg.gz") eqn:E7;
      try discriminate Es;
      destruct (String.eqb (JS.drop (String.length f - 6) f) ".rpl3d") eqn:R1;
      try endings;
      destruct (String.eqb (JS.drop (String.length f - 6) f) ".rpl2d") eqn:R2;
      try endings;
      destruct (String.eqb (JS.drop (String.length f - 7) f) ".replay") eqn:R3;
      try endings;
      destruct (String.eqb (JS.drop (String.length f - 9) f) ".rpl3d.gz") eqn:R4;
      try endings;
      destruct (String.eqb (JS.drop (String.length f - 9) f) ".rpl2d.gz") eqn:R5;
      try endings;
      destruct (String.eqb (JS.drop (String.length f - 10) f) ".replay.gz") eqn:R6;
      try endings;
      destruct b; simpl in Er; discriminate Er. }
  split; [reflexivity|]. split; [apply Hex|].
  specialize (Hex a a). unfold Loading.createParserFor.
  destruct (FileUtil.isSServerLogFile url a), (FileUtil.isReplayFile url a);
    try discriminate Hex;
    (split; [split; [reflexivity || discriminate | reflexivity || discriminate]|]);
    (split; [split; [reflexivity || discriminate | reflexivity || discriminate]|]);
    (split; [split; [try discriminate; now split | intros [? ?]; reflexivity || discriminate]|]);
    split; reflexivity.
Qed.

End FileProperties.

(* ===================================================================== *)
(** ** The symbol tree parser *)
(* ===================================================================== *)

Module SymbolTreeProperties.
Import SymbolTreeParser StringFacts FileProperties.
#[local] Open Scope string_scope.

(** The characters that end a value. *)
Definition special (c : ascii) : bool :=
  Ascii.eqb c "(" || Ascii.eqb c ")" || Ascii.eqb c " ".

Fixpoint plainValue (s : string) : bool :=
  match s with
  | EmptyString => true
  | String c s' => negb (special c) && plainValue s'
  end.

(** A value: not empty, and without a parenthesis or a blank. *)
Definition isToken (v : string) : bool :=
  negb (String.eqb v EmptyString) && plainValue v.

(** Every value of the tree is one. *)
Fixpoint tokens (n : SymbolNode) : bool :=
  match n with
  | Node vs ks => forallb isToken vs && forallb tokens ks
  end.

(** The number of nodes of a tree. *)
Fixpoint nodes (n : SymbolNode) : nat :=
  match n with
  | Node _ ks => S (list_sum (map nodes ks))
  end.

(** How often [c] occurs in [s]. *)
Fixpoint count (c : ascii) (s : string) : nat :=
  match s with
  | EmptyString => 0
  | String d s' => (if Ascii.eqb d c then 1 else 0) + count c s'
  end.

(** The characters of [input] from [a] up to [b]. *)
Definition sub (input : string) (a b : nat) : string := JS.drop a (JS.take b input).

Lemma plainValue_app (a b : string) :
  plainValue (a ++ b) = plainValue a && plainValue b.
Proof. induction a as [|c a IH]; simpl; [reflexivity|]. now rewrite IH, andb_assoc. Qed.

Lemma count_app (c : ascii) (a b : string) : count c (a ++ b) = count c a + count c b.
Proof. induction a as [|d a IH]; simpl; [reflexivity|]. rewrite IH. lia. Qed.

Lemma charAt_get (input : string) (idx : nat) :
  idx < String.length input ->
  exists c, String.get idx input = Some c /\ JS.charAt input idx = String c EmptyString.
Proof.
  revert idx. induction input as [|d input IH]; intros idx H; simpl in H; [lia|].
  destruct idx as [|idx].
  - exists d. now split.
  - destruct (IH idx ltac:(lia)) as (c & Hg & Hc). exists c. split; [exact Hg|].
    unfold JS.charAt in *. simpl. now rewrite Hg.
Qed.

Lemma take_S (input : string) (idx : nat) (c : ascii) :
  String.get idx input = Some c ->
  JS.take (S idx) input = JS.take idx input ++ String c EmptyString.
Proof.
  revert idx. induction input as [|d input IH]; intros idx H; [discriminate|].
  destruct idx as [|idx]; simpl in *.
  - now injection H as ->.
  - now rewrite <- (IH idx H).
Qed.

Lemma drop_app_within (n : nat) (a b : string) :
  n <= String.length a -> JS.drop n (a ++ b) = JS.drop n a ++ b.
Proof.
  revert a. induction n as [|n IH]; intros a H; [reflexivity|].
  destruct a as [|c a]; simpl in *; [lia|]. apply IH. lia.
Qed.

Lemma sub_step (input : string) (s idx : nat) (c : ascii) :
  s <= idx -> idx < String.length input -> String.get idx input = Some c ->
  sub input s (S idx) = sub input s idx ++ String c EmptyString.
Proof.
  intros Hs Hi Hg. unfold sub. rewrite (take_S _ _ _ Hg).
  apply drop_app_within. rewrite length_take. lia.
Qed.

Lemma sub_empty (input : string) (idx : nat) :
  idx <= String.length input -> sub input idx idx = EmptyString.
Proof.
  intros H. unfold sub.
  assert (Hl : String.length (JS.drop idx (JS.take idx input)) = 0)
    by (rewrite length_drop, length_take; lia).
  now destruct (JS.drop idx (JS.take idx input)).
Qed.

Lemma sub_app (input : string) (a b c : nat) :
  a <= b -> b <= c -> c <= String.length input ->
  sub input a c = sub input a b ++ sub input b c.
Proof.
  intros Hab Hbc Hc. unfold sub.
  rewrite <- (take_drop b (JS.take c input)) at 1.
  assert (Ht : JS.take b (JS.take c input) = JS.take b input).
  { clear Hab Hc. revert b input Hbc.
    induction c as [|c IH]; intros [|b] [|d input] H; simpl; try reflexivity; try lia.
    f_equal. apply IH. lia. }
  rewrite Ht. apply drop_app_within. rewrite length_take. lia.
Qed.

Lemma flush_tokens (input : string) (s idx : nat) (vals : list string) :
  s <= idx -> idx <= String.length input ->
  plainValue (sub input s idx) = true ->
  forallb isToken vals = true ->
  forallb isToken (flush input s idx vals) = true.
Proof.
  intros Hs Hi Hp Hv. unfold flush. destruct (s <? idx)%nat eqn:E; [|exact Hv].
  apply Nat.ltb_lt in E. rewrite forallb_app, Hv. simpl.
  rewrite (slice_within _ _ _ Hs Hi). fold (sub input s idx). rewrite andb_true_r.
  unfold isToken. rewrite Hp, andb_true_r.
  assert (Hl : String.length (sub input s idx) = idx - s)
    by (unfold sub; rewrite length_drop, length_take; lia).
  destruct (sub input s idx); [simpl in Hl; lia | reflexivity].
Qed.

Lemma tokens_app (kids : list SymbolNode) (k : SymbolNode) :
  forallb tokens kids = true -> tokens k = true -> forallb tokens (kids ++ [k])%list = true.
Proof. intros H1 H2. rewrite forallb_app, H1. simpl. now rewrite H2. Qed.

(** What [parseNode] returns, from a position where the pending text is a
    plain one. *)
Lemma parseNode_tokens (input : string) (fuel : nat) :
  forall (s idx : nat) (vals : list string) (kids : list SymbolNode)
         (pos : nat) (node : SymbolNode),
    s <= idx -> idx <= String.length input ->
    plainValue (sub input s idx) = true ->
    forallb isToken vals = true -> forallb tokens kids = true ->
    parseNode fuel input s idx vals kids = Ok pos node ->
    tokens node = true /\ idx < pos <= String.length input.
Proof.
  induction fuel as [|fuel IH]; intros s idx vals kids pos node Hs Hi Hp Hv Hk H;
    [discriminate|].
  simpl in H. destruct (idx <? String.length input)%nat eqn:El; [|discriminate].
  apply Nat.ltb_lt in El.
  destruct (charAt_get input idx El) as (c & Hg & Hc). rewrite Hc in H. simpl in H.
  pose proof (flush_tokens input s idx vals Hs Hi Hp Hv) as Hf.
  replace (idx + 1) with (S idx) in H by lia.
  destruct (Ascii.eqb c "(") eqn:E1.
  { destruct (parseNode fuel input (S idx) (S idx) [] []) as [p sub1| |] eqn:Esub;
      try discriminate.
    destruct (IH (S idx) (S idx) [] [] p sub1 (le_n _) El ltac:(now rewrite sub_empty)
                eq_refl eq_refl Esub)
      as [Ht [Hp1 Hp2]].
    destruct (IH _ _ _ _ _ _ (le_n _) Hp2 ltac:(now rewrite sub_empty) Hf
                (tokens_app _ _ Hk Ht) H) as [Hr [Hq1 Hq2]].
    split; [exact Hr | lia]. }
  destruct (Ascii.eqb c ")") eqn:E2.
  { injection H as <- <-. split; [|lia]. simpl. now rewrite Hf, Hk. }
  destruct (Ascii.eqb c " ") eqn:E3.
  { destruct (IH _ _ _ _ _ _ (le_n _) El ltac:(now rewrite sub_empty) Hf Hk H)
      as [Hr [Hq1 Hq2]].
    split; [exact Hr | lia]. }
  assert (Hp' : plainValue (sub input s (S idx)) = true).
  { rewrite (sub_step _ _ _ _ Hs El Hg), plainValue_app, Hp. simpl.
    unfold special. now rewrite E1, E2, E3. }
  destruct (IH s (S idx) vals kids pos node ltac:(lia) El Hp' Hv Hk H) as [Hr [Hq1 Hq2]].
  split; [exact Hr | lia].
Qed.

Lemma parseNode_pos (input : string) (fuel : nat) :
  forall (s idx : nat) (vals : list string) (kids : list SymbolNode)
         (pos : nat) (node : SymbolNode),
    parseNode fuel input s idx vals kids = Ok pos node ->
    idx < pos <= String.length input.
Proof.
  induction fuel as [|fuel IH]; intros s idx vals kids pos node H; [discriminate|].
  simpl in H. destruct (idx <? String.length input)%nat eqn:El; [|discriminate].
  apply Nat.ltb_lt in El.
  destruct (String.eqb (JS.charAt input idx) "(").
  { destruct (parseNode fuel input (idx + 1) (idx + 1) [] []) as [q n| |] eqn:E;
      try discriminate.
    apply IH in E. apply IH in H. lia. }
  destruct (String.eqb (JS.charAt input idx) ")"); [injection H as <- _; lia|].
  destruct (String.eqb (JS.charAt input idx) " "); apply IH in H; lia.
Qed.

(** The step budget of [parse] is enough: [parseNode] ends by returning
    or by throwing. *)
Lemma parseNode_budget (input : string) (fuel : nat) :
  forall (s idx : nat) (vals : list string) (kids : list SymbolNode),
    s <= idx -> idx <= String.length input ->
    String.length input - idx < fuel ->
    parseNode fuel input s idx vals kids <> OutOfFuel.
Proof.
  induction fuel as [|fuel IH]; intros s idx vals kids Hs Hi Hfuel; [lia|].
  simpl. destruct (idx <? String.length input)%nat eqn:El; [|discriminate].
  apply Nat.ltb_lt in El.
  destruct (charAt_get input idx El) as (c & Hg & Hc). rewrite Hc. simpl.
  replace (idx + 1) with (S idx) by lia.
  destruct (Ascii.eqb c "(").
  { destruct (parseNode fuel input (S idx) (S idx) [] []) as [p sub1| |] eqn:Esub.
    - pose proof (parseNode_pos _ _ _ _ _ _ _ _ Esub) as Hpos.
      apply IH; lia.
    - discriminate.
    - exfalso. revert Esub. apply IH; lia. }
  destruct (Ascii.eqb c ")"); [discriminate|].
  destruct (Ascii.eqb c " "); apply IH; lia.
Qed.

Lemma sub_one (input : string) (idx : nat) (c : ascii) :
  idx < String.length input -> String.get idx input = Some c ->
  sub input idx (S idx) = String c EmptyString.
Proof.
  intros Hi Hg. rewrite (sub_step _ _ _ _ (le_n _) Hi Hg), sub_empty by lia. reflexivity.
Qed.

(** The parentheses that [parseNode] reads: one pair for each node it
    adds below the node it works on, and the one that closes this node. *)
Lemma parseNode_counts (input : string) (fuel : nat) :
  forall (s idx : nat) (vals : list string) (kids : list SymbolNode)
         (pos : nat) (vs : list string) (ks : list SymbolNode),
    parseNode fuel input s idx vals kids = Ok pos (Node vs ks) ->
    exists added,
      ks = (kids ++ added)%list
      /\ count "(" (sub input idx pos) = list_sum (map nodes added)
      /\ count ")" (sub input idx pos) = S (list_sum (map nodes added)).
Proof.
  induction fuel as [|fuel IH]; intros s idx vals kids pos vs ks H; [discriminate|].
  pose proof (parseNode_pos _ _ _ _ _ _ _ _ H) as Hpos.
  simpl in H. destruct (idx <? String.length input)%nat eqn:El; [|discriminate].
  apply Nat.ltb_lt in El.
  destruct (charAt_get input idx El) as (c & Hg & Hc). rewrite Hc in H. simpl in H.
  replace (idx + 1) with (S idx) in H by lia.
  assert (Hsplit : forall p, S idx <= p -> p <= String.length input ->
                     sub input idx p = String c (sub input (S idx) p)).
  { intros p H1 H2. rewrite (sub_app input idx (S idx) p) by lia.
    now rewrite (sub_one _ _ _ El Hg). }
  destruct (Ascii.eqb c "(") eqn:E1.
  { apply Ascii.eqb_eq in E1. subst c.
    destruct (parseNode fuel input (S idx) (S idx) [] []) as [p [v1 k1]| |] eqn:Esub;
      try discriminate.
    pose proof (parseNode_pos _ _ _ _ _ _ _ _ Esub) as Hp1.
    pose proof (parseNode_pos _ _ _ _ _ _ _ _ H) as Hp2.
    destruct (IH _ _ _ _ _ _ _ Esub) as (a1 & Hk1 & Ho1 & Hc1).
    destruct (IH _ _ _ _ _ _ _ H) as (a2 & Hk2 & Ho2 & Hc2).
    simpl in Hk1. subst k1.
    exists (Node v1 a1 :: a2). split; [now rewrite Hk2, <- List.app_assoc|].
    rewrite (Hsplit pos) by lia. rewrite (sub_app input (S idx) p pos) by lia.
    simpl. rewrite !count_app, Ho1, Ho2, Hc1, Hc2. split; lia. }
  destruct (Ascii.eqb c ")") eqn:E2.
  { apply Ascii.eqb_eq in E2. subst c. injection H as <- _ <-.
    exists []. rewrite List.app_nil_r, (sub_one _ _ _ El Hg). now repeat split. }
  destruct (Ascii.eqb c " ") eqn:E3.
  { destruct (IH _ _ _ _ _ _ _ H) as (a & Hk & Ho & Hcl).
    pose proof (parseNode_pos _ _ _ _ _ _ _ _ H) as Hp2.
    exists a. split; [exact Hk|]. rewrite (Hsplit pos) by lia. simpl.
    now rewrite E1, E2, Ho, Hcl. }
  destruct (IH _ _ _ _ _ _ _ H) as (a & Hk & Ho & Hcl).
  pose proof (parseNode_pos _ _ _ _ _ _ _ _ H) as Hp2.
  exists a. split; [exact Hk|]. rewrite (Hsplit pos) by lia. simpl.
  now rewrite E1, E2, Ho, Hcl.
Qed.

(** X17.  A tree that [parse] returns has one node for each opening parenthesis
    of the input, and as many closing ones; each of its values is a piece
    of the input that is not empty and holds no parenthesis and no blank. *)
Theorem parsed_tree_matches_the_parentheses :
  forall (input : string) (tree : SymbolNode),
    parse input = Some tree ->
    tokens tree = true
    /\ count "(" input = nodes tree
    /\ count ")" input = nodes tree.
Proof.
  intros input tree H. unfold parse in H.
  destruct (negb (String.eqb (JS.charAt input 0) "(") || _) eqn:Eb; [discriminate|].
  apply orb_false_iff in Eb. destruct Eb as [Eb _].
  apply negb_false_iff, String.eqb_eq in Eb.
  destruct input as [|c rest]; [discriminate|].
  unfold JS.charAt in Eb. simpl in Eb. injection Eb as ->.
  destruct (parseNode (S (String.length (String "(" rest))) (String "(" rest) 1 1 [] [])
    as [pos [vs ks]| |] eqn:E; try discriminate.
  destruct (pos =? String.length (String "(" rest))%nat eqn:Ep; [|discriminate].
  apply Nat.eqb_eq in Ep. injection H as <-.
  split.
  - refine (proj1 (parseNode_tokens _ _ 1 1 [] [] pos _ (le_n _) _ _ eq_refl eq_refl E)).
    + simpl. lia.
    + rewrite sub_empty; [reflexivity | simpl; lia].
  - destruct (parseNode_counts _ _ _ _ _ _ _ _ _ E) as (added & Hk & Ho & Hc).
    simpl in Hk. subst ks pos.
    assert (Hrest : sub (String "(" rest) 1 (String.length (String "(" rest)) = rest).
    { unfold sub. rewrite take_all by lia. reflexivity. }
    rewrite Hrest in Ho, Hc. simpl. rewrite Ho, Hc. split; reflexivity.
Qed.

Lemma parsed_tree_matches_the_parentheses_witness :
  parse "(a (b c) (d))"
  = Some (Node ["a"] [Node ["b"; "c"] []; Node ["d"] []])
  /\ tokens (Node ["a"] [Node ["b"; "c"] []; Node ["d"] []]) = true
  /\ count "(" "(a (b c) (d))" = 3
  /\ count ")" "(a (b c) (d))" = 3.
Proof.
  split; [reflexivity|].
  exact (parsed_tree_matches_the_parentheses
           "(a (b c) (d))" (Node ["a"] [Node ["b"; "c"] []; Node ["d"] []]) eq_refl).
Defined.

End SymbolTreeProperties.

(* ===================================================================== *)
(** ** The loader after an error *)
(* ===================================================================== *)

Module LoaderErrorProperties.

Section Loader.
Variable parserParse : Body.Parser -> string -> bool -> bool -> Body.Parser * Body.ParseResult.
Variable decodeLine : SimulationLog.t -> string -> Body.State -> Body.State * bool.

(** A loader without its decoder stays as it is, but for the
    continuations that still run. *)
Lemma xhr_cleared (chunks : list (string * nat)) (last : string) :
  forall (received : string) (l : Loading.t),
    Loading.parser l = false ->
    let l' := Loading.xhr parserParse decodeLine received chunks last l in
    Loading.parser l' = false
    /\ Loading.error l' = Loading.error l
    /\ Loading.announced l' = Loading.announced l.
Proof.
  assert (Hskip : forall l data partial,
            Loading.parser l = false ->
            Loading.parse parserParse l data partial false = l).
  { intros l data partial H. unfold Loading.parse. rewrite H. now destruct data. }
  induction chunks as [|[chunk k] chunks IH]; intros received l Hp; simpl.
  - rewrite (Hskip _ _ _ Hp). now repeat split.
  - rewrite (Hskip _ _ _ Hp).
    destruct (IH (received ++ chunk)%string (Loading.runTurns decodeLine k l) Hp)
      as (H1 & H2 & H3).
    now repeat split.
Qed.

End Loader.

(** X10.  An error at the first progress event is final.  When the decoder
    throws on the first text that arrives, the loader dispatches the error
    with the message of the decoder, lets go of the decoder and calls it
    no more: whatever arrives later, it ends with that error and without
    having announced a log. *)
Theorem loader_gives_up_after_the_first_error :
  forall (parserParse : Body.Parser -> string -> bool -> bool
                        -> Body.Parser * Body.ParseResult)
         (decodeLine : SimulationLog.t -> string -> Body.State -> Body.State * bool)
         (chunk : string) (turns : nat) (chunks : list (string * nat)) (last : string)
         (message : string),
    chunk <> EmptyString ->
    snd (parserParse Body.newParser chunk true false) = Body.ParserError message ->
    let l := Loading.xhr parserParse decodeLine EmptyString ((chunk, turns) :: chunks) last
                         Loading.created in
    Loading.parser l = false
    /\ Loading.error l = Some ("ParserError: " ++ message)%string
    /\ Loading.announced l = false.
Proof.
  intros parserParse decodeLine chunk turns chunks last message Hne Hres. cbv zeta. simpl.
  destruct (xhr_cleared parserParse decodeLine chunks last chunk
              (Loading.runTurns decodeLine turns
                 (Loading.parse parserParse Loading.created chunk true false)))
    as (H1 & H2 & H3).
  - unfold Loading.parse. destruct chunk; [congruence|]. simpl.
    destruct (parserParse Body.newParser (String a chunk) true false) as [p r].
    simpl in Hres. now subst r.
  - split; [exact H1|]. rewrite H2, H3.
    unfold Loading.parse. destruct chunk; [congruence|]. simpl.
    destruct (parserParse Body.newParser (String a chunk) true false) as [p r].
    simpl in Hres. subst r. now split.
Qed.

(** The sample ULG log cut inside its header line: the loader ends with
    the error of the header check, while the whole text has a header. *)
Lemma loader_gives_up_after_the_first_error_witness :
  let l := Loading.loadULG Samples.host Samples.util
             (fst (Samples.cut 2 Samples.twoShowsULG))
             (snd (Samples.cut 2 Samples.twoShowsULG)) in
  Loading.parser l = false
  /\ Loading.error l
     = Some "ParserError: Failed parsing ULG log file - no ULG header found!"%string
  /\ Loading.announced l = false.
Proof.
  refine (loader_gives_up_after_the_first_error
            (ULGParser.parse Samples.host Samples.util)
            (ULGParser.decodeLine Samples.host Samples.util)
            (JS.take 2 Samples.twoShowsULG) 1 [] (JS.drop 2 Samples.twoShowsULG)
            "Failed parsing ULG log file - no ULG header found!" _ _).
  - vm_compute. discriminate.
  - vm_compute. reflexivity.
Defined.

End LoaderErrorProperties.
